(** * Plasocket minigame plugins: instance lifecycle and scoped broadcast

    A shallow embedding of the session orchestration that the plugins
    [Zombies.py], [FreeForAll.py] and [Squid_Game.py] share: the
    run-length encoder for tile maps, the broadcast override that scopes
    every server broadcast, and the life cycle of a [GameInstance]
    (join, countdown, teardown) together with the module-level
    dictionaries [active_games] and [player_to_game].

    The first part holds the definitions, one module per source file;
    the second part holds the lemmas and theorems. *)

From Stdlib Require Import ZArith String Ascii DecimalString DecimalZ DecimalPos.
From Stdlib Require Import FunctionalExtensionality Eqdep.
From stdpp Require Import gmap strings list.

(** ** Python primitives used by the plugins *)

Module Py.

(** [str(n)] for an integer. *)
Definition str (z : Z) : string := NilZero.string_of_int (Z.to_int z).

(** The inverse reading of a decimal numeral, as [int(s)] on the output
    of [str]. *)
Definition int (s : string) : option Z :=
  Z.of_int <$> NilZero.int_of_string s.

(** [s.split(sep)] for a one-character separator. *)
Fixpoint split (sep : ascii) (s : string) : list string :=
  match s with
  | EmptyString => [EmptyString]
  | String c rest =>
      if Ascii.eqb c sep then EmptyString :: split sep rest
      else match split sep rest with
           | [] => [String c EmptyString]
           | p :: ps => String c p :: ps
           end
  end.

(** [sep.join(parts)]. *)
Definition join (sep : string) (parts : list string) : string :=
  String.concat sep parts.

(** [c in s] for a character. *)
Fixpoint contains (c : ascii) (s : string) : bool :=
  match s with
  | EmptyString => false
  | String a rest => Ascii.eqb a c || contains c rest
  end.

(** [s.startswith(p)] and [s.endswith(p)]. *)
Definition startswith (p s : string) : bool := String.prefix p s.

Definition endswith (p s : string) : bool :=
  String.prefix (String.rev p) (String.rev s).

(** [needle in haystack] for strings. *)
Fixpoint substring_in (needle haystack : string) : bool :=
  String.prefix needle haystack ||
  match haystack with
  | EmptyString => false
  | String _ rest => substring_in needle rest
  end.

(** A decimal digit. *)
Definition is_digit (c : ascii) : bool :=
  bool_decide (c ∈ ["0";"1";"2";"3";"4";"5";"6";"7";"8";"9"]%char).

(** A loop whose body may raise: the first failure aborts the loop. *)
Definition for_each {A B} (f : B → A → option B) (l : list A) (b : B)
  : option B :=
  foldl (λ ob a, ob ≫= λ acc, f acc a) (Some b) l.

(** The position that the index [i] names in a list of length [n]: a
    negative index counts from the end, and an index out of range
    raises [IndexError]. *)
Definition index (n : nat) (i : Z) : option nat :=
  if bool_decide (0 ≤ i < Z.of_nat n)%Z then Some (Z.to_nat i)
  else if bool_decide (- Z.of_nat n ≤ i < 0)%Z
       then Some (Z.to_nat (Z.of_nat n + i))
       else None.

(** [l[i]] *)
Definition getitem {A} (l : list A) (i : Z) : option A :=
  k ← index (length l) i; l !! k.

(** [l[i] = v] *)
Definition setitem {A} (l : list A) (i : Z) (v : A) : option (list A) :=
  k ← index (length l) i; Some (<[k := v]> l).

(** [range(a, b)] *)
Definition range (a b : Z) : list Z :=
  (λ k, a + Z.of_nat k)%Z <$> seq 0 (Z.to_nat (b - a)).

End Py.

(** ** Coroutines on one event loop

    The plugins run as [asyncio] coroutines: code between two [await]s
    runs without interruption, a coroutine parked at an [await] lets any
    other task run, and [task.cancel()] makes the next resumption of the
    task raise [CancelledError] at the [await] it is parked at.  A
    coroutine is a term of [Prog]; [advance] runs it up to its next
    [await]; the tasks of the loop live in the [pool] of a [World]. *)

Module Async.

(** [CancelledError] derives from [BaseException]: a clause
    [except Exception] does not catch it. *)
Inductive exn := CancelledError | Exception (what : string).

(** What a parked coroutine waits for. *)
Inductive await_kind := not_started | sleep | gather | send | executor.

Section Prog.
Context {G : Type}.

Inductive Prog (A : Type) : Type :=
| Ret (a : A)
| Raise (e : exn)
| Get (k : G → Prog A)
| Put (g : G) (k : Prog A)
| Await (why : await_kind) (k : Prog A)
| CreateTask (coro : Prog unit) (k : nat → Prog A)
| Cancel (task : nat) (k : Prog A)
| IsDone (task : nat) (k : bool → Prog A)
| Until (ready : G → bool) (tasks : list nat) (k : Prog A)
| Try {B : Type} (body : Prog B) (catches : exn → bool)
      (handler : exn → Prog B) (k : B → Prog A).

Global Arguments Ret {_} _.
Global Arguments Raise {_} _.
Global Arguments Get {_} _.
Global Arguments Put {_} _ _.
Global Arguments Await {_} _ _.
Global Arguments CreateTask {_} _ _.
Global Arguments Cancel {_} _ _.
Global Arguments IsDone {_} _ _.
Global Arguments Until {_} _ _ _.
Global Arguments Try {_ _} _ _ _ _.

Fixpoint bind {A B} (m : Prog A) (f : A → Prog B) : Prog B :=
  match m with
  | Ret a => f a
  | Raise e => Raise e
  | Get k => Get (λ g, bind (k g) f)
  | Put g k => Put g (bind k f)
  | Await why k => Await why (bind k f)
  | CreateTask coro k => CreateTask coro (λ t, bind (k t) f)
  | Cancel t k => Cancel t (bind k f)
  | IsDone t k => IsDone t (λ b, bind (k b) f)
  | Until ready ts k => Until ready ts (bind k f)
  | Try body catches handler k =>
      Try body catches handler (λ b, bind (k b) f)
  end.

(** The event loop: the plugin's globals, the tasks that are not
    done, each parked at an [await], and the tasks whose cancellation
    was requested and not yet delivered. *)
Record World := MkWorld {
  globals : G;
  pool : gmap nat (Prog unit);
  next_task : nat;
  must_cancel : gset nat
}.

Inductive status (A : Type) :=
| Finished (a : A)
| Failed (e : exn)
| Parked (p : Prog A).
Global Arguments Finished {_} _.
Global Arguments Failed {_} _.
Global Arguments Parked {_} _.

(** The loop [w] with [g] for its globals. *)
Definition with_globals (g : G) (w : World) : World :=
  MkWorld g (pool w) (next_task w) (must_cancel w).

(** The loop before any task was created. *)
Definition idle (g : G) : World := MkWorld g ∅ 0 ∅.

Definition request_cancel (t : nat) (w : World) : World :=
  if pool w !! t is Some _
  then MkWorld (globals w) (pool w) (next_task w) ({[t]} ∪ must_cancel w)
  else w.

Definition add_task (coro : Prog unit) (w : World) : World :=
  MkWorld (globals w)
    (<[next_task w := Await not_started coro]> (pool w))
    (S (next_task w)) (must_cancel w).

(** [task.done()] for every task of [ts]. *)
Definition all_done (ts : list nat) (w : World) : bool :=
  forallb (λ t, bool_decide (pool w !! t = None)) ts.

(** Run a coroutine up to its next [await].  [Until ready ts k] goes on
    when [ready] holds of the globals and the tasks [ts] are done, and
    waits otherwise. *)
Fixpoint advance {A} (p : Prog A) (w : World) : World * status A :=
  match p with
  | Ret a => (w, Finished a)
  | Raise e => (w, Failed e)
  | Get k => advance (k (globals w)) w
  | Put g k => advance k (with_globals g w)
  | Await why k => (w, Parked (Await why k))
  | CreateTask coro k => advance (k (next_task w)) (add_task coro w)
  | Cancel t k => advance k (request_cancel t w)
  | IsDone t k => advance (k (bool_decide (pool w !! t = None))) w
  | Until ready ts k =>
      if ready (globals w) && all_done ts w then advance k w
      else (w, Parked (Until ready ts k))
  | Try body catches handler k =>
      match advance body w with
      | (w', Finished b) => advance (k b) w'
      | (w', Failed e) =>
          if catches e then
            match advance (handler e) w' with
            | (w'', Finished b) => advance (k b) w''
            | (w'', Failed e') => (w'', Failed e')
            | (w'', Parked h') => (w'', Parked (bind h' k))
            end
          else (w', Failed e)
      | (w', Parked body') => (w', Parked (Try body' catches handler k))
      end
  end.

(** What [m ≫= f] does once [m] has run up to its next [await]. *)
Definition and_then {A B} (f : A → Prog B) (r : World * status A)
  : World * status B :=
  match r.2 with
  | Finished a => advance (f a) r.1
  | Failed e => (r.1, Failed e)
  | Parked p => (r.1, Parked (bind p f))
  end.

(** What [Try body catches handler k] does once [body] has run up to
    its next [await]. *)
Definition attempt {A B} (catches : exn → bool) (handler : exn → Prog B)
    (k : B → Prog A) (r : World * status B) : World * status A :=
  match r with
  | (w', Finished b) => advance (k b) w'
  | (w', Failed e) =>
      if catches e then and_then k (advance (handler e) w')
      else (w', Failed e)
  | (w', Parked body') => (w', Parked (Try body' catches handler k))
  end.

(** The rest of a parked coroutine, after the [await] it is parked
    at. *)
Fixpoint strip {A} (p : Prog A) : Prog A :=
  match p with
  | Await _ k => k
  | Try body catches handler k => Try (strip body) catches handler k
  | _ => p
  end.

(** Raise [e] in a parked coroutine at the [await] it is parked at. *)
Fixpoint throw {A} (e : exn) (p : Prog A) (w : World)
  : World * status A :=
  match p with
  | Try body catches handler k =>
      match throw e body w with
      | (w', Finished b) => advance (k b) w'
      | (w', Failed e') =>
          if catches e' then
            match advance (handler e') w' with
            | (w'', Finished b) => advance (k b) w''
            | (w'', Failed e'') => (w'', Failed e'')
            | (w'', Parked h') => (w'', Parked (bind h' k))
            end
          else (w', Failed e')
      | (w', Parked body') => (w', Parked (Try body' catches handler k))
      end
  | _ => (w, Failed e)
  end.

Definition resume {A} (p : Prog A) (w : World) : World * status A :=
  advance (strip p) w.

(** One turn of the event loop for task [t]: the task is resumed, or
    [CancelledError] is raised in it when its cancellation was
    requested; a task that returns or fails leaves the pool. *)
Definition settle (t : nat) (r : World * status unit) : World :=
  match r.2 with
  | Parked p' =>
      MkWorld (globals r.1) (<[t := p']> (pool r.1)) (next_task r.1)
        (must_cancel r.1)
  | _ =>
      MkWorld (globals r.1) (delete t (pool r.1)) (next_task r.1)
        (must_cancel r.1 ∖ {[t]})
  end.

Definition turn (t : nat) (w : World) : World :=
  match pool w !! t with
  | None => w
  | Some p =>
      let w0 := MkWorld (globals w) (pool w) (next_task w)
                  (must_cancel w ∖ {[t]}) in
      settle t (if bool_decide (t ∈ must_cancel w)
                then throw CancelledError p w0
                else resume p w0)
  end.

(** What happens on the loop: the server calls a hook of the plugin,
    which becomes a task, or the loop gives a task its turn. *)
Inductive event :=
| Call (hook : Prog unit)
| Turn (t : nat).

Definition occur (w : World) (e : event) : World :=
  match e with
  | Call hook => add_task hook w
  | Turn t => turn t w
  end.

Definition exec (es : list event) (w : World) : World :=
  foldl occur w es.

(** A coroutine run on its own until it returns, with at most [fuel]
    resumptions. *)
Fixpoint finish {A} (fuel : nat) (r : World * status A)
  : World * status A :=
  match r.2, fuel with
  | Parked p, S fuel' => finish fuel' (resume p r.1)
  | _, _ => r
  end.

Definition run_alone {A} (fuel : nat) (p : Prog A) (w : World)
  : World * status A :=
  finish fuel (advance p w).

(** [reaches r r']: resumed whenever it waits and never cancelled, the
    coroutine in the state [r] comes to the state [r']. *)
Inductive reaches {A} : World * status A → World * status A → Prop :=
| reaches_here r : reaches r r
| reaches_resume w p r : reaches (resume p w) r → reaches (w, Parked p) r.

(** What a parked coroutine waits for. *)
Fixpoint waits_for {A} (p : Prog A) : option await_kind :=
  match p with
  | Await why _ => Some why
  | Try body _ _ _ => waits_for body
  | _ => None
  end.

(** Whether a parked coroutine waits in [asyncio.sleep]. *)
Definition naps_at {A} (p : Prog A) : nat :=
  if waits_for p is Some sleep then 1 else 0.

(** [sleeps r n w' a]: resumed whenever it waits and never cancelled,
    the coroutine in the state [r] returns [a] in [w'], and [n] of the
    [await]s it went through were calls of [asyncio.sleep]. *)
Inductive sleeps {A} : World * status A → nat → World → A → Prop :=
| sleeps_finished w a : sleeps (w, Finished a) 0 w a
| sleeps_parked w p n w' a :
    sleeps (resume p w) n w' a → sleeps (w, Parked p) (naps_at p + n) w' a.

(** How a coroutine ends. *)
Inductive result (A : Type) :=
| Returned (a : A)
| Raised (e : exn).
Global Arguments Returned {_} _.
Global Arguments Raised {_} _.

(** [terminates r w' res]: from the state [r] of a coroutine, resumed
    whenever it waits and never cancelled, the coroutine ends with [res]
    and leaves the loop in [w']. *)
Inductive terminates {A} : World * status A → World → result A → Prop :=
| terminates_finished w a : terminates (w, Finished a) w (Returned a)
| terminates_failed w e : terminates (w, Failed e) w (Raised e)
| terminates_parked w p w' res :
    terminates (resume p w) w' res → terminates (w, Parked p) w' res.

(** The coroutine [p], started in [w] and run on its own, returns [a] in
    [w']. *)
Definition runs {A} (p : Prog A) (w w' : World) (a : A) : Prop :=
  terminates (advance p w) w' (Returned a).

(** [residual p q]: [q] is what is left of the coroutine [p] at one of
    the [await]s it can be parked at, whatever the other tasks did in
    between. *)
Inductive residual {A} (p : Prog A) : Prog A → Prop :=
| residual_first w w' q : advance p w = (w', Parked q) → residual p q
| residual_next q w w' q' :
    residual p q → resume q w = (w', Parked q') → residual p q'.

(** No [try] of the coroutine catches [CancelledError]. *)
Inductive passes : ∀ {A}, Prog A → Prop :=
| passes_Ret {A} (a : A) : passes (Ret a)
| passes_Raise {A} e : passes (@Raise A e)
| passes_Get {A} (k : G → Prog A) : (∀ g, passes (k g)) → passes (Get k)
| passes_Put {A} g (k : Prog A) : passes k → passes (Put g k)
| passes_Await {A} why (k : Prog A) : passes k → passes (Await why k)
| passes_CreateTask {A} coro (k : nat → Prog A) :
    (∀ t, passes (k t)) → passes (CreateTask coro k)
| passes_Cancel {A} t (k : Prog A) : passes k → passes (Cancel t k)
| passes_IsDone {A} t (k : bool → Prog A) :
    (∀ b, passes (k b)) → passes (IsDone t k)
| passes_Until {A} ready ts (k : Prog A) : passes k → passes (Until ready ts k)
| passes_Try {A B} (body : Prog B) catches handler (k : B → Prog A) :
    passes body → catches CancelledError = false →
    (∀ e, passes (handler e)) → (∀ b, passes (k b)) →
    passes (Try body catches handler k).

(** A coroutine that returns when it is run on its own: it raises
    nothing and waits for nothing but its [await]s. *)
Inductive sure : ∀ {A}, Prog A → Prop :=
| sure_Ret {A} (a : A) : sure (Ret a)
| sure_Get {A} (k : G → Prog A) : (∀ g, sure (k g)) → sure (Get k)
| sure_Put {A} g (k : Prog A) : sure k → sure (Put g k)
| sure_Await {A} why (k : Prog A) : sure k → sure (Await why k)
| sure_CreateTask {A} coro (k : nat → Prog A) :
    (∀ t, sure (k t)) → sure (CreateTask coro k)
| sure_Cancel {A} t (k : Prog A) : sure k → sure (Cancel t k)
| sure_IsDone {A} t (k : bool → Prog A) :
    (∀ b, sure (k b)) → sure (IsDone t k)
| sure_Try {A B} (body : Prog B) catches handler (k : B → Prog A) :
    sure body → (∀ b, sure (k b)) → sure (Try body catches handler k).

(** The shape of a coroutine that waits. *)
Inductive waiting : ∀ {A}, Prog A → Prop :=
| waiting_Await {A} why (k : Prog A) : waiting (Await why k)
| waiting_Until {A} ready ts (k : Prog A) : waiting (Until ready ts k)
| waiting_Try {A B} (body : Prog B) catches handler (k : B → Prog A) :
    waiting body → waiting (Try body catches handler k).

(** A coroutine that returns when it is run on its own and never calls
    [asyncio.sleep]. *)
Inductive awake : ∀ {A}, Prog A → Prop :=
| awake_Ret {A} (a : A) : awake (Ret a)
| awake_Get {A} (k : G → Prog A) : (∀ g, awake (k g)) → awake (Get k)
| awake_Put {A} g (k : Prog A) : awake k → awake (Put g k)
| awake_Await {A} why (k : Prog A) :
    why ≠ sleep → awake k → awake (Await why k)
| awake_CreateTask {A} coro (k : nat → Prog A) :
    (∀ t, awake (k t)) → awake (CreateTask coro k)
| awake_Cancel {A} t (k : Prog A) : awake k → awake (Cancel t k)
| awake_IsDone {A} t (k : bool → Prog A) :
    (∀ b, awake (k b)) → awake (IsDone t k)
| awake_Try {A B} (body : Prog B) catches handler (k : B → Prog A) :
    awake body → (∀ b, awake (k b)) → awake (Try body catches handler k).

(** A state whose coroutine, when it waits, has the shape of one that
    waits. *)
Definition well_parked {A} (r : World * status A) : Prop :=
  if r.2 is Parked p then waiting p else True.

(** [after p w Q]: the coroutine [p], started in [w] and run on its
    own, returns, and [Q] holds of the loop it leaves and of its value. *)
Definition after {A} (p : Prog A) (w : World) (Q : World → A → Prop) : Prop :=
  ∃ w' a, runs p w w' a ∧ Q w' a.

(** [keeps P p]: started where [P] holds of the globals, [p] writes only
    globals of which [P] holds. *)
Inductive keeps (P : G → Prop) : ∀ {A}, Prog A → Prop :=
| keeps_Ret {A} (a : A) : keeps P (Ret a)
| keeps_Raise {A} e : keeps P (@Raise A e)
| keeps_Get {A} (k : G → Prog A) : (∀ g, P g → keeps P (k g)) → keeps P (Get k)
| keeps_Put {A} g (k : Prog A) : P g → keeps P k → keeps P (Put g k)
| keeps_Await {A} why (k : Prog A) : keeps P k → keeps P (Await why k)
| keeps_CreateTask {A} coro (k : nat → Prog A) :
    (∀ t, keeps P (k t)) → keeps P (CreateTask coro k)
| keeps_Cancel {A} t (k : Prog A) : keeps P k → keeps P (Cancel t k)
| keeps_IsDone {A} t (k : bool → Prog A) :
    (∀ b, keeps P (k b)) → keeps P (IsDone t k)
| keeps_Until {A} ready ts (k : Prog A) :
    keeps P k → keeps P (Until ready ts k)
| keeps_Try {A B} (body : Prog B) catches handler (k : B → Prog A) :
    keeps P body → (∀ e, keeps P (handler e)) → (∀ b, keeps P (k b)) →
    keeps P (Try body catches handler k).

(** A coroutine that creates no task. *)
Inductive childless : ∀ {A}, Prog A → Prop :=
| childless_Ret {A} (a : A) : childless (Ret a)
| childless_Raise {A} e : childless (@Raise A e)
| childless_Get {A} (k : G → Prog A) :
    (∀ g, childless (k g)) → childless (Get k)
| childless_Put {A} g (k : Prog A) : childless k → childless (Put g k)
| childless_Await {A} why (k : Prog A) : childless k → childless (Await why k)
| childless_Cancel {A} t (k : Prog A) : childless k → childless (Cancel t k)
| childless_IsDone {A} t (k : bool → Prog A) :
    (∀ b, childless (k b)) → childless (IsDone t k)
| childless_Until {A} ready ts (k : Prog A) :
    childless k → childless (Until ready ts k)
| childless_Try {A B} (body : Prog B) catches handler (k : B → Prog A) :
    childless body → (∀ e, childless (handler e)) → (∀ b, childless (k b)) →
    childless (Try body catches handler k).

(** The loops [w] and [w'] hold the same tasks: what a coroutine that
    creates no task leaves of the tasks of the loop. *)
Definition same_tasks (w w' : World) : Prop :=
  pool w' = pool w ∧ next_task w' = next_task w.

(** [naps r n r']: resumed whenever it waits and never cancelled, the
    coroutine in the state [r] comes to the state [r'], and [n] of the
    [await]s it went through on the way were calls of
    [asyncio.sleep]. *)
Inductive naps {A} : World * status A → nat → World * status A → Prop :=
| naps_here r : naps r 0 r
| naps_resume w p n r :
    naps (resume p w) n r → naps (w, Parked p) (naps_at p + n) r.

(** A coroutine that raises no [CancelledError] of its own: what it
    raises is of the class [Exception].  The coroutines of the tasks
    that it creates do not count. *)
Inductive calm : ∀ {A}, Prog A → Prop :=
| calm_Ret {A} (a : A) : calm (Ret a)
| calm_Raise {A} what : calm (@Raise A (Exception what))
| calm_Get {A} (k : G → Prog A) : (∀ g, calm (k g)) → calm (Get k)
| calm_Put {A} g (k : Prog A) : calm k → calm (Put g k)
| calm_Await {A} why (k : Prog A) : calm k → calm (Await why k)
| calm_CreateTask {A} coro (k : nat → Prog A) :
    (∀ t, calm (k t)) → calm (CreateTask coro k)
| calm_Cancel {A} t (k : Prog A) : calm k → calm (Cancel t k)
| calm_IsDone {A} t (k : bool → Prog A) :
    (∀ b, calm (k b)) → calm (IsDone t k)
| calm_Until {A} ready ts (k : Prog A) : calm k → calm (Until ready ts k)
| calm_Try {A B} (body : Prog B) catches handler (k : B → Prog A) :
    calm body → (∀ what, calm (handler (Exception what))) →
    (∀ b, calm (k b)) → calm (Try body catches handler k).

(** Statements of the language of coroutines. *)
Definition get : Prog G := Get Ret.
Definition modify (f : G → G) : Prog unit := Get (λ g, Put (f g) (Ret ())).
Definition await (why : await_kind) : Prog unit := Await why (Ret ()).
Definition create_task (coro : Prog unit) : Prog nat := CreateTask coro Ret.
Definition cancel (t : nat) : Prog unit := Cancel t (Ret ()).
Definition is_done (t : nat) : Prog bool := IsDone t Ret.
Definition until (ready : G → bool) (ts : list nat) : Prog unit :=
  Until ready ts (Ret ()).

Global Instance prog_ret : MRet Prog := λ A a, Ret a.
Global Instance prog_bind : MBind Prog := λ A B f m, bind m f.

(** [for x in l: body(x)] *)
Fixpoint for_ {X} (l : list X) (body : X → Prog unit) : Prog unit :=
  match l with
  | [] => Ret ()
  | x :: l' => body x ;; for_ l' body
  end.

(** [try: body except Exception as e: handler(e)] *)
Definition try_except_Exception {A} (body : Prog A)
    (handler : string → Prog A) : Prog A :=
  Try body (λ e, if e is Exception _ then true else false)
    (λ e, if e is Exception what then handler what else Raise e) Ret.

(** [try: body except asyncio.CancelledError: handler] *)
Definition try_except_CancelledError {A} (body handler : Prog A)
  : Prog A :=
  Try body (λ e, if e is CancelledError then true else false)
    (λ _, handler) Ret.

End Prog.

Global Arguments Prog : clear implicits.
Global Arguments World : clear implicits.
Global Arguments event : clear implicits.

End Async.

(** ** The server seen from a plugin

    Connections, the resolution of user names, and the frames that go
    out.  The text of a world and the bytes of a picture are not
    modelled: a [WORLD_DATA] frame names the world it carries and a
    [SHOW_IMAGE] frame the text that the picture shows. *)

Module Server.

Definition websocket := nat.

Record ServerApi := {
  get_connected_clients : list websocket;
  get_username_from_websocket : websocket → option string;
  get_websocket_from_username : string → option websocket
}.

Inductive frame :=
| Raw (text : string)
| SHOW_IMAGE (shown : string)
| WORLD_DATA (world : string).

Global Instance frame_eq_dec : EqDecision frame.
Proof. solve_decision. Defined.

(** A table of connections, for examples: [(ws, name)] is a connection
    [ws] registered under [name]. *)
Definition api_of_table (table : list (websocket * option string))
  : ServerApi := {|
  get_connected_clients := table.*1;
  get_username_from_websocket ws :=
    r ← list_find (λ c, c.1 = ws) table; r.2.2;
  get_websocket_from_username name :=
    r ← list_find (λ c, c.2 = Some name) table; Some r.2.1
|}.

End Server.

(** ** Run-length encoding of a tile map *)

Module Rle.

(** The three loop variables of [rle_encode]. *)
Record acc := Acc {
  parts : list string;
  current_id : option Z;
  count : nat
}.

Definition init : acc := Acc [] None 0.

(** [f"{count}x{current_id}" if count > 1 else str(current_id)] *)
Definition part (n : nat) (v : Z) : string :=
  if decide (1 < n)
  then Py.str (Z.of_nat n) +:+ "x" +:+ Py.str v
  else Py.str v.

(** One pass through the loop body for the cell [block_id]. *)
Definition visit (a : acc) (block_id : Z) : acc :=
  match current_id a with
  | None => Acc (parts a) (Some block_id) 1
  | Some cur =>
      if decide (block_id = cur)
      then Acc (parts a) (Some cur) (S (count a))
      else Acc (parts a ++ [part (count a) cur]) (Some block_id) 1
  end.

(** The statement after the loops: the pending run is appended. *)
Definition flush (a : acc) : list string :=
  match current_id a with
  | None => parts a
  | Some cur => parts a ++ [part (count a) cur]
  end.

Definition finish (a : acc) : string := Py.join "," (flush a).

(** The encoder applied to a flat sequence of cells. *)
Definition encode_cells (cells : list Z) : string :=
  finish (foldl visit init cells).

(** *** The decoder on the client side

    The plugins only encode; the decoder below is the reading of the
    format that the encoder's output is meant for: runs separated by
    commas, a run being either [NxV] or a bare [V]. *)

Definition parse_run (p : string) : option (nat * Z) :=
  match Py.split "x" p with
  | [v] => z ← Py.int v; Some (1, z)
  | [n; v] => k ← Py.int n; z ← Py.int v; Some (Z.to_nat k, z)
  | _ => None
  end.

Definition parse_runs (s : string) : option (list (nat * Z)) :=
  mapM parse_run (Py.split "," s).

Definition expand (runs : list (nat * Z)) : list Z :=
  concat ((λ r, replicate r.1 r.2) <$> runs).

Definition rle_decode (s : string) : option (list Z) :=
  expand <$> parse_runs s.

(** *** What the loop variables stand for *)

(** The run that the loop is counting. *)
Definition pending (a : acc) : list Z :=
  match current_id a with
  | None => []
  | Some cur => replicate (count a) cur
  end.

Definition part_of (r : nat * Z) : string := part r.1 r.2.

(** What the loop has seen so far is what its variables stand for. *)
Definition represents (a : acc) (cells : list Z) : Prop :=
  ∃ runs, parts a = part_of <$> runs
        ∧ Forall (λ r, 1 ≤ r.1) runs
        ∧ expand runs ++ pending a = cells
        ∧ match current_id a with
          | None => cells = []
          | Some _ => 1 ≤ count a
          end.

End Rle.

Module Zombies.
Import Async Server.

(** [grid[y][x]]; an index out of range raises [IndexError]. *)
Definition cell (grid : list (list Z)) (y x : nat) : option Z :=
  grid !! y ≫= λ row, row !! x.

(** [rle_encode(grid, width, height)], Zombies.py lines 658-669. *)
Definition rle_encode (grid : list (list Z)) (width height : nat)
  : option string :=
  Rle.finish <$>
    Py.for_each (λ a y,
      Py.for_each (λ a x, Rle.visit a <$> cell grid y x) (seq 0 width) a)
      (seq 0 height) Rle.init.

(** *** Configuration and state *)

(** The keys of [config] that the orchestration reads. *)
Record Config := {
  min_players : Z;
  max_players : Z;
  countdown_normal : Z;
  countdown_full : Z
}.

Definition DEFAULT_CONFIG : Config := {|
  min_players := 2; max_players := 8;
  countdown_normal := 40; countdown_full := 10
|}.

(** The attributes of a [GameInstance] that the orchestration uses; the
    zombies, the core and the world cache are left out. *)
Record GameInstance := {
  game_id : nat;
  game_state : string;
  players : gset string;
  lobby_players : gset string;
  in_game_players : gset string;
  game_loop_task : option nat;
  countdown_task : option nat
}.

(** [GameInstance.__init__] *)
Definition new_GameInstance (game_id : nat) : GameInstance := {|
  game_id := game_id;
  game_state := "waiting";
  players := ∅;
  lobby_players := ∅;
  in_game_players := ∅;
  game_loop_task := None;
  countdown_task := None
|}.

Definition set_game_state (v : string) (i : GameInstance) := {|
  game_id := game_id i; game_state := v; players := players i;
  lobby_players := lobby_players i; in_game_players := in_game_players i;
  game_loop_task := game_loop_task i; countdown_task := countdown_task i |}.

Definition set_players (v : gset string) (i : GameInstance) := {|
  game_id := game_id i; game_state := game_state i; players := v;
  lobby_players := lobby_players i; in_game_players := in_game_players i;
  game_loop_task := game_loop_task i; countdown_task := countdown_task i |}.

Definition set_lobby_players (v : gset string) (i : GameInstance) := {|
  game_id := game_id i; game_state := game_state i; players := players i;
  lobby_players := v; in_game_players := in_game_players i;
  game_loop_task := game_loop_task i; countdown_task := countdown_task i |}.

Definition set_in_game_players (v : gset string) (i : GameInstance) := {|
  game_id := game_id i; game_state := game_state i; players := players i;
  lobby_players := lobby_players i; in_game_players := v;
  game_loop_task := game_loop_task i; countdown_task := countdown_task i |}.

Definition set_game_loop_task (v : option nat) (i : GameInstance) := {|
  game_id := game_id i; game_state := game_state i; players := players i;
  lobby_players := lobby_players i; in_game_players := in_game_players i;
  game_loop_task := v; countdown_task := countdown_task i |}.

Definition set_countdown_task (v : option nat) (i : GameInstance) := {|
  game_id := game_id i; game_state := game_state i; players := players i;
  lobby_players := lobby_players i; in_game_players := in_game_players i;
  game_loop_task := game_loop_task i; countdown_task := v |}.

(** The module-level state.  The dictionary [active_games] maps a game
    id to the instance created with that id: it is kept as the list of
    its keys, in insertion order, next to the store [instances] of all
    the [GameInstance] objects, which a coroutine keeps reaching through
    [self] after the instance has left the dictionary.
    [broadcast_override] tells whether the server currently routes its
    broadcasts through [minigame_broadcast_override]. *)
Record Globals := {
  config : Config;
  instances : gmap nat GameInstance;
  active_games : list nat;
  player_to_game : gmap string nat;
  next_game_id : nat;
  broadcast_override : bool;
  sent : list (websocket * frame);
  log : list string
}.

Definition set_instances (v : gmap nat GameInstance) (g : Globals) := {|
  config := config g; instances := v; active_games := active_games g;
  player_to_game := player_to_game g; next_game_id := next_game_id g;
  broadcast_override := broadcast_override g; sent := sent g; log := log g |}.

Definition set_active_games (v : list nat) (g : Globals) := {|
  config := config g; instances := instances g; active_games := v;
  player_to_game := player_to_game g; next_game_id := next_game_id g;
  broadcast_override := broadcast_override g; sent := sent g; log := log g |}.

Definition set_player_to_game (v : gmap string nat) (g : Globals) := {|
  config := config g; instances := instances g;
  active_games := active_games g;
  player_to_game := v; next_game_id := next_game_id g;
  broadcast_override := broadcast_override g; sent := sent g; log := log g |}.

Definition set_next_game_id (v : nat) (g : Globals) := {|
  config := config g; instances := instances g;
  active_games := active_games g;
  player_to_game := player_to_game g; next_game_id := v;
  broadcast_override := broadcast_override g; sent := sent g; log := log g |}.

Definition set_broadcast_override (v : bool) (g : Globals) := {|
  config := config g; instances := instances g;
  active_games := active_games g;
  player_to_game := player_to_game g; next_game_id := next_game_id g;
  broadcast_override := v; sent := sent g; log := log g |}.

Definition set_sent (v : list (websocket * frame)) (g : Globals) := {|
  config := config g; instances := instances g;
  active_games := active_games g;
  player_to_game := player_to_game g; next_game_id := next_game_id g;
  broadcast_override := broadcast_override g; sent := v; log := log g |}.

Definition set_log (v : list string) (g : Globals) := {|
  config := config g; instances := instances g;
  active_games := active_games g;
  player_to_game := player_to_game g; next_game_id := next_game_id g;
  broadcast_override := broadcast_override g; sent := sent g; log := v |}.

(** The state after [on_load]. *)
Definition initial (cfg : Config) : Globals := {|
  config := cfg; instances := ∅; active_games := [];
  player_to_game := ∅; next_game_id := 0;
  broadcast_override := false; sent := []; log := []
|}.

(** The object with id [gid]. *)
Definition instance (g : Globals) (gid : nat) : GameInstance :=
  default (new_GameInstance gid) (instances g !! gid).

(** [active_games.get(gid)] *)
Definition active_game (g : Globals) (gid : nat) : option GameInstance :=
  if bool_decide (gid ∈ active_games g) then Some (instance g gid) else None.

(** [username in player_to_game], where [username] may be [None]. *)
Definition in_player_to_game (g : Globals) (username : option string)
  : bool :=
  if username is Some u then bool_decide (is_Some (player_to_game g !! u))
  else false.

(** The loop after the frames [frames] have gone out. *)
Definition deliver (frames : list (websocket * frame))
    (w : World Globals) : World Globals :=
  with_globals (set_sent (sent (globals w) ++ frames) (globals w)) w.

(** The loop after [line] was logged. *)
Definition logged (line : string) (w : World Globals) : World Globals :=
  with_globals (set_log (log (globals w) ++ [line]) (globals w)) w.

(** The instance [gid] is in the state [st]. *)
Definition in_state (gid : nat) (st : string) (g : Globals) : Prop :=
  game_state (instance g gid) = st.

(** The loop [w] with the instance [gid] put in the state [st]. *)
Definition in_game_state (gid : nat) (st : string) (w : World Globals)
  : World Globals :=
  with_globals
    (set_instances
       (<[gid := set_game_state st (instance (globals w) gid)]>
          (instances (globals w))) (globals w)) w.

(** A property of the globals that depends neither on the frames sent
    nor on the log. *)
Definition silent (P : Globals → Prop) : Prop :=
  (∀ g v, P g → P (set_sent v g)) ∧ (∀ g v, P g → P (set_log v g)).

(** The user [username] is in the roster of [gid] and [player_to_game]
    says so. *)
Definition claimed (gid : nat) (username : string) (g : Globals) : Prop :=
  username ∈ players (instance g gid)
  ∧ player_to_game g !! username = Some gid.

(** The globals after [add_player] has put [username] in the roster
    and the lobby of [gid] and in [player_to_game], lines 434-436. *)
Definition joined (gid : nat) (username : string) (g : Globals) : Globals :=
  let i := instance g gid in
  let g1 :=
    set_instances
      (<[gid := set_lobby_players ({[username]} ∪ lobby_players i)
                  (set_players ({[username]} ∪ players i) i)]>
         (instances g)) g in
  set_player_to_game (<[username := gid]> (player_to_game g1)) g1.

(** The user [username] is alone in the instance [gid], which is
    registered and waits. *)
Definition alone (gid : nat) (username : string) (g : Globals) : Prop :=
  players (instance g gid) = {[username]}
  ∧ game_state (instance g gid) = "waiting"
  ∧ player_to_game g !! username = Some gid
  ∧ gid ∈ active_games g.

(** The instance [gid] is empty and [username] is not in
    [player_to_game]. *)
Definition left_alone (gid : nat) (username : string) (st : string)
    (g : Globals) : Prop :=
  players (instance g gid) = ∅
  ∧ game_state (instance g gid) = st
  ∧ player_to_game g !! username = None.

(** What one pass through the body of the [while] loop of [game_loop]
    leaves to do: [go_on] to the next pass, or [stop]. *)
Inductive flow := go_on | stop.

Section Plugin.
Context (server_api : ServerApi).
(** The simulation of one tick, lines 497-546 of Zombies.py: it acts
    on the zombies and the core, which are not modelled, may call
    [end_game] and return ([stop]), and may raise. *)
Context (simulate : nat → Prog Globals flow).
(** The number of passes of [game_loop] that are unrolled. *)
Context (ticks : nat).

Local Abbreviation Prog := (Async.Prog Globals).

Definition self (gid : nat) : Prog GameInstance :=
  g ← get; mret (instance g gid).

Definition update (gid : nat) (f : GameInstance → GameInstance)
  : Prog unit :=
  modify (λ g, set_instances (<[gid := f (instance g gid)]> (instances g)) g).

(** [server_api.log(line)] *)
Definition server_log (line : string) : Prog unit :=
  modify (λ g, set_log (log g ++ [line]) g).

(** [await server_api.send_to_client(ws, message)] *)
Definition send_to_client (ws : websocket) (message : frame) : Prog unit :=
  modify (λ g, set_sent (sent g ++ [(ws, message)]) g);;
  await send.

(** [await asyncio.gather(...)] over [ws.send(message)] for every [ws]
    of [targets], with [return_exceptions=True]. *)
Definition gather_send (targets : list websocket) (message : frame)
  : Prog unit :=
  modify (λ g, set_sent (sent g ++ ((λ ws, (ws, message)) <$> targets)) g);;
  await gather.

(** [teleport_player], lines 631-636. *)
Definition teleport_player (username world : string) (pixel_x pixel_y : Z)
  : Prog unit :=
  if get_websocket_from_username server_api username is Some ws then
    send_to_client ws (WORLD_DATA world);;
    await sleep;;
    send_to_client ws
      (Raw ("SET_POSITION|PLACERSERVER|" +:+ Py.str pixel_x +:+ "|"
            +:+ Py.str pixel_y +:+ "|" +:+ username))
  else mret ().

(** The connections of the users of [roster], in the order in which a
    loop walks the set. *)
Definition connections (roster : gset string) : list websocket :=
  omap (get_websocket_from_username server_api) (elements roster).

(** The frames of a broadcast of [text] to the roster of [gid]. *)
Definition frames_to_roster (gid : nat) (text : string) (w : World Globals)
  : list (websocket * frame) :=
  (λ ws, (ws, Raw text)) <$>
    connections (players (instance (globals w) gid)).

(** [broadcast_to_game_players], lines 638-643. *)
Definition broadcast_to_game_players (gid : nat) (message : frame)
  : Prog unit :=
  i ← self gid;
  for_ (elements (players i)) (λ username,
    if get_websocket_from_username server_api username is Some ws then
      try_except_Exception (send_to_client ws message)
        (λ what, server_log
           ("ZombiesGame (ID " +:+ Py.str (Z.of_nat gid)
            +:+ "): Failed to send message to " +:+ username +:+ ": "
            +:+ what))
    else mret ()).

(** [generate_and_broadcast_timer_image], lines 117-141. *)
Definition generate_and_broadcast_timer_image (gid : nat) (number : Z)
  : Prog unit :=
  try_except_Exception
    (broadcast_to_game_players gid (SHOW_IMAGE (Py.str number)))
    (λ what, server_log
       ("ZombiesTimer: Error generating timer image: " +:+ what)).

(** [generate_end_game_image], lines 143-166. *)
Definition generate_end_game_image (gid : nat) (result_text : string)
  : Prog unit :=
  try_except_Exception
    (broadcast_to_game_players gid (SHOW_IMAGE result_text))
    (λ what, server_log
       ("ZombiesEndScreen: Error generating image: " +:+ what)).

(** [_end_game_task], lines 584-628.  The statistics, the despawn
    frames of the zombies and the read of [worlds/world.pw] are left
    out; the lobby position is that of the default configuration. *)
Definition _end_game_task (gid : nat) (victory : bool) : Prog unit :=
  i ← self gid;
  (if game_loop_task i is Some t then cancel t else mret ());;
  (if countdown_task i is Some t then cancel t else mret ());;
  try_except_Exception
    (broadcast_to_game_players gid (Raw "HIDE_IMAGE|PLACERSERVER|");;
     await sleep;;
     (if victory then generate_end_game_image gid "VICTORY!"
      else generate_end_game_image gid "DEFEATED!");;
     await sleep;;
     broadcast_to_game_players gid (Raw "HIDE_IMAGE|PLACERSERVER|");;
     i ← self gid;
     for_ (elements (players i)) (λ username,
       modify (λ g, set_player_to_game (delete username (player_to_game g)) g);;
       teleport_player username "worlds/world.pw" 461 1104);;
     update gid (λ i, set_lobby_players ∅ (set_in_game_players ∅ (set_players ∅ i)));;
     modify (λ g, set_active_games (filter (λ k, k ≠ gid) (active_games g)) g);;
     g ← get;
     if active_games g is [] then
       modify (set_broadcast_override false);;
       server_log "ZombiesGame: Last game ended, broadcast override released."
     else mret ())
    (λ what, server_log
       ("ZombiesGame (ID " +:+ Py.str (Z.of_nat gid)
        +:+ "): CRITICAL ERROR in _end_game_task: " +:+ what)).

(** [end_game], lines 579-582. *)
Definition end_game (gid : nat) (victory : bool) : Prog unit :=
  i ← self gid;
  if bool_decide (game_state i = "ended") then mret ()
  else
    update gid (set_game_state "ended");;
    create_task (_end_game_task gid victory);;
    mret ().

(** The [try] block of [game_loop], lines 497-547: the simulation, then
    [await asyncio.sleep(1/20)] unless the simulation returned. *)
Definition tick (gid : nat) : Prog flow :=
  r ← simulate gid;
  if r is go_on then await sleep;; mret go_on else mret stop.

(** The line that [game_loop] logs for an exception. *)
Definition game_loop_error (gid : nat) (what : string) : string :=
  "ZombiesGame (ID " +:+ Py.str (Z.of_nat gid)
  +:+ "): Error in game loop: " +:+ what.

(** One pass through the [while] loop of [game_loop], lines 496-550:
    the [try] block with its two [except] clauses, [break] for
    [CancelledError] and a log line for [Exception]. *)
Definition game_loop_pass (gid : nat) : Prog flow :=
  Try (tick gid)
      (λ _, true)
      (λ e, match e with
            | CancelledError => mret stop
            | Exception what =>
                server_log (game_loop_error gid what);; mret go_on
            end)
      Ret.

(** [game_loop], lines 494-550, unrolled [n] times. *)
Fixpoint game_loop (n : nat) (gid : nat) : Prog unit :=
  match n with
  | 0 => mret ()
  | S n' =>
      i ← self gid;
      if bool_decide (game_state i = "playing") then
        r ← game_loop_pass gid;
        if r is go_on then game_loop n' gid else mret ()
      else mret ()
  end.

(** [for username in self.in_game_players: ...]: the loop walks the
    set itself, and each step of its iterator raises when the set has
    changed size since the loop began. *)
Fixpoint for_in_game_players (gid : nat) (n : nat) (l : list string)
    (body : string → Prog unit) : Prog unit :=
  i ← self gid;
  if bool_decide (size (in_game_players i) = n) then
    match l with
    | [] => mret ()
    | username :: l' => body username;; for_in_game_players gid n l' body
    end
  else Raise (Exception "Set changed size during iteration").

(** The coroutine [game_loop] parked in the [try] block of a pass, at
    the [await] where [body] waits, with [n] more passes unrolled. *)
Definition game_loop_parked (n : nat) (gid : nat) (body : Prog flow)
  : Prog unit :=
  Try body
      (λ _, true)
      (λ e, match e with
            | CancelledError => mret stop
            | Exception what =>
                server_log (game_loop_error gid what);; mret go_on
            end)
      (λ r, if r is go_on then game_loop n gid else mret ()).

(** [start_game], lines 474-492. *)
Definition start_game (gid : nat) : Prog unit :=
  update gid (set_game_state "playing");;
  update gid (λ i, set_lobby_players ∅
                     (set_in_game_players (lobby_players i) i));;
  broadcast_to_game_players gid (Raw "KILL_LOG|PLACERSERVER|");;
  i ← self gid;
  for_in_game_players gid (size (in_game_players i))
    (elements (in_game_players i))
    (λ username, teleport_player username "game" 2413 1504);;
  broadcast_to_game_players gid
    (Raw "TELLRAW|PLACERSERVER|GAME STARTED! Defend the core!");;
  i ← self gid;
  (if game_loop_task i is Some t then cancel t else mret ());;
  t ← create_task (game_loop ticks gid);
  update gid (set_game_loop_task (Some t)).

(** [wait_time], line 452. *)
Definition wait_time (cfg : Config) (i : GameInstance) : Z :=
  if bool_decide (Z.of_nat (size (players i)) = max_players cfg)
  then countdown_full cfg else countdown_normal cfg.

(** [range(wait_time, 0, -1)] *)
Definition range_down (n : Z) : list Z :=
  (λ k, n - Z.of_nat k)%Z <$> seq 0 (Z.to_nat n).

(** The loop of [countdown], lines 453-458: one pass and one
    [await asyncio.sleep(1)] for each second of [wait_time]. *)
Definition countdown_wait (gid : nat) (wait_time : Z) : Prog unit :=
  for_ (range_down wait_time) (λ n,
    (if bool_decide (n ≤ 5)%Z then
       generate_and_broadcast_timer_image gid n
     else if bool_decide (n `mod` 5 = 0)%Z then
       broadcast_to_game_players gid
         (Raw ("TELLRAW|PLACERSERVER|Game starting in "
               +:+ Py.str n +:+ "..."))
     else mret ());;
    await sleep).

(** The [try] block of the coroutine [countdown], lines 451-466. *)
Definition countdown_body (gid : nat) : Prog unit :=
  update gid (set_game_state "countdown");;
  i ← self gid; g ← get;
  countdown_wait gid (wait_time (config g) i);;
  broadcast_to_game_players gid (Raw "HIDE_IMAGE|PLACERSERVER|");;
  i ← self gid; g ← get;
  if bool_decide (game_state i = "countdown") &&
     bool_decide (min_players (config g) ≤ Z.of_nat (size (players i)))%Z
  then start_game gid
  else if bool_decide (game_state i = "countdown") then
    update gid (set_game_state "waiting");;
    broadcast_to_game_players gid
      (Raw "TELLRAW|PLACERSERVER|Not enough players to start. Countdown cancelled.")
  else mret ().

(** The clause [except asyncio.CancelledError], lines 467-470. *)
Definition countdown_cancelled (gid : nat) : Prog unit :=
  update gid (set_game_state "waiting");;
  broadcast_to_game_players gid
    (Raw "TELLRAW|PLACERSERVER|Countdown cancelled.");;
  broadcast_to_game_players gid (Raw "HIDE_IMAGE|PLACERSERVER|").

(** The coroutine [countdown] of [start_countdown], lines 449-470. *)
Definition countdown (gid : nat) : Prog unit :=
  try_except_CancelledError (countdown_body gid) (countdown_cancelled gid).

(** The coroutine [countdown] parked in its [try] block, at the [await]
    where [body] waits. *)
Definition countdown_parked (gid : nat) (body : Prog unit) : Prog unit :=
  Try body (λ e, if e is CancelledError then true else false)
    (λ _, countdown_cancelled gid) Ret.

(** [start_countdown], lines 446-472. *)
Definition start_countdown (gid : nat) : Prog unit :=
  i ← self gid;
  (if countdown_task i is Some t then
     finished ← is_done t;
     if (finished : bool) then mret () else cancel t
   else mret ());;
  t ← create_task (countdown gid);
  update gid (set_countdown_task (Some t)).

(** Whether [add_player] lets the player in: lines 422 and 426. *)
Definition joinable (cfg : Config) (i : GameInstance) : bool :=
  bool_decide (game_state i ∈ ["waiting"; "countdown"]) &&
  bool_decide (Z.of_nat (size (players i)) < max_players cfg)%Z.

(** The connections of the main world: those whose user is not in
    [player_to_game]. *)
Definition main_world_websockets (g : Globals) : list websocket :=
  filter (λ ws, in_player_to_game g
                  (get_username_from_websocket server_api ws) = false)
    (get_connected_clients server_api).

(** [add_player], lines 421-444. *)
Definition add_player (gid : nat) (username : string) : Prog unit :=
  i ← self gid;
  if negb (bool_decide (game_state i ∈ ["waiting"; "countdown"])) then
    if get_websocket_from_username server_api username is Some ws then
      send_to_client ws
        (Raw "TELLRAW|PLACERSERVER|This game has already started.")
    else mret ()
  else
    g ← get;
    if bool_decide (max_players (config g) ≤ Z.of_nat (size (players i)))%Z
    then
      if get_websocket_from_username server_api username is Some ws then
        send_to_client ws (Raw "TELLRAW|PLACERSERVER|This game is full.")
      else mret ()
    else
      (if main_world_websockets g is [] then mret ()
       else gather_send (main_world_websockets g)
              (Raw (username +:+ "|-999|-999|Default|0|0|PLAYER_INFO")));;
      update gid (λ i, set_lobby_players ({[username]} ∪ lobby_players i)
                         (set_players ({[username]} ∪ players i) i));;
      modify (λ g, set_player_to_game (<[username := gid]> (player_to_game g)) g);;
      teleport_player username "lobby" 2420 2744;;
      i ← self gid; g ← get;
      broadcast_to_game_players gid
        (Raw ("TELLRAW|PLACERSERVER|" +:+ username +:+ " joined! ("
              +:+ Py.str (Z.of_nat (size (players i))) +:+ "/"
              +:+ Py.str (max_players (config g)) +:+ ")"));;
      i ← self gid; g ← get;
      if bool_decide (min_players (config g) ≤ Z.of_nat (size (players i)))%Z
         && bool_decide (game_state i = "waiting")
      then start_countdown gid
      else if bool_decide (Z.of_nat (size (players i)) = max_players (config g))
      then start_countdown gid
      else mret ().

(** [remove_player], lines 645-655. *)
Definition remove_player (gid : nat) (username : string) : Prog unit :=
  update gid (λ i, set_in_game_players (in_game_players i ∖ {[username]})
                     (set_lobby_players (lobby_players i ∖ {[username]})
                        (set_players (players i ∖ {[username]}) i)));;
  modify (λ g, set_player_to_game (delete username (player_to_game g)) g);;
  broadcast_to_game_players gid
    (Raw (username +:+ "|-999|-999|Default|0|0|PLAYER_INFO"));;
  i ← self gid; g ← get;
  broadcast_to_game_players gid
    (Raw ("TELLRAW|PLACERSERVER|" +:+ username +:+ " left the game. ("
          +:+ Py.str (Z.of_nat (size (players i))) +:+ "/"
          +:+ Py.str (max_players (config g)) +:+ ")"));;
  i ← self gid; g ← get;
  (if bool_decide (game_state i = "countdown") &&
      bool_decide (Z.of_nat (size (players i)) < min_players (config g))%Z
   then
     if countdown_task i is Some t then
       finished ← is_done t;
       if (finished : bool) then mret () else cancel t
     else mret ()
   else mret ());;
  i ← self gid;
  if bool_decide (players i = ∅) && negb (bool_decide (game_state i = "ended"))
  then end_game gid false
  else mret ().

(** The search of [on_message] for a game to join, lines 852-856. *)
Definition find_target_game (g : Globals) : option nat :=
  (λ r, r.2) <$> list_find (λ gid, joinable (config g) (instance g gid) = true)
                   (active_games g).

(** The scoreboard is shown for five seconds, lines 840-845. *)
Definition show_and_hide_scoreboard (websocket : websocket) : Prog unit :=
  send_to_client websocket (SHOW_IMAGE "Top Players");;
  await sleep;;
  send_to_client websocket (Raw "HIDE_IMAGE|PLACERSERVER|").

(** [on_message] for a frame [DAMAGE|PLACERCLIENT|target_name|username],
    lines 834-879.  The other frames act on state that is not
    modelled, except [SYNC_REQ]. *)
Definition on_message_DAMAGE (websocket : websocket)
    (target_name username : string) : Prog bool :=
  if Py.startswith "Zombies Stats" target_name then
    create_task (show_and_hide_scoreboard websocket);; mret true
  else if Py.startswith "Zombies" target_name then
    g ← get;
    if bool_decide (is_Some (player_to_game g !! username)) then mret true
    else
      target_game ←
        (if find_target_game g is Some gid then mret gid
         else
           (if active_games g is [] then
              modify (set_broadcast_override true);;
              server_log "ZombiesGame: First game created, broadcast override is active."
            else mret ());;
           g ← get;
           let gid := next_game_id g in
           modify (λ g, set_instances (<[gid := new_GameInstance gid]> (instances g)) g);;
           modify (λ g, set_active_games (active_games g ++ [gid]) g);;
           modify (set_next_game_id (S gid));;
           mret gid);
      add_player target_game username;;
      mret true
  else if Py.startswith "Zombie-" target_name
          || Py.startswith "Master Zombie-" target_name then
    mret true
  else mret false.

(** [on_disconnect], lines 883-891. *)
Definition on_disconnect (websocket : websocket) : Prog unit :=
  g ← get;
  if get_username_from_websocket server_api websocket is Some username then
    if player_to_game g !! username is Some game_id then
      if active_game g game_id is Some _ then
        remove_player game_id username
      else mret ()
    else mret ()
  else mret ().

(** *** The broadcast override, lines 672-706 *)

(** The sender that the override works out; [None] stands for the
    [IndexError] of [parts[2]]. *)
Definition sender_username (message : string)
    (exclude_websocket : option websocket) : option (option string) :=
  let parts := Py.split "|" message in
  let msg_type := default "" (parts !! 0) in
  if bool_decide (msg_type = "PLAYER_INFO")
     || Py.endswith "PLAYER_INFO" msg_type
  then Some (parts !! 0)
  else if bool_decide (msg_type = "PLAYER_MESSAGE") then
    if parts !! 2 is Some name then Some (Some name) else None
  else if exclude_websocket is Some ws then
    Some (get_username_from_websocket server_api ws)
  else Some None.

(** The connections that receive the message; [None] when an
    exception ends the [try] block before anything is sent. *)
Definition recipients (g : Globals) (message : string)
    (exclude_websocket : option websocket) : option (list websocket) :=
  sender ← sender_username message exclude_websocket;
  match sender ≫= (player_to_game g !!.) with
  | Some sender_game_id =>
      if active_game g sender_game_id is Some game then
        let targets :=
          filter (λ ws, ws ≠ exclude_websocket)
            (get_websocket_from_username server_api
               <$> elements (players game)) in
        Some (omap id targets)
      else Some []
  | None =>
      Some (filter (λ ws,
              in_player_to_game g
                (get_username_from_websocket server_api ws) = false
              ∧ Some ws ≠ exclude_websocket)
              (get_connected_clients server_api))
  end.

(** [minigame_broadcast_override] *)
Definition minigame_broadcast_override (message : string)
    (exclude_websocket : option websocket) : Prog unit :=
  g ← get;
  match recipients g message exclude_websocket with
  | Some [] => mret ()
  | Some targets => gather_send targets (Raw message)
  | None =>
      server_log "ZombiesGame: CRITICAL ERROR in broadcast override: list index out of range"
  end.

(** [on_unload], lines 760-766; [global_broadcast_task] is the task of
    the periodic broadcast, when [on_load] has started one. *)
Definition on_unload (global_broadcast_task : option nat) : Prog unit :=
  (if global_broadcast_task is Some t then cancel t else mret ());;
  g ← get;
  for_ (active_games g) (λ gid, end_game gid false);;
  g ← get;
  (if active_games g is [] then mret ()
   else modify (set_broadcast_override false));;
  server_log "ZombiesGame Plugin: Unloaded.".


(** What [countdown] does when its loop is over, lines 460-466. *)
Definition countdown_end (gid : nat) : Prog unit :=
  broadcast_to_game_players gid (Raw "HIDE_IMAGE|PLACERSERVER|");;
  i ← self gid; g ← get;
  if bool_decide (game_state i = "countdown") &&
     bool_decide (min_players (config g) ≤ Z.of_nat (size (players i)))%Z
  then start_game gid
  else if bool_decide (game_state i = "countdown") then
    update gid (set_game_state "waiting");;
    broadcast_to_game_players gid
      (Raw "TELLRAW|PLACERSERVER|Not enough players to start. Countdown cancelled.")
  else mret ().
End Plugin.

(** *** The configuration file, lines 287-295

    [file] is the JSON object that [config.json] holds, or [None] when
    the file does not exist; the values of the keys are of any type. *)
Definition load_config {V} (DEFAULT_CONFIG : gmap string V)
    (file : option (gmap string V)) : gmap string V :=
  let config := default DEFAULT_CONFIG file in
  foldl (λ config item,
           if config !! item.1 is Some _ then config
           else <[item.1 := item.2]> config)
    config (map_to_list DEFAULT_CONFIG).

(** *** The statistics, lines 326-332

    [player_stats] maps a user name to the dictionary of the
    statistics of that user; the values are integers. *)
Definition Stats := gmap string (gmap string Z).

(** The dictionary that [get_player_stats] puts in the table for a
    user that is not in it. *)
Definition new_stats : gmap string Z :=
  {[ "wins" := 0; "kills" := 0; "games_played" := 0 ]}%Z.

(** [get_player_stats(username)]: the table after
    [player_stats.setdefault] and the dictionary returned. *)
Definition get_player_stats (player_stats : Stats) (username : string)
  : Stats * gmap string Z :=
  match player_stats !! username with
  | Some stats => (player_stats, stats)
  | None => (<[username := new_stats]> player_stats, new_stats)
  end.

(** [update_player_stat(username, stat, value_to_add)].  The
    dictionary [stats] is the one that the table holds, so that the
    assignment to [stats[stat]] writes the table. *)
Definition update_player_stat (player_stats : Stats) (username stat : string)
    (value_to_add : Z) : Stats :=
  let '(player_stats, stats) := get_player_stats player_stats username in
  <[username := <[stat := (default 0 (stats !! stat) + value_to_add)%Z]> stats]>
    player_stats.

(** What the table says of the statistic [stat] of [username]:
    [player_stats.get(username, {}).get(stat, 0)]. *)
Definition stat_of (player_stats : Stats) (username stat : string) : Z :=
  default 0%Z (player_stats !! username ≫= (.!! stat)).

(** A call of [update_player_stat], and a sequence of calls. *)
Definition credit (player_stats : Stats) (c : string * string * Z) : Stats :=
  update_player_stat player_stats c.1.1 c.1.2 c.2.

(** What the calls [credits] add to the statistic [stat] of
    [username]. *)
Definition credited (username stat : string)
    (credits : list (string * string * Z)) : Z :=
  foldr (λ c total,
           if bool_decide (c.1.1 = username ∧ c.1.2 = stat)
           then (c.2 + total)%Z else total) 0%Z credits.

(** *** The worlds, lines 391-419 *)

Definition TILE_SIZE : Z := 40.
Definition SKIN_HEIGHT : Z := 190.

(** [world_data[y][x] = block] *)
Definition set_block (world_data : list (list Z)) (y x : Z) (block : Z)
  : option (list (list Z)) :=
  row ← Py.getitem world_data y;
  row ← Py.setitem row x block;
  Py.setitem world_data y row.

(** [[[-1 for _ in range(width)] for _ in range(height)]] *)
Definition empty_world (width height : Z) : list (list Z) :=
  replicate (Z.to_nat height) (replicate (Z.to_nat width) (-1)%Z).

(** The grid of the lobby, lines 409-416. *)
Definition lobby_world (width height : Z) : option (list (list Z)) :=
  world_data ←
    Py.for_each (λ world_data x,
        world_data ← set_block world_data (height - 10) x 2;
        set_block world_data 10 x 18)
      (Py.range 0 width) (empty_world width height);
  world_data ←
    Py.for_each (λ world_data y,
        world_data ← set_block world_data y 0 2;
        set_block world_data y (width - 1) 2)
      (Py.range 10 (height - 9)) world_data;
  world_data ← set_block world_data (height - 11) 10 15;
  set_block world_data (height - 11) (width - 11) 10.

(** The grid of the game, lines 399-407. *)
Definition game_world (width height : Z) : option (list (list Z)) :=
  let surface_y := (height `div` 2)%Z in
  let center_x := (width `div` 2)%Z in
  world_data ←
    Py.for_each (λ world_data x,
        world_data ← set_block world_data surface_y x 1;
        Py.for_each (λ world_data dy,
            if bool_decide (surface_y + dy < height)%Z
            then set_block world_data (surface_y + dy) x 0
            else Some world_data)
          (Py.range 1 5) world_data)
      (Py.range 0 width) (empty_world width height);
  world_data ← set_block world_data (surface_y - 1) (center_x - 5) 11;
  world_data ← set_block world_data (surface_y - 1) (center_x + 5) 11;
  set_block world_data (surface_y - 1) center_x 12.

(** [self.core_position], line 400: the pixel in the middle of the
    tile of the core. *)
Definition core_position (width height : Z) : Z * Z :=
  ((width `div` 2) * TILE_SIZE + TILE_SIZE `div` 2,
   (height `div` 2 - 1) * TILE_SIZE + TILE_SIZE `div` 2)%Z.

(** [self.ground_pixel_level], lines 384-386. *)
Definition ground_pixel_level (height : Z) : Z :=
  ((height `div` 2) * TILE_SIZE - SKIN_HEIGHT `div` 2)%Z.

(** What [generate_world] puts in the JSON text of a world. *)
Record world_json := {
  width : Z;
  height : Z;
  data : string
}.

(** [generate_world] for an instance of the sizes [world_width] and
    [world_height] whose cache is empty; [None] stands for
    [IndexError]. *)
Definition generate_world (world_width world_height : Z)
    (is_game_world : bool) : option world_json :=
  world_data ← (if is_game_world then game_world world_width world_height
                else lobby_world world_width world_height);
  data ← rle_encode world_data (Z.to_nat world_width) (Z.to_nat world_height);
  Some {| width := world_width; height := world_height; data := data |}.

(** *** The zombies, lines 507-528 and 566-577 *)

Module Zombie.
(** The keys of the dictionary of a zombie. *)
Record t := {
  name : string;
  x : Z;
  y : Z;
  hp : Z;
  is_master : bool;
  last_hit_by : option string
}.

Definition set_x (v : Z) (z : t) := {|
  name := name z; x := v; y := y z; hp := hp z;
  is_master := is_master z; last_hit_by := last_hit_by z |}.

Definition set_y (v : Z) (z : t) := {|
  name := name z; x := x z; y := v; hp := hp z;
  is_master := is_master z; last_hit_by := last_hit_by z |}.
End Zombie.

(** What one pass of [game_loop] does to the zombie [z], lines
    509-520: the zombie falls to the ground, then walks to the core;
    the value tells whether the zombie takes a point off the core ([is_minion]
    is a key that no zombie has).  The positions and both speeds are
    integers. *)
Definition move_zombie (zombie_gravity zombie_speed : Z)
    (ground_pixel_level core_x : Z) (z : Zombie.t) : Zombie.t * bool :=
  if bool_decide (Zombie.y z < ground_pixel_level)%Z then
    let y := (Zombie.y z + zombie_gravity)%Z in
    (Zombie.set_y (if bool_decide (ground_pixel_level < y)%Z
                   then ground_pixel_level else y) z, false)
  else
    let z := Zombie.set_y ground_pixel_level z in
    let dx := (core_x - Zombie.x z)%Z in
    if bool_decide (TILE_SIZE `div` 2 < Z.abs dx)%Z then
      (Zombie.set_x (if bool_decide (0 < dx)%Z
                     then Zombie.x z + zombie_speed
                     else Zombie.x z - zombie_speed)%Z z, false)
    else (z, true).

(** The zombie [z] after [n] passes. *)
Definition march (zombie_gravity zombie_speed : Z)
    (ground_pixel_level core_x : Z) (n : nat) (z : Zombie.t) : Zombie.t :=
  Nat.iter n
    (λ z, (move_zombie zombie_gravity zombie_speed ground_pixel_level core_x z).1)
    z.

End Zombies.

Module FreeForAll.
Import Async Server.

(** The body of the loop of [rle_encode] in FreeForAll.py over the
    variables [parts], [current_id], [count]. *)
Definition rle_visit (a : list string * Z * nat) (block_id : Z)
  : list string * Z * nat :=
  let '(parts, current_id, count) := a in
  if decide (block_id = current_id)
  then (parts, current_id, S count)
  else (parts ++ [Rle.part count current_id], block_id, 1).

(** [rle_encode(grid, width, height)], FreeForAll.py lines 177-187: the
    grid is flattened first and both sizes are ignored. *)
Definition rle_encode (grid : list (list Z)) (width height : nat)
  : string :=
  match concat grid with
  | [] => ""
  | first :: rest =>
      let '(parts, current_id, count) :=
        foldl rle_visit ([], first, 1) rest in
      Py.join "," (parts ++ [Rle.part count current_id])
  end.

(** *** Configuration and state *)

(** The keys of [config] that the orchestration reads. *)
Record Config := {
  min_players : Z;
  max_players : Z;
  countdown_normal : Z;
  countdown_full : Z
}.

Definition DEFAULT_CONFIG : Config := {|
  min_players := 2; max_players := 8;
  countdown_normal := 30; countdown_full := 10
|}.

(** What the orchestration reads of a [Player]. *)
Record Player := {
  kills : Z;
  reload_task : option nat
}.

(** [Player.__init__] *)
Definition new_Player : Player := {| kills := 0; reload_task := None |}.

(** The attributes of a [GameInstance] that the orchestration uses.
    [players] is the dictionary from user names to [Player] objects; its
    insertion order is not kept. *)
Record GameInstance := {
  game_id : nat;
  state : string;
  players : gmap string Player;
  lobby_players : gset string;
  in_game_players : gset string;
  game_loop_task : option nat;
  countdown_task : option nat
}.

(** [GameInstance.__init__] *)
Definition new_GameInstance (game_id : nat) : GameInstance := {|
  game_id := game_id;
  state := "waiting";
  players := ∅;
  lobby_players := ∅;
  in_game_players := ∅;
  game_loop_task := None;
  countdown_task := None
|}.

Definition set_state (v : string) (i : GameInstance) := {|
  game_id := game_id i; state := v; players := players i;
  lobby_players := lobby_players i; in_game_players := in_game_players i;
  game_loop_task := game_loop_task i; countdown_task := countdown_task i |}.

Definition set_players (v : gmap string Player) (i : GameInstance) := {|
  game_id := game_id i; state := state i; players := v;
  lobby_players := lobby_players i; in_game_players := in_game_players i;
  game_loop_task := game_loop_task i; countdown_task := countdown_task i |}.

Definition set_lobby_players (v : gset string) (i : GameInstance) := {|
  game_id := game_id i; state := state i; players := players i;
  lobby_players := v; in_game_players := in_game_players i;
  game_loop_task := game_loop_task i; countdown_task := countdown_task i |}.

Definition set_in_game_players (v : gset string) (i : GameInstance) := {|
  game_id := game_id i; state := state i; players := players i;
  lobby_players := lobby_players i; in_game_players := v;
  game_loop_task := game_loop_task i; countdown_task := countdown_task i |}.

Definition set_countdown_task (v : option nat) (i : GameInstance) := {|
  game_id := game_id i; state := state i; players := players i;
  lobby_players := lobby_players i; in_game_players := in_game_players i;
  game_loop_task := game_loop_task i; countdown_task := v |}.

(** The module-level state, as in [Zombies], with the lock
    [game_creation_lock]: [true] while a coroutine holds it. *)
Record Globals := {
  config : Config;
  instances : gmap nat GameInstance;
  active_games : list nat;
  player_to_game : gmap string nat;
  next_game_id : nat;
  game_creation_lock : bool;
  broadcast_override : bool;
  sent : list (websocket * frame);
  log : list string
}.

Definition set_instances (v : gmap nat GameInstance) (g : Globals) := {|
  config := config g; instances := v; active_games := active_games g;
  player_to_game := player_to_game g; next_game_id := next_game_id g;
  game_creation_lock := game_creation_lock g;
  broadcast_override := broadcast_override g; sent := sent g; log := log g |}.

Definition set_active_games (v : list nat) (g : Globals) := {|
  config := config g; instances := instances g; active_games := v;
  player_to_game := player_to_game g; next_game_id := next_game_id g;
  game_creation_lock := game_creation_lock g;
  broadcast_override := broadcast_override g; sent := sent g; log := log g |}.

Definition set_player_to_game (v : gmap string nat) (g : Globals) := {|
  config := config g; instances := instances g;
  active_games := active_games g;
  player_to_game := v; next_game_id := next_game_id g;
  game_creation_lock := game_creation_lock g;
  broadcast_override := broadcast_override g; sent := sent g; log := log g |}.

Definition set_next_game_id (v : nat) (g : Globals) := {|
  config := config g; instances := instances g;
  active_games := active_games g;
  player_to_game := player_to_game g; next_game_id := v;
  game_creation_lock := game_creation_lock g;
  broadcast_override := broadcast_override g; sent := sent g; log := log g |}.

Definition set_game_creation_lock (v : bool) (g : Globals) := {|
  config := config g; instances := instances g;
  active_games := active_games g;
  player_to_game := player_to_game g; next_game_id := next_game_id g;
  game_creation_lock := v;
  broadcast_override := broadcast_override g; sent := sent g; log := log g |}.

Definition set_broadcast_override (v : bool) (g : Globals) := {|
  config := config g; instances := instances g;
  active_games := active_games g;
  player_to_game := player_to_game g; next_game_id := next_game_id g;
  game_creation_lock := game_creation_lock g;
  broadcast_override := v; sent := sent g; log := log g |}.

Definition set_sent (v : list (websocket * frame)) (g : Globals) := {|
  config := config g; instances := instances g;
  active_games := active_games g;
  player_to_game := player_to_game g; next_game_id := next_game_id g;
  game_creation_lock := game_creation_lock g;
  broadcast_override := broadcast_override g; sent := v; log := log g |}.

Definition set_log (v : list string) (g : Globals) := {|
  config := config g; instances := instances g;
  active_games := active_games g;
  player_to_game := player_to_game g; next_game_id := next_game_id g;
  game_creation_lock := game_creation_lock g;
  broadcast_override := broadcast_override g; sent := sent g; log := v |}.

(** The state after [on_load]; the game ids start at 1. *)
Definition initial (cfg : Config) : Globals := {|
  config := cfg; instances := ∅; active_games := [];
  player_to_game := ∅; next_game_id := 1;
  game_creation_lock := false;
  broadcast_override := false; sent := []; log := []
|}.

Definition instance (g : Globals) (gid : nat) : GameInstance :=
  default (new_GameInstance gid) (instances g !! gid).

(** [active_games.get(gid)] *)
Definition active_game (g : Globals) (gid : nat) : option GameInstance :=
  if bool_decide (gid ∈ active_games g) then Some (instance g gid) else None.

(** [username in player_to_game], where [username] may be [None]. *)
Definition in_player_to_game (g : Globals) (username : option string)
  : bool :=
  if username is Some u then bool_decide (is_Some (player_to_game g !! u))
  else false.

(** The instance [gid] is in the state [st]. *)
Definition in_state (gid : nat) (st : string) (g : Globals) : Prop :=
  state (instance g gid) = st.

(** A property of the globals that depends neither on the frames sent
    nor on the log. *)
Definition silent (P : Globals → Prop) : Prop :=
  (∀ g v, P g → P (set_sent v g)) ∧ (∀ g v, P g → P (set_log v g)).

(** The globals after [add_player] has put [username] in the roster
    and the lobby of [gid] and in [player_to_game], lines 272-274. *)
Definition joined (gid : nat) (username : string) (g : Globals) : Globals :=
  let i := instance g gid in
  let g1 :=
    set_instances
      (<[gid := set_lobby_players ({[username]} ∪ lobby_players i)
                  (set_players (<[username := new_Player]> (players i)) i)]>
         (instances g)) g in
  set_player_to_game (<[username := gid]> (player_to_game g1)) g1.

(** The user [username] is alone in the instance [gid], which is
    registered and waits. *)
Definition alone (gid : nat) (username : string) (g : Globals) : Prop :=
  dom (players (instance g gid)) = {[username]}
  ∧ state (instance g gid) = "waiting"
  ∧ player_to_game g !! username = Some gid
  ∧ gid ∈ active_games g.

(** The instance [gid] is empty and [username] is not in
    [player_to_game]. *)
Definition left_alone (gid : nat) (username : string) (st : string)
    (g : Globals) : Prop :=
  players (instance g gid) = ∅
  ∧ state (instance g gid) = st
  ∧ player_to_game g !! username = None.

(** [wait_time], line 294. *)
Definition wait_time (cfg : Config) (i : GameInstance) : Z :=
  if bool_decide (Z.of_nat (size (players i)) = max_players cfg)
  then countdown_full cfg else countdown_normal cfg.

(** [range(wait_time, 0, -1)] *)
Definition range_down (n : Z) : list Z :=
  (λ k, n - Z.of_nat k)%Z <$> seq 0 (Z.to_nat n).

(** Whether [add_player] lets the player in: lines 260 and 264. *)
Definition joinable (cfg : Config) (i : GameInstance) : bool :=
  bool_decide (state i ∈ ["waiting"; "countdown"]) &&
  bool_decide (Z.of_nat (size (players i)) < max_players cfg)%Z.

(** The search of [on_message] for a game to join, line 658. *)
Definition find_target_game (g : Globals) : option nat :=
  (λ r, r.2) <$> list_find (λ gid, joinable (config g) (instance g gid) = true)
                   (active_games g).

(** The player with the most kills, line 342; among equals the
    dictionary order decides in Python, the order of [map_to_list] here. *)
Definition winner (i : GameInstance) : option (string * Player) :=
  foldl (λ best c,
           match best with
           | None => Some c
           | Some b => if (kills b.2 <? kills c.2)%Z then Some c else Some b
           end) None (map_to_list (players i)).

Section Plugin.
Context (server_api : ServerApi).
(** The match itself is not modelled: [start_game], lines 307-326, draws
    the spawn points at random and starts the game loop. *)
Context (start_game : nat → Prog Globals unit).

Local Abbreviation Prog := (Async.Prog Globals).

Definition self (gid : nat) : Prog GameInstance :=
  g ← get; mret (instance g gid).

Definition update (gid : nat) (f : GameInstance → GameInstance)
  : Prog unit :=
  modify (λ g, set_instances (<[gid := f (instance g gid)]> (instances g)) g).

(** [server_api.log(line)] *)
Definition server_log (line : string) : Prog unit :=
  modify (λ g, set_log (log g ++ [line]) g).

(** [await server_api.send_to_client(ws, message)] *)
Definition send_to_client (ws : websocket) (message : frame) : Prog unit :=
  modify (λ g, set_sent (sent g ++ [(ws, message)]) g);;
  await send.

(** [await asyncio.gather(...)] over a send to every [ws] of [targets],
    with [return_exceptions=True]. *)
Definition gather_send (targets : list websocket) (message : frame)
  : Prog unit :=
  modify (λ g, set_sent (sent g ++ ((λ ws, (ws, message)) <$> targets)) g);;
  await gather.

(** [broadcast_to_game_players], lines 540-542. *)
Definition broadcast_to_game_players (gid : nat) (message : frame)
  : Prog unit :=
  i ← self gid;
  let tasks := omap (get_websocket_from_username server_api)
                 (elements (dom (players i))) in
  if tasks is [] then mret () else gather_send tasks message.

(** [clear_hud], lines 528-530. *)
Definition clear_hud (username : string) : Prog unit :=
  if get_websocket_from_username server_api username is Some ws then
    send_to_client ws (Raw "HIDE_IMAGE|PLACERSERVER|")
  else mret ().

(** [teleport_player], lines 532-538; [world_json] may be [None]. *)
Definition teleport_player (username : string) (world_json : option string)
    (x y : Z) : Prog unit :=
  if get_websocket_from_username server_api username is Some ws then
    (if world_json is Some world then
       send_to_client ws (WORLD_DATA world);;
       await sleep
     else mret ());;
    send_to_client ws
      (Raw ("SET_POSITION|PLACERSERVER|" +:+ Py.str x +:+ "|"
            +:+ Py.str y +:+ "|" +:+ username))
  else mret ().

(** The loop of [_countdown], lines 295-297: one pass and one
    [await asyncio.sleep(1)] for each second of [wait_time]. *)
Definition countdown_wait (gid : nat) (wait_time : Z) : Prog unit :=
  for_ (range_down wait_time) (λ n,
    (if bool_decide (n ≤ 5)%Z || bool_decide (n `mod` 5 = 0)%Z then
       broadcast_to_game_players gid
         (Raw ("TELLRAW|PLACERSERVER|Game starting in "
               +:+ Py.str n +:+ "..."))
     else mret ());;
    await sleep).

(** The coroutine [_countdown], lines 291-305. *)
Definition _countdown (gid : nat) : Prog unit :=
  try_except_CancelledError
    (update gid (set_state "countdown");;
     i ← self gid; g ← get;
     countdown_wait gid (wait_time (config g) i);;
     i ← self gid; g ← get;
     if bool_decide (min_players (config g) ≤ Z.of_nat (size (players i)))%Z
     then start_game gid
     else
       update gid (set_state "waiting");;
       broadcast_to_game_players gid
         (Raw "TELLRAW|PLACERSERVER|Not enough players. Countdown cancelled."))
    (update gid (set_state "waiting");;
     broadcast_to_game_players gid
       (Raw "TELLRAW|PLACERSERVER|Countdown cancelled.")).

(** [start_countdown], lines 287-289. *)
Definition start_countdown (gid : nat) : Prog unit :=
  i ← self gid;
  (if countdown_task i is Some t then
     finished ← is_done t;
     if (finished : bool) then mret () else cancel t
   else mret ());;
  t ← create_task (_countdown gid);
  update gid (set_countdown_task (Some t)).

(** The connections of the main world: those whose user is not in
    [player_to_game]. *)
Definition main_world_websockets (g : Globals) : list websocket :=
  filter (λ ws, in_player_to_game g
                  (get_username_from_websocket server_api ws) = false)
    (get_connected_clients server_api).

(** [add_player], lines 259-285. *)
Definition add_player (gid : nat) (username : string) : Prog unit :=
  i ← self gid;
  if negb (bool_decide (state i ∈ ["waiting"; "countdown"])) then
    if get_websocket_from_username server_api username is Some ws then
      send_to_client ws
        (Raw "TELLRAW|PLACERSERVER|This game has already started.")
    else mret ()
  else
    g ← get;
    if bool_decide (max_players (config g) ≤ Z.of_nat (size (players i)))%Z
    then
      if get_websocket_from_username server_api username is Some ws then
        send_to_client ws (Raw "TELLRAW|PLACERSERVER|This game is full.")
      else mret ()
    else
      (if main_world_websockets g is [] then mret ()
       else gather_send (main_world_websockets g)
              (Raw (username +:+ "|-999|-999|Default|0|0|PLAYER_INFO")));;
      update gid (λ i, set_lobby_players ({[username]} ∪ lobby_players i)
                         (set_players (<[username := new_Player]> (players i)) i));;
      modify (λ g, set_player_to_game (<[username := gid]> (player_to_game g)) g);;
      teleport_player username (Some "lobby") 1000 800;;
      i ← self gid; g ← get;
      broadcast_to_game_players gid
        (Raw ("TELLRAW|PLACERSERVER|" +:+ username +:+ " joined! ("
              +:+ Py.str (Z.of_nat (size (players i))) +:+ "/"
              +:+ Py.str (max_players (config g)) +:+ ")"));;
      i ← self gid; g ← get;
      if bool_decide (min_players (config g) ≤ Z.of_nat (size (players i)))%Z
         && bool_decide (state i = "waiting")
      then start_countdown gid
      else if bool_decide (Z.of_nat (size (players i)) = max_players (config g))
      then start_countdown gid
      else mret ().

(** [clean_up_player_on_exit], lines 497-505, as [end_game] calls it:
    [teleport_out=True], the main world and the lobby position. *)
Definition clean_up_player_on_exit (username : string)
    (world_json : option string) (x y : Z) : Prog unit :=
  modify (λ g, set_player_to_game (delete username (player_to_game g)) g);;
  if get_websocket_from_username server_api username is Some ws then
    send_to_client ws (Raw "TOUCH_SENSOR|PLACERSERVER|0");;
    send_to_client ws (Raw "DISABLE_BREAKING|PLACERSERVER|0");;
    clear_hud username;;
    if world_json is Some _ then teleport_player username world_json x y
    else mret ()
  else mret ().

(** [end_game], lines 328-368: first the statements after the guard
    and the assignment of the state, lines 332-368, for the instance
    [i] as it was on entry.  The lobby position is that of the default
    configuration and the main world is read into a non-empty text. *)
Definition end_game_teardown (gid : nat) (was_cancelled_by_disconnect : bool)
    (i : GameInstance) : Prog unit :=
    for_ [game_loop_task i; countdown_task i] (λ task,
      if task is Some t then
        finished ← is_done t;
        if (finished : bool) then mret () else cancel t
      else mret ());;
    for_ (map_to_list (players i)) (λ player,
      if reload_task player.2 is Some t then
        finished ← is_done t;
        if (finished : bool) then mret () else cancel t
      else mret ());;
    broadcast_to_game_players gid (Raw "KILL_LOG|PLACERSERVER|");;
    i ← self gid;
    (if was_cancelled_by_disconnect then
       broadcast_to_game_players gid
         (Raw "TELLRAW|PLACERSERVER|Match ended due to players leaving.")
     else
       broadcast_to_game_players gid
         (Raw ("TELLRAW|PLACERSERVER|" +:+
               (if winner i is Some w then
                  "Match Over! " +:+ w.1 +:+ " wins with "
                  +:+ Py.str (kills w.2) +:+ " kills!"
                else "Match Over!"))));;
    await sleep;;
    await executor;;
    i ← self gid;
    ts ← foldr (λ username rest,
                  t ← create_task
                        (clean_up_player_on_exit username
                           (Some "worlds/world.pw") 500 500);
                  ts ← rest; mret (t :: ts))
           (mret []) (elements (dom (players i)));
    (if ts is [] then mret () else await gather;; until (λ _, true) ts);;
    update gid (λ i, set_lobby_players ∅ (set_in_game_players ∅ (set_players ∅ i)));;
    modify (λ g, set_active_games (filter (λ k, k ≠ gid) (active_games g)) g);;
    g ← get;
    if active_games g is [] then
      modify (set_broadcast_override false);;
      server_log "FreeForAll: Last game ended, broadcast override released."
    else mret ().

Definition end_game (gid : nat) (was_cancelled_by_disconnect : bool)
  : Prog unit :=
  i ← self gid;
  if bool_decide (state i = "ended") then mret ()
  else
    update gid (set_state "ended");;
    end_game_teardown gid was_cancelled_by_disconnect i.

(** [remove_player], lines 507-526. *)
Definition remove_player (gid : nat) (username : string) : Prog unit :=
  update gid (λ i, set_in_game_players (in_game_players i ∖ {[username]})
                     (set_lobby_players (lobby_players i ∖ {[username]})
                        (set_players (delete username (players i)) i)));;
  modify (λ g, set_player_to_game (delete username (player_to_game g)) g);;
  broadcast_to_game_players gid
    (Raw (username +:+ "|-999|-999|Default|0|0|PLAYER_INFO"));;
  i ← self gid; g ← get;
  broadcast_to_game_players gid
    (Raw ("TELLRAW|PLACERSERVER|" +:+ username +:+ " left the game. ("
          +:+ Py.str (Z.of_nat (size (players i))) +:+ "/"
          +:+ Py.str (max_players (config g)) +:+ ")"));;
  i ← self gid; g ← get;
  (if bool_decide (state i = "countdown") &&
      bool_decide (Z.of_nat (size (players i)) < min_players (config g))%Z
   then if countdown_task i is Some t then cancel t else mret ()
   else mret ());;
  i ← self gid; g ← get;
  (if bool_decide (state i = "playing") &&
      bool_decide (Z.of_nat (size (in_game_players i)) < min_players (config g))%Z
   then
     server_log ("[FreeForAll " +:+ Py.str (Z.of_nat gid)
                 +:+ "] Player count below minimum. Ending game.");;
     end_game gid true
   else mret ());;
  i ← self gid;
  if bool_decide (players i = ∅) && negb (bool_decide (state i = "ended"))
  then
    server_log ("[FreeForAll " +:+ Py.str (Z.of_nat gid)
                +:+ "] Last player left. Ending game.");;
    end_game gid true
  else mret ().

(** [on_message] for a frame [DAMAGE|PLACERCLIENT|target_name|damager_name],
    lines 608-669. *)
Definition on_message_DAMAGE (websocket : websocket)
    (target_name damager_name : string) : Prog bool :=
  match get_username_from_websocket server_api websocket with
  | None | Some EmptyString => mret false
  | Some username =>
      if bool_decide (damager_name = username)
         && Py.startswith "Shooter (" target_name
      then
        g ← get;
        if bool_decide (is_Some (player_to_game g !! username)) then mret true
        else
          until (λ g, negb (game_creation_lock g)) [];;
          modify (set_game_creation_lock true);;
          g ← get;
          target_game ←
            (if find_target_game g is Some gid then mret gid
             else
               (if active_games g is [] then
                  modify (set_broadcast_override true);;
                  server_log "FreeForAll: First game created, broadcast override is active."
                else mret ());;
               g ← get;
               let gid := next_game_id g in
               modify (λ g, set_instances (<[gid := new_GameInstance gid]> (instances g)) g);;
               modify (λ g, set_active_games (active_games g ++ [gid]) g);;
               modify (set_next_game_id (S gid));;
               mret gid);
          modify (set_game_creation_lock false);;
          add_player target_game username;;
          mret true
      else mret false
  end.

(** [on_disconnect], lines 598-606. *)
Definition on_disconnect (websocket : websocket) : Prog unit :=
  g ← get;
  match get_username_from_websocket server_api websocket with
  | None | Some EmptyString => mret ()
  | Some username =>
      if player_to_game g !! username is Some game_id then
        if active_game g game_id is Some _ then
          remove_player game_id username
        else mret ()
      else mret ()
  end.

(** *** The broadcast override, lines 544-560 *)

Definition sender_username (message : string)
    (exclude_websocket : option websocket) : option (option string) :=
  let parts := Py.split "|" message in
  let msg_type := default "" (parts !! 0) in
  if bool_decide (msg_type = "PLAYER_INFO")
     || Py.endswith "PLAYER_INFO" msg_type
  then Some (parts !! 0)
  else if bool_decide (msg_type = "PLAYER_MESSAGE") then
    if parts !! 2 is Some name then Some (Some name) else None
  else if exclude_websocket is Some ws then
    Some (get_username_from_websocket server_api ws)
  else Some None.

Definition recipients (g : Globals) (message : string)
    (exclude_websocket : option websocket) : option (list websocket) :=
  sender ← sender_username message exclude_websocket;
  match sender ≫= (player_to_game g !!.) with
  | Some sender_game_id =>
      if active_game g sender_game_id is Some game then
        let targets :=
          filter (λ ws, ws ≠ exclude_websocket)
            (get_websocket_from_username server_api
               <$> elements (dom (players game))) in
        Some (omap id targets)
      else Some []
  | None =>
      Some (filter (λ ws,
              in_player_to_game g
                (get_username_from_websocket server_api ws) = false
              ∧ Some ws ≠ exclude_websocket)
              (get_connected_clients server_api))
  end.

Definition minigame_broadcast_override (message : string)
    (exclude_websocket : option websocket) : Prog unit :=
  g ← get;
  match recipients g message exclude_websocket with
  | Some [] => mret ()
  | Some targets => gather_send targets (Raw message)
  | None =>
      server_log "FreeForAll broadcast override error: list index out of range"
  end.

(** What [_countdown] does when its loop is over, lines 299-302. *)
Definition _countdown_end (gid : nat) : Prog unit :=
  i ← self gid; g ← get;
  if bool_decide (min_players (config g) ≤ Z.of_nat (size (players i)))%Z
  then start_game gid
  else
    update gid (set_state "waiting");;
    broadcast_to_game_players gid
      (Raw "TELLRAW|PLACERSERVER|Not enough players. Countdown cancelled.").

(** The clause [except asyncio.CancelledError] of [_countdown], lines
    303-305. *)
Definition _countdown_cancelled (gid : nat) : Prog unit :=
  update gid (set_state "waiting");;
  broadcast_to_game_players gid
    (Raw "TELLRAW|PLACERSERVER|Countdown cancelled.").

(** The coroutine [_countdown] parked in its [try] block, at the
    [await] where [body] waits. *)
Definition _countdown_parked (gid : nat) (body : Prog unit) : Prog unit :=
  Try body (λ e, if e is CancelledError then true else false)
    (λ _, _countdown_cancelled gid) Ret.

(** [on_unload], lines 671-675: every registered instance gets a task
    that runs [end_game()]; [global_broadcast_task] is the task of the
    periodic broadcast, when [on_load] has started one. *)
Definition on_unload (global_broadcast_task : option nat) : Prog unit :=
  (if global_broadcast_task is Some t then cancel t else mret ());;
  g ← get;
  for_ (active_games g) (λ gid, create_task (end_game gid false);; mret ());;
  g ← get;
  (if active_games g is [] then mret ()
   else modify (set_broadcast_override false));;
  server_log "FreeForAll Plugin: Unloaded.".

End Plugin.

Section GameLoop.
(** The simulation of one tick, lines 373-402 of FreeForAll.py: it
    moves the projectiles and handles the hits, and may raise. *)
Context (simulate : nat → Prog Globals unit).

(** The [try] block of [game_loop], lines 373-403: the simulation, then
    [await asyncio.sleep(1/20)]. *)
Definition tick (gid : nat) : Prog Globals bool :=
  simulate gid;; await sleep;; mret true.

(** The line that [game_loop] logs for an exception; [what] stands for
    the name of its type and its text. *)
Definition game_loop_error (gid : nat) (what : string) : string :=
  "[FreeForAll " +:+ Py.str (Z.of_nat gid) +:+ "] Loop Error: " +:+ what.

(** The loop after [line] was logged. *)
Definition logged (line : string) (w : World Globals) : World Globals :=
  with_globals (set_log (log (globals w) ++ [line]) (globals w)) w.

(** One pass through the [while] loop of [game_loop], lines 372-406:
    the value tells whether the loop goes on. *)
Definition game_loop_pass (gid : nat) : Prog Globals bool :=
  Try (tick gid)
      (λ _, true)
      (λ e, match e with
            | CancelledError => mret false
            | Exception what =>
                modify (λ g, set_log (log g ++ [game_loop_error gid what]) g);;
                mret true
            end)
      Ret.

(** [game_loop], lines 370-406, unrolled [n] times. *)
Fixpoint game_loop (n : nat) (gid : nat) : Prog Globals unit :=
  match n with
  | 0 => mret ()
  | S n' =>
      g ← get;
      if bool_decide (state (instance g gid) = "playing") then
        again ← game_loop_pass gid;
        if (again : bool) then game_loop n' gid else mret ()
      else mret ()
  end.

(** The coroutine [game_loop] parked in the [try] block of a pass, at
    the [await] where [body] waits, with [n] more passes unrolled. *)
Definition game_loop_parked (n : nat) (gid : nat) (body : Prog Globals bool)
  : Prog Globals unit :=
  Try body
      (λ _, true)
      (λ e, match e with
            | CancelledError => mret false
            | Exception what =>
                modify (λ g, set_log (log g ++ [game_loop_error gid what]) g);;
                mret true
            end)
      (λ again : bool, if again then game_loop n gid else mret ()).

End GameLoop.


(** The user [username] is in the roster of [gid] and [player_to_game]
    says so. *)
Definition claimed (gid : nat) (username : string) (g : Globals) : Prop :=
  is_Some (players (instance g gid) !! username)
  ∧ player_to_game g !! username = Some gid.

(** The loop after the frames [frames] have gone out. *)
Definition deliver (frames : list (websocket * frame))
    (w : World Globals) : World Globals :=
  with_globals (set_sent (sent (globals w) ++ frames) (globals w)) w.

(** *** The players in a match, lines 189-211 *)

Definition MAX_HEALTH : Z := 100.
Definition MAX_AMMO : Z := 30.

Module Combat.
(** The attributes of a [Player] that a hit and a respawn read and
    write; [last_shot_time], a reading of the clock, is left out. *)
Record Player := {
  username : string;
  health : Z;
  ammo : Z;
  kills : Z;
  deaths : Z;
  is_reloading : bool;
  reload_task : option nat
}.

(** [Player.__init__] *)
Definition new_Player (username : string) : Player := {|
  username := username;
  health := MAX_HEALTH;
  ammo := MAX_AMMO;
  kills := 0;
  deaths := 0;
  is_reloading := false;
  reload_task := None
|}.

Definition set_health (v : Z) (p : Player) := {|
  username := username p; health := v; ammo := ammo p; kills := kills p;
  deaths := deaths p; is_reloading := is_reloading p;
  reload_task := reload_task p |}.

Definition set_ammo (v : Z) (p : Player) := {|
  username := username p; health := health p; ammo := v; kills := kills p;
  deaths := deaths p; is_reloading := is_reloading p;
  reload_task := reload_task p |}.

Definition set_is_reloading (v : bool) (p : Player) := {|
  username := username p; health := health p; ammo := ammo p;
  kills := kills p; deaths := deaths p; is_reloading := v;
  reload_task := reload_task p |}.

(** [take_damage(amount)], lines 200-205: the player after the call and
    the value returned. *)
Definition take_damage (amount : Z) (self : Player) : Player * bool :=
  let self := set_health (health self - amount) self in
  if bool_decide (health self ≤ 0)%Z then (set_health 0 self, true)
  else (self, false).

(** [respawn()], lines 207-211: the player after the call and the task
    that the call cancels. *)
Definition respawn (self : Player) : Player * option nat :=
  (set_is_reloading false (set_ammo MAX_AMMO (set_health MAX_HEALTH self)),
   reload_task self).

(** A call of one of the two methods, and what it makes of a player. *)
Inductive call :=
| Take_damage (amount : Z)
| Respawn.

Definition perform (p : Player) (c : call) : Player :=
  match c with
  | Take_damage amount => (take_damage amount p).1
  | Respawn => (respawn p).1
  end.
End Combat.

End FreeForAll.

Module Squid_Game.
Import Async Server.

(** [rle_encode(grid)], Squid_Game.py lines 133-144: the sizes are read
    off the grid, [len(grid[0])] raising on an empty grid. *)
Definition rle_encode (grid : list (list Z)) : option string :=
  row0 ← grid !! 0;
  Zombies.rle_encode grid (length row0) (length grid).

(** *** Configuration and state *)

(** The keys of [config] that the orchestration reads; there is no
    [countdown_full]. *)
Record Config := {
  min_players : Z;
  max_players : Z;
  countdown_normal : Z
}.

Definition DEFAULT_CONFIG : Config := {|
  min_players := 1; max_players := 12; countdown_normal := 45
|}.

(** The attributes of a [GameInstance] that joining and the countdown
    use; [tasks] keeps the name and the id of every task the instance
    has started. *)
Record GameInstance := {
  game_id : nat;
  game_state : string;
  players : gset string;
  in_game_players : gset string;
  eliminated_players : gset string;
  tasks : list (string * nat)
}.

(** [GameInstance.__init__] *)
Definition new_GameInstance (game_id : nat) : GameInstance := {|
  game_id := game_id;
  game_state := "waiting";
  players := ∅;
  in_game_players := ∅;
  eliminated_players := ∅;
  tasks := []
|}.

Definition set_game_state (v : string) (i : GameInstance) := {|
  game_id := game_id i; game_state := v; players := players i;
  in_game_players := in_game_players i;
  eliminated_players := eliminated_players i; tasks := tasks i |}.

Definition set_players (v : gset string) (i : GameInstance) := {|
  game_id := game_id i; game_state := game_state i; players := v;
  in_game_players := in_game_players i;
  eliminated_players := eliminated_players i; tasks := tasks i |}.

Definition set_tasks (v : list (string * nat)) (i : GameInstance) := {|
  game_id := game_id i; game_state := game_state i; players := players i;
  in_game_players := in_game_players i;
  eliminated_players := eliminated_players i; tasks := v |}.

Record Globals := {
  config : Config;
  instances : gmap nat GameInstance;
  active_games : list nat;
  player_to_game : gmap string nat;
  next_game_id : nat;
  broadcast_override : bool;
  sent : list (websocket * frame);
  log : list string
}.

Definition set_instances (v : gmap nat GameInstance) (g : Globals) := {|
  config := config g; instances := v; active_games := active_games g;
  player_to_game := player_to_game g; next_game_id := next_game_id g;
  broadcast_override := broadcast_override g; sent := sent g; log := log g |}.

Definition set_player_to_game (v : gmap string nat) (g : Globals) := {|
  config := config g; instances := instances g;
  active_games := active_games g;
  player_to_game := v; next_game_id := next_game_id g;
  broadcast_override := broadcast_override g; sent := sent g; log := log g |}.

Definition set_sent (v : list (websocket * frame)) (g : Globals) := {|
  config := config g; instances := instances g;
  active_games := active_games g;
  player_to_game := player_to_game g; next_game_id := next_game_id g;
  broadcast_override := broadcast_override g; sent := v; log := log g |}.

Definition instance (g : Globals) (gid : nat) : GameInstance :=
  default (new_GameInstance gid) (instances g !! gid).

(** [active_games.get(gid)] *)
Definition active_game (g : Globals) (gid : nat) : option GameInstance :=
  if bool_decide (gid ∈ active_games g) then Some (instance g gid) else None.

(** [username in player_to_game], where [username] may be [None]. *)
Definition in_player_to_game (g : Globals) (username : option string)
  : bool :=
  if username is Some u then bool_decide (is_Some (player_to_game g !! u))
  else false.

Definition set_in_game_players (v : gset string) (i : GameInstance) := {|
  game_id := game_id i; game_state := game_state i; players := players i;
  in_game_players := v;
  eliminated_players := eliminated_players i; tasks := tasks i |}.

Definition set_eliminated_players (v : gset string) (i : GameInstance) := {|
  game_id := game_id i; game_state := game_state i; players := players i;
  in_game_players := in_game_players i;
  eliminated_players := v; tasks := tasks i |}.

Definition set_active_games (v : list nat) (g : Globals) := {|
  config := config g; instances := instances g; active_games := v;
  player_to_game := player_to_game g; next_game_id := next_game_id g;
  broadcast_override := broadcast_override g; sent := sent g; log := log g |}.

Definition set_broadcast_override (v : bool) (g : Globals) := {|
  config := config g; instances := instances g;
  active_games := active_games g;
  player_to_game := player_to_game g; next_game_id := next_game_id g;
  broadcast_override := v; sent := sent g; log := log g |}.

Definition set_log (v : list string) (g : Globals) := {|
  config := config g; instances := instances g;
  active_games := active_games g;
  player_to_game := player_to_game g; next_game_id := next_game_id g;
  broadcast_override := broadcast_override g; sent := sent g; log := v |}.

(** A property of the globals that does not depend on the frames
    sent. *)
Definition silent (P : Globals → Prop) : Prop :=
  ∀ g v, P g → P (set_sent v g).

(** The user [username] is in the roster of [gid] and [player_to_game]
    says so. *)
Definition claimed (gid : nat) (username : string) (g : Globals) : Prop :=
  username ∈ players (instance g gid)
  ∧ player_to_game g !! username = Some gid.

(** The loop after the frames [frames] have gone out. *)
Definition deliver (frames : list (websocket * frame))
    (w : World Globals) : World Globals :=
  with_globals (set_sent (sent (globals w) ++ frames) (globals w)) w.

(** The length of the countdown, line 196: always [countdown_normal]. *)
Definition wait_time (cfg : Config) (i : GameInstance) : Z :=
  countdown_normal cfg.

(** [range(n, 0, -1)] *)
Definition range_down (n : Z) : list Z :=
  (λ k, n - Z.of_nat k)%Z <$> seq 0 (Z.to_nat n).

(** Whether [add_player] lets the player in: lines 179 and 180. *)
Definition joinable (cfg : Config) (i : GameInstance) : bool :=
  bool_decide (game_state i = "waiting") &&
  bool_decide (Z.of_nat (size (players i)) < max_players cfg)%Z.

Section Plugin.
Context (server_api : ServerApi).
(** The match itself is not modelled: [start_game], lines 207-218. *)
Context (start_game : nat → Prog Globals unit).

Local Abbreviation Prog := (Async.Prog Globals).

Definition self (gid : nat) : Prog GameInstance :=
  g ← get; mret (instance g gid).

Definition update (gid : nat) (f : GameInstance → GameInstance)
  : Prog unit :=
  modify (λ g, set_instances (<[gid := f (instance g gid)]> (instances g)) g).

(** [await server_api.send_to_client(ws, message)] *)
Definition send_to_client (ws : websocket) (message : frame) : Prog unit :=
  modify (λ g, set_sent (sent g ++ [(ws, message)]) g);;
  await send.

Definition gather_send (targets : list websocket) (message : frame)
  : Prog unit :=
  modify (λ g, set_sent (sent g ++ ((λ ws, (ws, message)) <$> targets)) g);;
  await gather.

(** [teleport_player], lines 331-335, with [no_world_send=False]. *)
Definition teleport_player (username world : string) (px py : Z)
  : Prog unit :=
  if get_websocket_from_username server_api username is Some ws then
    send_to_client ws (WORLD_DATA world);;
    await sleep;;
    send_to_client ws
      (Raw ("SET_POSITION|PLACERSERVER|" +:+ Py.str px +:+ "|"
            +:+ Py.str py +:+ "|" +:+ username))
  else mret ().

(** [broadcast_to_game_players], lines 337-340. *)
Definition broadcast_to_game_players (gid : nat) (message : frame)
  : Prog unit :=
  i ← self gid;
  for_ (elements (players i)) (λ username,
    if get_websocket_from_username server_api username is Some ws then
      send_to_client ws message
    else mret ()).

(** [despawn_player_from_main_world], lines 342-345. *)
Definition despawn_player_from_main_world (username : string) : Prog unit :=
  g ← get;
  let main_ws :=
    filter (λ ws, in_player_to_game g
                    (get_username_from_websocket server_api ws) = false)
      (get_connected_clients server_api) in
  if main_ws is [] then mret ()
  else gather_send main_ws
         (Raw (username +:+ "|-999|-999|Default|0|0|PLAYER_INFO")).

(** The loop of [countdown_task], lines 196-198: one pass and one
    [await asyncio.sleep(1)] for each second of [wait_time]. *)
Definition countdown_wait (gid : nat) (wait_time : Z) : Prog unit :=
  for_ (range_down wait_time) (λ n,
    (if bool_decide (n `mod` 10 = 0)%Z || bool_decide (n ≤ 5)%Z then
       broadcast_to_game_players gid
         (Raw ("TELLRAW|PLACERSERVER|Game starting in "
               +:+ Py.str n +:+ "..."))
     else mret ());;
    await sleep).

(** The coroutine [countdown_task] of [start_countdown], lines 193-203. *)
Definition countdown_task (gid : nat) : Prog unit :=
  try_except_CancelledError
    (update gid (set_game_state "countdown");;
     i ← self gid; g ← get;
     countdown_wait gid (wait_time (config g) i);;
     i ← self gid; g ← get;
     if bool_decide (min_players (config g) ≤ Z.of_nat (size (players i)))%Z
     then start_game gid
     else
       update gid (set_game_state "waiting");;
       broadcast_to_game_players gid
         (Raw "TELLRAW|PLACERSERVER|Not enough players."))
    (update gid (set_game_state "waiting");;
     broadcast_to_game_players gid
       (Raw "TELLRAW|PLACERSERVER|Countdown cancelled.")).

(** [start_countdown], lines 192-205. *)
Definition start_countdown (gid : nat) : Prog unit :=
  t ← create_task (countdown_task gid);
  update gid (λ i, set_tasks (tasks i ++ [("countdown", t)]) i).

(** [add_player], lines 178-190. *)
Definition add_player (gid : nat) (username : string) : Prog unit :=
  i ← self gid;
  if negb (bool_decide (game_state i = "waiting")) then mret ()
  else
    g ← get;
    if bool_decide (max_players (config g) ≤ Z.of_nat (size (players i)))%Z
    then mret ()
    else
      despawn_player_from_main_world username;;
      update gid (λ i, set_players ({[username]} ∪ players i) i);;
      modify (λ g, set_player_to_game (<[username := gid]> (player_to_game g)) g);;
      teleport_player username "lobby" 800 800;;
      i ← self gid; g ← get;
      broadcast_to_game_players gid
        (Raw ("TELLRAW|PLACERSERVER|" +:+ username +:+ " joined! ("
              +:+ Py.str (Z.of_nat (size (players i))) +:+ "/"
              +:+ Py.str (max_players (config g)) +:+ ")"));;
      i ← self gid; g ← get;
      if bool_decide (min_players (config g) ≤ Z.of_nat (size (players i)))%Z
         && negb (bool_decide ("countdown" ∈ (tasks i).*1))
      then start_countdown gid
      else mret ().

(** [server_api.log(line)] *)
Definition server_log (line : string) : Prog unit :=
  modify (λ g, set_log (log g ++ [line]) g).

(** [despawn_doll_npc], lines 328-329. *)
Definition despawn_doll_npc (gid : nat) : Prog unit :=
  broadcast_to_game_players gid
    (Raw ("RLGL DOLL-" +:+ Py.str (Z.of_nat gid)
          +:+ "|-999|-999|Default|0|0|PLAYER_INFO")).

(** [generate_end_game_image], lines 79-98; a [winner] that is the
    empty string counts as none. *)
Definition generate_end_game_image (gid : nat) (winner : option string)
  : Prog unit :=
  try_except_Exception
    (broadcast_to_game_players gid
       (SHOW_IMAGE (match winner with
                    | None | Some EmptyString => "Time's Up!"
                    | Some name => name +:+ " Wins!"
                    end)))
    (λ what, server_log
       ("RLGL_Image: Error generating end game image: " +:+ what)).

(** [_end_game_task], lines 284-304.  The statistics and the read of
    [worlds/world.pw] are left out; the lobby position is that of the
    default configuration.  The rosters of the instance are not
    emptied. *)
Definition _end_game_task (gid : nat) (winner : option string) : Prog unit :=
  try_except_Exception
    (broadcast_to_game_players gid (Raw "HIDE_IMAGE|PLACERSERVER|");;
     despawn_doll_npc gid;;
     generate_end_game_image gid winner;;
     await sleep;;
     i ← self gid;
     for_ (elements (players i)) (λ username,
       modify (λ g, set_player_to_game (delete username (player_to_game g)) g);;
       teleport_player username "worlds/world.pw" 500 1100);;
     modify (λ g, set_active_games (filter (λ k, k ≠ gid) (active_games g)) g);;
     g ← get;
     if active_games g is [] then modify (set_broadcast_override false)
     else mret ())
    (λ what, server_log ("RLGL Error (_end_game_task): " +:+ what)).

(** [end_game], lines 277-282. *)
Definition end_game (gid : nat) (winner : option string) : Prog unit :=
  i ← self gid;
  if bool_decide (game_state i = "ended") then mret ()
  else
    update gid (set_game_state "ended");;
    for_ (tasks i) (λ task, cancel task.2);;
    update gid (set_tasks []);;
    create_task (_end_game_task gid winner);;
    mret ().

(** [remove_player], lines 306-316. *)
Definition remove_player (gid : nat) (username : string) : Prog unit :=
  update gid (λ i,
    set_eliminated_players (eliminated_players i ∖ {[username]})
      (set_in_game_players (in_game_players i ∖ {[username]})
         (set_players (players i ∖ {[username]}) i)));;
  modify (λ g, set_player_to_game (delete username (player_to_game g)) g);;
  broadcast_to_game_players gid
    (Raw ("TELLRAW|PLACERSERVER|" +:+ username +:+ " left."));;
  broadcast_to_game_players gid
    (Raw (username +:+ "|-999|-999|Default|0|0|PLAYER_INFO"));;
  i ← self gid;
  (if bool_decide (size (in_game_players i) < 1)
      && bool_decide (game_state i = "playing")
   then end_game gid None
   else mret ());;
  i ← self gid; g ← get;
  if bool_decide (Z.of_nat (size (players i)) < min_players (config g))%Z
     && bool_decide (game_state i = "countdown")
  then
    for_ (tasks i) (λ task,
      if bool_decide (task.1 = "countdown") then cancel task.2 else mret ())
  else mret ().


(** What [countdown_task] does when its loop is over, lines 200-201. *)
Definition countdown_task_end (gid : nat) : Prog unit :=
  i ← self gid; g ← get;
  if bool_decide (min_players (config g) ≤ Z.of_nat (size (players i)))%Z
  then start_game gid
  else
    update gid (set_game_state "waiting");;
    broadcast_to_game_players gid
      (Raw "TELLRAW|PLACERSERVER|Not enough players.").

(** The clause [except asyncio.CancelledError] of [countdown_task],
    lines 202-203. *)
Definition countdown_task_cancelled (gid : nat) : Prog unit :=
  update gid (set_game_state "waiting");;
  broadcast_to_game_players gid
    (Raw "TELLRAW|PLACERSERVER|Countdown cancelled.").

(** The coroutine [countdown_task] parked in its [try] block, at the
    [await] where [body] waits. *)
Definition countdown_task_parked (gid : nat) (body : Prog unit)
  : Prog unit :=
  Try body (λ e, if e is CancelledError then true else false)
    (λ _, countdown_task_cancelled gid) Ret.

(** *** The broadcast override, lines 348-364 *)

Definition sender_username (message : string)
    (exclude_websocket : option websocket) : option string :=
  let parts := Py.split "|" message in
  if Py.substring_in "PLAYER_INFO" message then parts !! 0
  else if bool_decide (2 < length parts)
          && Py.substring_in "PLACERCLIENT" message
  then parts !! 2
  else exclude_websocket ≫= get_username_from_websocket server_api.

Definition recipients (g : Globals) (message : string)
    (exclude_websocket : option websocket) : list websocket :=
  match sender_username message exclude_websocket
          ≫= (player_to_game g !!.) with
  | Some sender_game_id =>
      if active_game g sender_game_id is Some game then
        omap id
          (filter (λ ws, ws ≠ exclude_websocket)
             (get_websocket_from_username server_api
                <$> elements (players game)))
      else []
  | None =>
      filter (λ ws,
        in_player_to_game g
          (get_username_from_websocket server_api ws) = false
        ∧ Some ws ≠ exclude_websocket)
        (get_connected_clients server_api)
  end.

End Plugin.

(** *** The statistics, lines 128-131 *)

(** [update_player_stat(username, stat, value)]: the dictionary of a
    user that is not in the table starts as [{"wins": 0}]. *)
Definition update_player_stat (player_stats : Zombies.Stats)
    (username stat : string) (value : Z) : Zombies.Stats :=
  let stats := default {[ "wins" := 0%Z ]} (player_stats !! username) in
  <[username := <[stat := (default 0 (stats !! stat) + value)%Z]> stats]>
    player_stats.

Definition credit (player_stats : Zombies.Stats) (c : string * string * Z)
  : Zombies.Stats :=
  update_player_stat player_stats c.1.1 c.1.2 c.2.

End Squid_Game.

(** ** Concrete situations *)

Module Scenario.
Import Async Server.

(** Four connections: [x], [y], [z] and [w] on the sockets 1 to 4. *)
Definition four_users : ServerApi :=
  api_of_table [(1, Some "x"); (2, Some "y"); (3, Some "z"); (4, Some "w")].

(** Zombies: instance 0 with roster [{x, y}], instance 1 with roster
    [{z}], both registered; [w] is in the main world. *)
Definition zombies_two_games : Zombies.Globals := {|
  Zombies.config := Zombies.DEFAULT_CONFIG;
  Zombies.instances :=
    {[ 0 := Zombies.set_lobby_players {[ "x"; "y" ]}
              (Zombies.set_players {[ "x"; "y" ]} (Zombies.new_GameInstance 0));
       1 := Zombies.set_lobby_players {[ "z" ]}
              (Zombies.set_players {[ "z" ]} (Zombies.new_GameInstance 1)) ]};
  Zombies.active_games := [0; 1];
  Zombies.player_to_game := {[ "x" := 0; "y" := 0; "z" := 1 ]};
  Zombies.next_game_id := 2;
  Zombies.broadcast_override := true;
  Zombies.sent := [];
  Zombies.log := []
|}.

(** The same situation in FreeForAll, whose ids start at 1. *)
Definition freeforall_two_games : FreeForAll.Globals := {|
  FreeForAll.config := FreeForAll.DEFAULT_CONFIG;
  FreeForAll.instances :=
    {[ 1 := FreeForAll.set_lobby_players {[ "x"; "y" ]}
              (FreeForAll.set_players
                 {[ "x" := FreeForAll.new_Player; "y" := FreeForAll.new_Player ]}
                 (FreeForAll.new_GameInstance 1));
       2 := FreeForAll.set_lobby_players {[ "z" ]}
              (FreeForAll.set_players {[ "z" := FreeForAll.new_Player ]}
                 (FreeForAll.new_GameInstance 2)) ]};
  FreeForAll.active_games := [1; 2];
  FreeForAll.player_to_game := {[ "x" := 1; "y" := 1; "z" := 2 ]};
  FreeForAll.next_game_id := 3;
  FreeForAll.game_creation_lock := false;
  FreeForAll.broadcast_override := true;
  FreeForAll.sent := [];
  FreeForAll.log := []
|}.

(** The same situation in Squid_Game. *)
Definition squid_two_games : Squid_Game.Globals := {|
  Squid_Game.config := Squid_Game.DEFAULT_CONFIG;
  Squid_Game.instances :=
    {[ 0 := Squid_Game.set_players {[ "x"; "y" ]} (Squid_Game.new_GameInstance 0);
       1 := Squid_Game.set_players {[ "z" ]} (Squid_Game.new_GameInstance 1) ]};
  Squid_Game.active_games := [0; 1];
  Squid_Game.player_to_game := {[ "x" := 0; "y" := 0; "z" := 1 ]};
  Squid_Game.next_game_id := 2;
  Squid_Game.broadcast_override := true;
  Squid_Game.sent := [];
  Squid_Game.log := []
|}.

(** Nine connections: [a] to [i] on the sockets 1 to 9. *)
Definition nine_users : ServerApi :=
  api_of_table [(1, Some "a"); (2, Some "b"); (3, Some "c"); (4, Some "d");
                (5, Some "e"); (6, Some "f"); (7, Some "g"); (8, Some "h");
                (9, Some "i")].

(** The simulation of a tick that does nothing. *)
Definition quiet_tick (gid : nat) : Prog Zombies.Globals Zombies.flow :=
  mret Zombies.go_on.

(** The server calls [on_message] of Zombies for a click of the user of
    [ws] on the join NPC. *)
Definition zombies_click (api : ServerApi) (ws : websocket)
  : event Zombies.Globals :=
  Call (Zombies.on_message_DAMAGE api quiet_tick 1 ws "Zombies (0 Players)"
          (default "" (get_username_from_websocket api ws));; mret ()).

(** Nine clicks arrive one after the other; each handler runs to its
    first [await]; then each is resumed once. *)
Definition zombies_nine_joins : list (event Zombies.Globals) :=
  (zombies_click nine_users <$> seq 1 9)
  ++ (Turn <$> seq 0 9) ++ (Turn <$> seq 0 9).

(** [start_game] of FreeForAll left out: the scenarios end before a
    countdown does. *)
Definition no_match (gid : nat) : Prog FreeForAll.Globals unit := mret ().

Definition freeforall_click (api : ServerApi) (ws : websocket)
  : event FreeForAll.Globals :=
  Call (FreeForAll.on_message_DAMAGE api no_match ws "Shooter (0 Playing)"
          (default "" (get_username_from_websocket api ws));; mret ()).

Definition freeforall_nine_joins : list (event FreeForAll.Globals) :=
  (freeforall_click nine_users <$> seq 1 9)
  ++ (Turn <$> seq 0 9) ++ (Turn <$> seq 0 9).

(** The user [a] clicks; the handler waits in [add_player] for the
    despawn frames to go out.  Meanwhile [b] to [i] join, each handler
    given two turns, and fill the instance.  [a] clicks again; then both
    handlers of [a] are resumed. *)
Definition zombies_double_click : list (event Zombies.Globals) :=
  [zombies_click nine_users 1; Turn 0]
  ++ concat ((λ k, [zombies_click nine_users (S k); Turn k; Turn k])
               <$> seq 1 8)
  ++ [zombies_click nine_users 1; Turn 9; Turn 0; Turn 9].

Definition freeforall_double_click : list (event FreeForAll.Globals) :=
  [freeforall_click nine_users 1; Turn 0]
  ++ concat ((λ k, [freeforall_click nine_users (S k); Turn k; Turn k])
               <$> seq 1 8)
  ++ [freeforall_click nine_users 1; Turn 9; Turn 0; Turn 9].

(** The countdown of instance 0 of [zombies_two_games], run up to its
    first [await]: the send of the first announcement. *)
Definition zombies_countdown_started
  : World Zombies.Globals * status unit :=
  advance (Zombies.countdown_body four_users quiet_tick 1 0)
    (idle zombies_two_games).

Definition zombies_countdown_waits : Prog Zombies.Globals unit :=
  if zombies_countdown_started.2 is Parked body then body else Ret ().

(** A simulation that sends a frame and then divides by zero. *)
Definition zombies_bad_tick (gid : nat) : Prog Zombies.Globals Zombies.flow :=
  Zombies.send_to_client 1 (Raw "TELLRAW|PLACERSERVER|ROUND 1 INCOMING!");;
  Raise (Exception "division by zero").

Definition freeforall_bad_tick (gid : nat) : Prog FreeForAll.Globals unit :=
  FreeForAll.send_to_client 1 (Raw "OBJECT_DESTROY|PLACERSERVER|7");;
  Raise (Exception "ZeroDivisionError - division by zero").

(** [zombies_two_games] with instance 0 playing. *)
Definition zombies_playing : Zombies.Globals :=
  Zombies.set_instances
    (<[0 := Zombies.set_game_state "playing"
              (Zombies.instance zombies_two_games 0)]>
       (Zombies.instances zombies_two_games)) zombies_two_games.

(** [freeforall_two_games] with instance 1 playing. *)
Definition freeforall_playing : FreeForAll.Globals :=
  FreeForAll.set_instances
    (<[1 := FreeForAll.set_state "playing"
              (FreeForAll.instance freeforall_two_games 1)]>
       (FreeForAll.instances freeforall_two_games)) freeforall_two_games.

(** [squid_two_games] with instance 0, whose roster holds two players
    of at most twelve, in its countdown. *)
Definition squid_countdown : Squid_Game.Globals :=
  Squid_Game.set_instances
    (<[0 := Squid_Game.set_game_state "countdown"
              (Squid_Game.instance squid_two_games 0)]>
       (Squid_Game.instances squid_two_games)) squid_two_games.

(** [start_game] of Squid_Game left out. *)
Definition no_round (gid : nat) : Prog Squid_Game.Globals unit := mret ().

(** A roster of twelve. *)
Definition twelve_players : gset string :=
  {[ "a"; "b"; "c"; "d"; "e"; "f"; "g"; "h"; "i"; "j"; "k"; "l" ]}.

(** [zombies_two_games] with instance 0 in its countdown: the
    coroutine [countdown] is task 0 and waits where
    [zombies_countdown_waits] does. *)
Definition zombies_counting : World Zombies.Globals := {|
  globals :=
    Zombies.set_instances
      (<[0 := Zombies.set_countdown_task (Some 0)
                (Zombies.set_game_state "countdown"
                   (Zombies.instance zombies_two_games 0))]>
         (Zombies.instances zombies_two_games)) zombies_two_games;
  pool := {[ 0 := Zombies.countdown_parked four_users 0
                    zombies_countdown_waits ]};
  next_task := 1;
  must_cancel := ∅
|}.

(** The connections of [x] and of [y] close, one after the other, and
    both handlers run to their end; then the countdown gets its turn. *)
Definition zombies_both_leave : list (event Zombies.Globals) :=
  [Call (Zombies.on_disconnect four_users 1); Turn 1; Turn 1; Turn 1;
   Call (Zombies.on_disconnect four_users 2); Turn 2;
   Turn 0].

(** The position frame of [x], as a client sends it. *)
Definition position_of_x : string := "x|10|20|Default|0|0|PLAYER_INFO".

(** [squid_two_games] with a task named [countdown], the task 0, on
    the record of instance 0, which waits: its countdown was
    cancelled. *)
Definition squid_counted : Squid_Game.Globals :=
  Squid_Game.set_instances
    (<[0 := Squid_Game.set_tasks [("countdown", 0)]
              (Squid_Game.instance squid_two_games 0)]>
       (Squid_Game.instances squid_two_games)) squid_two_games.


(** Squid_Game after [on_load] with one registered instance, the
    instance 0, whose roster is [roster]. *)
Definition squid_lobby (roster : gset string) : Squid_Game.Globals := {|
  Squid_Game.config := Squid_Game.DEFAULT_CONFIG;
  Squid_Game.instances :=
    {[ 0 := Squid_Game.set_players roster (Squid_Game.new_GameInstance 0) ]};
  Squid_Game.active_games := [0];
  Squid_Game.player_to_game := gset_to_gmap 0 roster;
  Squid_Game.next_game_id := 1;
  Squid_Game.broadcast_override := true;
  Squid_Game.sent := [];
  Squid_Game.log := []
|}.

(** The server calls [on_message] of Zombies for a click of the user
    of [ws] on the join NPC and the handler, the task [t], is given
    [n] turns. *)
Definition zombies_join (ws : websocket) (t n : nat)
  : list (event Zombies.Globals) :=
  zombies_click four_users ws :: replicate n (Turn t).

Definition freeforall_join (ws : websocket) (t n : nat)
  : list (event FreeForAll.Globals) :=
  freeforall_click four_users ws :: replicate n (Turn t).

(** The connection [ws] closes and the handler, the task [t], is given
    [n] turns. *)
Definition zombies_leave (ws : websocket) (t n : nat)
  : list (event Zombies.Globals) :=
  Call (Zombies.on_disconnect four_users ws) :: replicate n (Turn t).

Definition freeforall_leave (ws : websocket) (t n : nat)
  : list (event FreeForAll.Globals) :=
  Call (FreeForAll.on_disconnect four_users ws) :: replicate n (Turn t).

(** Zombies with the default configuration, from [on_load]: [x] and
    [y] join, each handler run to its end, and the second join starts
    the countdown, the task 2, which gets its first turn; then the
    connections of [x] and of [y] close, each handler run to its end.
    The second [remove_player] calls [end_game], which starts the
    teardown, the task 5. *)
Definition zombies_lobby_empties : list (event Zombies.Globals) :=
  zombies_join 1 0 6 ++ zombies_join 2 1 7 ++ [Turn 2]
  ++ zombies_leave 1 3 3 ++ zombies_leave 2 4 1.

(** The same in FreeForAll, where [remove_player] awaits [end_game]:
    the handler of the second close, the task 4, waits in the
    teardown. *)
Definition freeforall_lobby_empties : list (event FreeForAll.Globals) :=
  freeforall_join 1 0 6 ++ freeforall_join 2 1 6 ++ [Turn 2]
  ++ freeforall_leave 1 3 3 ++ freeforall_leave 2 4 1.

(** The server unloads the plugin: [on_unload] is the task 6. *)
Definition zombies_unload : list (event Zombies.Globals) :=
  [Call (Zombies.on_unload four_users None); Turn 6].

(** In FreeForAll [on_unload], the task 5, creates the task 6 for
    [end_game], which gets its first turn. *)
Definition freeforall_unload : list (event FreeForAll.Globals) :=
  [Call (FreeForAll.on_unload four_users None); Turn 5; Turn 6].

(** The configurations with [min_players] set to 1. *)
Definition zombies_solo_config : Zombies.Config := {|
  Zombies.min_players := 1; Zombies.max_players := 8;
  Zombies.countdown_normal := 40; Zombies.countdown_full := 10
|}.

Definition freeforall_solo_config : FreeForAll.Config := {|
  FreeForAll.min_players := 1; FreeForAll.max_players := 8;
  FreeForAll.countdown_normal := 30; FreeForAll.countdown_full := 10
|}.

(** [w] joins, the handler run to its end, and the connection of [w]
    closes at once; the tasks then get their turns in the order in
    which they were created: the countdown that the join started, the
    task 1, and the teardown, the task 3. *)
Definition zombies_solo_leaves_at_once : list (event Zombies.Globals) :=
  zombies_join 4 0 6 ++ zombies_leave 4 2 1.

(** The countdown has had its first turn when the connection of [w]
    closes. *)
Definition zombies_solo_leaves_later : list (event Zombies.Globals) :=
  zombies_join 4 0 6 ++ [Turn 1] ++ zombies_leave 4 2 1.

Definition freeforall_solo_leaves_later : list (event FreeForAll.Globals) :=
  freeforall_join 4 0 6 ++ [Turn 1] ++ freeforall_leave 4 2 1.
End Scenario.

(** * Lemmas and theorems *)

(** ** Facts about the Python primitives *)

Module PyFacts.
Import Py.

Lemma split_nonempty sep s : split sep s ≠ [].
Proof. induction s as [|c s IH]; simpl; [done|]. repeat case_match; done. Qed.

Lemma split_free sep s : contains sep s = false → split sep s = [s].
Proof.
  induction s as [|c s IH]; simpl; [done|].
  intros [Hc Hs]%orb_false_iff. rewrite Hc, (IH Hs). done.
Qed.

Lemma split_app sep p rest :
  contains sep p = false →
  split sep (p +:+ String sep rest) = p :: split sep rest.
Proof.
  induction p as [|c p IH]; simpl.
  - intros _. by rewrite Ascii.eqb_refl.
  - intros [Hc Hp]%orb_false_iff. rewrite Hc, (IH Hp). done.
Qed.

Lemma split_join sep parts :
  parts ≠ [] →
  Forall (λ p, contains sep p = false) parts →
  split sep (join (String sep "") parts) = parts.
Proof.
  intros Hne Hall. induction Hall as [|p ps Hp Hps IH]; [done|].
  destruct ps as [|q ps]; simpl.
  - by apply split_free.
  - change (String sep "" +:+ ?s) with (String sep s).
    rewrite split_app by done. f_equal. by apply IH.
Qed.

Lemma contains_app c s t : contains c (s +:+ t) = contains c s || contains c t.
Proof. induction s as [|a s IH]; simpl; [done|]. by rewrite IH, orb_assoc. Qed.

Lemma uint_digits c d :
  is_digit c = false → contains c (NilEmpty.string_of_uint d) = false.
Proof.
  intros Hc.
  induction d; cbn [NilEmpty.string_of_uint contains]; [done|..].
  all: rewrite IHd, orb_false_r.
  all: apply Ascii.eqb_neq; intros <-; by vm_compute in Hc.
Qed.

Lemma str_free c z :
  is_digit c = false → c ≠ "-"%char → contains c (str z) = false.
Proof.
  intros Hd Hm. unfold str.
  assert (∀ u, contains c (NilZero.string_of_uint u) = false) as Hu.
  { intros u. destruct u; try apply (uint_digits c _ Hd).
    cbn [NilZero.string_of_uint contains]. rewrite orb_false_r.
    apply Ascii.eqb_neq; intros <-.
    by vm_compute in Hd. }
  destruct (Z.to_int z); cbn [NilZero.string_of_int contains]; [apply Hu|].
  rewrite Hu, orb_false_r. apply Ascii.eqb_neq. congruence.
Qed.

Lemma int_str z : int (str z) = Some z.
Proof.
  unfold int, str. rewrite NilZero.isi.
  - simpl. by rewrite DecimalZ.of_to.
  - destruct z; simpl; [done| |done]. intros [= H]. by apply Unsigned.to_uint_nonnil in H.
  - destruct z; simpl; [done|done|]. intros [= H]. by apply Unsigned.to_uint_nonnil in H.
Qed.

End PyFacts.

(** ** The run-length encoder *)

Module RleFacts.
Import Py PyFacts Rle.

Lemma for_each_none {A B} (f : B → A → option B) l :
  foldl (λ ob a, ob ≫= λ acc, f acc a) None l = None.
Proof. induction l; simpl; auto. Qed.

Lemma for_each_cons {A B} (f : B → A → option B) x l b :
  for_each f (x :: l) b = f b x ≫= for_each f l.
Proof.
  unfold for_each. simpl. destruct (f b x); simpl; [done|apply for_each_none].
Qed.

Lemma for_each_nil {A B} (f : B → A → option B) b : for_each f [] b = Some b.
Proof. done. Qed.

Lemma for_each_ext {A B} (f g : B → A → option B) l b :
  (∀ acc a, f acc a = g acc a) → for_each f l b = for_each g l b.
Proof.
  intros Hfg. revert b. induction l as [|x l IH]; intros b; [done|].
  rewrite !for_each_cons, Hfg. destruct (g b x); simpl; auto.
Qed.

(** Walking the indices of a list visits its elements in order. *)
Lemma for_each_lookup {A B} (f : B → A → B) (pre l : list A) b :
  for_each (λ acc i, f acc <$> (pre ++ l) !! i) (seq (length pre) (length l)) b
  = Some (foldl f b l).
Proof.
  revert pre b. induction l as [|x l IH]; intros pre b; [done|].
  cbn [length seq]. rewrite for_each_cons.
  rewrite list_lookup_middle by done. simpl.
  specialize (IH (pre ++ [x]) (f b x)).
  rewrite <- (assoc_L (++)), length_app in IH. simpl in IH.
  by rewrite Nat.add_1_r in IH.
Qed.

Lemma expand_snoc runs n v :
  expand (runs ++ [(n, v)]) = expand runs ++ replicate n v.
Proof. unfold expand. rewrite fmap_app, concat_app. simpl. by rewrite app_nil_r. Qed.

Lemma visit_represents a cells x :
  represents a cells → represents (visit a x) (cells ++ [x]).
Proof.
  intros (runs & Hparts & Hpos & Hcells & Hcur). unfold visit, pending in *.
  destruct (current_id a) as [cur|] eqn:Ecur.
  - case_decide as Hx; subst.
    + exists runs. unfold pending. simpl. split_and!; [done|done| |lia].
      rewrite <- (assoc_L (++)). f_equal.
      change (cur :: replicate (count a) cur) with (replicate (1 + count a) cur).
      change [cur] with (replicate 1 cur).
      rewrite <- replicate_add. f_equal. lia.
    + exists (runs ++ [(count a, cur)]). unfold pending. simpl. split_and!.
      * by rewrite fmap_app, Hparts.
      * apply Forall_app. split; [done|]. by apply Forall_singleton.
      * by rewrite expand_snoc.
      * done.
  - exists runs. unfold pending. simpl.
    split_and!; [done|done| |done]. by rewrite <- Hcells, app_nil_r.
Qed.

Lemma foldl_visit_represents cells : represents (foldl visit init cells) cells.
Proof.
  induction cells as [|x cells IH] using rev_ind.
  - exists []. by split_and!.
  - rewrite foldl_app. simpl. by apply visit_represents.
Qed.

(** The text is the comma-separated list of a sequence of runs that
    stands for the cells. *)
Lemma encode_cells_runs cells :
  cells ≠ [] →
  ∃ runs, encode_cells cells = join "," (part_of <$> runs)
        ∧ runs ≠ []
        ∧ Forall (λ r, 1 ≤ r.1) runs
        ∧ expand runs = cells.
Proof.
  intros Hne. destruct (foldl_visit_represents cells)
    as (runs & Hparts & Hpos & Hcells & Hcur).
  unfold encode_cells, finish, flush, pending in *.
  destruct (current_id _) as [cur|]; [|done].
  exists (runs ++ [(count (foldl visit init cells), cur)]). split_and!.
  - by rewrite fmap_app, Hparts.
  - by destruct runs.
  - apply Forall_app. split; [done|]. by apply Forall_singleton.
  - by rewrite expand_snoc.
Qed.

Lemma part_no_comma n v : contains "," (part n v) = false.
Proof.
  unfold part. case_decide; rewrite ?contains_app, ?str_free; done.
Qed.

Lemma parse_run_part n v : 1 ≤ n → parse_run (part n v) = Some (n, v).
Proof.
  intros Hn. unfold parse_run, part. case_decide.
  - change ("x" +:+ ?s) with (String "x" s).
    rewrite split_app, split_free by (by apply str_free).
    rewrite !int_str. simpl. by rewrite Nat2Z.id.
  - rewrite split_free by (by apply str_free).
    rewrite int_str. simpl. do 2 f_equal. lia.
Qed.

Lemma parse_runs_join runs :
  runs ≠ [] → Forall (λ r, 1 ≤ r.1) runs →
  parse_runs (join "," (part_of <$> runs)) = Some runs.
Proof.
  intros Hne Hpos. unfold parse_runs.
  rewrite split_join.
  - apply mapM_Some. apply Forall2_fmap_l.
    apply Forall_Forall2_diag. eapply Forall_impl; [done|].
    intros [n v] ?. by apply parse_run_part.
  - by destruct runs.
  - apply Forall_fmap. apply Forall_true. intros [n v]. apply part_no_comma.
Qed.

Lemma expand_length runs : length (expand runs) = sum_list (fst <$> runs).
Proof.
  unfold expand. induction runs as [|[n v] runs IH]; [done|].
  simpl. rewrite length_app, length_replicate. by f_equal.
Qed.

(** On a rectangular grid the nested index loops of Zombies.py walk
    the cells in row-major order and never raise. *)
Lemma zombies_rle_encode_cells grid w h :
  length grid = h → Forall (λ row, length row = w) grid →
  Zombies.rle_encode grid w h = Some (encode_cells (concat grid)).
Proof.
  intros Hh Hw. unfold Zombies.rle_encode, encode_cells.
  assert (∀ pre rows a, Forall (λ row, length row = w) rows →
    for_each (λ a y, for_each (λ a x, visit a <$> Zombies.cell (pre ++ rows) y x)
                       (seq 0 w) a)
      (seq (length pre) (length rows)) a
    = Some (foldl visit a (concat rows))) as Hgen.
  { intros pre rows. revert pre.
    induction rows as [|row rows IH]; intros pre a Hrows; [done|].
    apply Forall_cons in Hrows as [Hrow Hrows].
    cbn [length seq]. rewrite for_each_cons.
    rewrite (for_each_ext _ (λ a x, visit a <$> ([] ++ row) !! x)).
    2:{ intros acc x. unfold Zombies.cell.
        by rewrite list_lookup_middle. }
    pose proof (for_each_lookup visit [] row a) as Hwalk.
    rewrite Hrow in Hwalk. simpl in Hwalk. simpl. rewrite Hwalk. simpl.
    rewrite foldl_app.
    specialize (IH (pre ++ [row]) (foldl visit a row) Hrows).
    rewrite <- (assoc_L (++)), length_app in IH. simpl in IH.
    by rewrite Nat.add_1_r in IH. }
  subst h. specialize (Hgen [] grid init Hw). simpl in Hgen.
  by rewrite Hgen.
Qed.

Lemma freeforall_rle_visit rest ps cur n :
  (let '(parts, current_id, count) :=
     foldl FreeForAll.rle_visit (ps, cur, n) rest in
   join "," (parts ++ [part count current_id]))
  = finish (foldl visit (Acc ps (Some cur) n) rest).
Proof.
  revert ps cur n. induction rest as [|x rest IH]; intros ps cur n; [done|].
  simpl. unfold visit at 2. simpl. case_decide; subst; apply IH.
Qed.

Lemma freeforall_rle_encode_cells grid w h :
  concat grid ≠ [] →
  FreeForAll.rle_encode grid w h = encode_cells (concat grid).
Proof.
  intros Hne. unfold FreeForAll.rle_encode, encode_cells.
  destruct (concat grid) as [|first rest]; [done|].
  apply freeforall_rle_visit.
Qed.

Lemma squid_rle_encode_cells grid w h :
  0 < h → length grid = h → Forall (λ row, length row = w) grid →
  Squid_Game.rle_encode grid = Some (encode_cells (concat grid)).
Proof.
  intros Hpos Hh Hw. unfold Squid_Game.rle_encode.
  destruct grid as [|row0 grid]; [simpl in *; lia|]. simpl.
  pose proof (Forall_inv Hw) as Hrow0. simpl in Hrow0.
  rewrite Hrow0. by apply zombies_rle_encode_cells.
Qed.

Lemma concat_length_rect {A} (grid : list (list A)) w :
  Forall (λ row, length row = w) grid →
  length (concat grid) = w * length grid.
Proof.
  induction 1 as [|row grid Hrow _ IH]; simpl; [lia|].
  rewrite length_app, IH, Hrow. lia.
Qed.

End RleFacts.

Example rle_encode_small :
Zombies.rle_encode [[1; 1]; [2; -1]]%Z 2 2 = Some "2x1,2,-1"
∧ FreeForAll.rle_encode [[1; 1]; [2; -1]]%Z 2 2 = "2x1,2,-1"
∧ Squid_Game.rle_encode [[1; 1]; [2; -1]]%Z = Some "2x1,2,-1"
∧ Rle.rle_decode "2x1,2,-1" = Some [1; 1; 2; -1]%Z.
Proof. by vm_compute. Qed.

Example rle_encode_out_of_range :
Zombies.rle_encode [[1; 1]; [2]]%Z 2 2 = None.
Proof. by vm_compute. Qed.

(** C10. On a non-empty rectangular grid of [h] rows and [w] columns the
    three copies of [rle_encode] return the same text; that text is the
    comma-separated list of a sequence of runs, each written [NxV] when
    its length [N] exceeds one and [V] when it is one; the run lengths add
    up to [w * h]; and reading the runs back, in order, gives the cells of
    the grid in row-major order, which is what the decoder returns. *)
Theorem rle_encode_roundtrip (grid : list (list Z)) (w h : nat) :
  0 < w → 0 < h →
  length grid = h → Forall (λ row, length row = w) grid →
  ∃ text runs,
    Zombies.rle_encode grid w h = Some text
    ∧ FreeForAll.rle_encode grid w h = text
    ∧ Squid_Game.rle_encode grid = Some text
    ∧ text = Py.join "," ((λ r, Rle.part r.1 r.2) <$> runs)
    ∧ Forall (λ r, 1 ≤ r.1) runs
    ∧ Rle.parse_runs text = Some runs
    ∧ sum_list (fst <$> runs) = w * h
    ∧ Rle.expand runs = concat grid
    ∧ Rle.rle_decode text = Some (concat grid).
Proof.
  intros Hw Hh Hlen Hrect.
  assert (concat grid ≠ []) as Hne.
  { intros Hnil. apply (f_equal length) in Hnil.
    rewrite (RleFacts.concat_length_rect grid w Hrect) in Hnil.
    simpl in Hnil. nia. }
  destruct (RleFacts.encode_cells_runs _ Hne) as (runs & Htext & Hruns & Hpos & Hexp).
  pose proof (RleFacts.parse_runs_join runs Hruns Hpos) as Hparse.
  fold Rle.part_of in *. rewrite <- Htext in Hparse.
  exists (Rle.encode_cells (concat grid)), runs. split_and!.
  - by apply RleFacts.zombies_rle_encode_cells.
  - by apply RleFacts.freeforall_rle_encode_cells.
  - by eapply RleFacts.squid_rle_encode_cells.
  - done.
  - done.
  - done.
  - rewrite <- RleFacts.expand_length, Hexp, <- Hlen.
    by apply RleFacts.concat_length_rect.
  - done.
  - unfold Rle.rle_decode. rewrite Hparse. simpl. by rewrite Hexp.
Qed.

Lemma rle_encode_roundtrip_witness :
  let grid := [[1; 1]; [2; -1]]%Z in
  (0 < 2 ∧ 0 < 2 ∧ length grid = 2 ∧ Forall (λ row, length row = 2) grid)
  ∧ ∃ text runs,
    Zombies.rle_encode grid 2 2 = Some text
    ∧ FreeForAll.rle_encode grid 2 2 = text
    ∧ Squid_Game.rle_encode grid = Some text
    ∧ text = Py.join "," ((λ r, Rle.part r.1 r.2) <$> runs)
    ∧ Forall (λ r, 1 ≤ r.1) runs
    ∧ Rle.parse_runs text = Some runs
    ∧ sum_list (fst <$> runs) = 2 * 2
    ∧ Rle.expand runs = concat grid
    ∧ Rle.rle_decode text = Some (concat grid).
Proof.
  intros grid.
  assert (0 < 2 ∧ 0 < 2 ∧ length grid = 2 ∧ Forall (λ row, length row = 2) grid)
    as H.
  { split_and!; [lia|lia|reflexivity|]. repeat constructor. }
  split; [exact H|].
  destruct H as (H1 & H2 & H3 & H4).
  exact (rle_encode_roundtrip grid 2 2 H1 H2 H3 H4).
Defined.

(** ** The parts of the plugins that do not wait *)

Module MatchFacts.
Import FreeForAll.

(** The search for the player with the most kills, over a list. *)
Lemma best_of_list (l : list (string * Player)) (best0 : option (string * Player)) :
  match foldl (λ best c,
                 match best with
                 | None => Some c
                 | Some b => if (kills b.2 <? kills c.2)%Z then Some c else Some b
                 end) best0 l with
  | Some w =>
      (w ∈ l ∨ best0 = Some w)
      ∧ (∀ c, c ∈ l → (kills c.2 ≤ kills w.2)%Z)
      ∧ (∀ b, best0 = Some b → (kills b.2 ≤ kills w.2)%Z)
  | None => l = [] ∧ best0 = None
  end.
Proof.
  revert best0. induction l as [|c l IH]; intros best0; simpl.
  - destruct best0 as [b|]; [|done]. split_and!.
    + by right.
    + intros c Hc. by apply not_elem_of_nil in Hc.
    + intros b' [= ->]. lia.
  - match goal with |- context [foldl ?f ?b0 l] => specialize (IH b0) end.
    destruct (foldl _ _ l) as [w|].
    + destruct IH as (Hin & Hmax & Hbest). split_and!.
      * destruct Hin as [Hin|Hin].
        -- left. by apply list_elem_of_further.
        -- destruct best0 as [b|].
           ++ destruct (kills b.2 <? kills c.2)%Z; injection Hin as <-.
              ** left. apply list_elem_of_here.
              ** by right.
           ++ injection Hin as <-. left. apply list_elem_of_here.
      * intros c' [->|Hc']%elem_of_cons; [|by apply Hmax].
        destruct best0 as [b|].
        -- destruct (kills b.2 <? kills c.2)%Z eqn:Hlt.
           ++ by apply Hbest.
           ++ apply Z.ltb_ge in Hlt. specialize (Hbest b eq_refl). lia.
        -- by apply Hbest.
      * intros b ->.
        destruct (kills b.2 <? kills c.2)%Z eqn:Hlt.
        -- apply Z.ltb_lt in Hlt. specialize (Hbest c eq_refl). lia.
        -- by apply Hbest.
    + destruct IH as [_ IH]. by destruct best0 as [b|]; [destruct (_ <? _)%Z|].
Qed.

End MatchFacts.

(** X5.  The winner that [end_game] of FreeForAll announces, line 342,
    is a player of the instance, and no player of the instance has more
    kills; there is no winner exactly when the instance has no
    player. *)
Theorem winner_has_the_most_kills (i : FreeForAll.GameInstance) :
  match FreeForAll.winner i with
  | Some w =>
      FreeForAll.players i !! w.1 = Some w.2
      ∧ ∀ username p,
          FreeForAll.players i !! username = Some p →
          (FreeForAll.kills p ≤ FreeForAll.kills w.2)%Z
  | None => FreeForAll.players i = ∅
  end.
Proof.
  unfold FreeForAll.winner.
  pose proof (MatchFacts.best_of_list (map_to_list (FreeForAll.players i)) None)
    as H.
  destruct (foldl _ None _) as [w|].
  - destruct H as ([Hin|?] & Hmax & _); [|done]. split.
    + destruct w as [u p]. by apply elem_of_map_to_list in Hin.
    + intros username p Hp.
      apply (Hmax (username, p)). by apply elem_of_map_to_list.
  - destruct H as [H _]. by apply map_to_list_empty_iff.
Qed.

Module StatsFacts.
Import Zombies.

Lemma new_stats_zero stat : default 0%Z (new_stats !! stat) = 0%Z.
Proof.
  unfold new_stats.
  destruct (decide (stat = "wins")) as [->|?]; [done|].
  rewrite lookup_insert_ne by done.
  destruct (decide (stat = "kills")) as [->|?]; [done|].
  rewrite lookup_insert_ne by done.
  destruct (decide (stat = "games_played")) as [->|?]; [done|].
  by rewrite lookup_singleton_ne.
Qed.

(** What a dictionary that starts at zero and the table say of a
    statistic after one more call. *)
Lemma stat_of_insert (player_stats : Stats) (fresh : gmap string Z)
    u s v u' s' :
  (∀ stat, default 0%Z (fresh !! stat) = 0%Z) →
  let stats := default fresh (player_stats !! u) in
  stat_of (<[u := <[s := (default 0 (stats !! s) + v)%Z]> stats]> player_stats)
    u' s'
  = (stat_of player_stats u' s'
     + if bool_decide (u = u' ∧ s = s') then v else 0)%Z.
Proof.
  intros Hfresh stats. unfold stat_of, Stats in *.
  destruct (decide (u = u')) as [<-|Hu].
  - rewrite lookup_insert_eq. simpl.
    destruct (decide (s = s')) as [<-|Hs].
    + rewrite lookup_insert_eq, bool_decide_eq_true_2 by done. simpl.
      unfold stats. destruct (player_stats !! u); simpl; [done|].
      by rewrite Hfresh.
    + rewrite lookup_insert_ne, bool_decide_eq_false_2 by (try done; intros []; done).
      unfold stats. destruct (player_stats !! u); simpl; [lia|].
      rewrite Hfresh. lia.
  - rewrite lookup_insert_ne, bool_decide_eq_false_2 by (try done; intros []; done).
    lia.
Qed.

Lemma stat_of_update player_stats u s v u' s' :
  stat_of (update_player_stat player_stats u s v) u' s'
  = (stat_of player_stats u' s'
     + if bool_decide (u = u' ∧ s = s') then v else 0)%Z.
Proof.
  pose proof (stat_of_insert player_stats new_stats u s v u' s' new_stats_zero)
    as H. cbv zeta in H.
  unfold update_player_stat, get_player_stats. unfold Stats in *.
  destruct (player_stats !! u) as [stats|] eqn:Hu; simpl in H |- *.
  - done.
  - rewrite insert_insert_eq. rewrite H. done.
Qed.

Lemma squid_stat_of_update player_stats u s v u' s' :
  stat_of (Squid_Game.update_player_stat player_stats u s v) u' s'
  = (stat_of player_stats u' s'
     + if bool_decide (u = u' ∧ s = s') then v else 0)%Z.
Proof.
  apply (stat_of_insert player_stats {[ "wins" := 0%Z ]}).
  intros stat. destruct (decide (stat = "wins")) as [->|?]; [done|].
  by rewrite lookup_singleton_ne.
Qed.

Lemma stat_of_credits (f : Stats → string * string * Z → Stats)
    player_stats credits u s :
  (∀ ps c u' s',
     stat_of (f ps c) u' s'
     = (stat_of ps u' s'
        + if bool_decide (c.1.1 = u' ∧ c.1.2 = s') then c.2 else 0)%Z) →
  stat_of (foldl f player_stats credits) u s
  = (stat_of player_stats u s + credited u s credits)%Z.
Proof.
  intros Hf. revert player_stats.
  induction credits as [|c credits IH]; intros player_stats; simpl.
  - lia.
  - rewrite IH, Hf. case_bool_decide; lia.
Qed.

End StatsFacts.

(** X6.  [update_player_stat] adds up: after any sequence of calls,
    the statistic [stat] of [username] is what it was, zero for a user
    or a statistic that the table did not hold, plus the values that
    the calls for this user and this statistic added; the other
    entries of the table are as they were.  In Zombies and in
    Squid_Game, whose dictionaries for a new user differ. *)
Theorem update_player_stat_adds_up (player_stats : Zombies.Stats)
    (credits : list (string * string * Z)) (username stat : string) :
  Zombies.stat_of (foldl Zombies.credit player_stats credits) username stat
  = (Zombies.stat_of player_stats username stat
     + Zombies.credited username stat credits)%Z
  ∧ Zombies.stat_of (foldl Squid_Game.credit player_stats credits)
      username stat
    = (Zombies.stat_of player_stats username stat
       + Zombies.credited username stat credits)%Z.
Proof.
  split; apply StatsFacts.stat_of_credits; intros ps [[u s] v] u' s'.
  - apply StatsFacts.stat_of_update.
  - apply StatsFacts.squid_stat_of_update.
Qed.

Module ConfigFacts.
Import Zombies.

Lemma fill_in_union {V} (items : list (string * V)) (config : gmap string V) :
  NoDup items.*1 →
  foldl (λ config item,
           if config !! item.1 is Some _ then config
           else <[item.1 := item.2]> config) config items
  = config ∪ list_to_map items.
Proof.
  revert config. induction items as [|[k v] items IH]; intros config Hnd.
  - simpl. by rewrite (right_id_L ∅ (∪)).
  - apply NoDup_cons in Hnd as [Hk Hnd]. simpl. rewrite IH by done.
    apply map_eq. intros k'.
    rewrite !lookup_union.
    destruct (decide (k = k')) as [<-|Hne].
    + rewrite lookup_insert_eq.
      rewrite (not_elem_of_list_to_map_1 _ k) by done.
      destruct (config !! k) as [v0|] eqn:Hc.
      * rewrite Hc. done.
      * rewrite lookup_insert_eq. done.
    + rewrite (lookup_insert_ne _ k k') by done.
      destruct (config !! k) as [v0|] eqn:Hc; [done|].
      by rewrite lookup_insert_ne.
Qed.

Lemma load_config_union {V} (D : gmap string V) file :
  load_config D file = default D file ∪ D.
Proof.
  unfold load_config. rewrite fill_in_union.
  - by rewrite list_to_map_to_list.
  - apply NoDup_fst_map_to_list.
Qed.

End ConfigFacts.

(** X7.  [load_config] fills in the defaults: a key that the
    configuration file holds keeps the value of the file, also a key
    that [DEFAULT_CONFIG] does not have, and a key that the file misses
    gets the value of [DEFAULT_CONFIG]; without a file the
    configuration is [DEFAULT_CONFIG].  Loading the configuration that
    was saved gives it back. *)
Theorem load_config_fills_in_the_defaults {V} (DEFAULT_CONFIG : gmap string V)
    (file : option (gmap string V)) (key : string) :
  Zombies.load_config DEFAULT_CONFIG file !! key
  = match file ≫= (.!! key) with
    | Some v => Some v
    | None => DEFAULT_CONFIG !! key
    end
  ∧ Zombies.load_config DEFAULT_CONFIG
      (Some (Zombies.load_config DEFAULT_CONFIG file))
    = Zombies.load_config DEFAULT_CONFIG file.
Proof.
  rewrite !ConfigFacts.load_config_union. split.
  - rewrite lookup_union. destruct file as [f|]; simpl.
    + by destruct (f !! key), (DEFAULT_CONFIG !! key).
    + by destruct (DEFAULT_CONFIG !! key).
  - simpl. by rewrite <- (assoc_L (∪)), (idemp_L (∪)).
Qed.

Module CombatFacts.
Import FreeForAll FreeForAll.Combat.

Lemma take_damage_health amount p :
  health (take_damage amount p).1 = Z.max 0 (health p - amount).
Proof.
  unfold take_damage. simpl. case_bool_decide; simpl; lia.
Qed.

Lemma take_damage_dead amount p :
  (take_damage amount p).2 = true ↔ health (take_damage amount p).1 = 0%Z.
Proof.
  unfold take_damage. simpl. case_bool_decide; simpl; [done|].
  split; [done|lia].
Qed.

Lemma perform_bounds p c :
  (if c is Take_damage amount then 0 ≤ amount else True)%Z →
  (0 ≤ health p ≤ MAX_HEALTH)%Z →
  (0 ≤ health (perform p c) ≤ MAX_HEALTH)%Z.
Proof.
  destruct c as [amount|]; simpl perform.
  - rewrite take_damage_health. lia.
  - intros _ _. simpl. unfold MAX_HEALTH. lia.
Qed.

End CombatFacts.

(** X8.  The health of a player of FreeForAll stays between 0 and
    [MAX_HEALTH] through any sequence of calls of [take_damage], with
    amounts that are not negative, and of [respawn]; and [take_damage]
    returns [True] exactly when it leaves the health at 0. *)
Theorem health_stays_within_bounds (username : string)
    (calls : list FreeForAll.Combat.call) :
  Forall (λ c, if c is FreeForAll.Combat.Take_damage amount
               then (0 ≤ amount)%Z else True) calls →
  let p := foldl FreeForAll.Combat.perform
             (FreeForAll.Combat.new_Player username) calls in
  (0 ≤ FreeForAll.Combat.health p ≤ FreeForAll.MAX_HEALTH)%Z
  ∧ ∀ amount,
      (FreeForAll.Combat.take_damage amount p).2 = true
      ↔ FreeForAll.Combat.health (FreeForAll.Combat.take_damage amount p).1
        = 0%Z.
Proof.
  intros Hcalls p. split; [|intros; apply CombatFacts.take_damage_dead].
  unfold p. clear p.
  assert (0 ≤ FreeForAll.Combat.health (FreeForAll.Combat.new_Player username)
          ≤ FreeForAll.MAX_HEALTH)%Z as H0.
  { simpl. unfold FreeForAll.MAX_HEALTH. lia. }
  revert H0. generalize (FreeForAll.Combat.new_Player username).
  induction Hcalls as [|c calls Hc _ IH]; intros p Hp; simpl.
  - done.
  - apply IH. by apply CombatFacts.perform_bounds.
Qed.

(** Three hits of 34 on a fresh player. *)
Lemma health_stays_within_bounds_witness :
  let calls := [FreeForAll.Combat.Take_damage 34;
                FreeForAll.Combat.Take_damage 34;
                FreeForAll.Combat.Take_damage 34] in
  let p := foldl FreeForAll.Combat.perform
             (FreeForAll.Combat.new_Player "x") calls in
  (0 ≤ FreeForAll.Combat.health p ≤ FreeForAll.MAX_HEALTH)%Z
  ∧ ∀ amount,
      (FreeForAll.Combat.take_damage amount p).2 = true
      ↔ FreeForAll.Combat.health (FreeForAll.Combat.take_damage amount p).1
        = 0%Z.
Proof.
  apply (health_stays_within_bounds "x").
  repeat constructor; simpl; lia.
Defined.

Module ZombieFacts.
Import Zombies.

Section March.
Context (gravity speed ground core_x : Z).
Context (Hgravity : (0 < gravity)%Z) (Hspeed : (0 < speed ≤ TILE_SIZE)%Z).

Local Abbreviation step := (λ z, (move_zombie gravity speed ground core_x z).1).

Lemma march_S n z :
  march gravity speed ground core_x (S n) z
  = march gravity speed ground core_x n (step z).
Proof. unfold march. by rewrite Nat.iter_succ_r. Qed.

Lemma march_add n m z :
  march gravity speed ground core_x (n + m) z
  = march gravity speed ground core_x n (march gravity speed ground core_x m z).
Proof. unfold march. by rewrite Nat.iter_add. Qed.

(** A zombie that stands at the core stays there and hits it. *)
Lemma at_the_core z :
  Zombie.y z = ground →
  (Z.abs (core_x - Zombie.x z) ≤ TILE_SIZE `div` 2)%Z →
  move_zombie gravity speed ground core_x z = (z, true).
Proof.
  intros Hy Hx. unfold move_zombie.
  rewrite bool_decide_eq_false_2 by lia.
  cbv zeta. simpl Zombie.x.
  rewrite bool_decide_eq_false_2 by lia.
  destruct z. simpl in *. by subst.
Qed.

Lemma at_the_core_march n z :
  Zombie.y z = ground →
  (Z.abs (core_x - Zombie.x z) ≤ TILE_SIZE `div` 2)%Z →
  march gravity speed ground core_x n z = z.
Proof.
  intros Hy Hx. induction n as [|n IH]; [done|].
  rewrite march_S. by rewrite at_the_core.
Qed.

(** A zombie on the ground walks to the core. *)
Lemma walks_to_the_core (k : nat) z :
  Zombie.y z = ground →
  (Z.abs (core_x - Zombie.x z) ≤ Z.of_nat k)%Z →
  ∃ n, let z' := march gravity speed ground core_x n z in
       Zombie.y z' = ground
       ∧ (Z.abs (core_x - Zombie.x z') ≤ TILE_SIZE `div` 2)%Z.
Proof.
  revert z. induction (lt_wf k) as [k _ IH]. intros z Hy Hx.
  destruct (decide (Z.abs (core_x - Zombie.x z) ≤ TILE_SIZE `div` 2)%Z)
    as [Hnear|Hfar].
  - by exists 0.
  - change (TILE_SIZE `div` 2)%Z with 20%Z in *. unfold TILE_SIZE in Hspeed.
    set (z1 := step z).
    assert (Zombie.y z1 = ground
            ∧ (Z.abs (core_x - Zombie.x z1) < Z.abs (core_x - Zombie.x z)
               ∨ Z.abs (core_x - Zombie.x z1) ≤ 20)%Z) as [Hy1 Hx1].
    { unfold z1, move_zombie.
      rewrite bool_decide_eq_false_2 by lia. cbv zeta. simpl Zombie.x.
      change (TILE_SIZE `div` 2)%Z with 20%Z.
      rewrite bool_decide_eq_true_2 by lia. simpl.
      split; [done|]. case_bool_decide; lia. }
    destruct (IH (Z.to_nat (Z.abs (core_x - Zombie.x z1) `min` (Z.of_nat k - 1)))
                ltac:(lia) z1 Hy1) as [n Hn].
    + destruct Hx1 as [Hx1|Hx1]; lia.
    + exists (S n). by rewrite march_S.
Qed.

(** A zombie in the air comes to the ground. *)
Lemma falls_to_the_ground (k : nat) z :
  (ground - Zombie.y z ≤ Z.of_nat k)%Z →
  ∃ n, Zombie.y (march gravity speed ground core_x n z) = ground.
Proof.
  revert z. induction (lt_wf k) as [k _ IH]. intros z Hk.
  destruct (decide (Zombie.y z < ground)%Z) as [Hair|Hdown].
  - destruct (decide (ground < Zombie.y z + gravity)%Z) as [Hlands|Hfalls].
    + exists 1. unfold march. simpl. unfold move_zombie.
      rewrite bool_decide_eq_true_2 by done. cbv zeta.
      by rewrite bool_decide_eq_true_2.
    + set (z1 := step z).
      assert (Zombie.y z1 = Zombie.y z + gravity)%Z as Hy1.
      { unfold z1, move_zombie.
        rewrite bool_decide_eq_true_2 by done. cbv zeta.
        by rewrite bool_decide_eq_false_2. }
      destruct (IH (Z.to_nat (ground - Zombie.y z1)) ltac:(lia) z1 ltac:(lia))
        as [n Hn].
      exists (S n). by rewrite march_S.
  - exists 1. unfold march. simpl. unfold move_zombie.
    rewrite bool_decide_eq_false_2 by done. cbv zeta.
    by case_bool_decide.
Qed.

End March.
End ZombieFacts.

(** X9.  A zombie comes to the core: when [zombie_gravity] is positive
    and [zombie_speed] is positive and at most [TILE_SIZE], a zombie
    that stays in [active_zombies] is, after enough passes of
    [game_loop], on the ground and within half a tile of the core, and
    from then on it stays where it is and takes a point off the core
    at every pass. *)
Theorem zombie_reaches_the_core (zombie_gravity zombie_speed : Z)
    (ground_pixel_level core_x : Z) (z : Zombies.Zombie.t) :
  (0 < zombie_gravity)%Z →
  (0 < zombie_speed ≤ Zombies.TILE_SIZE)%Z →
  ∃ n, ∀ m, n ≤ m →
    let z' := Zombies.march zombie_gravity zombie_speed ground_pixel_level
                core_x m z in
    Zombies.Zombie.y z' = ground_pixel_level
    ∧ (Z.abs (core_x - Zombies.Zombie.x z') ≤ Zombies.TILE_SIZE `div` 2)%Z
    ∧ Zombies.move_zombie zombie_gravity zombie_speed ground_pixel_level
        core_x z' = (z', true).
Proof.
  intros Hgravity Hspeed.
  (* the fall, then the walk on the ground *)
  destruct (ZombieFacts.falls_to_the_ground zombie_gravity zombie_speed
              ground_pixel_level core_x Hgravity
              (Z.to_nat (ground_pixel_level - Zombies.Zombie.y z)) z
              ltac:(lia)) as [n1 Hn1].
  set (z1 := Zombies.march zombie_gravity zombie_speed ground_pixel_level
               core_x n1 z) in *.
  destruct (ZombieFacts.walks_to_the_core zombie_gravity zombie_speed
              ground_pixel_level core_x Hspeed
              (Z.to_nat (Z.abs (core_x - Zombies.Zombie.x z1))) z1 Hn1
              ltac:(lia)) as [n2 [Hy2 Hx2]].
  set (z2 := Zombies.march zombie_gravity zombie_speed ground_pixel_level
               core_x n2 z1) in *.
  exists (n2 + n1). intros m Hm.
  replace m with ((m - (n2 + n1)) + (n2 + n1)) by lia.
  rewrite ZombieFacts.march_add, (ZombieFacts.march_add _ _ _ _ n2 n1).
  fold z1. fold z2.
  rewrite ZombieFacts.at_the_core_march by done.
  cbv zeta. split_and!; [done|done|]. by apply ZombieFacts.at_the_core.
Qed.

(** The zombie that spawns eleven tiles to the right of the core of
    the world of 120 by 80 tiles, under the default configuration. *)
Lemma zombie_reaches_the_core_witness :
  ∃ n, ∀ m, n ≤ m →
    let z' := Zombies.march 8 4 1505 2420 m
                {| Zombies.Zombie.name := "Zombie-0";
                   Zombies.Zombie.x := 2860; Zombies.Zombie.y := 1125;
                   Zombies.Zombie.hp := 20; Zombies.Zombie.is_master := false;
                   Zombies.Zombie.last_hit_by := None |} in
    Zombies.Zombie.y z' = 1505%Z
    ∧ (Z.abs (2420 - Zombies.Zombie.x z') ≤ Zombies.TILE_SIZE `div` 2)%Z
    ∧ Zombies.move_zombie 8 4 1505 2420 z' = (z', true).
Proof.
  apply (zombie_reaches_the_core 8 4 1505 2420).
  - lia.
  - unfold Zombies.TILE_SIZE. lia.
Defined.

Module WorldFacts.
Import Py Zombies RleFacts.

(** A grid of [h] rows of [w] cells. *)
Local Abbreviation rect w h grid :=
  (length grid = Z.to_nat h ∧ Forall (λ row : list Z, length row = Z.to_nat w) grid).

Lemma index_in_range n i :
  (0 ≤ i < Z.of_nat n)%Z → index n i = Some (Z.to_nat i).
Proof. intros. unfold index. by rewrite bool_decide_eq_true_2. Qed.

Lemma set_block_in_range grid row y x block :
  grid !! Z.to_nat y = Some row →
  (0 ≤ y)%Z → (0 ≤ x < Z.of_nat (length row))%Z →
  set_block grid y x block
  = Some (<[Z.to_nat y := <[Z.to_nat x := block]> row]> grid).
Proof.
  intros Hrow Hy Hx. unfold set_block, getitem, setitem.
  pose proof (lookup_lt_Some _ _ _ Hrow).
  rewrite !(index_in_range (length grid)) by lia. simpl.
  rewrite Hrow. simpl.
  by rewrite index_in_range by lia.
Qed.

Lemma set_block_rect grid w h y x block :
  rect w h grid → (0 ≤ y < h)%Z → (0 ≤ x < w)%Z →
  ∃ grid', set_block grid y x block = Some grid'
           ∧ rect w h grid'
           ∧ cell grid' (Z.to_nat y) (Z.to_nat x) = Some block.
Proof.
  intros [Hh Hw] Hy Hx.
  destruct (grid !! Z.to_nat y) as [row|] eqn:Hrow.
  2:{ apply lookup_ge_None in Hrow. lia. }
  assert (length row = Z.to_nat w) as Hlen.
  { by apply (Forall_lookup_1 _ _ _ _ Hw Hrow). }
  pose proof (lookup_lt_Some _ _ _ Hrow).
  eexists. split; [apply (set_block_in_range _ row); [done|lia|lia]|].
  split_and!.
  - by rewrite length_insert.
  - apply Forall_insert; [done|]. by rewrite length_insert.
  - unfold cell. rewrite list_lookup_insert_eq by lia. simpl.
    apply list_lookup_insert_eq. lia.
Qed.

Lemma for_each_keeps {A B} (P : B → Prop) (Q : A → Prop)
    (f : B → A → option B) l b :
  Forall Q l → P b →
  (∀ b a, P b → Q a → ∃ b', f b a = Some b' ∧ P b') →
  ∃ b', for_each f l b = Some b' ∧ P b'.
Proof.
  intros Hl Hb Hf. revert b Hb.
  induction Hl as [|a l Ha _ IH]; intros b Hb.
  - by exists b.
  - rewrite for_each_cons. destruct (Hf b a Hb Ha) as (b1 & -> & Hb1).
    simpl. by apply IH.
Qed.

Lemma range_bounds a b : Forall (λ i, a ≤ i < b)%Z (range a b).
Proof.
  unfold range. apply Forall_fmap, Forall_forall. intros k Hk.
  apply elem_of_seq in Hk. simpl. lia.
Qed.

Lemma empty_world_rect w h : rect w h (empty_world w h).
Proof.
  unfold empty_world. split.
  - by rewrite length_replicate.
  - apply Forall_replicate. by rewrite length_replicate.
Qed.

Lemma lobby_world_rect w h :
  (11 ≤ w)%Z → (11 ≤ h)%Z →
  ∃ grid, lobby_world w h = Some grid ∧ rect w h grid.
Proof.
  intros Hw Hh. unfold lobby_world.
  destruct (for_each_keeps (λ grid, rect w h grid) (λ x, 0 ≤ x < w)%Z
              (λ world_data x,
                 world_data ← set_block world_data (h - 10) x 2;
                 set_block world_data 10 x 18)
              (range 0 w) (empty_world w h))
    as (g1 & -> & Hg1).
  { apply range_bounds. }
  { apply empty_world_rect. }
  { intros b x Hb Hx.
    destruct (set_block_rect b w h (h - 10) x 2) as (b1 & -> & Hb1 & _);
      [done|lia|lia|]. simpl.
    destruct (set_block_rect b1 w h 10 x 18) as (b2 & -> & Hb2 & _);
      [done|lia|lia|]. by exists b2. }
  simpl.
  destruct (for_each_keeps (λ grid, rect w h grid) (λ y, 10 ≤ y < h - 9)%Z
              (λ world_data y,
                 world_data ← set_block world_data y 0 2;
                 set_block world_data y (w - 1) 2)
              (range 10 (h - 9)) g1)
    as (g2 & -> & Hg2).
  { apply range_bounds. }
  { done. }
  { intros b y Hb Hy.
    destruct (set_block_rect b w h y 0 2) as (b1 & -> & Hb1 & _);
      [done|lia|lia|]. simpl.
    destruct (set_block_rect b1 w h y (w - 1) 2) as (b2 & -> & Hb2 & _);
      [done|lia|lia|]. by exists b2. }
  simpl.
  destruct (set_block_rect g2 w h (h - 11) 10 15) as (g3 & -> & Hg3 & _);
    [done|lia|lia|]. simpl.
  destruct (set_block_rect g3 w h (h - 11) (w - 11) 10) as (g4 & -> & Hg4 & _);
    [done|lia|lia|].
  by exists g4.
Qed.

Lemma game_world_rect w h :
  (11 ≤ w)%Z → (11 ≤ h)%Z →
  ∃ grid, game_world w h = Some grid ∧ rect w h grid
          ∧ cell grid (Z.to_nat (h `div` 2 - 1)) (Z.to_nat (w `div` 2))
            = Some 12%Z.
Proof.
  intros Hw Hh. unfold game_world. cbv zeta.
  assert (0 < h `div` 2 ∧ h `div` 2 < h)%Z as Hsurface.
  { split; [apply Z.div_str_pos; lia|apply Z.div_lt; lia]. }
  assert (5 ≤ w `div` 2 ∧ w `div` 2 + 5 < w)%Z as Hcenter.
  { pose proof (Z.div_mod w 2 ltac:(lia)).
    pose proof (Z.mod_pos_bound w 2 ltac:(lia)). lia. }
  destruct (for_each_keeps (λ grid, rect w h grid) (λ x, 0 ≤ x < w)%Z
              (λ world_data x,
                 world_data ← set_block world_data (h `div` 2) x 1;
                 for_each (λ world_data dy,
                     if bool_decide (h `div` 2 + dy < h)%Z
                     then set_block world_data (h `div` 2 + dy) x 0
                     else Some world_data)
                   (range 1 5) world_data)
              (range 0 w) (empty_world w h))
    as (g1 & -> & Hg1).
  { apply range_bounds. }
  { apply empty_world_rect. }
  { intros b x Hb Hx.
    destruct (set_block_rect b w h (h `div` 2) x 1) as (b1 & -> & Hb1 & _);
      [done|lia|lia|]. simpl.
    apply (for_each_keeps (λ grid, rect w h grid) (λ dy, 1 ≤ dy < 5)%Z);
      [apply range_bounds|done|].
    intros b2 dy Hb2 Hdy. case_bool_decide.
    - destruct (set_block_rect b2 w h (h `div` 2 + dy) x 0)
        as (b3 & -> & Hb3 & _); [done|lia|lia|]. by exists b3.
    - by exists b2. }
  simpl.
  destruct (set_block_rect g1 w h (h `div` 2 - 1) (w `div` 2 - 5) 11)
    as (g2 & -> & Hg2 & _); [done|lia|lia|]. simpl.
  destruct (set_block_rect g2 w h (h `div` 2 - 1) (w `div` 2 + 5) 11)
    as (g3 & -> & Hg3 & _); [done|lia|lia|]. simpl.
  destruct (set_block_rect g3 w h (h `div` 2 - 1) (w `div` 2) 12)
    as (g4 & -> & Hg4 & Hcore); [done|lia|lia|].
  by exists g4.
Qed.

Lemma decode_encode_cells cells :
  cells ≠ [] → Rle.rle_decode (Rle.encode_cells cells) = Some cells.
Proof.
  intros Hne.
  destruct (encode_cells_runs _ Hne) as (runs & Htext & Hruns & Hpos & Hexp).
  unfold Rle.rle_decode. rewrite Htext, parse_runs_join by done.
  simpl. by rewrite Hexp.
Qed.

End WorldFacts.

(** X10.  [generate_world] of Zombies for an instance of at least 11
    by 11 tiles raises no [IndexError] for either world; the grid it
    builds has [world_height] rows of [world_width] cells; the text it
    puts in the field [data] decodes to the cells of that grid, row by
    row; and in the world of the game the tile under [core_position] is
    the block 12 of the core. *)
Theorem generate_world_decodes (world_width world_height : Z)
    (is_game_world : bool) :
  (11 ≤ world_width)%Z → (11 ≤ world_height)%Z →
  ∃ world_data text,
    (if is_game_world then Zombies.game_world world_width world_height
     else Zombies.lobby_world world_width world_height) = Some world_data
    ∧ length world_data = Z.to_nat world_height
    ∧ Forall (λ row, length row = Z.to_nat world_width) world_data
    ∧ Zombies.generate_world world_width world_height is_game_world
      = Some {| Zombies.width := world_width; Zombies.height := world_height;
                Zombies.data := text |}
    ∧ Rle.rle_decode text = Some (concat world_data)
    ∧ (is_game_world = true →
       let '(core_x, core_y) :=
         Zombies.core_position world_width world_height in
       Zombies.cell world_data
         (Z.to_nat (core_y `div` Zombies.TILE_SIZE))
         (Z.to_nat (core_x `div` Zombies.TILE_SIZE)) = Some 12%Z).
Proof.
  intros Hw Hh.
  assert (∃ world_data,
            (if is_game_world then Zombies.game_world world_width world_height
             else Zombies.lobby_world world_width world_height)
            = Some world_data
            ∧ (length world_data = Z.to_nat world_height
               ∧ Forall (λ row, length row = Z.to_nat world_width) world_data)
            ∧ (is_game_world = true →
               Zombies.cell world_data
                 (Z.to_nat (world_height `div` 2 - 1))
                 (Z.to_nat (world_width `div` 2)) = Some 12%Z))
    as (world_data & Hgrid & [Hrows Hcols] & Hcore).
  { destruct is_game_world.
    - destruct (WorldFacts.game_world_rect world_width world_height Hw Hh)
        as (grid & ? & ? & ?). by exists grid.
    - destruct (WorldFacts.lobby_world_rect world_width world_height Hw Hh)
        as (grid & ? & ?). by exists grid. }
  exists world_data, (Rle.encode_cells (concat world_data)).
  assert (concat world_data ≠ []) as Hne.
  { intros Hnil. apply (f_equal length) in Hnil.
    rewrite (RleFacts.concat_length_rect _ _ Hcols) in Hnil.
    simpl in Hnil. nia. }
  split_and!; try done.
  - unfold Zombies.generate_world. rewrite Hgrid. simpl.
    by rewrite (RleFacts.zombies_rle_encode_cells _ _ _ Hrows Hcols).
  - by apply WorldFacts.decode_encode_cells.
  - intros Hgame. unfold Zombies.core_position, Zombies.TILE_SIZE.
    replace ((world_height `div` 2 - 1) * 40 + 40 `div` 2)%Z
      with (20 + (world_height `div` 2 - 1) * 40)%Z by (change (40 `div` 2)%Z with 20%Z; lia).
    replace (world_width `div` 2 * 40 + 40 `div` 2)%Z
      with (20 + world_width `div` 2 * 40)%Z by (change (40 `div` 2)%Z with 20%Z; lia).
    rewrite !Z.div_add by lia.
    change (20 `div` 40)%Z with 0%Z. rewrite !Z.add_0_l. by apply Hcore.
Qed.

(** The two worlds of an instance: 120 by 80 tiles. *)
Lemma generate_world_decodes_witness :
  ∃ world_data text,
    Zombies.game_world 120 80 = Some world_data
    ∧ length world_data = Z.to_nat 80
    ∧ Forall (λ row, length row = Z.to_nat 120) world_data
    ∧ Zombies.generate_world 120 80 true
      = Some {| Zombies.width := 120; Zombies.height := 80;
                Zombies.data := text |}
    ∧ Rle.rle_decode text = Some (concat world_data)
    ∧ (true = true →
       let '(core_x, core_y) := Zombies.core_position 120 80 in
       Zombies.cell world_data
         (Z.to_nat (core_y `div` Zombies.TILE_SIZE))
         (Z.to_nat (core_x `div` Zombies.TILE_SIZE)) = Some 12%Z).
Proof.
  apply (generate_world_decodes 120 80 true); lia.
Defined.

(** X14.  In Squid_Game a frame that carries [PLAYER_INFO] is
    attributed to its first field: when that field is the name of a
    player of a registered instance, the override sends the frame to
    the connections of the roster of that instance, the excluded one
    apart, and to no one else. *)
Theorem squid_position_frame_stays_in_the_instance (api : Server.ServerApi)
    (g : Squid_Game.Globals) (name rest : string)
    (exclude : option Server.websocket) (gid : nat) :
  Py.contains "|" name = false →
  Py.substring_in "PLAYER_INFO" (name +:+ "|" +:+ rest) = true →
  Squid_Game.player_to_game g !! name = Some gid →
  gid ∈ Squid_Game.active_games g →
  ∀ ws,
    ws ∈ Squid_Game.recipients api g (name +:+ "|" +:+ rest) exclude
    ↔ Some ws ≠ exclude
      ∧ ∃ p, p ∈ Squid_Game.players (Squid_Game.instance g gid)
             ∧ Server.get_websocket_from_username api p = Some ws.
Proof.
  intros Hname Hinfo Hdir Hlive ws.
  unfold Squid_Game.recipients, Squid_Game.sender_username.
  rewrite Hinfo.
  change (name +:+ "|" +:+ rest) with (name +:+ String "|" rest).
  rewrite PyFacts.split_app by done. simpl. rewrite Hdir.
  unfold Squid_Game.active_game. rewrite bool_decide_eq_true_2 by done.
  rewrite list_elem_of_omap. split.
  - intros (o & Ho & Hws). simpl in Hws. subst o.
    apply list_elem_of_filter in Ho as [Hne Ho].
    apply list_elem_of_fmap in Ho as (p & Hp & Hin).
    apply elem_of_elements in Hin. split; [done|]. by exists p.
  - intros (Hne & p & Hin & Hp). exists (Some ws). split; [|done].
    apply list_elem_of_filter. split; [done|].
    apply list_elem_of_fmap. exists p. split; [done|].
    by apply elem_of_elements.
Qed.

(** The position frame of [x], with the connection of [x] excluded,
    and the connection of [y]. *)
Lemma squid_position_frame_stays_in_the_instance_witness :
  2 ∈ Squid_Game.recipients Scenario.four_users Scenario.squid_two_games
        ("x" +:+ "|" +:+ "10|20|Default|0|0|PLAYER_INFO") (Some 1)
  ↔ Some 2 ≠ Some 1
    ∧ ∃ p, p ∈ Squid_Game.players
                 (Squid_Game.instance Scenario.squid_two_games 0)
           ∧ Server.get_websocket_from_username Scenario.four_users p
             = Some 2.
Proof.
  apply (squid_position_frame_stays_in_the_instance Scenario.four_users
           Scenario.squid_two_games "x" "10|20|Default|0|0|PLAYER_INFO"
           (Some 1) 0).
  - reflexivity.
  - reflexivity.
  - reflexivity.
  - apply (bool_decide_unpack _). by vm_compute.
Defined.

(** ** The broadcast override *)

Module RoutingFacts.
Import Async Server.

Section Zombies.
Context (server_api : ServerApi).
Import Zombies.

(** X4.  Once the sender is worked out, the override of Zombies
    follows the directory: the recipients are the connections of the
    roster of the sender's registered instance, or those of the main
    world, without the excluded one. *)
Lemma zombies_recipients_of_sender g message exclude sender :
  sender_username server_api message exclude = Some sender →
  ∃ targets, recipients server_api g message exclude = Some targets ∧
    ∀ ws, ws ∈ targets ↔
      match sender ≫= (player_to_game g !!.) with
      | Some gid =>
          gid ∈ active_games g ∧
          ∃ p, p ∈ players (instance g gid)
               ∧ get_websocket_from_username server_api p = Some ws
               ∧ Some ws ≠ exclude
      | None =>
          ws ∈ get_connected_clients server_api
          ∧ in_player_to_game g (get_username_from_websocket server_api ws) = false
          ∧ Some ws ≠ exclude
      end.
Proof.
  intros Hsender. unfold recipients. rewrite Hsender. simpl.
  destruct (sender ≫= (player_to_game g !!.)) as [gid|] eqn:Hdir.
  - unfold active_game. case_bool_decide as Hlive.
    + eexists; split; [done|]. intros ws.
      rewrite list_elem_of_omap. split.
      * intros (o & Ho & Hws). simpl in Hws. subst o.
        apply list_elem_of_filter in Ho as [Hne Ho].
        apply list_elem_of_fmap in Ho as (p & Hp & Hin).
        apply elem_of_elements in Hin. split; [done|]. by exists p.
      * intros (_ & p & Hin & Hp & Hne). exists (Some ws). split; [|done].
        apply list_elem_of_filter. split; [done|].
        apply list_elem_of_fmap. exists p. split; [done|].
        by apply elem_of_elements.
    + exists []. split; [done|]. intros ws. rewrite elem_of_nil. tauto.
  - eexists; split; [done|]. intros ws.
    rewrite list_elem_of_filter. tauto.
Qed.

End Zombies.

End RoutingFacts.

Lemma zombies_recipients_of_sender_witness :
  ∃ targets,
    Zombies.recipients Scenario.four_users Scenario.zombies_two_games
      "PLAYER_MESSAGE|PLACERCLIENT|x|hello" (Some 1) = Some targets
    ∧ ∀ ws, ws ∈ targets ↔
        match Some "x" ≫= (Zombies.player_to_game Scenario.zombies_two_games !!.)
        with
        | Some gid =>
            gid ∈ Zombies.active_games Scenario.zombies_two_games ∧
            ∃ p, p ∈ Zombies.players
                       (Zombies.instance Scenario.zombies_two_games gid)
                 ∧ Server.get_websocket_from_username Scenario.four_users p
                   = Some ws
                 ∧ Some ws ≠ Some 1
        | None =>
            ws ∈ Server.get_connected_clients Scenario.four_users
            ∧ Zombies.in_player_to_game Scenario.zombies_two_games
                (Server.get_username_from_websocket Scenario.four_users ws)
              = false
            ∧ Some ws ≠ Some 1
        end.
Proof.
  apply (RoutingFacts.zombies_recipients_of_sender Scenario.four_users
           Scenario.zombies_two_games "PLAYER_MESSAGE|PLACERCLIENT|x|hello"
           (Some 1) (Some "x")).
  reflexivity.
Defined.

Example zombies_chat_frame_stays_in_the_instance :
  Zombies.recipients Scenario.four_users Scenario.zombies_two_games
    "PLAYER_MESSAGE|PLACERCLIENT|x|hello" (Some 1) = Some [2].
Proof. by vm_compute. Qed.

Example zombies_short_chat_frame_is_dropped :
  Zombies.recipients Scenario.four_users Scenario.zombies_two_games
    "PLAYER_MESSAGE|x" None = None.
Proof. by vm_compute. Qed.

Example zombies_position_frame_with_its_sender_excluded :
  Zombies.recipients Scenario.four_users Scenario.zombies_two_games
    Scenario.position_of_x (Some 1) = Some [2].
Proof. by vm_compute. Qed.

(** C1, at the input where the code departs from it.  Instance 0 has the
    roster [{x, y}], instance 1 the roster [{z}], and [w] is connected
    outside any instance.  The frame [x|10|20|Default|0|0|PLAYER_INFO],
    broadcast with no excluded connection, names [x], who is in
    [player_to_game]: the override of Zombies.py, and that of
    FreeForAll.py, send it to [w] alone, on socket 4, and to nobody of
    the roster of [x]; the override of Squid_Game.py, which looks for
    [PLAYER_INFO] in the whole message, sends it to the roster, sockets
    1 and 2. *)
Theorem override_sends_position_frame_of_a_player_to_the_main_world :
  Zombies.sender_username Scenario.four_users Scenario.position_of_x None
    = Some None
  ∧ Zombies.recipients Scenario.four_users Scenario.zombies_two_games
      Scenario.position_of_x None = Some [4]
  ∧ FreeForAll.recipients Scenario.four_users Scenario.freeforall_two_games
      Scenario.position_of_x None = Some [4]
  ∧ Squid_Game.recipients Scenario.four_users Scenario.squid_two_games
      Scenario.position_of_x None = [2; 1].
Proof. by vm_compute. Qed.

(** ** Facts about coroutines *)

Module AsyncFacts.
Import Async.

Section Facts.
Context {G : Type}.
Local Abbreviation Prog := (Async.Prog G).
Local Abbreviation World := (Async.World G).
Local Abbreviation status := (@Async.status G).

Lemma bind_assoc {A B C} (m : Prog A) (f : A → Prog B) (h : B → Prog C) :
  bind (bind m f) h = bind m (λ a, bind (f a) h).
Proof.
  induction m as [ | | ? k IH | | | ? coro IHc k IH | | ? t k IH | |
                   ? B' body IHb catches handler IHh k IH ]; simpl;
    try done; f_equal; auto; by apply functional_extensionality.
Qed.

Lemma advance_bind {A B} (m : Prog A) (f : A → Prog B) w :
  advance (bind m f) w = and_then f (advance m w).
Proof.
  revert w.
  induction m as [ | | ? k IH | | | ? coro IHc k IH | | ? t k IH | |
                   ? B' body IHb catches handler IHh k IH ];
    intros w; simpl; try done.
  - by case_match.
  - destruct (advance body w) as [w' [b|e|body']]; simpl; [apply IH| |done].
    destruct (catches e); [|done].
    destruct (advance (handler e) w') as [w'' [b|e'|h']]; simpl;
      [apply IH|done|].
    unfold and_then. simpl. by rewrite bind_assoc.
Qed.

Lemma advance_mbind {A B} (m : Prog A) (f : A → Prog B) w :
  advance (m ≫= f) w = and_then f (advance m w).
Proof. apply advance_bind. Qed.

Lemma advance_modify {A} (f : G → G) (k : unit → Prog A) w :
  advance (modify f ≫= k) w = advance (k ()) (with_globals (f (globals w)) w).
Proof. done. Qed.

Lemma advance_get {A} (k : G → Prog A) w :
  advance (get ≫= k) w = advance (k (globals w)) w.
Proof. done. Qed.

Lemma waiting_bind {A B} (p : Prog A) (f : A → Prog B) :
  waiting p → waiting (bind p f).
Proof. induction 1; simpl; by constructor. Qed.

Lemma advance_waiting {A} (p : Prog A) w w' q :
  advance p w = (w', Parked q) → waiting q.
Proof.
  revert w w' q.
  induction p as [ | | ? k IH | | | ? coro IHc k IH | | ? t k IH | |
                   ? B' body IHb catches handler IHh k IH ];
    intros w w' q; simpl; try done; eauto.
  - intros [= <- <-]. constructor.
  - case_match; eauto. intros [= <- <-]. constructor.
  - destruct (advance body w) as [w1 [b|e|body']] eqn:Hb; simpl; eauto.
    + destruct (catches e); [|done].
      destruct (advance (handler e) w1) as [w2 [b|e'|h']] eqn:Hh; eauto.
      * done.
      * intros [= <- <-]. apply waiting_bind. eauto.
    + intros [= <- <-]. constructor. eauto.
Qed.

Lemma strip_bind {A B} (p : Prog A) (f : A → Prog B) :
  waiting p → strip (bind p f) = bind (strip p) f.
Proof. induction 1; simpl; by f_equal. Qed.

Lemma resume_bind {A B} (p : Prog A) (f : A → Prog B) w :
  waiting p → resume (bind p f) w = and_then f (resume p w).
Proof. intros Hp. unfold resume. by rewrite strip_bind, advance_bind. Qed.

Lemma advance_well_parked {A} (p : Prog A) w : well_parked (advance p w).
Proof.
  unfold well_parked. destruct (advance p w) as [w' [a|e|q]] eqn:H; try done.
  simpl. by eapply advance_waiting.
Qed.

Lemma terminates_and_then {A B} (f : A → Prog B) r w1 a w2 res :
  well_parked r →
  terminates r w1 (Returned a) → terminates (advance (f a) w1) w2 res →
  terminates (and_then f r) w2 res.
Proof.
  intros Hwp Hr Hf. remember (Returned a) as ra eqn:Era.
  induction Hr as [w a'|w e|w p w' res' Hr IH]; simplify_eq.
  - done.
  - unfold and_then. simpl. apply terminates_parked.
    rewrite resume_bind by done. apply IH; [apply advance_well_parked|done..].
Qed.

Lemma terminates_and_then_raised {A B} (f : A → Prog B) r w1 e :
  well_parked r →
  terminates r w1 (Raised e) → terminates (and_then f r) w1 (Raised e).
Proof.
  intros Hwp Hr. remember (Raised e) as ra eqn:Era.
  induction Hr as [w a'|w e'|w p w' res' Hr IH]; simplify_eq.
  - constructor.
  - unfold and_then. simpl. apply terminates_parked.
    rewrite resume_bind by done. apply IH; [apply advance_well_parked|done].
Qed.

(** *** Rules for [runs] *)

Lemma runs_ret {A} (a : A) w : runs (mret a : Prog A) w w a.
Proof. constructor. Qed.

Lemma runs_bind {A B} (m : Prog A) (f : A → Prog B) w w1 a w2 b :
  runs m w w1 a → runs (f a) w1 w2 b → runs (m ≫= f) w w2 b.
Proof.
  unfold runs. intros Hm Hf. rewrite advance_mbind.
  eapply terminates_and_then; [apply advance_well_parked|done..].
Qed.

Lemma runs_await why w : runs (await why : Prog unit) w w ().
Proof. unfold runs. simpl. apply terminates_parked. constructor. Qed.

Lemma runs_try {A B} (body : Prog B) catches handler (k : B → Prog A)
    w w1 b w2 a :
  runs body w w1 b → runs (k b) w1 w2 a →
  runs (Try body catches handler k) w w2 a.
Proof.
  unfold runs. intros Hb Hk.
  assert (∀ r, well_parked r → terminates r w1 (Returned b) →
    terminates
      (match r with
       | (w', Finished b) => advance (k b) w'
       | (w', Failed e) =>
           if catches e then
             match advance (handler e) w' with
             | (w'', Finished b) => advance (k b) w''
             | (w'', Failed e') => (w'', Failed e')
             | (w'', Parked h') => (w'', Parked (bind h' k))
             end
           else (w', Failed e)
       | (w', Parked body') => (w', Parked (Try body' catches handler k))
       end) w2 (Returned a)) as Hgen.
  { clear Hb. intros r Hwp Hr. remember (Returned b) as rb eqn:Erb.
    induction Hr as [w0 b'|w0 e|w0 p w' res' Hr IH]; simplify_eq; [done|].
    apply terminates_parked. unfold resume. simpl.
    apply IH; try done. apply advance_well_parked. }
  simpl. apply Hgen; [apply advance_well_parked|done].
Qed.

Lemma runs_try_except_Exception {A} (body : Prog A) handler w w' a :
  runs body w w' a → runs (try_except_Exception body handler) w w' a.
Proof. intros Hb. eapply runs_try; [done|constructor]. Qed.

Lemma runs_for_ {X} (l : list X) (body : X → Prog unit)
    (I : list X → World → Prop) w :
  I l w →
  (∀ x rest w1, I (x :: rest) w1 → ∃ w2, runs (body x) w1 w2 () ∧ I rest w2) →
  ∃ w', runs (for_ l body) w w' () ∧ I [] w'.
Proof.
  intros HI Hstep. revert w HI.
  induction l as [|x l IH]; intros w HI.
  - exists w. split; [constructor|done].
  - destruct (Hstep x l w) as (w1 & Hx & HI1).
    { done. }
    destruct (IH w1 HI1) as (w2 & Hl & HI2).
    exists w2. split; [|done]. simpl. by eapply runs_bind.
Qed.

(** Enough resumptions bring the coroutine to its end. *)
Lemma terminates_finish {A} (r : World * status A) w' a :
  terminates r w' (Returned a) →
  ∃ n, ∀ fuel, n ≤ fuel → finish fuel r = (w', Finished a).
Proof.
  intros Hr. remember (Returned a) as ra eqn:Era.
  induction Hr as [w a'|w e|w p w2 res Hr IH]; simplify_eq.
  - exists 0. intros fuel _. by destruct fuel.
  - destruct IH as [n Hn]; [done|]. exists (S n).
    intros [|fuel] Hle; [lia|]. simpl. apply Hn. lia.
Qed.

Lemma runs_run_alone {A} (p : Prog A) w w' a :
  runs p w w' a → ∃ n, ∀ fuel, n ≤ fuel → run_alone fuel p w = (w', Finished a).
Proof. apply terminates_finish. Qed.

(** *** Cancellation goes through a coroutine that does not catch it *)

Lemma passes_bind {A B} (m : Prog A) (f : A → Prog B) :
  passes m → (∀ a, passes (f a)) → passes (bind m f).
Proof. intros Hm Hf. induction Hm; simpl; try constructor; auto. Qed.

Lemma passes_mbind {A B} (m : Prog A) (f : A → Prog B) :
  passes m → (∀ a, passes (f a)) → passes (m ≫= f).
Proof. apply passes_bind. Qed.

Lemma passes_for_ {X} (l : list X) (body : X → Prog unit) :
  (∀ x, passes (body x)) → passes (for_ l body).
Proof.
  intros Hb. induction l; simpl; [constructor|]. by apply passes_mbind.
Qed.

Lemma passes_strip {A} (p : Prog A) : passes p → passes (strip p).
Proof. induction 1; simpl; try constructor; auto. Qed.

Lemma passes_advance {A} (p : Prog A) w w' q :
  passes p → advance p w = (w', Parked q) → passes q.
Proof.
  intros Hp. revert w w' q. induction Hp; intros w w' q; simpl; try done; eauto.
  - intros [= <- <-]. by constructor.
  - case_match; eauto. intros [= <- <-]. by constructor.
  - destruct (advance body w) as [w1 [b|e|body']] eqn:Hb; eauto.
    + destruct (catches e); [|done].
      destruct (advance (handler e) w1) as [w2 [b|e'|h']] eqn:Hh; eauto.
      * done.
      * intros [= <- <-]. apply passes_bind; eauto.
    + intros [= <- <-]. constructor; eauto.
Qed.

Lemma passes_residual {A} (p q : Prog A) : passes p → residual p q → passes q.
Proof.
  intros Hp. induction 1 as [w w' q Hq|q w w' q' _ IH Hq].
  - by eapply passes_advance.
  - eapply passes_advance; [|done]. by apply passes_strip.
Qed.

Lemma residual_waiting {A} (p q : Prog A) : residual p q → waiting q.
Proof. destruct 1; by eapply advance_waiting. Qed.

Lemma passes_throw {A} (p : Prog A) w :
  passes p → waiting p →
  throw CancelledError p w = (w, Failed CancelledError).
Proof.
  intros Hp Hw. revert Hp. induction Hw; intros Hp; simpl; try done.
  inversion Hp; simplify_eq.
  repeat match goal with
         | H : existT _ _ = existT _ _ |- _ =>
             apply inj_pair2 in H
         end; simplify_eq.
  match goal with H : catches CancelledError = false |- _ =>
    rewrite IHHw by done; by rewrite H end.
Qed.

(** *** Rules for [after] *)

Lemma after_mono {A} (p : Prog A) w (Q Q' : World → A → Prop) :
  after p w Q → (∀ w' a, Q w' a → Q' w' a) → after p w Q'.
Proof. intros (w' & a & Hr & HQ) Himp. exists w', a. auto. Qed.

Lemma after_ret {A} (a : A) w (Q : World → A → Prop) :
  Q w a → after (mret a : Prog A) w Q.
Proof. intros HQ. exists w, a. split; [apply runs_ret|done]. Qed.

Lemma after_bind {A B} (m : Prog A) (f : A → Prog B) w
    (Q : World → B → Prop) :
  after m w (λ w1 a, after (f a) w1 Q) → after (m ≫= f) w Q.
Proof.
  intros (w1 & a & Hm & w2 & b & Hf & HQ). exists w2, b.
  split; [by eapply runs_bind|done].
Qed.

Lemma after_get w (Q : World → G → Prop) :
  Q w (globals w) → after (get : Prog G) w Q.
Proof. intros HQ. exists w, (globals w). split; [constructor|done]. Qed.

Lemma after_modify f w (Q : World → unit → Prop) :
  Q (with_globals (f (globals w)) w) () → after (modify f : Prog unit) w Q.
Proof. intros HQ. eexists _, (). split; [constructor|done]. Qed.

Lemma after_await why w (Q : World → unit → Prop) :
  Q w () → after (await why : Prog unit) w Q.
Proof. intros HQ. exists w, (). split; [apply runs_await|done]. Qed.

Lemma after_create_task coro w (Q : World → nat → Prop) :
  Q (add_task coro w) (next_task w) → after (create_task coro : Prog nat) w Q.
Proof. intros HQ. eexists _, _. split; [constructor|done]. Qed.

Lemma after_cancel t w (Q : World → unit → Prop) :
  Q (request_cancel t w) () → after (cancel t : Prog unit) w Q.
Proof. intros HQ. eexists _, (). split; [constructor|done]. Qed.

Lemma after_is_done t w (Q : World → bool → Prop) :
  Q w (bool_decide (pool w !! t = None)) → after (is_done t : Prog bool) w Q.
Proof. intros HQ. eexists _, _. split; [constructor|done]. Qed.

Lemma after_until ready ts w (Q : World → unit → Prop) :
  ready (globals w) && all_done ts w = true → Q w () →
  after (until ready ts : Prog unit) w Q.
Proof.
  intros Hready HQ. exists w, (). split; [|done].
  unfold runs, until. simpl. rewrite Hready. constructor.
Qed.

Lemma after_try_except_Exception {A} (body : Prog A) handler w
    (Q : World → A → Prop) :
  after body w Q → after (try_except_Exception body handler) w Q.
Proof.
  intros (w' & a & Hb & HQ). exists w', a.
  split; [by apply runs_try_except_Exception|done].
Qed.

Lemma after_for_ {X} (l : list X) (body : X → Prog unit)
    (I : list X → World → Prop) w (Q : World → unit → Prop) :
  I l w →
  (∀ x rest w1, I (x :: rest) w1 → after (body x) w1 (λ w2 _, I rest w2)) →
  (∀ w', I [] w' → Q w' ()) →
  after (for_ l body) w Q.
Proof.
  intros HI Hstep HQ.
  destruct (runs_for_ l body I w HI) as (w' & Hr & HI').
  - intros x rest w1 Hx. destruct (Hstep x rest w1 Hx) as (w2 & [] & ? & ?).
    by exists w2.
  - exists w', (). auto.
Qed.

(** A coroutine run on its own ends in one way. *)
Lemma terminates_det {A} (r : World * status A) w1 res1 w2 res2 :
  terminates r w1 res1 → terminates r w2 res2 → w1 = w2 ∧ res1 = res2.
Proof.
  intros H1. revert w2 res2.
  induction H1 as [w a|w e|w p w' res H1 IH]; intros w2 res2 H2.
  - by inversion H2.
  - by inversion H2.
  - inversion H2; simplify_eq. by apply IH.
Qed.

Lemma after_conj {A} (p : Prog A) w (Q1 Q2 : World → A → Prop) :
  after p w Q1 → after p w Q2 → after p w (λ w' a, Q1 w' a ∧ Q2 w' a).
Proof.
  intros (w1 & a1 & Hr1 & HQ1) (w2 & a2 & Hr2 & HQ2).
  destruct (terminates_det _ _ _ _ _ Hr1 Hr2) as [-> [= ->]].
  by exists w2, a2.
Qed.

(** *** What a coroutine keeps *)

Lemma keeps_bind (P : G → Prop) {A B} (m : Prog A) (f : A → Prog B) :
  keeps P m → (∀ a, keeps P (f a)) → keeps P (bind m f).
Proof. intros Hm Hf. induction Hm; simpl; try constructor; auto. Qed.

Lemma keeps_mbind (P : G → Prop) {A B} (m : Prog A) (f : A → Prog B) :
  keeps P m → (∀ a, keeps P (f a)) → keeps P (m ≫= f).
Proof. apply keeps_bind. Qed.

Lemma keeps_for_ (P : G → Prop) {X} (l : list X) (body : X → Prog unit) :
  (∀ x, keeps P (body x)) → keeps P (for_ l body).
Proof.
  intros Hb. induction l; simpl; [constructor|]. by apply keeps_mbind.
Qed.

Lemma keeps_modify (P : G → Prop) f :
  (∀ g, P g → P (f g)) → keeps P (modify f : Prog unit).
Proof. intros Hf. repeat constructor. auto. Qed.

Lemma keeps_advance (P : G → Prop) {A} (p : Prog A) w :
  keeps P p → P (globals w) → P (globals (advance p w).1).
Proof.
  intros Hp. revert w. induction Hp; intros w Hw; simpl; auto.
  - unfold request_cancel. case_match; auto.
  - case_match; auto.
  - specialize (IHHp w Hw).
    destruct (advance body w) as [w1 [b|e|body']]; simpl in *; auto.
    destruct (catches e); [|done].
    match goal with H : ∀ e w, _ → P (globals (advance (handler e) w).1) |- _ =>
      specialize (H e w1 IHHp) end.
    destruct (advance (handler e) w1) as [w2 [b|e'|h']]; simpl in *; auto.
Qed.

Lemma keeps_strip (P : G → Prop) {A} (p : Prog A) :
  keeps P p → keeps P (strip p).
Proof. induction 1; simpl; try constructor; auto. Qed.

(** Where a coroutine that keeps [P] waits, what is left of it keeps
    [P]. *)
Lemma keeps_parked (P : G → Prop) {A} (p : Prog A) w w' q :
  keeps P p → P (globals w) → advance p w = (w', Parked q) → keeps P q.
Proof.
  intros Hp. revert w w' q.
  induction Hp; intros w w' q Hw; simpl; try done; eauto.
  - apply IHHp. done.
  - intros [= <- <-]. by constructor.
  - apply H0. done.
  - apply IHHp. unfold request_cancel. by case_match.
  - case_match; eauto. intros [= <- <-]. by constructor.
  - pose proof (keeps_advance P body w Hp Hw) as Hw1.
    destruct (advance body w) as [w1 [b|e|body']] eqn:Hb; simpl in *; eauto.
    + destruct (catches e); [|done].
      pose proof (keeps_advance P (handler e) w1 (H e) Hw1) as Hw2.
      destruct (advance (handler e) w1) as [w2 [b|e'|h']] eqn:Hh;
        simpl in *; eauto.
      * done.
      * intros [= <- <-]. apply keeps_bind; eauto.
    + intros [= <- <-]. constructor; eauto.
Qed.

(** *** What [Try] does *)

Lemma advance_try {A B} (body : Prog B) catches handler (k : B → Prog A) w :
  advance (Try body catches handler k) w
  = attempt catches handler k (advance body w).
Proof.
  simpl. unfold attempt, and_then.
  destruct (advance body w) as [w' [b|e|body']]; try done.
  destruct (catches e); [|done].
  by destruct (advance (handler e) w') as [w'' [b|e'|h']].
Qed.

Lemma throw_try {A B} e (body : Prog B) catches handler (k : B → Prog A) w :
  throw e (Try body catches handler k) w
  = attempt catches handler k (throw e body w).
Proof.
  simpl. unfold attempt, and_then.
  destruct (throw e body w) as [w' [b|e1|body']]; try done.
  destruct (catches e1); [|done].
  by destruct (advance (handler e1) w') as [w'' [b|e'|h']].
Qed.

Lemma resume_try {A B} (body : Prog B) catches handler (k : B → Prog A) w :
  resume (Try body catches handler k) w
  = attempt catches handler k (resume body w).
Proof. unfold resume. simpl strip. apply advance_try. Qed.

(** *** Rules for [reaches] *)

Lemma reaches_trans {A} (r1 r2 r3 : World * status A) :
  reaches r1 r2 → reaches r2 r3 → reaches r1 r3.
Proof. induction 1; [done|]. intros. apply reaches_resume. auto. Qed.

Lemma reaches_terminates {A} (r r' : World * status A) w res :
  reaches r r' → terminates r' w res → terminates r w res.
Proof. induction 1; [done|]. intros. apply terminates_parked. auto. Qed.

Lemma terminates_reaches {A} (r : World * status A) w a :
  terminates r w (Returned a) → reaches r (w, Finished a).
Proof.
  intros Hr. remember (Returned a) as ra eqn:Era.
  induction Hr; simplify_eq; [constructor|]. apply reaches_resume. auto.
Qed.

Lemma reaches_attempt {A B} catches handler (k : B → Prog A) r r' :
  reaches r r' →
  reaches (attempt catches handler k r) (attempt catches handler k r').
Proof.
  induction 1 as [r|w p r Hr IH]; [constructor|].
  simpl. apply reaches_resume. by rewrite resume_try.
Qed.

Lemma reaches_and_then {A B} (f : A → Prog B) r r' :
  well_parked r → reaches r r' → reaches (and_then f r) (and_then f r').
Proof.
  intros Hwp Hr. induction Hr as [r|w p r Hr IH]; [constructor|].
  unfold and_then at 1. simpl. apply reaches_resume.
  rewrite resume_bind by done. apply IH, advance_well_parked.
Qed.

(** *** A coroutine that is sure to return *)

Lemma sure_bind {A B} (m : Prog A) (f : A → Prog B) :
  sure m → (∀ a, sure (f a)) → sure (bind m f).
Proof. intros Hm Hf. induction Hm; simpl; try constructor; auto. Qed.

Lemma sure_mbind {A B} (m : Prog A) (f : A → Prog B) :
  sure m → (∀ a, sure (f a)) → sure (m ≫= f).
Proof. apply sure_bind. Qed.

Lemma sure_for_ {X} (l : list X) (body : X → Prog unit) :
  (∀ x, sure (body x)) → sure (for_ l body).
Proof.
  intros Hb. induction l; simpl; [constructor|]. by apply sure_mbind.
Qed.

Lemma sure_modify (f : G → G) : sure (modify f : Prog unit).
Proof. repeat constructor. Qed.

Lemma sure_try_except_Exception {A} (body : Prog A) handler :
  sure body → sure (try_except_Exception body handler).
Proof. intros. constructor; [done|]. intros. constructor. Qed.

Lemma after_parked {A} why (k : Prog A) w (Q : World → A → Prop) :
  after k w Q → after (Await why k) w Q.
Proof.
  intros (w' & a & Hr & HQ). exists w', a. split; [|done].
  by apply terminates_parked.
Qed.

Lemma after_try {A B} (body : Prog B) catches handler (k : B → Prog A) w
    (Q : World → A → Prop) :
  after body w (λ w1 b, after (k b) w1 Q) →
  after (Try body catches handler k) w Q.
Proof.
  intros (w1 & b & Hb & w2 & a & Hk & HQ). exists w2, a.
  split; [by eapply runs_try|done].
Qed.

Ltac keeps_inv H :=
  inversion H; simplify_eq;
  repeat match goal with
         | H : existT _ _ = existT _ _ |- _ => apply inj_pair2 in H
         end; simplify_eq.

(** A coroutine that is sure to return and keeps [P], started where
    [P] holds and run on its own, returns where [P] holds. *)
Lemma sure_keeps_after (P : G → Prop) {A} (p : Prog A) w :
  sure p → keeps P p → P (globals w) →
  after p w (λ w' _, P (globals w')).
Proof.
  intros Hs. revert w.
  induction Hs; intros w Hk Hw; keeps_inv Hk.
  - by apply after_ret.
  - match goal with IH : ∀ g w, _ |- _ => apply (IH (globals w) w) end; auto.
  - match goal with IH : ∀ w, _ |- _ => apply (IH (with_globals g w)) end; auto.
  - apply after_parked. auto.
  - match goal with IH : ∀ t w, _ |- _ =>
      apply (IH (next_task w) (add_task coro w)) end; auto.
  - match goal with IH : ∀ w, _ |- _ => apply (IH (request_cancel t w)) end;
      auto.
    unfold request_cancel. by case_match.
  - match goal with IH : ∀ b w, _ |- _ => apply (IH _ w) end; auto.
  - apply after_try.
    eapply after_mono; [apply IHHs; eauto|].
    intros w1 b Hw1. simpl in Hw1.
    match goal with IH : ∀ b w, _ |- _ => apply IH end; auto.
Qed.

(** The same for a coroutine of which nothing is to be kept. *)
Lemma keeps_True {A} (p : Prog A) : keeps (λ _, True) p.
Proof.
  induction p; constructor; auto.
Qed.

Lemma sure_after {A} (p : Prog A) w :
  sure p → after p w (λ _ _, True).
Proof.
  intros Hs.
  eapply after_mono; [apply (sure_keeps_after (λ _, True)); auto|done].
  apply keeps_True.
Qed.

(** *** Counting the sleeps *)

Lemma waits_for_bind {A B} (p : Prog A) (f : A → Prog B) :
  waiting p → waits_for (bind p f) = waits_for p.
Proof. induction 1; simpl; done. Qed.

Lemma naps_at_bind {A B} (p : Prog A) (f : A → Prog B) :
  waiting p → naps_at (bind p f) = naps_at p.
Proof. intros Hp. unfold naps_at. by rewrite waits_for_bind. Qed.

Lemma sleeps_terminates {A} (r : World * status A) n w' a :
  sleeps r n w' a → terminates r w' (Returned a).
Proof. induction 1; by constructor. Qed.

Lemma sleeps_and_then {A B} (f : A → Prog B) r n1 w1 a n2 w2 b :
  well_parked r →
  sleeps r n1 w1 a → sleeps (advance (f a) w1) n2 w2 b →
  sleeps (and_then f r) (n1 + n2) w2 b.
Proof.
  intros Hwp Hr Hf. induction Hr as [w a|w p n w' a Hr IH]; [done|].
  unfold and_then. simpl. rewrite <- Nat.add_assoc.
  rewrite <- (naps_at_bind p f) by done. apply sleeps_parked.
  rewrite resume_bind by done. apply IH; [apply advance_well_parked|done].
Qed.

Lemma sleeps_bind {A B} (m : Prog A) (f : A → Prog B) w n1 w1 a n2 w2 b :
  sleeps (advance m w) n1 w1 a → sleeps (advance (f a) w1) n2 w2 b →
  sleeps (advance (m ≫= f) w) (n1 + n2) w2 b.
Proof.
  intros Hm Hf. rewrite advance_mbind.
  eapply sleeps_and_then; [apply advance_well_parked|done..].
Qed.

Lemma sleeps_attempt {A B} catches handler (k : B → Prog A) r n1 w1 b
    n2 w2 a :
  sleeps r n1 w1 b → sleeps (advance (k b) w1) n2 w2 a →
  sleeps (attempt catches handler k r) (n1 + n2) w2 a.
Proof.
  intros Hr Hk. induction Hr as [w b|w p n w' b Hr IH]; [done|].
  simpl. rewrite <- Nat.add_assoc.
  change (naps_at p) with (naps_at (Try p catches handler k)).
  apply sleeps_parked. rewrite resume_try. by apply IH.
Qed.

Lemma sleeps_try {A B} (body : Prog B) catches handler (k : B → Prog A)
    w n1 w1 b n2 w2 a :
  sleeps (advance body w) n1 w1 b → sleeps (advance (k b) w1) n2 w2 a →
  sleeps (advance (Try body catches handler k) w) (n1 + n2) w2 a.
Proof. intros Hb Hk. rewrite advance_try. by eapply sleeps_attempt. Qed.

Lemma sleeps_await_sleep w : sleeps (advance (await sleep : Prog unit) w) 1 w ().
Proof. apply (sleeps_parked w (Await sleep (Ret ())) 0). constructor. Qed.

(** A coroutine that never sleeps returns without a sleep. *)
Lemma awake_sleeps {A} (p : Prog A) w :
  awake p → ∃ w' a, sleeps (advance p w) 0 w' a.
Proof.
  intros Hp. revert w. induction Hp; intros w.
  - eexists _, _. constructor.
  - match goal with IH : ∀ g w, _ |- _ => apply (IH (globals w) w) end.
  - match goal with IH : ∀ w, _ |- _ => apply (IH (with_globals g w)) end.
  - destruct (IHHp w) as (w' & a & Hk). exists w', a.
    assert (naps_at (Await why k) = 0) as Hnaps by by destruct why.
    pose proof (sleeps_parked w (Await why k) 0 w' a Hk) as Hpark.
    by rewrite Hnaps in Hpark.
  - match goal with IH : ∀ t w, _ |- _ =>
      apply (IH (next_task w) (add_task coro w)) end.
  - match goal with IH : ∀ w, _ |- _ => apply (IH (request_cancel t w)) end.
  - match goal with IH : ∀ b w, _ |- _ => apply (IH _ w) end.
  - destruct (IHHp w) as (w1 & b & Hb).
    match goal with IH : ∀ b w, _ |- _ =>
      destruct (IH b w1) as (w2 & a & Hk) end.
    exists w2, a. by apply (sleeps_try body catches handler k w 0 w1 b 0).
Qed.

Lemma awake_bind {A B} (m : Prog A) (f : A → Prog B) :
  awake m → (∀ a, awake (f a)) → awake (bind m f).
Proof. intros Hm Hf. induction Hm; simpl; try constructor; auto. Qed.

Lemma awake_mbind {A B} (m : Prog A) (f : A → Prog B) :
  awake m → (∀ a, awake (f a)) → awake (m ≫= f).
Proof. apply awake_bind. Qed.

Lemma awake_for_ {X} (l : list X) (body : X → Prog unit) :
  (∀ x, awake (body x)) → awake (for_ l body).
Proof.
  intros Hb. induction l; simpl; [constructor|]. by apply awake_mbind.
Qed.

Lemma awake_try_except_Exception {A} (body : Prog A) handler :
  awake body → awake (try_except_Exception body handler).
Proof. intros. constructor; [done|]. intros. constructor. Qed.

(** A loop whose every pass sleeps once sleeps once for each
    element. *)
Lemma sleeps_for_ {X} (l : list X) (body : X → Prog unit) w :
  (∀ x w, ∃ w', sleeps (advance (body x) w) 1 w' ()) →
  ∃ w', sleeps (advance (for_ l body) w) (length l) w' ().
Proof.
  intros Hb. revert w. induction l as [|x l IH]; intros w.
  - exists w. constructor.
  - destruct (Hb x w) as (w1 & Hx). destruct (IH w1) as (w2 & Hl).
    exists w2. simpl for_. simpl length.
    by apply (sleeps_bind (body x) _ w 1 w1 () (length l)).
Qed.

(** A pass that announces without sleeping and then sleeps. *)
Lemma sleeps_then_sleep (announce : Prog unit) w :
  awake announce →
  ∃ w', sleeps (advance (announce;; await sleep) w) 1 w' ().
Proof.
  intros Ha. destruct (awake_sleeps announce w Ha) as (w1 & [] & H1).
  exists w1. apply (sleeps_bind announce _ w 0 w1 () 1); [done|].
  apply sleeps_await_sleep.
Qed.

End Facts.

Ltac after_step :=
  lazymatch goal with
  | |- after (mret _) _ _ => apply after_ret
  | |- after (Ret _) _ _ => apply after_ret
  | |- after (_ ≫= _) _ _ => apply after_bind
  | |- after get _ _ => apply after_get
  | |- after (modify _) _ _ => apply after_modify
  | |- after (await _) _ _ => apply after_await
  | |- after (create_task _) _ _ => apply after_create_task
  | |- after (cancel _) _ _ => apply after_cancel
  | |- after (is_done _) _ _ => apply after_is_done
  | |- after (try_except_Exception _ _) _ _ => apply after_try_except_Exception
  end.

(** For a straight-line procedure. *)
Ltac structural :=
  repeat (intros; cbn; first [done | constructor | case_match]).

End AsyncFacts.

(** ** Zombies.py: the procedures *)

Module ZombiesFacts.
Import Async AsyncFacts Server Zombies.

Lemma deliver_nil w : deliver [] w = w.
Proof.
  destruct w as [[] ? ? ?]. unfold deliver, with_globals, set_sent. simpl.
  by rewrite app_nil_r.
Qed.

Lemma deliver_app l1 l2 w : deliver l2 (deliver l1 w) = deliver (l1 ++ l2) w.
Proof.
  unfold deliver, with_globals, set_sent. simpl. by rewrite (assoc_L (++)).
Qed.

Lemma instance_deliver frames w gid :
  instance (globals (deliver frames w)) gid = instance (globals w) gid.
Proof. done. Qed.

Lemma instance_logged line w gid :
  instance (globals (logged line w)) gid = instance (globals w) gid.
Proof. done. Qed.

Lemma instance_update g gid f :
  instance (set_instances (<[gid := f (instance g gid)]> (instances g)) g) gid
  = f (instance g gid).
Proof. unfold instance. simpl. by rewrite lookup_insert_eq. Qed.

Lemma instance_update_ne g gid gid' i :
  gid ≠ gid' →
  instance (set_instances (<[gid := i]> (instances g)) g) gid'
  = instance g gid'.
Proof. intros. unfold instance. simpl. by rewrite lookup_insert_ne. Qed.

Lemma instance_insert g gid i m :
  instance (set_instances (<[gid := i]> m) g) gid = i.
Proof. unfold instance. simpl. by rewrite lookup_insert_eq. Qed.

Lemma instance_set_player_to_game v g gid :
  instance (set_player_to_game v g) gid = instance g gid.
Proof. done. Qed.

Lemma instance_in_game_state gid st w :
  instance (globals (in_game_state gid st w)) gid
  = set_game_state st (instance (globals w) gid).
Proof. apply instance_update. Qed.

Section Procedures.
Context (server_api : ServerApi).
Context (simulate : nat → Prog Globals flow) (ticks : nat).
Local Abbreviation World := (Async.World Globals).

Lemma after_self gid (w : World) (Q : World → GameInstance → Prop) :
  Q w (instance (globals w) gid) → after (self gid) w Q.
Proof. intros HQ. unfold self. after_step. after_step. by after_step. Qed.

Lemma after_update gid f (w : World) (Q : World → unit → Prop) :
  Q (with_globals
       (set_instances (<[gid := f (instance (globals w) gid)]>
                         (instances (globals w))) (globals w)) w) () →
  after (update gid f) w Q.
Proof. intros HQ. unfold update. by after_step. Qed.

Lemma after_server_log line (w : World) (Q : World → unit → Prop) :
  Q (logged line w) () → after (server_log line) w Q.
Proof. intros HQ. unfold server_log. by after_step. Qed.

Lemma after_send_to_client ws message (w : World) (Q : World → unit → Prop) :
  Q (deliver [(ws, message)] w) () → after (send_to_client ws message) w Q.
Proof.
  intros HQ. unfold send_to_client. after_step. after_step. by after_step.
Qed.

Lemma after_gather_send targets message (w : World)
    (Q : World → unit → Prop) :
  Q (deliver ((λ ws, (ws, message)) <$> targets) w) () →
  after (gather_send targets message) w Q.
Proof.
  intros HQ. unfold gather_send. after_step. after_step. by after_step.
Qed.

(** The frames of a broadcast of [message] to [roster]. *)
Lemma after_broadcast_to_game_players gid message (w : World)
    (Q : World → unit → Prop) :
  Q (deliver ((λ ws, (ws, message)) <$>
                connections server_api (players (instance (globals w) gid))) w) () →
  after (broadcast_to_game_players server_api gid message) w Q.
Proof.
  intros HQ. unfold broadcast_to_game_players, connections in *.
  after_step. apply after_self.
  set (all := elements (players (instance (globals w) gid))) in *.
  apply (after_for_ _ _
    (λ rest w1,
       deliver ((λ ws, (ws, message)) <$>
                  omap (get_websocket_from_username server_api) rest) w1
       = deliver ((λ ws, (ws, message)) <$>
                    omap (get_websocket_from_username server_api) all) w)).
  - done.
  - intros username rest w1 Hinv. simpl in Hinv.
    destruct (get_websocket_from_username server_api username) as [ws|].
    + after_step. apply after_send_to_client. cbv beta.
      rewrite <- Hinv. simpl. by rewrite deliver_app.
    + after_step. by rewrite <- Hinv.
  - intros w' Hinv. simpl in Hinv. rewrite deliver_nil in Hinv. by subst.
Qed.

Lemma advance_update gid f {A} (k : unit → Prog Globals A) (w : World) :
  advance (update gid f ≫= k) w
  = advance (k ())
      (with_globals
         (set_instances (<[gid := f (instance (globals w) gid)]>
                           (instances (globals w))) (globals w)) w).
Proof. done. Qed.

Lemma advance_self gid {A} (k : GameInstance → Prog Globals A) (w : World) :
  advance (self gid ≫= k) w = advance (k (instance (globals w) gid)) w.
Proof. done. Qed.

(** *** What the procedures keep *)

Lemma keeps_server_log P line : silent P → keeps P (server_log line).
Proof. intros [_ Hl]. apply keeps_modify. auto. Qed.

Lemma keeps_send_to_client P ws message :
  silent P → keeps P (send_to_client ws message).
Proof.
  intros [Hs _]. unfold send_to_client. apply keeps_mbind.
  - apply keeps_modify. auto.
  - intros _. repeat constructor.
Qed.

Lemma keeps_self P gid {A} (k : GameInstance → Prog Globals A) :
  (∀ i, keeps P (k i)) → keeps P (self gid ≫= k).
Proof. intros Hk. unfold self. repeat constructor. intros. apply Hk. Qed.

Lemma keeps_get P {A} (k : Globals → Prog Globals A) :
  (∀ g, P g → keeps P (k g)) → keeps P (get ≫= k).
Proof. intros Hk. constructor. intros. by apply Hk. Qed.

Lemma keeps_broadcast_to_game_players P gid message :
  silent P → keeps P (broadcast_to_game_players server_api gid message).
Proof.
  intros HP. unfold broadcast_to_game_players. apply keeps_self. intros i.
  apply keeps_for_. intros username. case_match; [|constructor].
  unfold try_except_Exception. constructor.
  - by apply keeps_send_to_client.
  - intros []; [constructor|]. by apply keeps_server_log.
  - constructor.
Qed.

Lemma keeps_teleport_player P username world x y :
  silent P → keeps P (teleport_player server_api username world x y).
Proof.
  intros HP. unfold teleport_player. case_match; [|constructor].
  apply keeps_mbind; [by apply keeps_send_to_client|intros _].
  apply keeps_mbind; [repeat constructor|intros _].
  by apply keeps_send_to_client.
Qed.

Lemma keeps_generate_end_game_image P gid text :
  silent P → keeps P (generate_end_game_image server_api gid text).
Proof.
  intros HP. unfold generate_end_game_image, try_except_Exception. constructor.
  - by apply keeps_broadcast_to_game_players.
  - intros []; [constructor|]. by apply keeps_server_log.
  - constructor.
Qed.

Lemma silent_in_state gid st : silent (in_state gid st).
Proof. split; intros [] ?; done. Qed.

Lemma keeps_in_state_update gid st f :
  (∀ i, game_state (f i) = game_state i) →
  keeps (in_state gid st) (update gid f).
Proof.
  intros Hf. apply keeps_modify. intros g Hg. unfold in_state in *.
  by rewrite instance_update, Hf.
Qed.

(** Once the state is [ended], the teardown leaves it so. *)
Lemma keeps_ended_end_game_task gid victory :
  keeps (in_state gid "ended") (_end_game_task server_api gid victory).
Proof.
  pose proof (silent_in_state gid "ended") as HP.
  unfold _end_game_task. apply keeps_self. intros i.
  apply keeps_mbind; [case_match; repeat constructor|intros _].
  apply keeps_mbind; [case_match; repeat constructor|intros _].
  unfold try_except_Exception. constructor; [|intros []; [constructor|
    by apply keeps_server_log]|constructor].
  apply keeps_mbind; [by apply keeps_broadcast_to_game_players|intros _].
  apply keeps_mbind; [repeat constructor|intros _].
  apply keeps_mbind; [case_match; by apply keeps_generate_end_game_image|intros _].
  apply keeps_mbind; [repeat constructor|intros _].
  apply keeps_mbind; [by apply keeps_broadcast_to_game_players|intros _].
  apply keeps_self. intros i'.
  apply keeps_mbind.
  { apply keeps_for_. intros username.
    apply keeps_mbind; [|intros _; by apply keeps_teleport_player].
    apply keeps_modify. by intros []. }
  intros _. apply keeps_mbind; [by apply keeps_in_state_update|intros _].
  apply keeps_mbind; [apply keeps_modify; by intros []|intros _].
  apply keeps_get. intros g Hg. case_match; [|constructor].
  apply keeps_mbind; [apply keeps_modify; by intros []|intros _].
  by apply keeps_server_log.
Qed.

(** [end_game] on an instance that has ended returns at once and
    changes nothing. *)
Lemma end_game_ended gid victory (w : World) :
  game_state (instance (globals w) gid) = "ended" →
  advance (end_game server_api gid victory) w = (w, Finished ()).
Proof.
  intros Hst. unfold end_game. simpl. by rewrite bool_decide_eq_true_2.
Qed.

(** The first [end_game]: the state and one new task. *)
Lemma end_game_not_ended gid victory (w : World) :
  game_state (instance (globals w) gid) ≠ "ended" →
  advance (end_game server_api gid victory) w
  = (add_task (_end_game_task server_api gid victory)
       (in_game_state gid "ended" w),
     Finished ()).
Proof.
  intros Hst. unfold end_game. simpl. by rewrite bool_decide_eq_false_2.
Qed.

Lemma after_end_game gid victory (w : World) (Q : World → unit → Prop) :
  game_state (instance (globals w) gid) ≠ "ended" →
  Q (add_task (_end_game_task server_api gid victory)
       (in_game_state gid "ended" w)) () →
  after (end_game server_api gid victory) w Q.
Proof.
  intros Hst HQ. eexists _, (). split; [|exact HQ].
  unfold runs. rewrite end_game_not_ended by done. constructor.
Qed.

(** *** The procedures that are sure to return *)

Lemma sure_self gid {A} (k : GameInstance → Prog Globals A) :
  (∀ i, sure (k i)) → sure (self gid ≫= k).
Proof. intros Hk. unfold self. repeat constructor. intros. apply Hk. Qed.

Lemma sure_get {A} (k : Globals → Prog Globals A) :
  (∀ g, sure (k g)) → sure (get ≫= k).
Proof. intros Hk. constructor. intros. by apply Hk. Qed.

Lemma sure_send_to_client ws message : sure (send_to_client ws message).
Proof. repeat constructor. Qed.

Lemma sure_gather_send targets message : sure (gather_send targets message).
Proof. repeat constructor. Qed.

Lemma sure_server_log line : sure (server_log line).
Proof. repeat constructor. Qed.

Lemma sure_update gid f : sure (update gid f).
Proof. repeat constructor. Qed.

Lemma sure_broadcast_to_game_players gid message :
  sure (broadcast_to_game_players server_api gid message).
Proof.
  unfold broadcast_to_game_players. apply sure_self. intros i.
  apply sure_for_. intros username. case_match; [|constructor].
  apply sure_try_except_Exception, sure_send_to_client.
Qed.

Lemma sure_teleport_player username world x y :
  sure (teleport_player server_api username world x y).
Proof. unfold teleport_player. case_match; repeat constructor. Qed.

Lemma sure_generate_end_game_image gid text :
  sure (generate_end_game_image server_api gid text).
Proof.
  apply sure_try_except_Exception, sure_broadcast_to_game_players.
Qed.

Lemma sure_start_countdown gid :
  sure (start_countdown server_api simulate ticks gid).
Proof.
  unfold start_countdown. apply sure_self. intros i.
  apply sure_mbind; [structural|intros _]. structural.
Qed.

Lemma sure_end_game gid victory : sure (end_game server_api gid victory).
Proof.
  unfold end_game. apply sure_self. intros i. case_match; repeat constructor.
Qed.

Lemma sure_end_game_task gid victory :
  sure (_end_game_task server_api gid victory).
Proof.
  unfold _end_game_task. apply sure_self. intros i.
  apply sure_mbind; [case_match; repeat constructor|intros _].
  apply sure_mbind; [case_match; repeat constructor|intros _].
  apply sure_try_except_Exception.
  apply sure_mbind; [apply sure_broadcast_to_game_players|intros _].
  apply sure_mbind; [repeat constructor|intros _].
  apply sure_mbind; [case_match; apply sure_generate_end_game_image|intros _].
  apply sure_mbind; [repeat constructor|intros _].
  apply sure_mbind; [apply sure_broadcast_to_game_players|intros _].
  apply sure_self. intros i'.
  apply sure_mbind.
  { apply sure_for_. intros username.
    apply sure_mbind; [apply sure_modify|intros _; apply sure_teleport_player]. }
  intros _. apply sure_mbind; [apply sure_update|intros _].
  apply sure_mbind; [apply sure_modify|intros _].
  apply sure_get. intros g. case_match; repeat constructor.
Qed.

(** *** [add_player] *)

Lemma silent_claimed gid username : silent (claimed gid username).
Proof. split; intros [] ?; done. Qed.

Lemma keeps_claimed_start_countdown gid gid' username :
  keeps (claimed gid' username) (start_countdown server_api simulate ticks gid).
Proof.
  unfold start_countdown. apply keeps_self. intros i.
  apply keeps_mbind; [structural|intros _].
  constructor. intros t. cbn.
  apply keeps_modify. intros g [Hin Hdir]. split; [|done].
  destruct (decide (gid = gid')) as [<-|Hne].
  - by rewrite instance_update.
  - by rewrite instance_update_ne.
Qed.

(** A join that [add_player] does not accept: the requester is told
    why, and nothing else happens. *)
Lemma add_player_rejected gid username (w : World) :
  joinable (config (globals w)) (instance (globals w) gid) = false →
  runs (add_player server_api simulate ticks gid username) w
    (if get_websocket_from_username server_api username is Some ws then
       deliver
         [(ws, Raw (if bool_decide (game_state (instance (globals w) gid)
                                    ∈ ["waiting"; "countdown"])
                    then "TELLRAW|PLACERSERVER|This game is full."
                    else "TELLRAW|PLACERSERVER|This game has already started."))]
         w
     else w) ().
Proof.
  unfold joinable. intros Hj.
  assert (∀ ws text, runs (send_to_client ws (Raw text)) w
                       (deliver [(ws, Raw text)] w) ()) as Hsend.
  { intros ws text.
    destruct (after_send_to_client ws (Raw text) w
                (λ w' _, w' = deliver [(ws, Raw text)] w) eq_refl)
      as (w' & [] & Hr & ->). done. }
  unfold runs, add_player. rewrite advance_self.
  case_bool_decide as Hst; simpl negb; cbv iota.
  - rewrite advance_get. rewrite bool_decide_eq_true_2.
    + case_match; [apply Hsend|constructor].
    + simpl in Hj. apply bool_decide_eq_false in Hj. lia.
  - case_match; [apply Hsend|constructor].
Qed.

(** A join that [add_player] accepts: what holds of the globals after
    the writes of lines 434-436 and is kept by the rest holds when
    [add_player] returns. *)
Lemma after_add_player (P0 P : Globals → Prop) gid username (w : World) :
  silent P0 → silent P →
  joinable (config (globals w)) (instance (globals w) gid) = true →
  P0 (globals w) →
  (∀ g, P0 g → P (joined gid username g)) →
  (∀ g t, P g →
     P (set_instances
          (<[gid := set_countdown_task (Some t) (instance g gid)]>
             (instances g)) g)) →
  after (add_player server_api simulate ticks gid username) w
    (λ w' _, P (globals w')).
Proof.
  unfold joinable. intros HP0 HP [Hst Hsize]%andb_true_iff Hw Hjoin Htask.
  apply bool_decide_eq_true in Hst, Hsize.
  unfold add_player. after_step. apply after_self.
  rewrite bool_decide_eq_true_2 by done. simpl negb. cbv iota.
  after_step. after_step.
  rewrite bool_decide_eq_false_2 by lia.
  after_step. eapply after_mono.
  { apply (sure_keeps_after P0); [| |done].
    - case_match; [constructor|apply sure_gather_send].
    - case_match; [constructor|].
      unfold gather_send. apply keeps_mbind;
        [apply keeps_modify; intros; by apply HP0|repeat constructor]. }
  intros w1 [] Hw1. cbv beta in Hw1.
  after_step. apply after_update.
  after_step. after_step.
  eapply after_mono; [apply (sure_keeps_after P)|done].
  - apply sure_mbind; [apply sure_teleport_player|intros _].
    apply sure_self. intros ?. apply sure_get. intros ?.
    apply sure_mbind; [apply sure_broadcast_to_game_players|intros _].
    apply sure_self. intros ?. apply sure_get. intros ?.
    repeat case_match; try apply sure_start_countdown; constructor.
  - apply keeps_mbind; [by apply keeps_teleport_player|intros _].
    apply keeps_self. intros ?. apply keeps_get. intros ? _.
    apply keeps_mbind; [by apply keeps_broadcast_to_game_players|intros _].
    apply keeps_self. intros ?. apply keeps_get. intros ? _.
    assert (keeps P (start_countdown server_api simulate ticks gid)) as Hsc.
    { unfold start_countdown. apply keeps_self. intros ?.
      apply keeps_mbind; [structural|intros _].
      constructor. intros t. cbn. apply keeps_modify. intros ?. apply Htask. }
    repeat case_match; try apply Hsc; constructor.
  - apply (Hjoin _ Hw1).
Qed.

Lemma add_player_accepted gid username (w : World) :
  joinable (config (globals w)) (instance (globals w) gid) = true →
  after (add_player server_api simulate ticks gid username) w
    (λ w' _, claimed gid username (globals w')).
Proof.
  intros Hj.
  apply (after_add_player (λ _, True) (claimed gid username)).
  - done.
  - apply silent_claimed.
  - done.
  - done.
  - intros g _. split.
    + unfold joined, instance. simpl. rewrite lookup_insert_eq. simpl.
      apply elem_of_union. left. by apply elem_of_singleton.
    + unfold joined. simpl. by rewrite lookup_insert_eq.
  - intros g t [Hin Hdir]. split; [|done]. by rewrite instance_update.
Qed.

(** *** A join that creates an instance *)

Lemma find_target_game_new g :
  (0 < max_players (config g))%Z →
  joinable (config g) (new_GameInstance (next_game_id g)) = true.
Proof.
  intros Hmax. unfold joinable.
  change (players (new_GameInstance (next_game_id g))) with (∅ : gset string).
  change (game_state (new_GameInstance (next_game_id g))) with "waiting".
  rewrite size_empty.
  apply andb_true_iff. split; apply bool_decide_eq_true; [|lia].
  apply list_elem_of_here.
Qed.

(** The click on the join NPC of a user who is in no game, when no
    registered instance takes players: [on_message] creates the
    instance [next_game_id] and the user is alone in it when
    [on_message] returns. *)
Lemma after_on_message_join websocket username (w : World)
    (P : Globals → Prop) :
  player_to_game (globals w) !! username = None →
  find_target_game (globals w) = None →
  (0 < max_players (config (globals w)))%Z →
  silent P →
  (∀ g gid t, P g →
     P (set_instances
          (<[gid := set_countdown_task (Some t) (instance g gid)]>
             (instances g)) g)) →
  (∀ g, config g = config (globals w) →
     instance g (next_game_id (globals w))
     = new_GameInstance (next_game_id (globals w)) →
     active_games g = active_games (globals w) ++ [next_game_id (globals w)] →
     player_to_game g = player_to_game (globals w) →
     (active_games (globals w) = [] → broadcast_override g = true) →
     P (joined (next_game_id (globals w)) username g)) →
  after (on_message_DAMAGE server_api simulate ticks websocket
           "Zombies (0 Players)" username) w
    (λ w' r, r = true ∧ P (globals w')).
Proof.
  intros Hdir Hfind Hmax HP Htask Hjoin.
  set (gid := next_game_id (globals w)) in *.
  unfold on_message_DAMAGE.
  change (Py.startswith "Zombies Stats" "Zombies (0 Players)") with false.
  change (Py.startswith "Zombies" "Zombies (0 Players)") with true.
  cbv iota. after_step. after_step.
  rewrite bool_decide_eq_false_2 by (rewrite Hdir; by intros [? ?]).
  rewrite Hfind. after_step.
  set (P0 := λ g : Globals,
         config g = config (globals w)
         ∧ instance g gid = new_GameInstance gid
         ∧ active_games g = active_games (globals w) ++ [gid]
         ∧ player_to_game g = player_to_game (globals w)
         ∧ (active_games (globals w) = [] → broadcast_override g = true)).
  assert (silent P0) as HP0.
  { split; intros [] ?; done. }
  assert (after
            ((if active_games (globals w) is [] then
                modify (set_broadcast_override true);;
                server_log "ZombiesGame: First game created, broadcast override is active."
              else mret ());;
             g ← get;
             modify (λ g0, set_instances
                       (<[next_game_id g := new_GameInstance (next_game_id g)]>
                          (instances g0)) g0);;
             modify (λ g0, set_active_games
                       (active_games g0 ++ [next_game_id g]) g0);;
             modify (set_next_game_id (S (next_game_id g)));;
             mret (next_game_id g)) w
            (λ w1 r, r = gid ∧ P0 (globals w1))) as Hcreate.
  { after_step.
    apply (after_mono _ _
      (λ w1 _, config (globals w1) = config (globals w)
               ∧ active_games (globals w1) = active_games (globals w)
               ∧ player_to_game (globals w1) = player_to_game (globals w)
               ∧ next_game_id (globals w1) = gid
               ∧ (active_games (globals w) = [] →
                  broadcast_override (globals w1) = true))).
    { destruct (active_games (globals w)) as [|g0 l] eqn:Hl.
      - after_step. after_step. apply after_server_log. simpl.
        by rewrite ?Hl.
      - after_step. simpl. by rewrite ?Hl. }
    intros w1 [] (Hcfg & Hact & Hdir1 & Hnext & Hover).
    repeat after_step.
    split; [done|]. unfold P0. simpl. rewrite Hnext. split_and!; try done.
    - unfold instance. simpl. by rewrite lookup_insert_eq.
    - by rewrite Hact. }
  eapply after_mono; [apply Hcreate|].
  intros w1 r [-> (Hcfg & Hinst & Hact & Hdir1 & Hover)]. cbv beta.
  after_step.
  eapply after_mono.
  { apply (after_add_player P0 P); try done.
    - rewrite Hcfg, Hinst. by apply find_target_game_new.
    - intros g (? & ? & ? & ? & ?). by apply Hjoin.
    - intros g t. apply Htask. }
  intros w2 [] Hw2. cbv beta. after_step. done.
Qed.

(** *** The last player leaves *)

Lemma silent_left_alone gid username st : silent (left_alone gid username st).
Proof. split; intros [] ?; done. Qed.

(** [remove_player] for the only player of an instance that waits:
    the instance ends, and [end_game] has started the teardown. *)
Lemma after_remove_player_alone gid username (w : World)
    (P : Globals → Prop) :
  alone gid username (globals w) →
  silent P →
  P (globals w) →
  (∀ g i, P g → P (set_instances (<[gid := i]> (instances g)) g)) →
  (∀ g v, P g → P (set_player_to_game v g)) →
  after (remove_player server_api gid username) w
    (λ w' _, ∃ w0,
       w' = add_task (_end_game_task server_api gid false)
              (in_game_state gid "ended" w0)
       ∧ left_alone gid username "waiting" (globals w0)
       ∧ P (globals w0)).
Proof.
  intros (Hplayers & Hstate & Hdir & Hact) HP Hw Hinst Hpg.
  set (Q := λ g, left_alone gid username "waiting" g ∧ P g).
  assert (silent Q) as HQ.
  { destruct HP as [HP1 HP2].
    destruct (silent_left_alone gid username "waiting") as [HL1 HL2].
    split; intros g v [? ?]; split; auto. }
  unfold remove_player.
  after_step. apply after_update.
  after_step. after_step.
  set (w1 := with_globals _ _).
  assert (Q (globals w1)) as Hw1.
  { unfold w1, Q, left_alone. simpl globals. split; [split_and!|].
    - rewrite instance_set_player_to_game, instance_insert. simpl.
      rewrite Hplayers. apply difference_diag_L.
    - by rewrite instance_set_player_to_game, instance_insert.
    - simpl. by rewrite lookup_delete_eq.
    - apply Hpg, Hinst, Hw. }
  after_step. eapply after_mono.
  { apply (sure_keeps_after Q); [| |exact Hw1].
    - apply sure_broadcast_to_game_players.
    - by apply keeps_broadcast_to_game_players. }
  intros w2 [] Hw2. cbv beta in Hw2 |- *.
  after_step. apply after_self. after_step. after_step.
  after_step. eapply after_mono.
  { apply (sure_keeps_after Q); [| |exact Hw2].
    - apply sure_broadcast_to_game_players.
    - by apply keeps_broadcast_to_game_players. }
  intros w3 [] Hw3. cbv beta in Hw3 |- *.
  destruct Hw3 as [(Hp3 & Hs3 & Hd3) HP3].
  after_step. apply after_self. after_step. after_step.
  rewrite Hs3.
  rewrite (bool_decide_eq_false_2 ("waiting" = "countdown")) by done.
  simpl andb. cbv iota.
  after_step. after_step.
  after_step. apply after_self.
  rewrite Hp3, Hs3.
  rewrite (bool_decide_eq_true_2 (∅ = ∅)) by done.
  rewrite (bool_decide_eq_false_2 ("waiting" = "ended")) by done.
  simpl. apply after_end_game; [by rewrite Hs3|].
  exists w3. done.
Qed.

(** [on_disconnect] of the connection of a player calls
    [remove_player] on the instance of the player. *)
Lemma after_on_disconnect websocket username gid (w : World)
    (Q : World → unit → Prop) :
  get_username_from_websocket server_api websocket = Some username →
  player_to_game (globals w) !! username = Some gid →
  gid ∈ active_games (globals w) →
  after (remove_player server_api gid username) w Q →
  after (on_disconnect server_api websocket) w Q.
Proof.
  intros Hws Hdir Hact Hremove. unfold on_disconnect.
  after_step. after_step. rewrite Hws, Hdir. unfold active_game.
  by rewrite bool_decide_eq_true_2.
Qed.

(** *** The teardown *)

(** [_end_game_task] run to its end on an instance that has ended:
    the instance is still [ended], it has left [active_games], and the
    override is released when no instance remains.  A property that
    the teardown keeps holds at the end. *)
Lemma after_end_game_task gid victory (w : World) (P : Globals → Prop) :
  silent P →
  P (globals w) →
  (∀ g i, P g → P (set_instances (<[gid := i]> (instances g)) g)) →
  (∀ g username, P g →
     P (set_player_to_game (delete username (player_to_game g)) g)) →
  (∀ g v, P g → P (set_active_games v g)) →
  (∀ g v, P g → P (set_broadcast_override v g)) →
  after (_end_game_task server_api gid victory) w
    (λ w' _,
       P (globals w')
       ∧ (gid ∉ active_games (globals w'))
       ∧ active_games (globals w')
         = filter (λ k, k ≠ gid) (active_games (globals w))
       ∧ (active_games (globals w') = [] →
          broadcast_override (globals w') = false)).
Proof.
  intros HP Hw Hinst Hpg Hact Hover.
  set (Q := λ g, P g ∧ active_games g = active_games (globals w)).
  assert (silent Q) as HQ.
  { destruct HP as [HP1 HP2]. split; intros g v [? ?]; split; auto. }
  assert (Q (globals w)) as HwQ by done.
  unfold _end_game_task.
  after_step. apply after_self.
  after_step. eapply after_mono.
  { apply (sure_keeps_after Q); [| |exact HwQ]; structural. }
  intros w1 [] Hw1. cbv beta in Hw1 |- *.
  after_step. eapply after_mono.
  { apply (sure_keeps_after Q); [| |exact Hw1]; structural. }
  intros w2 [] Hw2. cbv beta in Hw2 |- *.
  apply after_try_except_Exception.
  after_step. eapply after_mono.
  { apply (sure_keeps_after Q); [| |exact Hw2].
    - apply sure_broadcast_to_game_players.
    - by apply keeps_broadcast_to_game_players. }
  intros w3 [] Hw3. cbv beta in Hw3 |- *.
  after_step. after_step.
  after_step. eapply after_mono.
  { apply (sure_keeps_after Q); [| |exact Hw3].
    - case_match; apply sure_generate_end_game_image.
    - case_match; by apply keeps_generate_end_game_image. }
  intros w4 [] Hw4. cbv beta in Hw4 |- *.
  after_step. after_step.
  after_step. eapply after_mono.
  { apply (sure_keeps_after Q); [| |exact Hw4].
    - apply sure_broadcast_to_game_players.
    - by apply keeps_broadcast_to_game_players. }
  intros w5 [] Hw5. cbv beta in Hw5 |- *.
  after_step. apply after_self.
  after_step. eapply after_mono.
  { apply (sure_keeps_after Q); [| |exact Hw5].
    - apply sure_for_. intros username.
      apply sure_mbind; [apply sure_modify|intros _; apply sure_teleport_player].
    - apply keeps_for_. intros username.
      apply keeps_mbind; [|intros _; by apply keeps_teleport_player].
      apply keeps_modify. intros g [? ?]. split; [by apply Hpg|done]. }
  intros w6 [] Hw6. cbv beta in Hw6 |- *.
  after_step. apply after_update.
  after_step. after_step.
  after_step. after_step.
  destruct Hw6 as [HP6 Hact6].
  set (rest := filter (λ k, k ≠ gid) (active_games (globals w6))).
  simpl. fold rest.
  assert (rest = filter (λ k, k ≠ gid) (active_games (globals w))) as Hrest.
  { unfold rest. by rewrite Hact6. }
  assert (gid ∉ rest) as Hnot.
  { unfold rest. intros [Hne _]%list_elem_of_filter. done. }
  destruct rest as [|k rest'] eqn:Hr.
  - eexists _, (). split; [constructor|]. simpl.
    split_and!; try done.
    apply HP. apply Hover, Hact, Hinst, HP6.
  - eexists _, (). split; [constructor|]. simpl.
    rewrite <- Hrest. split_and!; try done.
    apply Hact, Hinst, HP6.
Qed.

(** *** Join, then leave *)

Lemma join_then_leave websocket username (w : World) :
  get_username_from_websocket server_api websocket = Some username →
  player_to_game (globals w) !! username = None →
  find_target_game (globals w) = None →
  (0 < max_players (config (globals w)))%Z →
  let gid := next_game_id (globals w) in
  ∃ w1 w2 w3 t,
    runs (on_message_DAMAGE server_api simulate ticks websocket
            "Zombies (0 Players)" username) w w1 true
    ∧ alone gid username (globals w1)
    ∧ (active_games (globals w) = [] → broadcast_override (globals w1) = true)
    ∧ runs (on_disconnect server_api websocket) w1 w2 ()
    ∧ pool w2 !! t
      = Some (Await not_started (_end_game_task server_api gid false))
    ∧ runs (_end_game_task server_api gid false) w2 w3 ()
    ∧ game_state (instance (globals w3) gid) = "ended"
    ∧ (gid ∉ active_games (globals w3))
    ∧ player_to_game (globals w3) !! username = None
    ∧ (active_games (globals w) = [] →
       active_games (globals w3) = []
       ∧ broadcast_override (globals w3) = false).
Proof.
  intros Hws Hdir Hfind Hmax gid.
  set (L := active_games (globals w)).
  set (P1 := λ g : Globals,
               alone gid username g
               ∧ active_games g = L ++ [gid]
               ∧ (L = [] → broadcast_override g = true)).
  assert (after (on_message_DAMAGE server_api simulate ticks websocket
                   "Zombies (0 Players)" username) w
            (λ w' r, r = true ∧ P1 (globals w')))
    as (w1 & r & Hjoin & HQ1);
    [|cbv beta in HQ1; destruct HQ1 as (-> & Halone & Hact1 & Hover1)].
  { apply after_on_message_join; [done|done|done| | |].
    - split; intros [] ?; done.
    - intros g gid' t ((Hp & Hs & Hd & Hin) & Ha & Ho).
      split; [|done]. unfold alone.
      destruct (decide (gid' = gid)) as [->|Hne].
      + by rewrite instance_insert.
      + by rewrite instance_update_ne.
    - intros g Hcfg Hinst Hact Hpg Hover.
      fold gid in Hinst, Hact |- *. fold L in Hact.
      split; [|done]. unfold alone, joined. cbv zeta.
      rewrite instance_set_player_to_game, instance_insert, Hinst. simpl.
      split_and!.
      + apply (right_id_L ∅ (∪)).
      + done.
      + by rewrite lookup_insert_eq.
      + rewrite Hact. apply elem_of_app. right. apply list_elem_of_here. }
  set (P2 := λ g : Globals, active_games g = L ++ [gid]).
  destruct Halone as (Hp1 & Hs1 & Hd1 & Hin1).
  assert (after (on_disconnect server_api websocket) w1
            (λ w' _, ∃ w0,
               w' = add_task (_end_game_task server_api gid false)
                      (in_game_state gid "ended" w0)
               ∧ left_alone gid username "waiting" (globals w0)
               ∧ P2 (globals w0)))
    as (w2 & [] & Hleave & HQ2);
    [|cbv beta in HQ2;
      destruct HQ2 as (w0 & -> & (Hp0 & Hs0 & Hd0) & Hact0)].
  { apply (after_on_disconnect websocket username gid); [done..|].
    apply after_remove_player_alone; done. }
  set (w2 := add_task _ _) in *.
  assert (in_state gid "ended" (globals w2)) as Hended.
  { unfold in_state.
    change (game_state (instance (globals (in_game_state gid "ended" w0)) gid)
            = "ended").
    by rewrite instance_in_game_state. }
  destruct (after_conj (_end_game_task server_api gid false) w2 _ _
              (after_end_game_task gid false w2
                 (λ g : Globals, player_to_game g !! username = None)
                 ltac:(split; intros [] ?; done) Hd0
                 ltac:(done)
                 ltac:(intros g u ?; simpl;
                       destruct (decide (u = username)) as [->|?];
                       [by rewrite lookup_delete_eq
                       |by rewrite lookup_delete_ne])
                 ltac:(done) ltac:(done))
              (sure_keeps_after (in_state gid "ended") _ w2
                 (sure_end_game_task gid false)
                 (keeps_ended_end_game_task gid false) Hended))
    as (w3 & [] & Hdown & HQ3).
  cbv beta in HQ3.
  destruct HQ3 as ((Hd3 & Hnot3 & Hact3 & Hover3) & Hended3).
  exists w1, w2, w3, (next_task (in_game_state gid "ended" w0)).
  split_and!; try done.
  - unfold w2, add_task. simpl. by rewrite lookup_insert_eq.
  - intros HL.
    assert (active_games (globals w3) = []) as Hnil.
    { rewrite Hact3. unfold w2. simpl. rewrite Hact0.
      fold L in HL. rewrite HL. simpl.
      rewrite filter_cons_False; [done|]. by intros ?. }
    auto.
Qed.

(** *** The seconds of the countdown *)

Lemma awake_send_to_client ws message : awake (send_to_client ws message).
Proof. unfold send_to_client. repeat (constructor; try done). Qed.

Lemma awake_broadcast_to_game_players gid message :
  awake (broadcast_to_game_players server_api gid message).
Proof.
  unfold broadcast_to_game_players, self. repeat constructor. intros g.
  apply awake_for_. intros username. case_match; [|constructor].
  apply awake_try_except_Exception, awake_send_to_client.
Qed.

Lemma range_down_length n : length (range_down n) = Z.to_nat n.
Proof. unfold range_down. by rewrite length_fmap, length_seq. Qed.

(** The loop of [countdown] sleeps once for each second of
    [wait_time]. *)
Lemma countdown_wait_sleeps gid n (w : World) :
  ∃ w', sleeps (advance (countdown_wait server_api gid n) w) (Z.to_nat n) w' ().
Proof.
  rewrite <- range_down_length. unfold countdown_wait.
  apply sleeps_for_. intros k w1. apply sleeps_then_sleep.
  repeat case_match.
  - apply awake_try_except_Exception, awake_broadcast_to_game_players.
  - apply awake_broadcast_to_game_players.
  - constructor.
Qed.

(** *** Cancellation passes through the procedures *)

Lemma passes_self gid {A} (k : GameInstance → Prog Globals A) :
  (∀ i, passes (k i)) → passes (self gid ≫= k).
Proof. intros Hk. unfold self. repeat constructor. intros. apply Hk. Qed.

Lemma passes_get {A} (k : Globals → Prog Globals A) :
  (∀ g, passes (k g)) → passes (get ≫= k).
Proof. intros Hk. constructor. intros. by apply Hk. Qed.

Lemma passes_try_except_Exception {A} (body : Prog Globals A) handler :
  passes body → (∀ what, passes (handler what)) →
  passes (try_except_Exception body handler).
Proof.
  intros Hb Hh. constructor; [done|done| |constructor].
  intros []; [constructor|apply Hh].
Qed.

Lemma passes_server_log line : passes (server_log line).
Proof. repeat constructor. Qed.

Lemma passes_update gid f : passes (update gid f).
Proof. repeat constructor. Qed.

Lemma passes_send_to_client ws message : passes (send_to_client ws message).
Proof. repeat constructor. Qed.

Lemma passes_broadcast_to_game_players gid message :
  passes (broadcast_to_game_players server_api gid message).
Proof.
  unfold broadcast_to_game_players. apply passes_self. intros i.
  apply passes_for_. intros username. case_match; [|constructor].
  apply passes_try_except_Exception; [apply passes_send_to_client|].
  intros. apply passes_server_log.
Qed.

Lemma passes_teleport_player username world x y :
  passes (teleport_player server_api username world x y).
Proof. unfold teleport_player. case_match; repeat constructor. Qed.

Lemma passes_generate_and_broadcast_timer_image gid n :
  passes (generate_and_broadcast_timer_image server_api gid n).
Proof.
  apply passes_try_except_Exception;
    [apply passes_broadcast_to_game_players|intros; apply passes_server_log].
Qed.

Lemma passes_for_in_game_players gid n l body :
  (∀ x, passes (body x)) → passes (for_in_game_players gid n l body).
Proof.
  intros Hb. induction l as [|x l IH]; simpl.
  - repeat constructor. intros. case_match; constructor.
  - repeat constructor. intros. case_match; [|constructor].
    apply passes_bind; [apply Hb|]. intros _. apply IH.
Qed.

Lemma passes_start_game gid :
  passes (start_game server_api simulate ticks gid).
Proof.
  unfold start_game.
  apply passes_mbind; [apply passes_update|intros _].
  apply passes_mbind; [apply passes_update|intros _].
  apply passes_mbind; [apply passes_broadcast_to_game_players|intros _].
  apply passes_self. intros i.
  apply passes_mbind.
  { apply passes_for_in_game_players. intros. apply passes_teleport_player. }
  intros _.
  apply passes_mbind; [apply passes_broadcast_to_game_players|intros _].
  apply passes_self. intros i'.
  apply passes_mbind; [case_match; repeat constructor|intros _].
  repeat constructor.
Qed.

(** No [try] inside the [try] block of [countdown] catches
    [CancelledError]. *)
Lemma passes_countdown_body gid :
  passes (countdown_body server_api simulate ticks gid).
Proof.
  unfold countdown_body.
  apply passes_mbind; [apply passes_update|intros _].
  apply passes_self. intros i. apply passes_get. intros g.
  apply passes_mbind.
  { unfold countdown_wait.
    apply passes_for_. intros n. apply passes_mbind; [|repeat constructor].
    repeat case_match;
      [apply passes_generate_and_broadcast_timer_image|
       apply passes_broadcast_to_game_players|constructor]. }
  intros _.
  apply passes_mbind; [apply passes_broadcast_to_game_players|intros _].
  apply passes_self. intros i'. apply passes_get. intros g'.
  repeat case_match; try apply passes_start_game; try by constructor.
  apply passes_mbind; [apply passes_update|intros _].
  apply passes_broadcast_to_game_players.
Qed.

(** *** The clause [except asyncio.CancelledError] of [countdown] *)

Lemma runs_countdown_cancelled gid (w : World) :
  runs (countdown_cancelled server_api gid) w
    (deliver
       (frames_to_roster server_api gid "TELLRAW|PLACERSERVER|Countdown cancelled." w
        ++ frames_to_roster server_api gid "HIDE_IMAGE|PLACERSERVER|" w)
       (in_game_state gid "waiting" w)) ().
Proof.
  assert (after (countdown_cancelled server_api gid) w
            (λ w' _, w' = deliver
               (frames_to_roster server_api gid "TELLRAW|PLACERSERVER|Countdown cancelled." w
                ++ frames_to_roster server_api gid "HIDE_IMAGE|PLACERSERVER|" w)
               (in_game_state gid "waiting" w))) as (w' & [] & Hr & ->);
    [|done].
  unfold countdown_cancelled.
  after_step. apply after_update. fold (in_game_state gid "waiting" w).
  after_step. apply after_broadcast_to_game_players.
  apply after_broadcast_to_game_players.
  rewrite deliver_app. unfold frames_to_roster.
  by rewrite instance_deliver, !instance_in_game_state.
Qed.

(** [CancelledError] raised in [countdown] where its [try] block
    waits runs the clause [except asyncio.CancelledError]. *)
Lemma throw_countdown_parked gid body (w : World) :
  residual (countdown_body server_api simulate ticks gid) body →
  throw CancelledError (countdown_parked server_api gid body) w
  = and_then Ret (advance (countdown_cancelled server_api gid) w).
Proof.
  intros Hres. unfold countdown_parked. rewrite throw_try, passes_throw.
  - done.
  - eapply passes_residual; [|done]. apply passes_countdown_body.
  - by eapply residual_waiting.
Qed.

(** The clause sets the state before it first waits. *)
Lemma countdown_cancelled_sets_waiting gid (w : World) :
  in_state gid "waiting"
    (globals (and_then Ret (advance (countdown_cancelled server_api gid) w)).1).
Proof.
  assert (in_state gid "waiting"
            (globals (advance (countdown_cancelled server_api gid) w).1))
    as Hst.
  { unfold countdown_cancelled. rewrite advance_update.
    apply (keeps_advance (in_state gid "waiting")).
    - apply keeps_mbind; [|intros _];
        apply keeps_broadcast_to_game_players, silent_in_state.
    - unfold in_state. simpl. by rewrite instance_update. }
  unfold and_then.
  by destruct (advance (countdown_cancelled server_api gid) w)
    as [w1 [[]|e|q]].
Qed.

(** *** A player leaves during the countdown *)

(** [remove_player] when the roster falls below [min_players] during
    the countdown, without becoming empty: the cancellation of the
    countdown task is requested. *)
Lemma runs_remove_player_countdown gid username t body (w : World) :
  game_state (instance (globals w) gid) = "countdown" →
  countdown_task (instance (globals w) gid) = Some t →
  pool w !! t = Some body →
  (Z.of_nat (size (players (instance (globals w) gid) ∖ {[username]}))
   < min_players (config (globals w)))%Z →
  players (instance (globals w) gid) ∖ {[username]} ≠ ∅ →
  ∃ w', runs (remove_player server_api gid username) w w' ()
        ∧ pool w' = pool w
        ∧ must_cancel w' = {[t]} ∪ must_cancel w
        ∧ next_task w' = next_task w.
Proof.
  intros Hstate Htask Hpool Hsize Hne.
  set (Q := λ w' : World,
         pool w' = pool w ∧ must_cancel w' = must_cancel w
         ∧ next_task w' = next_task w
         ∧ config (globals w') = config (globals w)
         ∧ game_state (instance (globals w') gid) = "countdown"
         ∧ countdown_task (instance (globals w') gid) = Some t
         ∧ players (instance (globals w') gid)
           = players (instance (globals w) gid) ∖ {[username]}).
  assert (∀ w1 frames, Q w1 → Q (deliver frames w1)) as Hdeliver.
  { intros w1 frames HQ. exact HQ. }
  assert (after (remove_player server_api gid username) w
            (λ w' _, pool w' = pool w
                     ∧ must_cancel w' = {[t]} ∪ must_cancel w
                     ∧ next_task w' = next_task w)) as (w' & [] & Hr & HQ);
    [|by exists w'].
  unfold remove_player.
  after_step. apply after_update.
  after_step. after_step.
  set (w1 := with_globals _ _).
  assert (Q w1) as Hw1.
  { unfold Q, w1. simpl pool. simpl must_cancel. simpl next_task.
    simpl globals. rewrite !instance_set_player_to_game, !instance_insert.
    done. }
  after_step. apply after_broadcast_to_game_players.
  match goal with |- after _ (deliver ?F w1) _ =>
    pose proof (Hdeliver w1 F Hw1) as Hw2; set (w2 := deliver F w1) in * end.
  after_step. apply after_self. after_step. after_step.
  after_step. apply after_broadcast_to_game_players.
  match goal with |- after _ (deliver ?F w2) _ =>
    pose proof (Hdeliver w2 F Hw2) as Hw3; set (w3 := deliver F w2) in * end.
  destruct Hw3 as (Hp3 & Hm3 & Hn3 & Hc3 & Hs3 & Ht3 & Hr3).
  after_step. apply after_self. after_step. after_step.
  rewrite Hs3, Hr3, Hc3, Ht3.
  rewrite (bool_decide_eq_true_2 ("countdown" = "countdown")) by done.
  rewrite bool_decide_eq_true_2 by done.
  simpl andb. cbv iota.
  after_step. after_step. after_step.
  rewrite Hp3, Hpool.
  rewrite bool_decide_eq_false_2 by done.
  after_step.
  after_step. apply after_self.
  assert (globals (request_cancel t w3) = globals w3) as Hg.
  { unfold request_cancel. by case_match. }
  rewrite Hg, Hr3.
  rewrite (bool_decide_eq_false_2 (_ ∖ _ = ∅)) by done.
  simpl andb. cbv iota. after_step.
  unfold request_cancel. rewrite Hp3, Hpool. simpl. done.
Qed.

End Procedures.
End ZombiesFacts.

(** ** FreeForAll.py: the procedures *)

Module FreeForAllFacts.
Import Async AsyncFacts Server FreeForAll.

Lemma ffa_instance_update g gid f :
  instance (set_instances (<[gid := f (instance g gid)]> (instances g)) g) gid
  = f (instance g gid).
Proof. unfold instance. simpl. by rewrite lookup_insert_eq. Qed.

Lemma ffa_instance_insert g gid i m :
  instance (set_instances (<[gid := i]> m) g) gid = i.
Proof. unfold instance. simpl. by rewrite lookup_insert_eq. Qed.

Lemma ffa_instance_set_player_to_game v g gid :
  instance (set_player_to_game v g) gid = instance g gid.
Proof. done. Qed.

Lemma ffa_silent_left_alone gid username st : silent (left_alone gid username st).
Proof. split; intros [] ?; done. Qed.

Lemma ffa_silent_in_state gid st : silent (in_state gid st).
Proof. split; intros [] ?; done. Qed.

Section Procedures.
Context (server_api : ServerApi).
Context (start_game : nat → Prog Globals unit).
Local Abbreviation World := (Async.World Globals).

Lemma ffa_advance_update gid f {A} (k : unit → Prog Globals A) (w : World) :
  advance (update gid f ≫= k) w
  = advance (k ())
      (with_globals
         (set_instances (<[gid := f (instance (globals w) gid)]>
                           (instances (globals w))) (globals w)) w).
Proof. done. Qed.

Lemma ffa_advance_self gid {A} (k : GameInstance → Prog Globals A) (w : World) :
  advance (self gid ≫= k) w = advance (k (instance (globals w) gid)) w.
Proof. done. Qed.

(** *** What the procedures keep *)

Lemma ffa_keeps_self P gid {A} (k : GameInstance → Prog Globals A) :
  (∀ i, keeps P (k i)) → keeps P (self gid ≫= k).
Proof. intros Hk. unfold self. repeat constructor. intros. apply Hk. Qed.

Lemma ffa_keeps_get P {A} (k : Globals → Prog Globals A) :
  (∀ g, P g → keeps P (k g)) → keeps P (get ≫= k).
Proof. intros Hk. constructor. intros. by apply Hk. Qed.

Lemma ffa_keeps_server_log P line : silent P → keeps P (server_log line).
Proof. intros [_ Hl]. apply keeps_modify. auto. Qed.

Lemma ffa_keeps_send_to_client P ws message :
  silent P → keeps P (send_to_client ws message).
Proof.
  intros [Hs _]. unfold send_to_client. apply keeps_mbind.
  - apply keeps_modify. auto.
  - intros _. repeat constructor.
Qed.

Lemma ffa_keeps_gather_send P targets message :
  silent P → keeps P (gather_send targets message).
Proof.
  intros [Hs _]. unfold gather_send. apply keeps_mbind.
  - apply keeps_modify. auto.
  - intros _. repeat constructor.
Qed.

Lemma ffa_keeps_broadcast_to_game_players P gid message :
  silent P → keeps P (broadcast_to_game_players server_api gid message).
Proof.
  intros HP. unfold broadcast_to_game_players. apply ffa_keeps_self. intros i.
  cbv zeta. case_match; [constructor|]. by apply ffa_keeps_gather_send.
Qed.

Lemma ffa_keeps_cancel_unless_done P (task : option nat) :
  keeps P (if task is Some t
           then finished ← is_done t;
                if (finished : bool) then mret () else cancel t
           else mret () : Prog Globals unit).
Proof. structural. Qed.

Lemma ffa_keeps_in_state_update gid st f :
  (∀ i, state (f i) = state i) →
  keeps (in_state gid st) (update gid f).
Proof.
  intros Hf. apply keeps_modify. intros g Hg. unfold in_state in *.
  by rewrite ffa_instance_update, Hf.
Qed.

(** The tasks that [end_game] starts to send the players home. *)
Lemma ffa_keeps_clean_up_tasks P (l : list string) world x y :
  keeps P
    (foldr (λ username rest,
              t ← create_task
                    (clean_up_player_on_exit server_api username world x y);
              ts ← rest; mret (t :: ts))
       (mret []) l).
Proof.
  induction l as [|username l IH]; simpl; [constructor|].
  constructor. intros t. apply keeps_bind; [done|]. intros. constructor.
Qed.

(** Once the state is [ended], what follows in [end_game] leaves it
    so. *)
Lemma ffa_keeps_ended_end_game_teardown gid was_cancelled i :
  keeps (in_state gid "ended")
    (end_game_teardown server_api gid was_cancelled i).
Proof.
  pose proof (ffa_silent_in_state gid "ended") as HP.
  unfold end_game_teardown.
  apply keeps_mbind; [apply keeps_for_; intros; apply ffa_keeps_cancel_unless_done|].
  intros _.
  apply keeps_mbind.
  { apply keeps_for_. intros player.
    apply (ffa_keeps_cancel_unless_done _ (reload_task player.2)). }
  intros _.
  apply keeps_mbind; [by apply ffa_keeps_broadcast_to_game_players|intros _].
  apply ffa_keeps_self. intros i1.
  apply keeps_mbind;
    [case_match; by apply ffa_keeps_broadcast_to_game_players|intros _].
  apply keeps_mbind; [repeat constructor|intros _].
  apply keeps_mbind; [repeat constructor|intros _].
  apply ffa_keeps_self. intros i'.
  apply keeps_mbind; [apply ffa_keeps_clean_up_tasks|intros ts].
  apply keeps_mbind; [destruct ts; repeat constructor|intros _].
  apply keeps_mbind; [by apply ffa_keeps_in_state_update|intros _].
  apply keeps_mbind; [apply keeps_modify; by intros []|intros _].
  apply ffa_keeps_get. intros g Hg. case_match; [|constructor].
  apply keeps_mbind; [apply keeps_modify; by intros []|intros _].
  by apply ffa_keeps_server_log.
Qed.

(** [end_game] on an instance that has ended returns at once and
    changes nothing. *)
Lemma ffa_end_game_ended gid was_cancelled (w : World) :
  state (instance (globals w) gid) = "ended" →
  advance (end_game server_api gid was_cancelled) w = (w, Finished ()).
Proof.
  intros Hst. unfold end_game. rewrite ffa_advance_self.
  by rewrite bool_decide_eq_true_2.
Qed.

Lemma ffa_end_game_not_ended gid was_cancelled (w : World) :
  state (instance (globals w) gid) ≠ "ended" →
  advance (end_game server_api gid was_cancelled) w
  = advance (end_game_teardown server_api gid was_cancelled
               (instance (globals w) gid))
      (with_globals
         (set_instances
            (<[gid := set_state "ended" (instance (globals w) gid)]>
               (instances (globals w))) (globals w)) w).
Proof.
  intros Hst. unfold end_game. rewrite ffa_advance_self.
  by rewrite bool_decide_eq_false_2.
Qed.

(** Whatever the state was, it is [ended] when [end_game] first waits
    or returns, and what is left of [end_game] leaves it so. *)
Lemma ffa_end_game_sets_ended gid was_cancelled (w : World) :
  in_state gid "ended"
    (globals (advance (end_game server_api gid was_cancelled) w).1)
  ∧ (if (advance (end_game server_api gid was_cancelled) w).2 is Parked rest
     then keeps (in_state gid "ended") rest else True).
Proof.
  destruct (decide (state (instance (globals w) gid) = "ended")) as [Hst|Hst].
  - by rewrite ffa_end_game_ended.
  - rewrite ffa_end_game_not_ended by done.
    set (w0 := with_globals _ w).
    assert (in_state gid "ended" (globals w0)) as Hw0.
    { unfold w0, in_state. simpl. by rewrite ffa_instance_update. }
    split.
    + apply (keeps_advance (in_state gid "ended")); [|done].
      apply ffa_keeps_ended_end_game_teardown.
    + destruct (advance _ w0) as [w1 [[]|e|rest]] eqn:Hadv; try done. simpl.
      eapply keeps_parked; [apply ffa_keeps_ended_end_game_teardown|done..].
Qed.

(** *** The procedures that are sure to return *)

Lemma ffa_after_self gid (w : World) (Q : World → GameInstance → Prop) :
  Q w (instance (globals w) gid) → after (self gid) w Q.
Proof. intros HQ. unfold self. after_step. after_step. by after_step. Qed.

Lemma ffa_after_update gid f (w : World) (Q : World → unit → Prop) :
  Q (with_globals
       (set_instances (<[gid := f (instance (globals w) gid)]>
                         (instances (globals w))) (globals w)) w) () →
  after (update gid f) w Q.
Proof. intros HQ. unfold update. by after_step. Qed.

Lemma ffa_after_server_log line (w : World) (Q : World → unit → Prop) :
  Q (with_globals (set_log (log (globals w) ++ [line]) (globals w)) w) () →
  after (server_log line) w Q.
Proof. intros HQ. unfold server_log. by after_step. Qed.

Lemma ffa_sure_self gid {A} (k : GameInstance → Prog Globals A) :
  (∀ i, sure (k i)) → sure (self gid ≫= k).
Proof. intros Hk. unfold self. repeat constructor. intros. apply Hk. Qed.

Lemma ffa_sure_get {A} (k : Globals → Prog Globals A) :
  (∀ g, sure (k g)) → sure (get ≫= k).
Proof. intros Hk. constructor. intros. by apply Hk. Qed.

Lemma ffa_sure_send_to_client ws message : sure (send_to_client ws message).
Proof. repeat constructor. Qed.

Lemma ffa_sure_gather_send targets message : sure (gather_send targets message).
Proof. repeat constructor. Qed.

Lemma ffa_sure_broadcast_to_game_players gid message :
  sure (broadcast_to_game_players server_api gid message).
Proof.
  unfold broadcast_to_game_players. apply ffa_sure_self. intros i.
  cbv zeta. case_match; [constructor|apply ffa_sure_gather_send].
Qed.

Lemma ffa_sure_teleport_player username world x y :
  sure (teleport_player server_api username world x y).
Proof. unfold teleport_player. repeat case_match; repeat constructor. Qed.

Lemma ffa_keeps_teleport_player P username world x y :
  silent P → keeps P (teleport_player server_api username world x y).
Proof.
  intros HP. unfold teleport_player. case_match; [|constructor].
  apply keeps_mbind.
  - case_match; [|constructor].
    apply keeps_mbind; [by apply ffa_keeps_send_to_client|repeat constructor].
  - intros _. by apply ffa_keeps_send_to_client.
Qed.

Lemma ffa_sure_cancel_unless_done (task : option nat) :
  sure (if task is Some t
        then finished ← is_done t;
             if (finished : bool) then mret () else cancel t
        else mret () : Prog Globals unit).
Proof. structural. Qed.

Lemma ffa_sure_start_countdown gid :
  sure (start_countdown server_api start_game gid).
Proof.
  unfold start_countdown. apply ffa_sure_self. intros i.
  apply sure_mbind; [apply ffa_sure_cancel_unless_done|intros _].
  repeat constructor.
Qed.

(** *** [add_player] *)

Lemma ffa_after_add_player (P0 P : Globals → Prop) gid username (w : World) :
  silent P0 → silent P →
  joinable (config (globals w)) (instance (globals w) gid) = true →
  P0 (globals w) →
  (∀ g, P0 g → P (joined gid username g)) →
  (∀ g t, P g →
     P (set_instances
          (<[gid := set_countdown_task (Some t) (instance g gid)]>
             (instances g)) g)) →
  after (add_player server_api start_game gid username) w
    (λ w' _, P (globals w')).
Proof.
  unfold joinable. intros HP0 HP [Hst Hsize]%andb_true_iff Hw Hjoin Htask.
  apply bool_decide_eq_true in Hst, Hsize.
  unfold add_player. after_step. apply ffa_after_self.
  rewrite bool_decide_eq_true_2 by done. simpl negb. cbv iota.
  after_step. after_step.
  rewrite bool_decide_eq_false_2 by lia.
  after_step. eapply after_mono.
  { apply (sure_keeps_after P0); [| |done].
    - case_match; [constructor|apply ffa_sure_gather_send].
    - case_match; [constructor|by apply ffa_keeps_gather_send]. }
  intros w1 [] Hw1. cbv beta in Hw1.
  after_step. apply ffa_after_update.
  after_step. after_step.
  eapply after_mono; [apply (sure_keeps_after P)|done].
  - apply sure_mbind; [apply ffa_sure_teleport_player|intros _].
    apply ffa_sure_self. intros ?. apply ffa_sure_get. intros ?.
    apply sure_mbind; [apply ffa_sure_broadcast_to_game_players|intros _].
    apply ffa_sure_self. intros ?. apply ffa_sure_get. intros ?.
    repeat case_match; try apply ffa_sure_start_countdown; constructor.
  - apply keeps_mbind; [by apply ffa_keeps_teleport_player|intros _].
    apply ffa_keeps_self. intros ?. apply ffa_keeps_get. intros ? _.
    apply keeps_mbind; [by apply ffa_keeps_broadcast_to_game_players|intros _].
    apply ffa_keeps_self. intros ?. apply ffa_keeps_get. intros ? _.
    assert (keeps P (start_countdown server_api start_game gid)) as Hsc.
    { unfold start_countdown. apply ffa_keeps_self. intros ?.
      apply keeps_mbind; [apply ffa_keeps_cancel_unless_done|intros _].
      constructor. intros t. cbn. apply keeps_modify. intros ?. apply Htask. }
    repeat case_match; try apply Hsc; constructor.
  - apply (Hjoin _ Hw1).
Qed.

(** *** A join that creates an instance *)

Lemma ffa_find_target_game_new g :
  (0 < max_players (config g))%Z →
  joinable (config g) (new_GameInstance (next_game_id g)) = true.
Proof.
  intros Hmax. unfold joinable.
  change (players (new_GameInstance (next_game_id g)))
    with (∅ : gmap string Player).
  change (state (new_GameInstance (next_game_id g))) with "waiting".
  rewrite map_size_empty.
  apply andb_true_iff. split; apply bool_decide_eq_true; [|lia].
  apply list_elem_of_here.
Qed.

(** The click on the join NPC of a user who is in no game, when no
    registered instance takes players and the lock is free. *)
Lemma ffa_after_on_message_join websocket username (w : World)
    (P : Globals → Prop) :
  get_username_from_websocket server_api websocket = Some username →
  username ≠ ""%string →
  player_to_game (globals w) !! username = None →
  find_target_game (globals w) = None →
  game_creation_lock (globals w) = false →
  (0 < max_players (config (globals w)))%Z →
  silent P →
  (∀ g gid t, P g →
     P (set_instances
          (<[gid := set_countdown_task (Some t) (instance g gid)]>
             (instances g)) g)) →
  (∀ g, config g = config (globals w) →
     instance g (next_game_id (globals w))
     = new_GameInstance (next_game_id (globals w)) →
     active_games g = active_games (globals w) ++ [next_game_id (globals w)] →
     player_to_game g = player_to_game (globals w) →
     (active_games (globals w) = [] → broadcast_override g = true) →
     P (joined (next_game_id (globals w)) username g)) →
  after (on_message_DAMAGE server_api start_game websocket
           "Shooter (0 Playing)" username) w
    (λ w' r, r = true ∧ P (globals w')).
Proof.
  intros Hws Hne Hdir Hfind Hlock Hmax HP Htask Hjoin.
  set (gid := next_game_id (globals w)) in *.
  unfold on_message_DAMAGE. rewrite Hws.
  destruct username as [|c rest]; [done|].
  set (username := String c rest) in *.
  rewrite bool_decide_eq_true_2 by done.
  change (Py.startswith "Shooter (" "Shooter (0 Playing)") with true.
  simpl andb. cbv iota. after_step. after_step.
  rewrite bool_decide_eq_false_2 by (rewrite Hdir; by intros [? ?]).
  after_step. apply after_until; [by rewrite Hlock|].
  after_step. after_step. after_step. after_step.
  simpl globals. change (find_target_game (set_game_creation_lock true (globals w)))
    with (find_target_game (globals w)).
  rewrite Hfind.
  set (P0 := λ g : Globals,
         config g = config (globals w)
         ∧ instance g gid = new_GameInstance gid
         ∧ active_games g = active_games (globals w) ++ [gid]
         ∧ player_to_game g = player_to_game (globals w)
         ∧ (active_games (globals w) = [] → broadcast_override g = true)).
  assert (silent P0) as HP0.
  { split; intros [] ?; done. }
  after_step. after_step.
  apply (after_mono _ _
    (λ w1 _, config (globals w1) = config (globals w)
             ∧ active_games (globals w1) = active_games (globals w)
             ∧ player_to_game (globals w1) = player_to_game (globals w)
             ∧ next_game_id (globals w1) = gid
             ∧ (active_games (globals w) = [] →
                broadcast_override (globals w1) = true))).
  { change (active_games (set_game_creation_lock true (globals w)))
      with (active_games (globals w)).
    destruct (active_games (globals w)) as [|g0 l] eqn:Hl.
    - after_step. after_step. apply ffa_after_server_log. simpl.
      by rewrite ?Hl.
    - after_step. simpl. by rewrite ?Hl. }
  intros w1 [] (Hcfg & Hact & Hdir1 & Hnext & Hover).
  repeat after_step. rewrite !Hnext.
  eapply after_mono.
  { apply (ffa_after_add_player P0 P); try done.
    - simpl. unfold instance. simpl. rewrite lookup_insert_eq. simpl.
      rewrite Hcfg. by apply ffa_find_target_game_new.
    - unfold P0. simpl. split_and!; try done.
      + unfold instance. simpl. by rewrite lookup_insert_eq.
      + by rewrite Hact.
    - intros g (? & ? & ? & ? & ?). by apply Hjoin.
    - intros g t. apply Htask. }
  intros w2 [] Hw2. cbv beta. after_step. done.
Qed.

(** *** The last player leaves *)

Lemma ffa_delete_only_key (m : gmap string Player) username :
  dom m = {[username]} → delete username m = ∅.
Proof.
  intros Hdom. apply (dom_empty_inv_L (D := gset string)).
  rewrite dom_delete_L, Hdom. apply difference_diag_L.
Qed.

(** [remove_player] for the only player of an instance that waits:
    [end_game] runs to its end inside [remove_player]; the instance is
    [ended], it has left [active_games], and the override is released
    when no instance remains. *)
Lemma ffa_after_remove_player_alone gid username (w : World)
    (P : Globals → Prop) :
  alone gid username (globals w) →
  silent P →
  P (globals w) →
  (∀ g i, P g → P (set_instances (<[gid := i]> (instances g)) g)) →
  (∀ g v, P g → P (set_player_to_game v g)) →
  (∀ g v, P g → P (set_active_games v g)) →
  (∀ g v, P g → P (set_broadcast_override v g)) →
  after (remove_player server_api gid username) w
    (λ w' _,
       left_alone gid username "ended" (globals w')
       ∧ P (globals w')
       ∧ (gid ∉ active_games (globals w'))
       ∧ active_games (globals w')
         = filter (λ k, k ≠ gid) (active_games (globals w))
       ∧ (active_games (globals w') = [] →
          broadcast_override (globals w') = false)).
Proof.
  intros (Hplayers & Hstate & Hdir & Hin) HP Hw Hinst Hpg Hact Hover.
  set (Q := λ st g, left_alone gid username st g ∧ P g
                    ∧ active_games g = active_games (globals w)).
  assert (∀ st, silent (Q st)) as HQ.
  { intros st. destruct HP as [HP1 HP2].
    destruct (ffa_silent_left_alone gid username st) as [HL1 HL2].
    split; intros g v (? & ? & ?); split_and!; auto. }
  unfold remove_player.
  after_step. apply ffa_after_update.
  after_step. after_step.
  set (w1 := with_globals _ _).
  assert (Q "waiting" (globals w1)) as Hw1.
  { unfold w1, Q, left_alone. simpl globals. split_and!.
    - rewrite ffa_instance_set_player_to_game, ffa_instance_insert. simpl.
      by apply ffa_delete_only_key.
    - by rewrite ffa_instance_set_player_to_game, ffa_instance_insert.
    - simpl. by rewrite lookup_delete_eq.
    - apply Hpg, Hinst, Hw.
    - done. }
  after_step. eapply after_mono.
  { apply (sure_keeps_after (Q "waiting")); [| |exact Hw1].
    - apply ffa_sure_broadcast_to_game_players.
    - by apply ffa_keeps_broadcast_to_game_players. }
  intros w2 [] Hw2. cbv beta in Hw2 |- *.
  after_step. apply ffa_after_self. after_step. after_step.
  after_step. eapply after_mono.
  { apply (sure_keeps_after (Q "waiting")); [| |exact Hw2].
    - apply ffa_sure_broadcast_to_game_players.
    - by apply ffa_keeps_broadcast_to_game_players. }
  intros w3 [] Hw3. cbv beta in Hw3 |- *.
  pose proof Hw3 as ((Hp3 & Hs3 & Hd3) & HP3 & Ha3).
  after_step. apply ffa_after_self. after_step. after_step.
  rewrite Hs3.
  rewrite (bool_decide_eq_false_2 ("waiting" = "countdown")) by done.
  simpl andb. cbv iota.
  after_step. after_step.
  after_step. apply ffa_after_self. after_step. after_step.
  rewrite Hs3.
  rewrite (bool_decide_eq_false_2 ("waiting" = "playing")) by done.
  simpl andb. cbv iota.
  after_step. after_step.
  after_step. apply ffa_after_self.
  rewrite Hp3, Hs3.
  rewrite (bool_decide_eq_true_2 (∅ = ∅)) by done.
  rewrite (bool_decide_eq_false_2 ("waiting" = "ended")) by done.
  simpl andb. simpl negb. cbv iota.
  after_step. apply ffa_after_server_log.
  set (w4 := with_globals _ w3).
  assert (Q "waiting" (globals w4)) as Hw4.
  { unfold w4. simpl. destruct (HQ "waiting") as [_ HQ2]. by apply HQ2. }
  destruct Hw4 as ((Hp4 & Hs4 & Hd4) & HP4 & Ha4).
  unfold end_game. after_step. apply ffa_after_self.
  rewrite Hs4.
  rewrite (bool_decide_eq_false_2 ("waiting" = "ended")) by done.
  after_step. apply ffa_after_update.
  set (w5 := with_globals _ w4).
  assert (Q "ended" (globals w5)) as Hw5.
  { unfold w5, Q, left_alone. simpl globals. split_and!.
    - by rewrite ffa_instance_insert.
    - by rewrite ffa_instance_insert.
    - exact Hd4.
    - apply (Hinst (globals w4)). exact HP4.
    - exact Ha4. }
  unfold end_game_teardown.
  after_step. eapply after_mono.
  { apply (sure_keeps_after (Q "ended")); [| |exact Hw5].
    - apply sure_for_. intros. apply ffa_sure_cancel_unless_done.
    - apply keeps_for_. intros. apply ffa_keeps_cancel_unless_done. }
  intros w6 [] Hw6. cbv beta in Hw6 |- *.
  after_step. eapply after_mono.
  { apply (sure_keeps_after (Q "ended")); [| |exact Hw6].
    - apply sure_for_. intros player.
      apply (ffa_sure_cancel_unless_done (reload_task player.2)).
    - apply keeps_for_. intros player.
      apply (ffa_keeps_cancel_unless_done _ (reload_task player.2)). }
  intros w7 [] Hw7. cbv beta in Hw7 |- *.
  after_step. eapply after_mono.
  { apply (sure_keeps_after (Q "ended")); [| |exact Hw7].
    - apply ffa_sure_broadcast_to_game_players.
    - by apply ffa_keeps_broadcast_to_game_players. }
  intros w8 [] Hw8. cbv beta in Hw8 |- *.
  after_step. apply ffa_after_self.
  after_step. eapply after_mono.
  { apply (sure_keeps_after (Q "ended")); [| |exact Hw8].
    - apply ffa_sure_broadcast_to_game_players.
    - by apply ffa_keeps_broadcast_to_game_players. }
  intros w9 [] Hw9. cbv beta in Hw9 |- *.
  after_step. after_step. after_step. after_step.
  after_step. apply ffa_after_self.
  destruct Hw9 as ((Hp9 & Hs9 & Hd9) & HP9 & Ha9).
  rewrite Hp9, dom_empty_L, elements_empty. simpl foldr.
  after_step. after_step. cbv iota.
  after_step. after_step.
  after_step. apply ffa_after_update.
  after_step. after_step.
  set (rest := filter (λ k, k ≠ gid) (active_games (globals w))).
  assert (gid ∉ rest) as Hnot.
  { unfold rest. intros [Hne _]%list_elem_of_filter. done. }
  after_step. after_step.
  match goal with |- after _ ?W _ => set (w10 := W) end.
  assert (active_games (globals w10) = rest) as Ha10.
  { unfold w10. simpl. by rewrite Ha9. }
  assert (P (globals w10)) as HP10.
  { unfold w10. simpl globals. apply Hact. by apply (Hinst (globals w9)). }
  assert (left_alone gid username "ended" (globals w10)) as HL10.
  { unfold w10, left_alone. simpl globals.
    change (instance (set_active_games ?v ?g) gid) with (instance g gid).
    rewrite ffa_instance_insert. done. }
  rewrite Ha10.
  destruct HP as [HP1 HP2].
  destruct (ffa_silent_left_alone gid username "ended") as [HL1 HL2].
  destruct rest as [|k rest'] eqn:Hr.
  - after_step. after_step. apply ffa_after_server_log. simpl globals.
    refine (conj _ (conj _ (conj _ (conj _ _)))).
    + apply HL2. revert HL10. by intros [? ?].
    + apply HP2, Hover, HP10.
    + change (gid ∉ active_games (globals w10)). rewrite Ha10.
      apply not_elem_of_nil.
    + change (active_games (globals w10) = []). by rewrite Ha10.
    + done.
  - after_step.
    refine (conj HL10 (conj HP10 (conj _ (conj Ha10 _)))).
    + by rewrite Ha10.
    + by rewrite Ha10.
Qed.

Lemma ffa_after_on_disconnect websocket username gid (w : World)
    (Q : World → unit → Prop) :
  get_username_from_websocket server_api websocket = Some username →
  username ≠ ""%string →
  player_to_game (globals w) !! username = Some gid →
  gid ∈ active_games (globals w) →
  after (remove_player server_api gid username) w Q →
  after (on_disconnect server_api websocket) w Q.
Proof.
  intros Hws Hne Hdir Hact Hremove. unfold on_disconnect.
  after_step. after_step. rewrite Hws.
  destruct username as [|c rest]; [done|].
  rewrite Hdir. unfold active_game.
  by rewrite bool_decide_eq_true_2.
Qed.

(** *** The seconds of the countdown *)

Lemma ffa_awake_broadcast_to_game_players gid message :
  awake (broadcast_to_game_players server_api gid message).
Proof.
  unfold broadcast_to_game_players, self. constructor. intros g. cbn.
  destruct (omap _ _); [constructor|].
  unfold gather_send. repeat (constructor; try done).
Qed.

Lemma ffa_range_down_length n : length (range_down n) = Z.to_nat n.
Proof. unfold range_down. by rewrite length_fmap, length_seq. Qed.

(** The loop of [_countdown] sleeps once for each second of
    [wait_time]. *)
Lemma ffa_countdown_wait_sleeps gid n (w : World) :
  ∃ w', sleeps (advance (countdown_wait server_api gid n) w) (Z.to_nat n) w' ().
Proof.
  rewrite <- ffa_range_down_length. unfold countdown_wait.
  apply sleeps_for_. intros k w1. apply sleeps_then_sleep.
  case_match; [apply ffa_awake_broadcast_to_game_players|constructor].
Qed.

(** *** Join, then leave *)

Lemma ffa_join_then_leave websocket username (w : World) :
  get_username_from_websocket server_api websocket = Some username →
  username ≠ ""%string →
  player_to_game (globals w) !! username = None →
  find_target_game (globals w) = None →
  game_creation_lock (globals w) = false →
  (0 < max_players (config (globals w)))%Z →
  let gid := next_game_id (globals w) in
  ∃ w1 w2,
    runs (on_message_DAMAGE server_api start_game websocket
            "Shooter (0 Playing)" username) w w1 true
    ∧ alone gid username (globals w1)
    ∧ (active_games (globals w) = [] → broadcast_override (globals w1) = true)
    ∧ runs (on_disconnect server_api websocket) w1 w2 ()
    ∧ state (instance (globals w2) gid) = "ended"
    ∧ (gid ∉ active_games (globals w2))
    ∧ player_to_game (globals w2) !! username = None
    ∧ (active_games (globals w) = [] →
       active_games (globals w2) = []
       ∧ broadcast_override (globals w2) = false).
Proof.
  intros Hws Hne Hdir Hfind Hlock Hmax gid.
  set (L := active_games (globals w)).
  set (P1 := λ g : Globals,
               alone gid username g
               ∧ active_games g = L ++ [gid]
               ∧ (L = [] → broadcast_override g = true)).
  assert (after (on_message_DAMAGE server_api start_game websocket
                   "Shooter (0 Playing)" username) w
            (λ w' r, r = true ∧ P1 (globals w')))
    as (w1 & r & Hjoin & HQ1);
    [|cbv beta in HQ1; destruct HQ1 as (-> & Halone & Hact1 & Hover1)].
  { apply ffa_after_on_message_join; [done|done|done|done|done|done| | |].
    - split; intros [] ?; done.
    - intros g gid' t ((Hp & Hs & Hd & Hin) & Ha & Ho).
      split; [|done]. unfold alone.
      destruct (decide (gid' = gid)) as [->|Hne'].
      + by rewrite ffa_instance_insert.
      + unfold instance in *. simpl. by rewrite lookup_insert_ne.
    - intros g Hcfg Hinst Hact Hpg Hover.
      fold gid in Hinst, Hact |- *. fold L in Hact.
      split; [|done]. unfold alone, joined. cbv zeta.
      rewrite ffa_instance_set_player_to_game, ffa_instance_insert, Hinst. simpl.
      split_and!.
      + rewrite dom_insert_L, dom_empty_L. apply (right_id_L ∅ (∪)).
      + done.
      + by rewrite lookup_insert_eq.
      + rewrite Hact. apply elem_of_app. right. apply list_elem_of_here. }
  set (P2 := λ g : Globals, True).
  pose proof Halone as (Hp1 & Hs1 & Hd1 & Hin1).
  assert (after (on_disconnect server_api websocket) w1
            (λ w' _,
               left_alone gid username "ended" (globals w')
               ∧ P2 (globals w')
               ∧ (gid ∉ active_games (globals w'))
               ∧ active_games (globals w')
                 = filter (λ k, k ≠ gid) (active_games (globals w1))
               ∧ (active_games (globals w') = [] →
                  broadcast_override (globals w') = false)))
    as (w2 & [] & Hleave & HQ2);
    [|cbv beta in HQ2;
      destruct HQ2 as ((Hp2 & Hs2 & Hd2) & _ & Hnot2 & Hact2 & Hover2)].
  { apply (ffa_after_on_disconnect websocket username gid); [done..|].
    apply ffa_after_remove_player_alone; done. }
  exists w1, w2. split_and!; try done.
  intros HL.
  assert (active_games (globals w2) = []) as Hnil.
  { rewrite Hact2, Hact1. fold L in HL. rewrite HL. simpl.
    rewrite filter_cons_False; [done|]. by intros ?. }
  auto.
Qed.

End Procedures.
End FreeForAllFacts.

(** ** Squid_Game.py: the procedures *)

Module SquidFacts.
Import Async AsyncFacts Server Squid_Game.

Lemma squid_instance_update g gid f :
  instance (set_instances (<[gid := f (instance g gid)]> (instances g)) g) gid
  = f (instance g gid).
Proof. unfold instance. simpl. by rewrite lookup_insert_eq. Qed.

Lemma squid_silent_claimed gid username : silent (claimed gid username).
Proof. by intros [] ?. Qed.

Section Procedures.
Context (server_api : ServerApi).
Context (start_game : nat → Prog Globals unit).
Local Abbreviation World := (Async.World Globals).

Lemma squid_advance_self gid {A} (k : GameInstance → Prog Globals A) (w : World) :
  advance (self gid ≫= k) w = advance (k (instance (globals w) gid)) w.
Proof. done. Qed.

Lemma squid_sure_self gid {A} (k : GameInstance → Prog Globals A) :
  (∀ i, sure (k i)) → sure (self gid ≫= k).
Proof. intros Hk. unfold self. repeat constructor. intros. apply Hk. Qed.

Lemma squid_sure_get {A} (k : Globals → Prog Globals A) :
  (∀ g, sure (k g)) → sure (get ≫= k).
Proof. intros Hk. constructor. intros. by apply Hk. Qed.

Lemma squid_keeps_self P gid {A} (k : GameInstance → Prog Globals A) :
  (∀ i, keeps P (k i)) → keeps P (self gid ≫= k).
Proof. intros Hk. unfold self. repeat constructor. intros. apply Hk. Qed.

Lemma squid_keeps_get P {A} (k : Globals → Prog Globals A) :
  (∀ g, P g → keeps P (k g)) → keeps P (get ≫= k).
Proof. intros Hk. constructor. intros. by apply Hk. Qed.

Lemma squid_sure_send_to_client ws message : sure (send_to_client ws message).
Proof. repeat constructor. Qed.

Lemma squid_keeps_send_to_client P ws message :
  silent P → keeps P (send_to_client ws message).
Proof.
  intros Hs. unfold send_to_client. apply keeps_mbind.
  - apply keeps_modify. auto.
  - intros _. repeat constructor.
Qed.

Lemma squid_sure_broadcast_to_game_players gid message :
  sure (broadcast_to_game_players server_api gid message).
Proof.
  unfold broadcast_to_game_players. apply squid_sure_self. intros i.
  apply sure_for_. intros username. case_match; [|constructor].
  apply squid_sure_send_to_client.
Qed.

Lemma squid_keeps_broadcast_to_game_players P gid message :
  silent P → keeps P (broadcast_to_game_players server_api gid message).
Proof.
  intros HP. unfold broadcast_to_game_players. apply squid_keeps_self. intros i.
  apply keeps_for_. intros username. case_match; [|constructor].
  by apply squid_keeps_send_to_client.
Qed.

Lemma squid_sure_teleport_player username world x y :
  sure (teleport_player server_api username world x y).
Proof. unfold teleport_player. case_match; repeat constructor. Qed.

Lemma squid_keeps_teleport_player P username world x y :
  silent P → keeps P (teleport_player server_api username world x y).
Proof.
  intros HP. unfold teleport_player. case_match; [|constructor].
  apply keeps_mbind; [by apply squid_keeps_send_to_client|intros _].
  apply keeps_mbind; [repeat constructor|intros _].
  by apply squid_keeps_send_to_client.
Qed.

Lemma squid_sure_despawn_player_from_main_world username :
  sure (despawn_player_from_main_world server_api username).
Proof.
  unfold despawn_player_from_main_world. apply squid_sure_get. intros g.
  cbv zeta. case_match; repeat constructor.
Qed.

Lemma squid_sure_start_countdown gid :
  sure (start_countdown server_api start_game gid).
Proof. repeat constructor. Qed.

Lemma squid_keeps_claimed_start_countdown gid gid' username :
  keeps (claimed gid' username) (start_countdown server_api start_game gid).
Proof.
  unfold start_countdown. constructor. intros t. cbn.
  apply keeps_modify. intros g [Hin Hdir]. split; [|done].
  destruct (decide (gid = gid')) as [<-|Hne].
  - by rewrite squid_instance_update.
  - unfold instance in *. simpl. by rewrite lookup_insert_ne.
Qed.

(** A join that [add_player] does not accept: nothing happens. *)
Lemma squid_add_player_rejected gid username (w : World) :
  joinable (config (globals w)) (instance (globals w) gid) = false →
  advance (add_player server_api start_game gid username) w
  = (w, Finished ()).
Proof.
  unfold joinable, add_player. intros Hj. rewrite squid_advance_self.
  case_bool_decide as Hst; simpl in *; [|done].
  rewrite bool_decide_eq_true_2; [done|].
  apply bool_decide_eq_false in Hj. lia.
Qed.

(** A join that [add_player] accepts. *)
Lemma squid_add_player_accepted gid username (w : World) :
  joinable (config (globals w)) (instance (globals w) gid) = true →
  after (add_player server_api start_game gid username) w
    (λ w' _, claimed gid username (globals w')).
Proof.
  unfold joinable. intros [Hst Hsize]%andb_true_iff.
  apply bool_decide_eq_true in Hst, Hsize.
  pose proof (squid_silent_claimed gid username) as HP.
  unfold add_player. after_step.
  exists w, (instance (globals w) gid). split; [constructor|].
  rewrite bool_decide_eq_true_2 by done. simpl negb. cbv iota.
  after_step. after_step.
  rewrite bool_decide_eq_false_2 by lia.
  after_step. eapply after_mono;
    [apply sure_after, squid_sure_despawn_player_from_main_world|].
  intros w1 _ _. cbv beta.
  after_step. unfold update. after_step.
  after_step. after_step.
  eapply after_mono; [apply (sure_keeps_after (claimed gid username))|done].
  - apply sure_mbind; [apply squid_sure_teleport_player|intros _].
    apply squid_sure_self. intros i. apply squid_sure_get. intros g.
    apply sure_mbind; [apply squid_sure_broadcast_to_game_players|intros _].
    apply squid_sure_self. intros i'. apply squid_sure_get. intros g'.
    case_match; [apply squid_sure_start_countdown|constructor].
  - apply keeps_mbind; [by apply squid_keeps_teleport_player|intros _].
    apply squid_keeps_self. intros i. apply squid_keeps_get. intros g _.
    apply keeps_mbind; [by apply squid_keeps_broadcast_to_game_players|intros _].
    apply squid_keeps_self. intros i'. apply squid_keeps_get. intros g' _.
    case_match; [apply squid_keeps_claimed_start_countdown|constructor].
  - split.
    + unfold instance. simpl. rewrite lookup_insert_eq. simpl. set_solver.
    + simpl. by rewrite lookup_insert_eq.
Qed.

(** *** The seconds of the countdown *)

Lemma squid_awake_broadcast_to_game_players gid message :
  awake (broadcast_to_game_players server_api gid message).
Proof.
  unfold broadcast_to_game_players, self. repeat constructor. intros g.
  apply awake_for_. intros username. case_match; [|constructor].
  unfold send_to_client. repeat (constructor; try done).
Qed.

Lemma squid_range_down_length n : length (range_down n) = Z.to_nat n.
Proof. unfold range_down. by rewrite length_fmap, length_seq. Qed.

(** The loop of [countdown_task] sleeps once for each second of
    [wait_time]. *)
Lemma squid_countdown_wait_sleeps gid n (w : World) :
  ∃ w', sleeps (advance (countdown_wait server_api gid n) w) (Z.to_nat n) w' ().
Proof.
  rewrite <- squid_range_down_length. unfold countdown_wait.
  apply sleeps_for_. intros k w1. apply sleeps_then_sleep.
  case_match; [apply squid_awake_broadcast_to_game_players|constructor].
Qed.

End Procedures.
End SquidFacts.

(** ** Joins that interleave

    [add_player] checks the state and the size of the roster, then waits
    for the despawn frames to go out to the main world, and only then
    adds the player to the roster and to [player_to_game].  The handlers
    of other clicks run while it waits. *)

Module JoinFacts.
Import Async Server.

Local Open Scope Z_scope.



End JoinFacts.

(** C3, the code at nine concurrent joins.  Against the empty registry
    and the default configuration, whose [max_players] is 8, nine clicks
    whose handlers all reach the [await] of [add_player] before any of
    them is resumed create one instance, and its roster then holds nine
    players: each handler saw a roster below the maximum.  The lock of
    FreeForAll is released before [add_player] and changes nothing. *)
Theorem nine_concurrent_joins_overfill_the_instance :
  let zombies :=
    Async.exec Scenario.zombies_nine_joins
      (Async.idle (Zombies.initial Zombies.DEFAULT_CONFIG)) in
  let freeforall :=
    Async.exec Scenario.freeforall_nine_joins
      (Async.idle (FreeForAll.initial FreeForAll.DEFAULT_CONFIG)) in
  (Zombies.max_players Zombies.DEFAULT_CONFIG = 8%Z
   ∧ Zombies.active_games (Async.globals zombies) = [0]
   ∧ size (Zombies.players (Zombies.instance (Async.globals zombies) 0)) = 9)
  ∧ (FreeForAll.max_players FreeForAll.DEFAULT_CONFIG = 8%Z
     ∧ FreeForAll.active_games (Async.globals freeforall) = [1]
     ∧ size (FreeForAll.players
               (FreeForAll.instance (Async.globals freeforall) 1)) = 9).
Proof. by vm_compute. Qed.

(** C2, the code at a double click.  The user [a] clicks the join NPC;
    while the handler waits in [add_player], eight other users fill the
    instance; [a] clicks again and, not yet in [player_to_game], is sent
    to a second instance.  When both handlers have been resumed, [a] is
    in the rosters of both registered instances, and the entry of [a] in
    [player_to_game], written by the first handler, has been overwritten
    by the second. *)
Theorem double_click_puts_the_player_in_two_rosters :
  let zombies :=
    Async.exec Scenario.zombies_double_click
      (Async.idle (Zombies.initial Zombies.DEFAULT_CONFIG)) in
  let freeforall :=
    Async.exec Scenario.freeforall_double_click
      (Async.idle (FreeForAll.initial FreeForAll.DEFAULT_CONFIG)) in
  (Zombies.active_games (Async.globals zombies) = [0; 1]
   ∧ "a" ∈ Zombies.players (Zombies.instance (Async.globals zombies) 0)
   ∧ "a" ∈ Zombies.players (Zombies.instance (Async.globals zombies) 1)
   ∧ Zombies.player_to_game (Async.globals zombies) !! "a" = Some 1)
  ∧ (FreeForAll.active_games (Async.globals freeforall) = [1; 2]
     ∧ is_Some (FreeForAll.players
                  (FreeForAll.instance (Async.globals freeforall) 1) !! "a")
     ∧ is_Some (FreeForAll.players
                  (FreeForAll.instance (Async.globals freeforall) 2) !! "a")
     ∧ FreeForAll.player_to_game (Async.globals freeforall) !! "a" = Some 2).
Proof.
  cbv zeta. split_and!.
  - by vm_compute.
  - apply (bool_decide_unpack _). by vm_compute.
  - apply (bool_decide_unpack _). by vm_compute.
  - by vm_compute.
  - by vm_compute.
  - apply (bool_decide_unpack _). by vm_compute.
  - apply (bool_decide_unpack _). by vm_compute.
  - by vm_compute.
Qed.

(** ** The countdown of an instance *)

Module CountdownFacts.
Import Async AsyncFacts.

Section Facts.
Context {G : Type}.
Local Abbreviation Prog := (Async.Prog G).
Local Abbreviation World := (Async.World G).

(** *** Coroutines that raise no [CancelledError] of their own *)

Lemma calm_bind {A B} (m : Prog A) (f : A → Prog B) :
  calm m → (∀ a, calm (f a)) → calm (bind m f).
Proof. intros Hm Hf. induction Hm; simpl; try constructor; auto. Qed.

Lemma calm_mbind {A B} (m : Prog A) (f : A → Prog B) :
  calm m → (∀ a, calm (f a)) → calm (m ≫= f).
Proof. apply calm_bind. Qed.

Lemma calm_for_ {X} (l : list X) (body : X → Prog unit) :
  (∀ x, calm (body x)) → calm (for_ l body).
Proof.
  intros Hb. induction l; simpl; [constructor|]. by apply calm_mbind.
Qed.

Lemma calm_modify (f : G → G) : calm (modify f : Prog unit).
Proof. repeat constructor. Qed.

Lemma calm_try_except_Exception {A} (body : Prog A) handler :
  calm body → (∀ what, calm (handler what)) →
  calm (try_except_Exception body handler).
Proof. intros Hb Hh. constructor; [done|apply Hh|constructor]. Qed.

Lemma calm_strip {A} (p : Prog A) : calm p → calm (strip p).
Proof. induction 1; simpl; try constructor; auto. Qed.

(** Run up to its next [await], a calm coroutine does not fail with
    [CancelledError], and what is left of it is calm. *)
Lemma calm_advance {A} (p : Prog A) w :
  calm p →
  match (advance p w).2 with
  | Finished _ => True
  | Failed e => e ≠ CancelledError
  | Parked q => calm q
  end.
Proof.
  intros Hp. revert w.
  induction Hp as [A a|A what|A k Hk IH|A g k Hk IH|A why k Hk IH
                  |A coro k Hk IH|A t k Hk IH|A t k Hk IH|A ready ts k Hk IH
                  |A B body catches handler k Hb IHb Hh IHh Hk IHk];
    intros w; simpl.
  - done.
  - done.
  - apply IH.
  - apply IH.
  - by constructor.
  - apply IH.
  - apply IH.
  - apply IH.
  - destruct (ready (globals w) && all_done ts w); [apply IH|].
    simpl. by constructor.
  - specialize (IHb w).
    destruct (advance body w) as [w1 [b|e|body']]; simpl in *.
    + apply IHk.
    + destruct e as [|what]; [done|].
      destruct (catches (Exception what)); [|done].
      specialize (IHh what w1).
      destruct (advance (handler (Exception what)) w1) as [w2 [b|e'|h']];
        simpl in *; [apply IHk|done|].
      by apply calm_bind.
    + by constructor.
Qed.

Lemma calm_residual {A} (p q : Prog A) : calm p → residual p q → calm q.
Proof.
  intros Hp. induction 1 as [w w' q Hq|q w w' q' _ IH Hq].
  - pose proof (calm_advance p w Hp) as H. by rewrite Hq in H.
  - pose proof (calm_advance (strip q) w (calm_strip q IH)) as H.
    unfold resume in Hq. by rewrite Hq in H.
Qed.

(** A [try] block that catches [CancelledError] only, around a calm
    body: as long as the coroutine is not cancelled, it waits in the
    [try] block, where its body waits. *)
Lemma residual_try_except_CancelledError (body handler q : Prog unit) :
  calm body →
  residual (try_except_CancelledError body handler) q →
  ∃ body',
    q = Try body' (λ e, if e is CancelledError then true else false)
          (λ _, handler) Ret
    ∧ residual body body'.
Proof.
  intros Hb.
  assert (∀ b w w' q,
            calm b →
            attempt (λ e, if e is CancelledError then true else false)
              (λ _, handler) Ret (advance b w) = (w', Parked q) →
            ∃ body',
              advance b w = (w', Parked body')
              ∧ q = Try body' (λ e, if e is CancelledError then true else false)
                      (λ _, handler) Ret) as Hstep.
  { intros b w w' q0 Hcalm. pose proof (calm_advance b w Hcalm) as Hc.
    destruct (advance b w) as [w1 [[]|e|body']]; simpl in *.
    - done.
    - destruct e; [done|]. done.
    - intros [= <- <-]. by exists body'. }
  induction 1 as [w w' q Hq|q w w' q' Hres IH Hq].
  - unfold try_except_CancelledError in Hq. rewrite advance_try in Hq.
    destruct (Hstep _ _ _ _ Hb Hq) as (body' & Hadv & ->).
    exists body'. split; [done|]. by eapply residual_first.
  - destruct IH as (body0 & -> & Hres0).
    rewrite resume_try in Hq. unfold resume in Hq.
    pose proof (calm_strip _ (calm_residual _ _ Hb Hres0)) as Hcalm.
    destruct (Hstep _ _ _ _ Hcalm Hq) as (body' & Hadv & ->).
    exists body'. split; [done|]. by eapply residual_next.
Qed.

(** *** The sleeps of the first part of a [try] block *)

Lemma naps_attempt {A B C} (f : B → Prog C) catches handler (k : C → Prog A)
    (r : World * status B) n w1 b :
  well_parked r →
  sleeps r n w1 b →
  naps (attempt catches handler k (and_then f r)) n
    (advance (Try (f b) catches handler k) w1).
Proof.
  intros Hwp Hr. induction Hr as [w b|w p n w' b Hr IH].
  - unfold and_then. simpl. rewrite <- advance_try. constructor.
  - unfold and_then. simpl.
    rewrite <- (naps_at_bind p f) by done.
    change (naps_at (bind p f))
      with (naps_at (Try (bind p f) catches handler k)).
    apply naps_resume. rewrite resume_try, resume_bind by done.
    apply IH, advance_well_parked.
Qed.

(** When the first part [m] of a [try] block returns after [n] sleeps,
    the [try] statement comes, after [n] sleeps, to the rest of its
    block. *)
Lemma naps_try {A B C} (m : Prog B) (f : B → Prog C) catches handler
    (k : C → Prog A) w n w1 b :
  sleeps (advance m w) n w1 b →
  naps (advance (Try (m ≫= f) catches handler k) w) n
    (advance (Try (f b) catches handler k) w1).
Proof.
  intros Hm. rewrite advance_try, advance_mbind.
  apply naps_attempt; [apply advance_well_parked|done].
Qed.

End Facts.
End CountdownFacts.

(** ** Zombies.py: the countdown *)

Module ZombiesCountdownFacts.
Import Async AsyncFacts CountdownFacts Server Zombies ZombiesFacts.

Section Procedures.
Context (server_api : ServerApi).
Context (simulate : nat → Prog Globals flow) (ticks : nat).
Local Abbreviation World := (Async.World Globals).

(** *** The [try] block of [countdown] raises no [CancelledError] *)

Lemma calm_self gid {A} (k : GameInstance → Prog Globals A) :
  (∀ i, calm (k i)) → calm (self gid ≫= k).
Proof. intros Hk. unfold self. repeat constructor. intros. apply Hk. Qed.

Lemma calm_get {A} (k : Globals → Prog Globals A) :
  (∀ g, calm (k g)) → calm (get ≫= k).
Proof. intros Hk. constructor. intros. by apply Hk. Qed.

Lemma calm_server_log line : calm (server_log line).
Proof. repeat constructor. Qed.

Lemma calm_update gid f : calm (update gid f).
Proof. repeat constructor. Qed.

Lemma calm_send_to_client ws message : calm (send_to_client ws message).
Proof. repeat constructor. Qed.

Lemma calm_broadcast_to_game_players gid message :
  calm (broadcast_to_game_players server_api gid message).
Proof.
  unfold broadcast_to_game_players. apply calm_self. intros i.
  apply calm_for_. intros username. case_match; [|constructor].
  apply calm_try_except_Exception; [apply calm_send_to_client|].
  intros. apply calm_server_log.
Qed.

Lemma calm_teleport_player username world x y :
  calm (teleport_player server_api username world x y).
Proof. unfold teleport_player. case_match; repeat constructor. Qed.

Lemma calm_generate_and_broadcast_timer_image gid n :
  calm (generate_and_broadcast_timer_image server_api gid n).
Proof.
  apply calm_try_except_Exception;
    [apply calm_broadcast_to_game_players|intros; apply calm_server_log].
Qed.

Lemma calm_for_in_game_players gid n l body :
  (∀ x, calm (body x)) → calm (for_in_game_players gid n l body).
Proof.
  intros Hb. induction l as [|x l IH]; simpl.
  - repeat constructor. intros. case_match; constructor.
  - repeat constructor. intros. case_match; [|constructor].
    apply calm_bind; [apply Hb|]. intros _. apply IH.
Qed.

Lemma calm_start_game gid :
  calm (start_game server_api simulate ticks gid).
Proof.
  unfold start_game.
  apply calm_mbind; [apply calm_update|intros _].
  apply calm_mbind; [apply calm_update|intros _].
  apply calm_mbind; [apply calm_broadcast_to_game_players|intros _].
  apply calm_self. intros i.
  apply calm_mbind.
  { apply calm_for_in_game_players. intros. apply calm_teleport_player. }
  intros _.
  apply calm_mbind; [apply calm_broadcast_to_game_players|intros _].
  apply calm_self. intros i'.
  apply calm_mbind; [case_match; repeat constructor|intros _].
  repeat constructor.
Qed.

Lemma calm_countdown_body gid :
  calm (countdown_body server_api simulate ticks gid).
Proof.
  unfold countdown_body.
  apply calm_mbind; [apply calm_update|intros _].
  apply calm_self. intros i. apply calm_get. intros g.
  apply calm_mbind.
  { unfold countdown_wait.
    apply calm_for_. intros n. apply calm_mbind; [|repeat constructor].
    repeat case_match;
      [apply calm_generate_and_broadcast_timer_image|
       apply calm_broadcast_to_game_players|constructor]. }
  intros _.
  apply calm_mbind; [apply calm_broadcast_to_game_players|intros _].
  apply calm_self. intros i'. apply calm_get. intros g'.
  repeat case_match; try apply calm_start_game; try by constructor.
  apply calm_mbind; [apply calm_update|intros _].
  apply calm_broadcast_to_game_players.
Qed.

(** As long as it is not cancelled, the coroutine [countdown] waits
    in its [try] block. *)
Lemma residual_countdown gid p :
  residual (countdown server_api simulate ticks gid) p →
  ∃ body,
    p = countdown_parked server_api gid body
    ∧ residual (countdown_body server_api simulate ticks gid) body.
Proof.
  intros Hres. unfold countdown in Hres.
  by apply residual_try_except_CancelledError in Hres;
    [|apply calm_countdown_body].
Qed.

(** *** The length of the countdown *)

(** [countdown] comes to the end of its loop after one sleep for each
    second of [wait_time], which it reads off the roster as it
    starts. *)
Lemma countdown_naps gid (w : World) :
  ∃ w1,
    naps (advance (countdown server_api simulate ticks gid) w)
      (Z.to_nat (wait_time (config (globals w)) (instance (globals w) gid)))
      (advance (countdown_parked server_api gid
                  (countdown_end server_api simulate ticks gid)) w1).
Proof.
  set (w' := in_game_state gid "countdown" w).
  assert (wait_time (config (globals w)) (instance (globals w) gid)
          = wait_time (config (globals w')) (instance (globals w') gid))
    as ->.
  { unfold w'. by rewrite instance_in_game_state. }
  destruct (countdown_wait_sleeps server_api gid
              (wait_time (config (globals w')) (instance (globals w') gid)) w')
    as (w1 & Hsleeps).
  exists w1.
  exact (naps_try
           (countdown_wait server_api gid
              (wait_time (config (globals w')) (instance (globals w') gid)))
           (λ _, countdown_end server_api simulate ticks gid)
           (λ e, if e is CancelledError then true else false)
           (λ _, countdown_cancelled server_api gid) Ret
           w' _ w1 () Hsleeps).
Qed.

(** *** [start_countdown] *)

Lemma start_countdown_creates_countdown gid (w : World) :
  ∃ w',
    advance (start_countdown server_api simulate ticks gid) w
    = (w', Finished ())
    ∧ countdown_task (instance (globals w') gid) = Some (next_task w)
    ∧ pool w' !! next_task w
      = Some (Await not_started (countdown server_api simulate ticks gid)).
Proof.
  unfold start_countdown. rewrite advance_self.
  set (w1 := match countdown_task (instance (globals w) gid) with
             | Some t => if bool_decide (pool w !! t = None) then w
                         else request_cancel t w
             | None => w
             end).
  assert (next_task w1 = next_task w) as Hnext.
  { unfold w1. repeat case_match; try done.
    unfold request_cancel. by case_match. }
  exists (with_globals
            (set_instances
               (<[gid := set_countdown_task (Some (next_task w1))
                           (instance (globals w1) gid)]>
                  (instances (globals w1))) (globals w1))
            (add_task (countdown server_api simulate ticks gid) w1)).
  split_and!.
  - unfold w1. destruct (countdown_task (instance (globals w) gid)) as [t|];
      [|done].
    simpl. by destruct (bool_decide (pool w !! t = None)).
  - simpl. by rewrite instance_insert, Hnext.
  - simpl. by rewrite Hnext, lookup_insert_eq.
Qed.

(** *** A player leaves during the countdown *)

(** [remove_player] when the roster falls below [min_players] during
    the countdown, whether a player remains or not: the cancellation of
    the countdown task is requested, and the task is left in the
    pool as it was. *)
Lemma runs_remove_player_cancels gid username t p (w : World) :
  game_state (instance (globals w) gid) = "countdown" →
  countdown_task (instance (globals w) gid) = Some t →
  pool w !! t = Some p →
  t < next_task w →
  (Z.of_nat (size (players (instance (globals w) gid) ∖ {[username]}))
   < min_players (config (globals w)))%Z →
  ∃ w', runs (remove_player server_api gid username) w w' ()
        ∧ pool w' !! t = Some p
        ∧ t ∈ must_cancel w'.
Proof.
  intros Hstate Htask Hpool Hlt Hsize.
  set (Q := λ w' : World,
         pool w' = pool w ∧ must_cancel w' = must_cancel w
         ∧ next_task w' = next_task w
         ∧ config (globals w') = config (globals w)
         ∧ game_state (instance (globals w') gid) = "countdown"
         ∧ countdown_task (instance (globals w') gid) = Some t
         ∧ players (instance (globals w') gid)
           = players (instance (globals w) gid) ∖ {[username]}).
  assert (∀ w1 frames, Q w1 → Q (deliver frames w1)) as Hdeliver.
  { intros w1 frames HQ. exact HQ. }
  assert (after (remove_player server_api gid username) w
            (λ w' _, pool w' !! t = Some p ∧ t ∈ must_cancel w'))
    as (w' & [] & Hr & HQ);
    [|by exists w'].
  unfold remove_player.
  after_step. apply after_update.
  after_step. after_step.
  set (w1 := with_globals _ _).
  assert (Q w1) as Hw1.
  { unfold Q, w1. simpl pool. simpl must_cancel. simpl next_task.
    simpl globals. rewrite !instance_set_player_to_game, !instance_insert.
    done. }
  after_step. apply after_broadcast_to_game_players.
  match goal with |- after _ (deliver ?F w1) _ =>
    pose proof (Hdeliver w1 F Hw1) as Hw2; set (w2 := deliver F w1) in * end.
  after_step. apply after_self. after_step. after_step.
  after_step. apply after_broadcast_to_game_players.
  match goal with |- after _ (deliver ?F w2) _ =>
    pose proof (Hdeliver w2 F Hw2) as Hw3; set (w3 := deliver F w2) in * end.
  destruct Hw3 as (Hp3 & Hm3 & Hn3 & Hc3 & Hs3 & Ht3 & Hr3).
  after_step. apply after_self. after_step. after_step.
  rewrite Hs3, Hr3, Hc3, Ht3.
  rewrite (bool_decide_eq_true_2 ("countdown" = "countdown")) by done.
  rewrite bool_decide_eq_true_2 by done.
  simpl andb. cbv iota.
  after_step. after_step. after_step.
  rewrite Hp3, Hpool.
  rewrite bool_decide_eq_false_2 by done.
  after_step.
  after_step. apply after_self.
  set (w4 := request_cancel t w3).
  assert (globals w4 = globals w3 ∧ pool w4 = pool w3
          ∧ next_task w4 = next_task w3
          ∧ must_cancel w4 = {[t]} ∪ must_cancel w3)
    as (Hg4 & Hp4 & Hn4 & Hm4).
  { unfold w4, request_cancel. by rewrite Hp3, Hpool. }
  rewrite Hg4, Hr3, Hs3.
  rewrite (bool_decide_eq_false_2 ("countdown" = "ended")) by done.
  destruct (decide (players (instance (globals w) gid) ∖ {[username]} = ∅))
    as [Hempty|Hne].
  - rewrite bool_decide_eq_true_2 by done. simpl andb. cbv iota.
    apply after_end_game.
    + by rewrite Hg4, Hs3.
    + simpl. split.
      * rewrite lookup_insert_ne by (rewrite Hn4, Hn3; lia).
        by rewrite Hp4, Hp3.
      * rewrite Hm4. apply elem_of_union. left. by apply elem_of_singleton.
  - rewrite bool_decide_eq_false_2 by done. simpl andb. cbv iota.
    after_step. split.
    + by rewrite Hp4, Hp3.
    + rewrite Hm4. apply elem_of_union. left. by apply elem_of_singleton.
Qed.

End Procedures.
End ZombiesCountdownFacts.

(** ** FreeForAll.py: joins and the countdown *)

Module FreeForAllCountdownFacts.
Import Async AsyncFacts CountdownFacts Server FreeForAll FreeForAllFacts.

Section Procedures.
Context (server_api : ServerApi).
Context (start_game : nat → Prog Globals unit).
Local Abbreviation World := (Async.World Globals).

Lemma ffa_silent_claimed gid username : silent (claimed gid username).
Proof. split; intros [] ?; done. Qed.

(** A join that [add_player] does not accept: the requester is told
    why, and nothing else happens. *)
Lemma ffa_add_player_rejected gid username (w : World) :
  joinable (config (globals w)) (instance (globals w) gid) = false →
  runs (add_player server_api start_game gid username) w
    (if get_websocket_from_username server_api username is Some ws then
       deliver
         [(ws, Raw (if bool_decide (state (instance (globals w) gid)
                                    ∈ ["waiting"; "countdown"])
                    then "TELLRAW|PLACERSERVER|This game is full."
                    else "TELLRAW|PLACERSERVER|This game has already started."))]
         w
     else w) ().
Proof.
  unfold joinable. intros Hj.
  assert (∀ ws text, runs (send_to_client ws (Raw text)) w
                       (deliver [(ws, Raw text)] w) ()) as Hsend.
  { intros ws text. unfold runs, send_to_client. simpl.
    apply terminates_parked. unfold resume. simpl. constructor. }
  unfold runs, add_player. rewrite ffa_advance_self.
  case_bool_decide as Hst; simpl negb; cbv iota.
  - rewrite advance_get. rewrite bool_decide_eq_true_2.
    + case_match; [apply Hsend|constructor].
    + simpl in Hj. apply bool_decide_eq_false in Hj. lia.
  - case_match; [apply Hsend|constructor].
Qed.

Lemma ffa_add_player_accepted gid username (w : World) :
  joinable (config (globals w)) (instance (globals w) gid) = true →
  after (add_player server_api start_game gid username) w
    (λ w' _, claimed gid username (globals w')).
Proof.
  intros Hj.
  apply (ffa_after_add_player server_api start_game
           (λ _, True) (claimed gid username)).
  - done.
  - apply ffa_silent_claimed.
  - done.
  - done.
  - intros g _. split.
    + unfold joined, instance. simpl. rewrite lookup_insert_eq. simpl.
      by rewrite lookup_insert_eq.
    + unfold joined. simpl. by rewrite lookup_insert_eq.
  - intros g t [Hin Hdir]. split; [|done]. by rewrite ffa_instance_update.
Qed.

(** [_countdown] comes to the end of its loop after one sleep for each
    second of [wait_time], which it reads off the roster as it
    starts. *)
Lemma ffa_countdown_naps gid (w : World) :
  ∃ w1,
    naps (advance (_countdown server_api start_game gid) w)
      (Z.to_nat (wait_time (config (globals w)) (instance (globals w) gid)))
      (advance (_countdown_parked server_api gid
                  (_countdown_end server_api start_game gid)) w1).
Proof.
  set (w' := with_globals
               (set_instances
                  (<[gid := set_state "countdown" (instance (globals w) gid)]>
                     (instances (globals w))) (globals w)) w).
  assert (wait_time (config (globals w)) (instance (globals w) gid)
          = wait_time (config (globals w')) (instance (globals w') gid))
    as ->.
  { unfold w'. simpl. by rewrite ffa_instance_insert. }
  destruct (ffa_countdown_wait_sleeps server_api gid
              (wait_time (config (globals w')) (instance (globals w') gid)) w')
    as (w1 & Hsleeps).
  exists w1.
  exact (naps_try
           (countdown_wait server_api gid
              (wait_time (config (globals w')) (instance (globals w') gid)))
           (λ _, _countdown_end server_api start_game gid)
           (λ e, if e is CancelledError then true else false)
           (λ _, _countdown_cancelled server_api gid) Ret
           w' _ w1 () Hsleeps).
Qed.

End Procedures.
End FreeForAllCountdownFacts.

(** ** Squid_Game.py: the countdown *)

Module SquidCountdownFacts.
Import Async AsyncFacts CountdownFacts Server Squid_Game SquidFacts.

Section Procedures.
Context (server_api : ServerApi).
Context (start_game : nat → Prog Globals unit).
Local Abbreviation World := (Async.World Globals).

(** [countdown_task] comes to the end of its loop after one sleep for
    each second of [countdown_normal]. *)
Lemma squid_countdown_naps gid (w : World) :
  ∃ w1,
    naps (advance (countdown_task server_api start_game gid) w)
      (Z.to_nat (countdown_normal (config (globals w))))
      (advance (countdown_task_parked server_api gid
                  (countdown_task_end server_api start_game gid)) w1).
Proof.
  set (w' := with_globals
               (set_instances
                  (<[gid := set_game_state "countdown"
                              (instance (globals w) gid)]>
                     (instances (globals w))) (globals w)) w).
  destruct (squid_countdown_wait_sleeps server_api gid
              (wait_time (config (globals w')) (instance (globals w') gid)) w')
    as (w1 & Hsleeps).
  exists w1.
  exact (naps_try
           (countdown_wait server_api gid
              (wait_time (config (globals w')) (instance (globals w') gid)))
           (λ _, countdown_task_end server_api start_game gid)
           (λ e, if e is CancelledError then true else false)
           (λ _, countdown_task_cancelled server_api gid) Ret
           w' _ w1 () Hsleeps).
Qed.

End Procedures.
End SquidCountdownFacts.

(** ** The life cycle of an instance *)

Import Async AsyncFacts Server.

(** C6.  An instance of Zombies is in its countdown: [start_countdown]
    has made the coroutine [countdown] the task that [countdown_task]
    names, and the task waits at any [await] that [countdown] comes to
    as long as it is not cancelled.  A player leaves and the roster
    falls below [min_players]: [remove_player] requests the
    cancellation of the task.  At its next turn the task gets
    [CancelledError] where it waits, and the state of the instance is
    [waiting] at once; the coroutine then tells the roster that the
    countdown is cancelled, hides the timer image and returns.  It
    starts no game: nothing else of the instance changes and no task is
    created. *)
Theorem countdown_cancelled_at_any_await api simulate ticks gid username t p
    (w : World Zombies.Globals) :
  Zombies.game_state (Zombies.instance (globals w) gid) = "countdown" →
  Zombies.countdown_task (Zombies.instance (globals w) gid) = Some t →
  pool w !! t = Some p →
  residual (Zombies.countdown api simulate ticks gid) p →
  t < next_task w →
  (Z.of_nat (size (Zombies.players (Zombies.instance (globals w) gid)
                   ∖ {[username]}))
   < Zombies.min_players (Zombies.config (globals w)))%Z →
  (∀ w0, ∃ w0',
     advance (Zombies.start_countdown api simulate ticks gid) w0
     = (w0', Finished ())
     ∧ Zombies.countdown_task (Zombies.instance (globals w0') gid)
       = Some (next_task w0)
     ∧ pool w0' !! next_task w0
       = Some (Await not_started (Zombies.countdown api simulate ticks gid)))
  ∧ ∃ w1,
      runs (Zombies.remove_player api gid username) w w1 ()
      ∧ pool w1 !! t = Some p
      ∧ t ∈ must_cancel w1
      ∧ let cancelled :=
          MkWorld (globals w1) (pool w1) (next_task w1)
            (must_cancel w1 ∖ {[t]}) in
        let r := throw CancelledError p cancelled in
        let w2 :=
          Zombies.deliver
            (Zombies.frames_to_roster api gid
               "TELLRAW|PLACERSERVER|Countdown cancelled." cancelled
             ++ Zombies.frames_to_roster api gid "HIDE_IMAGE|PLACERSERVER|"
                  cancelled)
            (Zombies.in_game_state gid "waiting" cancelled) in
        turn t w1 = settle t r
        ∧ Zombies.game_state (Zombies.instance (globals (turn t w1)) gid)
          = "waiting"
        ∧ terminates r w2 (Returned ())
        ∧ Zombies.instance (globals w2) gid
          = Zombies.set_game_state "waiting"
              (Zombies.instance (globals w1) gid)
        ∧ pool w2 = pool w1 ∧ next_task w2 = next_task w1.
Proof.
  intros Hstate Htask Hpool Hres Hlt Hsize. split.
  { intros w0.
    apply ZombiesCountdownFacts.start_countdown_creates_countdown. }
  destruct (ZombiesCountdownFacts.residual_countdown _ _ _ _ _ Hres)
    as (body & -> & Hbody).
  destruct (ZombiesCountdownFacts.runs_remove_player_cancels api gid username
              t _ w Hstate Htask Hpool Hlt Hsize)
    as (w1 & Hruns & Hpool1 & Hcancel).
  exists w1. split_and!; [done..|]. cbv zeta.
  set (cancelled := MkWorld (globals w1) (pool w1) (next_task w1)
                      (must_cancel w1 ∖ {[t]})).
  assert (throw CancelledError (Zombies.countdown_parked api gid body) cancelled
          = and_then Ret (advance (Zombies.countdown_cancelled api gid) cancelled))
    as Hr by by eapply ZombiesFacts.throw_countdown_parked.
  assert (turn t w1
          = settle t (throw CancelledError
                        (Zombies.countdown_parked api gid body) cancelled))
    as Hturn.
  { unfold turn. rewrite Hpool1. by rewrite bool_decide_eq_true_2. }
  split_and!.
  - done.
  - rewrite Hturn, Hr.
    match goal with |- context [settle t ?r] =>
      assert (globals (settle t r) = globals r.1) as ->
    end.
    { unfold settle. by case_match. }
    apply ZombiesFacts.countdown_cancelled_sets_waiting.
  - rewrite Hr. eapply terminates_and_then.
    + apply advance_well_parked.
    + apply ZombiesFacts.runs_countdown_cancelled.
    + constructor.
  - by rewrite ZombiesFacts.instance_deliver,
      ZombiesFacts.instance_in_game_state.
  - done.
  - done.
Qed.

(** The user [y] leaves the instance 0 of [zombies_counting], whose
    countdown waits where it first does. *)
Lemma countdown_cancelled_at_any_await_witness :
  ∃ w1,
    runs (Zombies.remove_player Scenario.four_users 0 "y")
      Scenario.zombies_counting w1 ()
    ∧ 0 ∈ must_cancel w1
    ∧ Zombies.game_state (Zombies.instance (globals (turn 0 w1)) 0)
      = "waiting".
Proof.
  destruct (countdown_cancelled_at_any_await Scenario.four_users
              Scenario.quiet_tick 1 0 "y" 0
              (Zombies.countdown_parked Scenario.four_users 0
                 Scenario.zombies_countdown_waits)
              Scenario.zombies_counting)
    as (_ & w1 & Hruns & _ & Hcancel & _ & Hstate & _).
  - reflexivity.
  - reflexivity.
  - reflexivity.
  - apply (residual_first _ (idle Scenario.zombies_two_games)
             Scenario.zombies_countdown_started.1).
    by vm_compute.
  - simpl. lia.
  - by vm_compute.
  - exists w1. split; [exact Hruns|]. split; [exact Hcancel|exact Hstate].
Defined.

(** C8.  One pass of [game_loop], in Zombies and in FreeForAll, where
    the simulation of a tick catches no [CancelledError] itself.  When
    the body of the pass raises an exception, at its start or at a
    later resumption, the loop logs the error line and goes on with the
    next pass.  While the body waits, the loop waits in its [try]
    block; [CancelledError] raised there ends the loop at once: it
    returns and changes nothing. *)
Theorem game_loop_logs_errors_and_stops_when_cancelled
    (zombies_tick : nat → Prog Zombies.Globals Zombies.flow)
    (freeforall_tick : nat → Prog FreeForAll.Globals unit) (n gid : nat) :
  passes (zombies_tick gid) →
  passes (freeforall_tick gid) →
  ((∀ w w1 what,
      Zombies.game_state (Zombies.instance (globals w) gid) = "playing" →
      advance (Zombies.tick zombies_tick gid) w
      = (w1, Failed (Exception what)) →
      advance (Zombies.game_loop zombies_tick (S n) gid) w
      = advance (Zombies.game_loop zombies_tick n gid)
          (Zombies.logged (Zombies.game_loop_error gid what) w1))
   ∧ (∀ body w w1 what,
        resume body w = (w1, Failed (Exception what)) →
        resume (Zombies.game_loop_parked zombies_tick n gid body) w
        = advance (Zombies.game_loop zombies_tick n gid)
            (Zombies.logged (Zombies.game_loop_error gid what) w1))
   ∧ (∀ w w1 body,
        Zombies.game_state (Zombies.instance (globals w) gid) = "playing" →
        advance (Zombies.tick zombies_tick gid) w = (w1, Parked body) →
        advance (Zombies.game_loop zombies_tick (S n) gid) w
        = (w1, Parked (Zombies.game_loop_parked zombies_tick n gid body)))
   ∧ (∀ body w w1 body',
        resume body w = (w1, Parked body') →
        resume (Zombies.game_loop_parked zombies_tick n gid body) w
        = (w1, Parked (Zombies.game_loop_parked zombies_tick n gid body')))
   ∧ (∀ body w,
        residual (Zombies.tick zombies_tick gid) body →
        throw CancelledError
          (Zombies.game_loop_parked zombies_tick n gid body) w
        = (w, Finished ())))
  ∧ ((∀ w w1 what,
        FreeForAll.state (FreeForAll.instance (globals w) gid) = "playing" →
        advance (FreeForAll.tick freeforall_tick gid) w
        = (w1, Failed (Exception what)) →
        advance (FreeForAll.game_loop freeforall_tick (S n) gid) w
        = advance (FreeForAll.game_loop freeforall_tick n gid)
            (FreeForAll.logged (FreeForAll.game_loop_error gid what) w1))
     ∧ (∀ body w w1 what,
          resume body w = (w1, Failed (Exception what)) →
          resume (FreeForAll.game_loop_parked freeforall_tick n gid body) w
          = advance (FreeForAll.game_loop freeforall_tick n gid)
              (FreeForAll.logged (FreeForAll.game_loop_error gid what) w1))
     ∧ (∀ w w1 body,
          FreeForAll.state (FreeForAll.instance (globals w) gid) = "playing" →
          advance (FreeForAll.tick freeforall_tick gid) w = (w1, Parked body) →
          advance (FreeForAll.game_loop freeforall_tick (S n) gid) w
          = (w1, Parked (FreeForAll.game_loop_parked freeforall_tick n gid body)))
     ∧ (∀ body w w1 body',
          resume body w = (w1, Parked body') →
          resume (FreeForAll.game_loop_parked freeforall_tick n gid body) w
          = (w1, Parked (FreeForAll.game_loop_parked freeforall_tick n gid body')))
     ∧ (∀ body w,
          residual (FreeForAll.tick freeforall_tick gid) body →
          throw CancelledError
            (FreeForAll.game_loop_parked freeforall_tick n gid body) w
          = (w, Finished ()))).
Proof.
  intros Hz Hf.
  assert (passes (Zombies.tick zombies_tick gid)) as Hzt.
  { unfold Zombies.tick. apply passes_mbind; [done|]. structural. }
  assert (passes (FreeForAll.tick freeforall_tick gid)) as Hft.
  { unfold FreeForAll.tick. apply passes_mbind; [done|]. structural. }
  assert (∀ w, Zombies.game_state (Zombies.instance (globals w) gid) = "playing" →
    advance (Zombies.game_loop zombies_tick (S n) gid) w
    = attempt (λ _, true)
        (λ e, match e with
              | CancelledError => mret Zombies.stop
              | Exception what =>
                  Zombies.server_log (Zombies.game_loop_error gid what);;
                  mret Zombies.go_on
              end)
        (λ r, if r is Zombies.go_on then Zombies.game_loop zombies_tick n gid
              else mret ())
        (advance (Zombies.tick zombies_tick gid) w)) as Hzs.
  { intros w Hst. rewrite <- advance_try. simpl.
    by rewrite bool_decide_eq_true_2. }
  assert (∀ w, FreeForAll.state (FreeForAll.instance (globals w) gid) = "playing" →
    advance (FreeForAll.game_loop freeforall_tick (S n) gid) w
    = attempt (λ _, true)
        (λ e, match e with
              | CancelledError => mret false
              | Exception what =>
                  modify (λ g, FreeForAll.set_log
                    (FreeForAll.log g ++ [FreeForAll.game_loop_error gid what]) g);;
                  mret true
              end)
        (λ again : bool,
           if again then FreeForAll.game_loop freeforall_tick n gid
           else mret ())
        (advance (FreeForAll.tick freeforall_tick gid) w)) as Hfs.
  { intros w Hst. rewrite <- advance_try. simpl.
    by rewrite bool_decide_eq_true_2. }
  split; split_and!.
  - intros w w1 what Hst Hraise. by rewrite Hzs, Hraise.
  - intros body w w1 what Hraise. unfold Zombies.game_loop_parked.
    by rewrite resume_try, Hraise.
  - intros w w1 body Hst Hpark. by rewrite Hzs, Hpark.
  - intros body w w1 body' Hpark. unfold Zombies.game_loop_parked.
    by rewrite resume_try, Hpark.
  - intros body w Hres. unfold Zombies.game_loop_parked.
    rewrite throw_try, passes_throw; [done| |by eapply residual_waiting].
    by eapply passes_residual.
  - intros w w1 what Hst Hraise. by rewrite Hfs, Hraise.
  - intros body w w1 what Hraise. unfold FreeForAll.game_loop_parked.
    by rewrite resume_try, Hraise.
  - intros w w1 body Hst Hpark. by rewrite Hfs, Hpark.
  - intros body w w1 body' Hpark. unfold FreeForAll.game_loop_parked.
    by rewrite resume_try, Hpark.
  - intros body w Hres. unfold FreeForAll.game_loop_parked.
    rewrite throw_try, passes_throw; [done| |by eapply residual_waiting].
    by eapply passes_residual.
Qed.

Lemma game_loop_logs_errors_and_stops_when_cancelled_witness :
  let zombies := idle Scenario.zombies_playing in
  let zombies_body : Prog Zombies.Globals Zombies.flow :=
    Await send (Raise (Exception "division by zero")) in
  let freeforall := idle Scenario.freeforall_playing in
  let freeforall_body : Prog FreeForAll.Globals bool :=
    Await send (Raise (Exception "ZeroDivisionError - division by zero")) in
  (resume (Zombies.game_loop_parked Scenario.zombies_bad_tick 1 0 zombies_body)
     zombies
   = advance (Zombies.game_loop Scenario.zombies_bad_tick 1 0)
       (Zombies.logged (Zombies.game_loop_error 0 "division by zero") zombies)
   ∧ throw CancelledError
       (Zombies.game_loop_parked Scenario.zombies_bad_tick 1 0 zombies_body)
       zombies
     = (zombies, Finished ()))
  ∧ (resume (FreeForAll.game_loop_parked Scenario.freeforall_bad_tick 1 1
               freeforall_body) freeforall
     = advance (FreeForAll.game_loop Scenario.freeforall_bad_tick 1 1)
         (FreeForAll.logged
            (FreeForAll.game_loop_error 1 "ZeroDivisionError - division by zero")
            freeforall)
     ∧ throw CancelledError
         (FreeForAll.game_loop_parked Scenario.freeforall_bad_tick 1 1
            freeforall_body) freeforall
       = (freeforall, Finished ())).
Proof.
  intros zombies zombies_body freeforall freeforall_body.
  assert (passes (Scenario.zombies_bad_tick 0)) as Hz by structural.
  assert (passes (Scenario.freeforall_bad_tick 1)) as Hf by structural.
  split.
  - destruct (game_loop_logs_errors_and_stops_when_cancelled
                Scenario.zombies_bad_tick Scenario.freeforall_bad_tick 1 0
                Hz Hf) as [(_ & Hraise & _ & _ & Hcancel) _].
    split.
    + by apply Hraise.
    + apply Hcancel.
      by apply (residual_first _ zombies
                  (advance (Zombies.tick Scenario.zombies_bad_tick 0) zombies).1).
  - destruct (game_loop_logs_errors_and_stops_when_cancelled
                Scenario.zombies_bad_tick Scenario.freeforall_bad_tick 1 1
                Hz Hf) as [_ (_ & Hraise & _ & _ & Hcancel)].
    split.
    + by apply Hraise.
    + apply Hcancel.
      by apply (residual_first _ freeforall
                  (advance (FreeForAll.tick Scenario.freeforall_bad_tick 1)
                     freeforall).1).
Defined.

(** C7.  [end_game] is called twice on one instance, and the second
    call is not a no-op.  The players [x] and [y] of an instance leave
    during its countdown: the second [remove_player] calls [end_game],
    the state is [ended] and the teardown is under way.  The cancelled
    countdown, at its turn, sets the state back to [waiting].  The
    server then unloads the plugin and [on_unload] calls [end_game]
    again: in Zombies a second task [_end_game_task] is created for
    the instance, in FreeForAll the second call of [end_game] goes
    through the teardown itself.  Both teardowns run to their end, and
    the line that records the release of the override is logged
    twice.  Between the two calls the instance, whose teardown is
    under way, is the one that [on_message] picks for a join. *)
Example cancelled_countdown_lets_end_game_run_twice :
  (let emptied := exec Scenario.zombies_lobby_empties
                    (idle (Zombies.initial Zombies.DEFAULT_CONFIG)) in
   let cancelled := turn 2 emptied in
   let unloaded := exec Scenario.zombies_unload cancelled in
   let torn_down := exec [Turn 5; Turn 7; Turn 5; Turn 7; Turn 5; Turn 7]
                      unloaded in
   (Zombies.game_state (Zombies.instance (globals emptied) 0) = "ended"
    ∧ elements (dom (pool emptied)) = [2; 5]
    ∧ pool emptied !! 5
      = Some (Await not_started
                (Zombies._end_game_task Scenario.four_users 0 false))
    ∧ elements (must_cancel emptied) = [2])
   ∧ (Zombies.game_state (Zombies.instance (globals cancelled) 0) = "waiting"
      ∧ Zombies.active_games (globals cancelled) = [0]
      ∧ Zombies.find_target_game (globals cancelled) = Some 0
      ∧ elements (dom (pool cancelled)) = [5])
   ∧ (Zombies.game_state (Zombies.instance (globals unloaded) 0) = "ended"
      ∧ elements (dom (pool unloaded)) = [5; 7]
      ∧ pool unloaded !! 7
        = Some (Await not_started
                  (Zombies._end_game_task Scenario.four_users 0 false)))
   ∧ (pool torn_down = ∅
      ∧ Zombies.active_games (globals torn_down) = []
      ∧ Zombies.log (globals torn_down)
        = ["ZombiesGame: First game created, broadcast override is active.";
           "ZombiesGame Plugin: Unloaded.";
           "ZombiesGame: Last game ended, broadcast override released.";
           "ZombiesGame: Last game ended, broadcast override released."]))
  ∧ (let emptied := exec Scenario.freeforall_lobby_empties
                      (idle (FreeForAll.initial FreeForAll.DEFAULT_CONFIG)) in
     let cancelled := turn 2 emptied in
     let unloaded := exec Scenario.freeforall_unload cancelled in
     let torn_down := exec [Turn 4; Turn 6; Turn 4; Turn 6; Turn 4; Turn 6]
                        unloaded in
     (FreeForAll.state (FreeForAll.instance (globals emptied) 1) = "ended"
      ∧ elements (dom (pool emptied)) = [4; 2]
      ∧ elements (must_cancel emptied) = [2])
     ∧ (FreeForAll.state (FreeForAll.instance (globals cancelled) 1)
        = "waiting"
        ∧ FreeForAll.active_games (globals cancelled) = [1]
        ∧ FreeForAll.find_target_game (globals cancelled) = Some 1
        ∧ elements (dom (pool cancelled)) = [4])
     ∧ (FreeForAll.state (FreeForAll.instance (globals unloaded) 1) = "ended"
        ∧ elements (dom (pool unloaded)) = [6; 4])
     ∧ (pool torn_down = ∅
        ∧ FreeForAll.active_games (globals torn_down) = []
        ∧ FreeForAll.log (globals torn_down)
          = ["FreeForAll: First game created, broadcast override is active.";
             "[FreeForAll 1] Last player left. Ending game.";
             "FreeForAll Plugin: Unloaded.";
             "FreeForAll: Last game ended, broadcast override released.";
             "FreeForAll: Last game ended, broadcast override released."])).
Proof. cbv zeta. split_and!; vm_compute; reflexivity. Qed.

(** C4, as the code has it.  In Zombies and in FreeForAll,
    [add_player] accepts a join exactly when the state is [waiting] or
    [countdown] and the roster is below [max_players]: the player is
    then in the roster and in [player_to_game]; otherwise the
    connection of the requester, if it has one, is sent the reason, and
    nothing else changes.  In Squid_Game, [add_player] accepts a join
    exactly when the state is [waiting] and the roster is below
    [max_players]; otherwise it returns at once, and nothing is
    sent. *)
Theorem add_player_accepts_or_rejects api simulate ticks start_match
    start_game gid username
    (zombies : World Zombies.Globals) (freeforall : World FreeForAll.Globals)
    (squid : World Squid_Game.Globals) :
  (if Zombies.joinable (Zombies.config (globals zombies))
        (Zombies.instance (globals zombies) gid)
   then
     after (Zombies.add_player api simulate ticks gid username) zombies
       (λ w' _, Zombies.claimed gid username (globals w'))
   else
     runs (Zombies.add_player api simulate ticks gid username) zombies
       (if get_websocket_from_username api username is Some ws then
          Zombies.deliver
            [(ws, Raw (if bool_decide
                            (Zombies.game_state
                               (Zombies.instance (globals zombies) gid)
                             ∈ ["waiting"; "countdown"])
                       then "TELLRAW|PLACERSERVER|This game is full."
                       else "TELLRAW|PLACERSERVER|This game has already started."))]
            zombies
        else zombies) ())
  ∧ (if FreeForAll.joinable (FreeForAll.config (globals freeforall))
          (FreeForAll.instance (globals freeforall) gid)
     then
       after (FreeForAll.add_player api start_match gid username) freeforall
         (λ w' _, FreeForAll.claimed gid username (globals w'))
     else
       runs (FreeForAll.add_player api start_match gid username) freeforall
         (if get_websocket_from_username api username is Some ws then
            FreeForAll.deliver
              [(ws, Raw (if bool_decide
                              (FreeForAll.state
                                 (FreeForAll.instance (globals freeforall) gid)
                               ∈ ["waiting"; "countdown"])
                         then "TELLRAW|PLACERSERVER|This game is full."
                         else "TELLRAW|PLACERSERVER|This game has already started."))]
              freeforall
          else freeforall) ())
  ∧ (if Squid_Game.joinable (Squid_Game.config (globals squid))
          (Squid_Game.instance (globals squid) gid)
     then
       after (Squid_Game.add_player api start_game gid username) squid
         (λ w' _, Squid_Game.claimed gid username (globals w'))
     else
       advance (Squid_Game.add_player api start_game gid username) squid
       = (squid, Finished ())).
Proof.
  split; [|split].
  - destruct (Zombies.joinable _ _) eqn:Hj.
    + by apply ZombiesFacts.add_player_accepted.
    + by apply ZombiesFacts.add_player_rejected.
  - destruct (FreeForAll.joinable _ _) eqn:Hj.
    + by apply FreeForAllCountdownFacts.ffa_add_player_accepted.
    + by apply FreeForAllCountdownFacts.ffa_add_player_rejected.
  - destruct (Squid_Game.joinable _ _) eqn:Hj.
    + by apply SquidFacts.squid_add_player_accepted.
    + by apply SquidFacts.squid_add_player_rejected.
Qed.

(** C4 fails in Squid_Game: instance 0 is in its countdown with two
    players of at most twelve, and the join of [w] is dropped without a
    word. *)
Lemma squid_join_during_countdown_is_dropped :
  let i := Squid_Game.instance Scenario.squid_countdown 0 in
  Squid_Game.game_state i = "countdown"
  ∧ (Z.of_nat (size (Squid_Game.players i))
     < Squid_Game.max_players (Squid_Game.config Scenario.squid_countdown))%Z
  ∧ advance (Squid_Game.add_player Scenario.four_users Scenario.no_round 0 "w")
      (idle Scenario.squid_countdown)
    = (idle Scenario.squid_countdown, Finished ()).
Proof. by vm_compute. Qed.

(** C5, as the code has it.  The coroutine of the countdown, started
    in any state of the loop and resumed whenever it waits, comes to
    the end of its loop, where it goes on to start the game or to give
    up, after one [await asyncio.sleep(1)] for each second of
    [wait_time].  In Zombies and in FreeForAll that is
    [countdown_full] seconds when, as the coroutine starts, the roster
    is at [max_players], and [countdown_normal] seconds otherwise: 10
    instead of 40, and 10 instead of 30, with the default
    configurations.  In Squid_Game it is [countdown_normal] seconds,
    whatever the roster. *)
Theorem countdown_lasts_wait_time api simulate ticks start_match start_game gid
    (zombies : World Zombies.Globals) (freeforall : World FreeForAll.Globals)
    (squid : World Squid_Game.Globals) :
  (let cfg := Zombies.config (globals zombies) in
   let i := Zombies.instance (globals zombies) gid in
   (∃ w1,
      naps (advance (Zombies.countdown api simulate ticks gid) zombies)
        (Z.to_nat
           (if bool_decide (Z.of_nat (size (Zombies.players i))
                            = Zombies.max_players cfg)
            then Zombies.countdown_full cfg
            else Zombies.countdown_normal cfg))
        (advance
           (Zombies.countdown_parked api gid
              (Zombies.countdown_end api simulate ticks gid)) w1))
   ∧ (Zombies.countdown_full Zombies.DEFAULT_CONFIG = 10
      ∧ Zombies.countdown_normal Zombies.DEFAULT_CONFIG = 40)%Z)
  ∧ (let cfg := FreeForAll.config (globals freeforall) in
     let i := FreeForAll.instance (globals freeforall) gid in
     (∃ w1,
        naps (advance (FreeForAll._countdown api start_match gid) freeforall)
          (Z.to_nat
             (if bool_decide (Z.of_nat (size (FreeForAll.players i))
                              = FreeForAll.max_players cfg)
              then FreeForAll.countdown_full cfg
              else FreeForAll.countdown_normal cfg))
          (advance
             (FreeForAll._countdown_parked api gid
                (FreeForAll._countdown_end api start_match gid)) w1))
     ∧ (FreeForAll.countdown_full FreeForAll.DEFAULT_CONFIG = 10
        ∧ FreeForAll.countdown_normal FreeForAll.DEFAULT_CONFIG = 30)%Z)
  ∧ (let cfg := Squid_Game.config (globals squid) in
     ∃ w1,
       naps (advance (Squid_Game.countdown_task api start_game gid) squid)
         (Z.to_nat (Squid_Game.countdown_normal cfg))
         (advance
            (Squid_Game.countdown_task_parked api gid
               (Squid_Game.countdown_task_end api start_game gid)) w1)).
Proof.
  cbv zeta. split; [|split].
  - split; [|done].
    apply (ZombiesCountdownFacts.countdown_naps api simulate ticks gid zombies).
  - split; [|done].
    apply (FreeForAllCountdownFacts.ffa_countdown_naps api start_match gid
             freeforall).
  - apply (SquidCountdownFacts.squid_countdown_naps api start_game gid squid).
Qed.

(** C5 fails in Squid_Game: with the default configuration the
    countdown of a roster of twelve, the maximum, goes through 45
    sleeps of a second, as many as the countdown of a roster of
    one. *)
Lemma squid_full_roster_waits_as_long :
  let full :=
    Squid_Game.set_players Scenario.twelve_players
      (Squid_Game.new_GameInstance 0) in
  let one :=
    Squid_Game.set_players {[ "a" ]} (Squid_Game.new_GameInstance 0) in
  Z.of_nat (size (Squid_Game.players full))
  = Squid_Game.max_players Squid_Game.DEFAULT_CONFIG
  ∧ Squid_Game.wait_time Squid_Game.DEFAULT_CONFIG full = 45%Z
  ∧ Squid_Game.wait_time Squid_Game.DEFAULT_CONFIG one = 45%Z
  ∧ (∃ w1,
       naps (advance
               (Squid_Game.countdown_task Scenario.four_users
                  Scenario.no_round 0)
               (idle (Scenario.squid_lobby Scenario.twelve_players)))
         45
         (advance
            (Squid_Game.countdown_task_parked Scenario.four_users 0
               (Squid_Game.countdown_task_end Scenario.four_users
                  Scenario.no_round 0)) w1))
  ∧ (∃ w1,
       naps (advance
               (Squid_Game.countdown_task Scenario.four_users
                  Scenario.no_round 0)
               (idle (Scenario.squid_lobby {[ "a" ]})))
         45
         (advance
            (Squid_Game.countdown_task_parked Scenario.four_users 0
               (Squid_Game.countdown_task_end Scenario.four_users
                  Scenario.no_round 0)) w1)).
Proof.
  split_and!; [by vm_compute..| |].
  - apply (SquidCountdownFacts.squid_countdown_naps Scenario.four_users
             Scenario.no_round 0
             (idle (Scenario.squid_lobby Scenario.twelve_players))).
  - apply (SquidCountdownFacts.squid_countdown_naps Scenario.four_users
             Scenario.no_round 0 (idle (Scenario.squid_lobby {[ "a" ]}))).
Qed.

(** C9.  With [min_players] set to 1, the user [w] joins when no
    instance is registered, so that [on_message] creates an instance
    and [w] is alone in it, and the join starts the countdown; then
    the connection of [w] closes.  [remove_player] ends the instance
    and the teardown takes it out of [active_games], releases the
    entry of [w] and the override; but the countdown, cancelled, sets
    the state back to [waiting] after [end_game] has set it to
    [ended], and [waiting] is the state that the instance is left in;
    while the teardown is under way, the instance is the one that
    [on_message] picks for a join.  In Zombies that is so whether the
    countdown has had its first turn when the connection closes or
    not, in FreeForAll when it has.  With the default configurations,
    where one player starts no countdown, the same events leave the
    instance [ended]. *)
Example cancelled_countdown_leaves_the_instance_waiting :
  (let start := idle (Zombies.initial Scenario.zombies_solo_config) in
   let joined := exec (Scenario.zombies_join 4 0 6) start in
   let left := exec Scenario.zombies_solo_leaves_at_once start in
   let cancelled := exec [Turn 1; Turn 3; Turn 1] left in
   let final := exec [Turn 3; Turn 3] cancelled in
   let left' := exec Scenario.zombies_solo_leaves_later start in
   let cancelled' := turn 1 left' in
   let final' := exec [Turn 3; Turn 3; Turn 3] cancelled' in
   (Zombies.players (Zombies.instance (globals joined) 0) = {[ "w" ]}
    ∧ Zombies.player_to_game (globals joined) = {[ "w" := 0 ]}
    ∧ Zombies.active_games (globals joined) = [0]
    ∧ Zombies.broadcast_override (globals joined) = true
    ∧ elements (dom (pool joined)) = [1])
   ∧ (Zombies.game_state (Zombies.instance (globals left) 0) = "ended"
      ∧ elements (dom (pool left)) = [3; 1])
   ∧ (Zombies.game_state (Zombies.instance (globals cancelled) 0) = "waiting"
      ∧ Zombies.find_target_game (globals cancelled) = Some 0
      ∧ elements (dom (pool cancelled)) = [3])
   ∧ (pool final = ∅
      ∧ Zombies.game_state (Zombies.instance (globals final) 0) = "waiting"
      ∧ Zombies.active_games (globals final) = []
      ∧ Zombies.player_to_game (globals final) = ∅
      ∧ Zombies.broadcast_override (globals final) = false)
   ∧ (Zombies.game_state (Zombies.instance (globals left') 0) = "ended"
      ∧ Zombies.game_state (Zombies.instance (globals cancelled') 0)
        = "waiting"
      ∧ Zombies.find_target_game (globals cancelled') = Some 0
      ∧ pool final' = ∅
      ∧ Zombies.game_state (Zombies.instance (globals final') 0) = "waiting"
      ∧ Zombies.active_games (globals final') = []
      ∧ Zombies.player_to_game (globals final') = ∅
      ∧ Zombies.broadcast_override (globals final') = false))
  ∧ (let start := idle (FreeForAll.initial Scenario.freeforall_solo_config) in
     let joined := exec (Scenario.freeforall_join 4 0 6) start in
     let left := exec Scenario.freeforall_solo_leaves_later start in
     let cancelled := turn 1 left in
     let final := exec [Turn 2; Turn 2; Turn 2] cancelled in
     (dom (FreeForAll.players (FreeForAll.instance (globals joined) 1))
      = {[ "w" ]}
      ∧ FreeForAll.player_to_game (globals joined) = {[ "w" := 1 ]}
      ∧ FreeForAll.active_games (globals joined) = [1]
      ∧ elements (dom (pool joined)) = [1])
     ∧ FreeForAll.state (FreeForAll.instance (globals left) 1) = "ended"
     ∧ (FreeForAll.state (FreeForAll.instance (globals cancelled) 1)
        = "waiting"
        ∧ FreeForAll.find_target_game (globals cancelled) = Some 1)
     ∧ (pool final = ∅
        ∧ FreeForAll.state (FreeForAll.instance (globals final) 1) = "waiting"
        ∧ FreeForAll.active_games (globals final) = []
        ∧ FreeForAll.player_to_game (globals final) = ∅
        ∧ FreeForAll.broadcast_override (globals final) = false))
  ∧ (let final :=
       exec (Scenario.zombies_join 4 0 6 ++ Scenario.zombies_leave 4 1 1
             ++ [Turn 2; Turn 2; Turn 2])
         (idle (Zombies.initial Zombies.DEFAULT_CONFIG)) in
     pool final = ∅
     ∧ Zombies.game_state (Zombies.instance (globals final) 0) = "ended"
     ∧ Zombies.active_games (globals final) = []
     ∧ Zombies.broadcast_override (globals final) = false)
  ∧ (let final :=
       exec (Scenario.freeforall_join 4 0 6 ++ Scenario.freeforall_leave 4 1 1
             ++ [Turn 1; Turn 1; Turn 1])
         (idle (FreeForAll.initial FreeForAll.DEFAULT_CONFIG)) in
     pool final = ∅
     ∧ FreeForAll.state (FreeForAll.instance (globals final) 1) = "ended"
     ∧ FreeForAll.active_games (globals final) = []
     ∧ FreeForAll.broadcast_override (globals final) = false).
Proof. cbv zeta. split_and!; vm_compute; reflexivity. Qed.

(** ** Further properties *)



(** X2.  A player leaves an instance of Zombies during its countdown, the
    roster falls below [min_players] without becoming empty, and the
    countdown task waits in its [try] block: [remove_player] requests
    the cancellation of the task, and at the next turn of the task the
    state of the instance is [waiting]. *)
Theorem leave_below_minimum_cancels_the_countdown api simulate ticks gid
    username t body (w : World Zombies.Globals) :
  Zombies.game_state (Zombies.instance (globals w) gid) = "countdown" →
  Zombies.countdown_task (Zombies.instance (globals w) gid) = Some t →
  pool w !! t = Some (Zombies.countdown_parked api gid body) →
  residual (Zombies.countdown_body api simulate ticks gid) body →
  (Z.of_nat (size (Zombies.players (Zombies.instance (globals w) gid)
                   ∖ {[username]}))
   < Zombies.min_players (Zombies.config (globals w)))%Z →
  Zombies.players (Zombies.instance (globals w) gid) ∖ {[username]} ≠ ∅ →
  ∃ w',
    runs (Zombies.remove_player api gid username) w w' ()
    ∧ t ∈ must_cancel w'
    ∧ Zombies.game_state (Zombies.instance (globals (turn t w')) gid)
      = "waiting".
Proof.
  intros Hstate Htask Hpool Hres Hsize Hne.
  destruct (ZombiesFacts.runs_remove_player_countdown api gid username t _ w
              Hstate Htask Hpool Hsize Hne)
    as (w' & Hruns & Hpool' & Hcancel & _).
  exists w'. split_and!; [done| |].
  - rewrite Hcancel. apply elem_of_union. left. by apply elem_of_singleton.
  - unfold turn. rewrite Hpool', Hpool.
    rewrite bool_decide_eq_true_2.
    2:{ rewrite Hcancel. apply elem_of_union. left. by apply elem_of_singleton. }
    rewrite (ZombiesFacts.throw_countdown_parked api simulate ticks) by done.
    match goal with |- context [settle t ?r] =>
      assert (globals (settle t r) = globals r.1) as ->
    end.
    { unfold settle. by case_match. }
    apply ZombiesFacts.countdown_cancelled_sets_waiting.
Qed.

Lemma leave_below_minimum_cancels_the_countdown_witness :
  ∃ w',
    runs (Zombies.remove_player Scenario.four_users 0 "y")
      Scenario.zombies_counting w' ()
    ∧ 0 ∈ must_cancel w'
    ∧ Zombies.game_state (Zombies.instance (globals (turn 0 w')) 0)
      = "waiting".
Proof.
  apply (leave_below_minimum_cancels_the_countdown Scenario.four_users
           Scenario.quiet_tick 1 0 "y" 0 Scenario.zombies_countdown_waits).
  - reflexivity.
  - reflexivity.
  - reflexivity.
  - apply (residual_first _ (idle Scenario.zombies_two_games)
             Scenario.zombies_countdown_started.1).
    by vm_compute.
  - by vm_compute.
  - apply (bool_decide_unpack _). by vm_compute.
Defined.

(** X3.  The connections of both players of an instance of Zombies close
    during its countdown.  The second [remove_player] ends the
    instance and starts the teardown; the cancelled countdown, at its
    turn, then sets the state back to [waiting] while the instance is
    still registered and its teardown under way, so that [end_game],
    called again, starts a second teardown. *)
Example cancelled_countdown_overwrites_ended :
  let left := exec (take 6 Scenario.zombies_both_leave)
                Scenario.zombies_counting in
  let after_turn := exec Scenario.zombies_both_leave
                      Scenario.zombies_counting in
  let again := (advance (Zombies.end_game Scenario.four_users 0 false)
                  after_turn).1 in
  (Zombies.game_state (Zombies.instance (globals left) 0) = "ended"
   ∧ elements (dom (pool left)) = [3; 0]
   ∧ elements (must_cancel left) = [0])
  ∧ (Zombies.game_state (Zombies.instance (globals after_turn) 0) = "waiting"
     ∧ Zombies.active_games (globals after_turn) = [0; 1]
     ∧ elements (dom (pool after_turn)) = [3])
  ∧ (Zombies.game_state (Zombies.instance (globals again) 0) = "ended"
     ∧ elements (dom (pool again)) = [4; 3]).
Proof. by vm_compute. Qed.

(** ** Further properties of the procedures *)

Import Async AsyncFacts Server.

Module TaskFacts.
Import Async AsyncFacts.

Ltac invert_prog H :=
  inversion H; simplify_eq;
  repeat match goal with
         | H : existT _ _ = existT _ _ |- _ => apply inj_pair2 in H
         end; simplify_eq.

Section Facts.
Context {G : Type}.
Local Abbreviation Prog := (Async.Prog G).
Local Abbreviation World := (Async.World G).

Lemma same_tasks_refl (w : World) : same_tasks w w.
Proof. done. Qed.

Lemma same_tasks_trans (w1 w2 w3 : World) :
  same_tasks w1 w2 → same_tasks w2 w3 → same_tasks w1 w3.
Proof. intros [? ?] [? ?]. split; congruence. Qed.

Lemma same_tasks_request_cancel t (w : World) :
  same_tasks w (request_cancel t w).
Proof. unfold request_cancel. by case_match. Qed.

Lemma childless_bind {A B} (m : Prog A) (f : A → Prog B) :
  childless m → (∀ a, childless (f a)) → childless (bind m f).
Proof. intros Hm Hf. induction Hm; simpl; try constructor; auto. Qed.

Lemma childless_mbind {A B} (m : Prog A) (f : A → Prog B) :
  childless m → (∀ a, childless (f a)) → childless (m ≫= f).
Proof. apply childless_bind. Qed.

Lemma childless_for_ {X} (l : list X) (body : X → Prog unit) :
  (∀ x, childless (body x)) → childless (for_ l body).
Proof.
  intros Hb. induction l; simpl; [constructor|].
  apply childless_mbind; auto.
Qed.

Lemma childless_modify (f : G → G) : childless (modify f : Prog unit).
Proof. repeat constructor. Qed.

Lemma childless_try_except_Exception {A} (body : Prog A) handler :
  childless body → (∀ what, childless (handler what)) →
  childless (try_except_Exception body handler).
Proof.
  intros Hb Hh. constructor; [done| |constructor].
  intros []; [constructor|apply Hh].
Qed.

(** A coroutine that is sure to return and creates no task leaves the
    tasks of the loop as they are. *)
Lemma sure_childless_after {A} (p : Prog A) (w0 w : World) :
  sure p → childless p → same_tasks w0 w →
  after p w (λ w' _, same_tasks w0 w').
Proof.
  intros Hs. revert w.
  induction Hs; intros w Hc Hw; invert_prog Hc.
  - by apply after_ret.
  - match goal with IH : ∀ g w, _ |- _ => apply (IH (globals w) w) end; auto.
  - match goal with IH : ∀ w, _ |- _ => apply (IH (with_globals g w)) end; auto.
  - apply after_parked. auto.
  - match goal with IH : ∀ w, _ |- _ => apply (IH (request_cancel t w)) end;
      auto.
    eapply same_tasks_trans; [done|apply same_tasks_request_cancel].
  - match goal with IH : ∀ b w, _ |- _ => apply (IH _ w) end; auto.
  - apply after_try.
    eapply after_mono; [apply IHHs; eauto|].
    intros w1 b Hw1. simpl in Hw1.
    match goal with IH : ∀ b w, _ |- _ => apply IH end; auto.
Qed.

(** Both at once: what the coroutine keeps of the globals, and the
    tasks. *)
Lemma quiet_after (P : G → Prop) {A} (p : Prog A) (w : World) :
  sure p → childless p → keeps P p → P (globals w) →
  after p w (λ w' _, P (globals w') ∧ same_tasks w w').
Proof.
  intros Hs Hc Hk Hw. apply after_conj.
  - by apply sure_keeps_after.
  - by apply sure_childless_after.
Qed.

End Facts.
End TaskFacts.

Module SquidTaskFacts.
Import Async AsyncFacts TaskFacts Server Squid_Game SquidFacts.

Lemma squid_instance_insert g gid i m :
  instance (set_instances (<[gid := i]> m) g) gid = i.
Proof. unfold instance. simpl. by rewrite lookup_insert_eq. Qed.

Lemma squid_instance_insert_ne g gid gid' i m :
  gid ≠ gid' →
  instance (set_instances (<[gid := i]> m) g) gid'
  = default (new_GameInstance gid') (m !! gid').
Proof. intros. unfold instance. simpl. by rewrite lookup_insert_ne. Qed.

Section Procedures.
Context (server_api : ServerApi).
Local Abbreviation World := (Async.World Globals).

Lemma squid_childless_self gid {A} (k : GameInstance → Prog Globals A) :
  (∀ i, childless (k i)) → childless (self gid ≫= k).
Proof. intros Hk. unfold self. repeat constructor. intros. apply Hk. Qed.

Lemma squid_childless_send_to_client ws message :
  childless (send_to_client ws message).
Proof. repeat constructor. Qed.

Lemma squid_childless_broadcast_to_game_players gid message :
  childless (broadcast_to_game_players server_api gid message).
Proof.
  unfold broadcast_to_game_players. apply squid_childless_self. intros i.
  apply childless_for_. intros username. case_match; [|constructor].
  apply squid_childless_send_to_client.
Qed.

Lemma squid_childless_teleport_player username world x y :
  childless (teleport_player server_api username world x y).
Proof. unfold teleport_player. case_match; repeat constructor. Qed.

Lemma squid_childless_despawn_player_from_main_world username :
  childless (despawn_player_from_main_world server_api username).
Proof.
  unfold despawn_player_from_main_world. constructor. intros g.
  cbv zeta. cbn. case_match; repeat constructor.
Qed.

Lemma squid_keeps_despawn_player_from_main_world P username :
  silent P → keeps P (despawn_player_from_main_world server_api username).
Proof.
  intros HP. unfold despawn_player_from_main_world.
  apply squid_keeps_get. intros g _. cbv zeta. case_match; [constructor|].
  unfold gather_send. apply keeps_mbind; [|repeat constructor].
  apply keeps_modify. auto.
Qed.

Lemma squid_keeps_update (P : Globals → Prop) gid f :
  (∀ g, P g →
     P (set_instances (<[gid := f (instance g gid)]> (instances g)) g)) →
  keeps P (update gid f).
Proof. intros. by apply keeps_modify. Qed.

End Procedures.
End SquidTaskFacts.

(** X11.  An instance of Squid_Game starts one countdown at most:
    when a task named [countdown] is on the record [tasks] of the
    instance, whether it is done or not, [add_player] starts no
    countdown and creates no task, whatever the size of the roster,
    and it leaves the state and the record of the instance as they
    are. *)
Theorem squid_add_player_starts_no_second_countdown api start_game gid
    username (w : World Squid_Game.Globals) :
  "countdown" ∈ (Squid_Game.tasks (Squid_Game.instance (globals w) gid)).*1 →
  after (Squid_Game.add_player api start_game gid username) w
    (λ w' _,
       same_tasks w w'
       ∧ Squid_Game.game_state (Squid_Game.instance (globals w') gid)
         = Squid_Game.game_state (Squid_Game.instance (globals w) gid)
       ∧ Squid_Game.tasks (Squid_Game.instance (globals w') gid)
         = Squid_Game.tasks (Squid_Game.instance (globals w) gid)).
Proof.
  intros Hrecord.
  set (P := λ g : Squid_Game.Globals,
         Squid_Game.game_state (Squid_Game.instance g gid)
         = Squid_Game.game_state (Squid_Game.instance (globals w) gid)
         ∧ Squid_Game.tasks (Squid_Game.instance g gid)
           = Squid_Game.tasks (Squid_Game.instance (globals w) gid)).
  assert (Squid_Game.silent P) as HP by (by intros [] ?).
  unfold Squid_Game.add_player.
  AsyncFacts.after_step.
  exists w, (Squid_Game.instance (globals w) gid). split; [constructor|].
  case_bool_decide; simpl negb; cbv iota; [|by apply AsyncFacts.after_ret].
  AsyncFacts.after_step. AsyncFacts.after_step.
  case_bool_decide; [by apply AsyncFacts.after_ret|].
  (* the despawn frames *)
  AsyncFacts.after_step. eapply AsyncFacts.after_mono.
  { apply (TaskFacts.quiet_after P);
      [apply SquidFacts.squid_sure_despawn_player_from_main_world
      |apply SquidTaskFacts.squid_childless_despawn_player_from_main_world
      |by apply SquidTaskFacts.squid_keeps_despawn_player_from_main_world
      |done]. }
  intros w1 [] [HP1 Hsame1]. cbv beta.
  (* the roster and the directory *)
  AsyncFacts.after_step. unfold Squid_Game.update at 1. AsyncFacts.after_step.
  AsyncFacts.after_step. AsyncFacts.after_step.
  set (w2 := with_globals _ (with_globals _ w1)).
  assert (P (globals w2)) as HP2.
  { destruct HP1 as [Hst Hts]. unfold w2, P. simpl globals.
    change (Squid_Game.instance (Squid_Game.set_player_to_game ?v ?g) gid)
      with (Squid_Game.instance g gid).
    by rewrite SquidFacts.squid_instance_update. }
  assert (same_tasks w w2) as Hsame2 by done.
  (* the teleport *)
  AsyncFacts.after_step. eapply AsyncFacts.after_mono.
  { apply (TaskFacts.quiet_after P);
      [apply SquidFacts.squid_sure_teleport_player
      |apply SquidTaskFacts.squid_childless_teleport_player
      |by apply SquidFacts.squid_keeps_teleport_player
      |exact HP2]. }
  intros w3 [] [HP3 Hsame3]. cbv beta.
  AsyncFacts.after_step.
  exists w3, (Squid_Game.instance (globals w3) gid). split; [constructor|].
  AsyncFacts.after_step. AsyncFacts.after_step.
  (* the announcement *)
  AsyncFacts.after_step. eapply AsyncFacts.after_mono.
  { apply (TaskFacts.quiet_after P);
      [apply SquidFacts.squid_sure_broadcast_to_game_players
      |apply SquidTaskFacts.squid_childless_broadcast_to_game_players
      |by apply SquidFacts.squid_keeps_broadcast_to_game_players
      |exact HP3]. }
  intros w4 [] [[Hst Hts] Hsame4]. cbv beta.
  AsyncFacts.after_step.
  exists w4, (Squid_Game.instance (globals w4) gid). split; [constructor|].
  AsyncFacts.after_step. AsyncFacts.after_step.
  rewrite Hts. rewrite (bool_decide_eq_true_2 _ Hrecord).
  rewrite andb_false_r. apply AsyncFacts.after_ret.
  split_and!; [|done|done].
  eapply TaskFacts.same_tasks_trans; [|exact Hsame4].
  eapply TaskFacts.same_tasks_trans; [|exact Hsame3].
  eapply TaskFacts.same_tasks_trans; [exact Hsame1|done].
Qed.

(** The user [w] joins instance 0, whose countdown was cancelled. *)
Lemma squid_add_player_starts_no_second_countdown_witness :
  after (Squid_Game.add_player Scenario.four_users Scenario.no_round 0 "w")
    (idle Scenario.squid_counted)
    (λ w' _,
       same_tasks (idle Scenario.squid_counted) w'
       ∧ Squid_Game.game_state (Squid_Game.instance (globals w') 0)
         = Squid_Game.game_state
             (Squid_Game.instance (globals (idle Scenario.squid_counted)) 0)
       ∧ Squid_Game.tasks (Squid_Game.instance (globals w') 0)
         = Squid_Game.tasks
             (Squid_Game.instance (globals (idle Scenario.squid_counted)) 0)).
Proof.
  apply (squid_add_player_starts_no_second_countdown Scenario.four_users
           Scenario.no_round 0 "w" (idle Scenario.squid_counted)).
  apply (bool_decide_unpack _). by vm_compute.
Defined.

(** X12.  In Squid_Game a player who leaves an instance that is not
    playing does not end it: [remove_player] takes the player out of
    the roster and of [player_to_game], and the instance keeps its
    state and stays in [active_games], also when its roster is empty
    now; no teardown is started, and the broadcast override stays as
    it is. *)
Theorem squid_leaving_a_lobby_does_not_end_it api gid username
    (w : World Squid_Game.Globals) :
  Squid_Game.game_state (Squid_Game.instance (globals w) gid) ≠ "playing" →
  after (Squid_Game.remove_player api gid username) w
    (λ w' _,
       same_tasks w w'
       ∧ Squid_Game.game_state (Squid_Game.instance (globals w') gid)
         = Squid_Game.game_state (Squid_Game.instance (globals w) gid)
       ∧ Squid_Game.active_games (globals w')
         = Squid_Game.active_games (globals w)
       ∧ Squid_Game.broadcast_override (globals w')
         = Squid_Game.broadcast_override (globals w)
       ∧ Squid_Game.players (Squid_Game.instance (globals w') gid)
         = Squid_Game.players (Squid_Game.instance (globals w) gid)
           ∖ {[username]}
       ∧ Squid_Game.player_to_game (globals w') !! username = None).
Proof.
  intros Hstate.
  set (P := λ g : Squid_Game.Globals,
         Squid_Game.game_state (Squid_Game.instance g gid)
         = Squid_Game.game_state (Squid_Game.instance (globals w) gid)
         ∧ Squid_Game.active_games g = Squid_Game.active_games (globals w)
         ∧ Squid_Game.broadcast_override g
           = Squid_Game.broadcast_override (globals w)
         ∧ Squid_Game.players (Squid_Game.instance g gid)
           = Squid_Game.players (Squid_Game.instance (globals w) gid)
             ∖ {[username]}
         ∧ Squid_Game.player_to_game g !! username = None).
  assert (Squid_Game.silent P) as HP by (by intros [] ?).
  unfold Squid_Game.remove_player.
  AsyncFacts.after_step. unfold Squid_Game.update at 1. AsyncFacts.after_step.
  AsyncFacts.after_step. AsyncFacts.after_step.
  set (w1 := with_globals _ (with_globals _ w)).
  assert (P (globals w1)) as HP1.
  { unfold w1, P. simpl globals.
    change (Squid_Game.instance (Squid_Game.set_player_to_game ?v ?g) gid)
      with (Squid_Game.instance g gid).
    rewrite SquidTaskFacts.squid_instance_insert. simpl.
    split_and!; try done. by rewrite lookup_delete_eq. }
  assert (same_tasks w w1) as Hsame1 by done.
  AsyncFacts.after_step. eapply AsyncFacts.after_mono.
  { apply (TaskFacts.quiet_after P);
      [apply SquidFacts.squid_sure_broadcast_to_game_players
      |apply SquidTaskFacts.squid_childless_broadcast_to_game_players
      |by apply SquidFacts.squid_keeps_broadcast_to_game_players
      |exact HP1]. }
  intros w2 [] [HP2 Hsame2]. cbv beta.
  AsyncFacts.after_step. eapply AsyncFacts.after_mono.
  { apply (TaskFacts.quiet_after P);
      [apply SquidFacts.squid_sure_broadcast_to_game_players
      |apply SquidTaskFacts.squid_childless_broadcast_to_game_players
      |by apply SquidFacts.squid_keeps_broadcast_to_game_players
      |exact HP2]. }
  intros w3 [] [HP3 Hsame3]. cbv beta.
  AsyncFacts.after_step.
  exists w3, (Squid_Game.instance (globals w3) gid). split; [constructor|].
  AsyncFacts.after_step.
  destruct HP3 as (Hst3 & Hact3 & Hover3 & Hplayers3 & Hdir3).
  rewrite (bool_decide_eq_false_2
             (Squid_Game.game_state (Squid_Game.instance (globals w3) gid)
              = "playing")) by (by rewrite Hst3).
  rewrite andb_false_r. AsyncFacts.after_step.
  AsyncFacts.after_step.
  exists w3, (Squid_Game.instance (globals w3) gid). split; [constructor|].
  AsyncFacts.after_step. AsyncFacts.after_step.
  eapply AsyncFacts.after_mono.
  { apply (TaskFacts.quiet_after P (if _ : bool then _ else _) w3).
    - case_match; [|constructor]. apply AsyncFacts.sure_for_. intros task.
      case_match; repeat constructor.
    - case_match; [|constructor]. apply TaskFacts.childless_for_. intros task.
      case_match; repeat constructor.
    - case_match; [|constructor]. apply AsyncFacts.keeps_for_. intros task.
      case_match; repeat constructor.
    - done. }
  intros w4 [] [HP4 Hsame4]. cbv beta.
  destruct HP4 as (? & ? & ? & ? & ?). split_and!; try done.
  eapply TaskFacts.same_tasks_trans; [|exact Hsame4].
  eapply TaskFacts.same_tasks_trans; [|exact Hsame3].
  eapply TaskFacts.same_tasks_trans; [exact Hsame1|exact Hsame2].
Qed.

(** The only player of an instance that waits leaves it. *)
Lemma squid_leaving_a_lobby_does_not_end_it_witness :
  after (Squid_Game.remove_player Scenario.four_users 1 "z")
    (idle Scenario.squid_two_games)
    (λ w' _,
       same_tasks (idle Scenario.squid_two_games) w'
       ∧ Squid_Game.game_state (Squid_Game.instance (globals w') 1)
         = Squid_Game.game_state
             (Squid_Game.instance (globals (idle Scenario.squid_two_games)) 1)
       ∧ Squid_Game.active_games (globals w')
         = Squid_Game.active_games (globals (idle Scenario.squid_two_games))
       ∧ Squid_Game.broadcast_override (globals w')
         = Squid_Game.broadcast_override
             (globals (idle Scenario.squid_two_games))
       ∧ Squid_Game.players (Squid_Game.instance (globals w') 1)
         = Squid_Game.players
             (Squid_Game.instance (globals (idle Scenario.squid_two_games)) 1)
           ∖ {["z"]}
       ∧ Squid_Game.player_to_game (globals w') !! "z" = None).
Proof.
  apply (squid_leaving_a_lobby_does_not_end_it Scenario.four_users 1 "z"
           (idle Scenario.squid_two_games)).
  discriminate.
Defined.

Module SquidEndFacts.
Import TaskFacts Squid_Game SquidFacts.

(** The loop [for task in self.tasks: task.cancel()]. *)
Lemma advance_cancel_all (l : list (string * nat)) {A}
    (k : unit → Prog Globals A) (w : World Globals) :
  advance (for_ l (λ task, cancel task.2) ≫= k) w
  = advance (k ()) (foldl (λ w task, request_cancel task.2 w) w l).
Proof.
  revert w. induction l as [|task l IH]; intros w; [done|].
  simpl foldl. rewrite <- IH. done.
Qed.

Lemma cancel_all_frame (l : list (string * nat)) (w : World Globals) :
  let w' := foldl (λ w task, request_cancel task.2 w) w l in
  globals w' = globals w ∧ pool w' = pool w ∧ next_task w' = next_task w
  ∧ must_cancel w ⊆ must_cancel w'
  ∧ ∀ task, task ∈ l → is_Some (pool w !! task.2) → task.2 ∈ must_cancel w'.
Proof.
  revert w. induction l as [|task l IH]; intros w; simpl.
  - split_and!; try done. intros task Htask. by apply not_elem_of_nil in Htask.
  - destruct (IH (request_cancel task.2 w)) as (Hg & Hp & Hn & Hsub & Hall).
    assert (globals (request_cancel task.2 w) = globals w
            ∧ pool (request_cancel task.2 w) = pool w
            ∧ next_task (request_cancel task.2 w) = next_task w
            ∧ must_cancel w ⊆ must_cancel (request_cancel task.2 w)
            ∧ (is_Some (pool w !! task.2) →
               task.2 ∈ must_cancel (request_cancel task.2 w)))
      as (Hg1 & Hp1 & Hn1 & Hsub1 & Hin1).
    { unfold request_cancel. destruct (pool w !! task.2) eqn:Hpool; simpl.
      - split_and!; try done.
        + apply union_subseteq_r.
        + intros _. apply elem_of_union. left. by apply elem_of_singleton.
      - split_and!; try done. }
    split_and!; try congruence.
    + by etrans.
    + intros task' [->|Hin]%elem_of_cons Hpool.
      * apply Hsub. by apply Hin1.
      * apply Hall; [done|]. by rewrite Hp1.
Qed.

End SquidEndFacts.

(** X13.  [end_game] of Squid_Game on an instance that has not ended:
    the state becomes [ended], the cancellation of every task on the
    record of the instance is requested, the record is emptied, and one
    task is created, the teardown [_end_game_task].  Called again,
    [end_game] returns at once and changes nothing. *)
Theorem squid_end_game_cancels_every_task api gid winner winner'
    (w : World Squid_Game.Globals) :
  Squid_Game.game_state (Squid_Game.instance (globals w) gid) ≠ "ended" →
  ∃ w',
    advance (Squid_Game.end_game api gid winner) w = (w', Finished ())
    ∧ Squid_Game.game_state (Squid_Game.instance (globals w') gid) = "ended"
    ∧ Squid_Game.tasks (Squid_Game.instance (globals w') gid) = []
    ∧ (∀ task,
         task ∈ Squid_Game.tasks (Squid_Game.instance (globals w) gid) →
         is_Some (pool w !! task.2) → task.2 ∈ must_cancel w')
    ∧ pool w'
      = <[next_task w := Await not_started
                           (Squid_Game._end_game_task api gid winner)]>
          (pool w)
    ∧ advance (Squid_Game.end_game api gid winner') w' = (w', Finished ()).
Proof.
  intros Hstate.
  set (l := Squid_Game.tasks (Squid_Game.instance (globals w) gid)).
  set (w1 := with_globals
               (Squid_Game.set_instances
                  (<[gid := Squid_Game.set_game_state "ended"
                              (Squid_Game.instance (globals w) gid)]>
                     (Squid_Game.instances (globals w))) (globals w)) w).
  destruct (SquidEndFacts.cancel_all_frame l w1) as (Hg & Hp & Hn & Hsub & Hall).
  set (w2 := foldl (λ w task, request_cancel task.2 w) w1 l) in *.
  set (w3 := with_globals
               (Squid_Game.set_instances
                  (<[gid := Squid_Game.set_tasks []
                              (Squid_Game.instance (globals w2) gid)]>
                     (Squid_Game.instances (globals w2))) (globals w2)) w2).
  exists (add_task (Squid_Game._end_game_task api gid winner) w3).
  split_and!.
  - unfold Squid_Game.end_game.
    rewrite SquidFacts.squid_advance_self.
    rewrite bool_decide_eq_false_2 by done. cbv iota.
    unfold Squid_Game.update. rewrite AsyncFacts.advance_modify.
    rewrite SquidEndFacts.advance_cancel_all.
    by rewrite AsyncFacts.advance_modify.
  - simpl globals. rewrite SquidTaskFacts.squid_instance_insert. simpl.
    rewrite Hg. unfold w1. simpl globals.
    by rewrite SquidTaskFacts.squid_instance_insert.
  - simpl globals. by rewrite SquidTaskFacts.squid_instance_insert.
  - intros task Htask Hpool. by apply Hall.
  - unfold add_task. simpl. by rewrite Hp, Hn.
  - unfold Squid_Game.end_game. rewrite SquidFacts.squid_advance_self.
    rewrite bool_decide_eq_true_2; [done|].
    simpl globals. rewrite SquidTaskFacts.squid_instance_insert. simpl.
    rewrite Hg. unfold w1. simpl globals.
    by rewrite SquidTaskFacts.squid_instance_insert.
Qed.

(** Instance 0 of [squid_counted], with its countdown on record. *)
Lemma squid_end_game_cancels_every_task_witness :
  ∃ w',
    advance (Squid_Game.end_game Scenario.four_users 0 (Some "x"))
      (idle Scenario.squid_counted) = (w', Finished ())
    ∧ Squid_Game.game_state (Squid_Game.instance (globals w') 0) = "ended"
    ∧ Squid_Game.tasks (Squid_Game.instance (globals w') 0) = []
    ∧ (∀ task,
         task ∈ Squid_Game.tasks
                  (Squid_Game.instance (globals (idle Scenario.squid_counted)) 0) →
         is_Some (pool (idle Scenario.squid_counted) !! task.2) →
         task.2 ∈ must_cancel w')
    ∧ pool w'
      = <[next_task (idle Scenario.squid_counted) :=
            Await not_started
              (Squid_Game._end_game_task Scenario.four_users 0 (Some "x"))]>
          (pool (idle Scenario.squid_counted))
    ∧ advance (Squid_Game.end_game Scenario.four_users 0 None) w'
      = (w', Finished ()).
Proof.
  apply (squid_end_game_cancels_every_task Scenario.four_users 0 (Some "x") None
           (idle Scenario.squid_counted)).
  discriminate.
Defined.

Module UnloadFacts.
Import Zombies ZombiesFacts.

Section Unload.
Context (server_api : ServerApi).
Local Abbreviation World := (Async.World Globals).

(** What [end_game] makes of the loop. *)
Local Abbreviation end_one :=
  (λ (w : World) (gid : nat),
     if bool_decide (game_state (instance (globals w) gid) = "ended") then w
     else add_task (_end_game_task server_api gid false)
            (in_game_state gid "ended" w)).

Lemma advance_end_game gid victory (w : World) :
  advance (end_game server_api gid victory) w
  = (if bool_decide (game_state (instance (globals w) gid) = "ended") then w
     else add_task (_end_game_task server_api gid victory)
            (in_game_state gid "ended" w), Finished ()).
Proof.
  case_bool_decide.
  - by apply end_game_ended.
  - by apply end_game_not_ended.
Qed.

Lemma advance_end_all (l : list nat) {A} (k : unit → Prog Globals A)
    (w : World) :
  advance (for_ l (λ gid, end_game server_api gid false) ≫= k) w
  = advance (k ()) (foldl end_one w l).
Proof.
  revert w. induction l as [|gid l IH]; intros w; [done|].
  simpl foldl. rewrite <- IH.
  change (for_ (gid :: l) (λ gid, end_game server_api gid false) ≫= k)
    with (bind (bind (end_game server_api gid false)
                  (λ _, for_ l (λ gid, end_game server_api gid false))) k).
  rewrite bind_assoc, advance_bind, advance_end_game. done.
Qed.

Lemma end_one_spec (w : World) gid :
  let w' := end_one w gid in
  active_games (globals w') = active_games (globals w)
  ∧ player_to_game (globals w') = player_to_game (globals w)
  ∧ broadcast_override (globals w') = broadcast_override (globals w)
  ∧ must_cancel w' = must_cancel w
  ∧ game_state (instance (globals w') gid) = "ended"
  ∧ (∀ gid', gid' ≠ gid →
       instance (globals w') gid' = instance (globals w) gid')
  ∧ (∀ gid', game_state (instance (globals w) gid') = "ended" →
       instance (globals w') gid' = instance (globals w) gid')
  ∧ next_task w ≤ next_task w'
  ∧ (∀ t, t < next_task w → pool w' !! t = pool w !! t)
  ∧ (game_state (instance (globals w) gid) ≠ "ended" →
     next_task w < next_task w'
     ∧ pool w' !! next_task w
       = Some (Await not_started (_end_game_task server_api gid false))).
Proof.
  cbv beta zeta. case_bool_decide as Hst.
  - split_and!; try done.
  - simpl. split_and!; try done.
    + by rewrite instance_insert.
    + intros gid' Hne. by apply instance_update_ne.
    + intros gid' Hended. apply instance_update_ne. by intros ->.
    + lia.
    + intros t Ht. apply lookup_insert_ne. lia.
    + intros _. split; [lia|]. by rewrite lookup_insert_eq.
Qed.

Lemma end_all_spec (l : list nat) (w : World) :
  let w' := foldl end_one w l in
  active_games (globals w') = active_games (globals w)
  ∧ player_to_game (globals w') = player_to_game (globals w)
  ∧ broadcast_override (globals w') = broadcast_override (globals w)
  ∧ must_cancel w' = must_cancel w
  ∧ (∀ gid, gid ∈ l → game_state (instance (globals w') gid) = "ended")
  ∧ (∀ gid, gid ∉ l → instance (globals w') gid = instance (globals w) gid)
  ∧ (∀ gid, game_state (instance (globals w) gid) = "ended" →
       instance (globals w') gid = instance (globals w) gid)
  ∧ next_task w ≤ next_task w'
  ∧ (∀ t, t < next_task w → pool w' !! t = pool w !! t)
  ∧ (∀ gid, gid ∈ l →
       game_state (instance (globals w) gid) ≠ "ended" →
       ∃ t, next_task w ≤ t < next_task w'
            ∧ pool w' !! t
              = Some (Await not_started (_end_game_task server_api gid false))).
Proof.
  revert w. induction l as [|gid l IH]; intros w.
  - simpl. split_and!; try done.
    + intros gid Hgid. by apply not_elem_of_nil in Hgid.
    + intros gid Hgid. by apply not_elem_of_nil in Hgid.
  - simpl foldl.
    destruct (end_one_spec w gid)
      as (Ha1 & Hd1 & Ho1 & Hc1 & He1 & Hne1 & Hk1 & Hn1 & Hp1 & Ht1).
    destruct (IH (end_one w gid))
      as (Ha & Hd & Ho & Hc & He & Hne & Hk & Hn & Hp & Ht).
    cbv zeta in *. split_and!; try congruence.
    + intros gid' [->|Hin]%elem_of_cons; [|by apply He].
      by rewrite Hk.
    + intros gid' Hnot. apply not_elem_of_cons in Hnot as [Hne' Hnot].
      rewrite Hne by done. by apply Hne1.
    + intros gid' Hended. rewrite Hk; [by apply Hk1|].
      by rewrite Hk1.
    + lia.
    + intros t Hlt. rewrite Hp by lia. by apply Hp1.
    + intros gid' Hin Hnotended.
      destruct (decide (gid' = gid)) as [->|Hne'].
      * destruct (Ht1 Hnotended) as [Hlt Hpool].
        exists (next_task w). split; [lia|]. by rewrite Hp.
      * apply elem_of_cons in Hin as [?|Hin]; [done|].
        destruct (Ht gid' Hin) as (t & Hrange & Hpool).
        { by rewrite Hne1. }
        exists t. split; [lia|done].
Qed.

End Unload.
End UnloadFacts.

(** X15.  [on_unload] of Zombies ends every registered instance: it
    returns without waiting; every instance of [active_games] is
    [ended] then, and for each one that had not ended before a teardown
    task [_end_game_task] is in the pool; the instances that are not
    registered, [active_games] and [player_to_game] are as they were;
    the broadcast override is released when an instance was
    registered; and the cancellation of the periodic broadcast is
    requested. *)
Theorem on_unload_ends_every_instance api (global_broadcast_task : option nat)
    (w : World Zombies.Globals) :
  ∃ w',
    advance (Zombies.on_unload api global_broadcast_task) w
    = (w', Finished ())
    ∧ (∀ gid, gid ∈ Zombies.active_games (globals w) →
         Zombies.game_state (Zombies.instance (globals w') gid) = "ended"
         ∧ (Zombies.game_state (Zombies.instance (globals w) gid) ≠ "ended" →
            ∃ t, pool w' !! t
                 = Some (Await not_started
                           (Zombies._end_game_task api gid false))))
    ∧ (∀ gid, gid ∉ Zombies.active_games (globals w) →
         Zombies.instance (globals w') gid = Zombies.instance (globals w) gid)
    ∧ Zombies.active_games (globals w') = Zombies.active_games (globals w)
    ∧ Zombies.player_to_game (globals w') = Zombies.player_to_game (globals w)
    ∧ (Zombies.active_games (globals w) ≠ [] →
       Zombies.broadcast_override (globals w') = false)
    ∧ (∀ t, global_broadcast_task = Some t → is_Some (pool w !! t) →
         t ∈ must_cancel w').
Proof.
  set (w0 := if global_broadcast_task is Some t then request_cancel t w else w).
  assert (globals w0 = globals w ∧ pool w0 = pool w
          ∧ next_task w0 = next_task w
          ∧ ∀ t, global_broadcast_task = Some t → is_Some (pool w !! t) →
                 t ∈ must_cancel w0) as (Hg0 & Hp0 & Hn0 & Hc0).
  { unfold w0. destruct global_broadcast_task as [t|]; [|by split_and!].
    unfold request_cancel. destruct (pool w !! t) eqn:Hpool; simpl.
    - split_and!; try done. intros ? [= <-] _.
      apply elem_of_union. left. by apply elem_of_singleton.
    - split_and!; try done. intros ? [= <-] [? ?]. congruence. }
  destruct (UnloadFacts.end_all_spec api (Zombies.active_games (globals w0)) w0)
    as (Ha & Hd & Ho & Hc & He & Hne & Hk & Hn & Hp & Ht).
  set (w1 := foldl _ w0 _) in *.
  set (w2 := if Zombies.active_games (globals w1) is [] then w1
             else with_globals
                    (Zombies.set_broadcast_override false (globals w1)) w1).
  exists (Zombies.logged "ZombiesGame Plugin: Unloaded." w2).
  assert (globals w2
          = (if Zombies.active_games (globals w1) is [] then globals w1
             else Zombies.set_broadcast_override false (globals w1))
          ∧ pool w2 = pool w1 ∧ must_cancel w2 = must_cancel w1)
    as (Hg2 & Hp2 & Hc2).
  { unfold w2. by destruct (Zombies.active_games (globals w1)). }
  split_and!.
  - unfold Zombies.on_unload.
    assert (∀ k : unit → Prog Zombies.Globals unit,
              advance ((if global_broadcast_task is Some t then cancel t
                        else mret ()) ≫= k) w
              = advance (k ()) w0) as ->.
    { intros k. unfold w0. by destruct global_broadcast_task. }
    rewrite AsyncFacts.advance_get.
    rewrite (UnloadFacts.advance_end_all api).
    rewrite AsyncFacts.advance_get. fold w1.
    unfold w2. destruct (Zombies.active_games (globals w1)); reflexivity.
  - intros gid Hgid. rewrite <- Hg0 in Hgid. split.
    + change (Zombies.instance (globals (Zombies.logged ?line ?w)) gid)
        with (Zombies.instance (globals w) gid).
      rewrite Hg2. destruct (Zombies.active_games (globals w1)); by apply He.
    + intros Hnot. rewrite <- Hg0 in Hnot.
      destruct (Ht gid Hgid Hnot) as (t & _ & Hpool).
      exists t. simpl. by rewrite Hp2.
  - intros gid Hgid. rewrite <- Hg0 in Hgid |- *.
    change (Zombies.instance (globals (Zombies.logged ?line ?w)) gid)
      with (Zombies.instance (globals w) gid).
    rewrite Hg2. destruct (Zombies.active_games (globals w1)); by apply Hne.
  - simpl. rewrite <- Hg0, <- Ha, Hg2.
    by destruct (Zombies.active_games (globals w1)) eqn:Heq.
  - simpl. rewrite <- Hg0, <- Hd, Hg2.
    by destruct (Zombies.active_games (globals w1)) eqn:Heq.
  - intros Hsome. simpl. rewrite Hg2.
    rewrite <- Hg0, <- Ha in Hsome.
    by destruct (Zombies.active_games (globals w1)).
  - intros t Htask Hpool. simpl. rewrite Hc2, Hc. by apply Hc0.
Qed.

(** X16.  The teardown of Zombies releases the whole roster:
    [_end_game_task], run to its end, takes every player of the roster
    out of [player_to_game], whatever instance the entry named, and
    leaves the entries of all other users as they are; the three
    rosters of the instance are empty, the instance is out of
    [active_games], and the other instances are as they were. *)
Theorem teardown_releases_the_roster api gid victory
    (w : World Zombies.Globals) :
  after (Zombies._end_game_task api gid victory) w
    (λ w' _,
       (∀ username,
          username ∈ Zombies.players (Zombies.instance (globals w) gid) →
          Zombies.player_to_game (globals w') !! username = None)
       ∧ (∀ username,
            username ∉ Zombies.players (Zombies.instance (globals w) gid) →
            Zombies.player_to_game (globals w') !! username
            = Zombies.player_to_game (globals w) !! username)
       ∧ Zombies.players (Zombies.instance (globals w') gid) = ∅
       ∧ Zombies.lobby_players (Zombies.instance (globals w') gid) = ∅
       ∧ Zombies.in_game_players (Zombies.instance (globals w') gid) = ∅
       ∧ (gid ∉ Zombies.active_games (globals w'))
       ∧ (∀ gid', gid' ≠ gid →
            Zombies.instance (globals w') gid'
            = Zombies.instance (globals w) gid')).
Proof.
  set (roster := Zombies.players (Zombies.instance (globals w) gid)).
  (* what the teardown keeps up to the loop over the roster *)
  set (Q := λ g : Zombies.Globals,
         Zombies.players (Zombies.instance g gid) = roster
         ∧ Zombies.player_to_game g = Zombies.player_to_game (globals w)
         ∧ ∀ gid', gid' ≠ gid →
             Zombies.instance g gid' = Zombies.instance (globals w) gid').
  assert (Zombies.silent Q) as HQ by (split; intros [] ?; done).
  assert (Q (globals w)) as HwQ by done.
  (* what the loop has done when [rest] is left of the roster *)
  set (I := λ (rest : list string) (g : Zombies.Globals),
         rest ⊆ elements roster
         ∧ (∀ username, username ∈ roster → username ∉ rest →
              Zombies.player_to_game g !! username = None)
         ∧ (∀ username, username ∉ roster →
              Zombies.player_to_game g !! username
              = Zombies.player_to_game (globals w) !! username)
         ∧ ∀ gid', gid' ≠ gid →
             Zombies.instance g gid' = Zombies.instance (globals w) gid').
  assert (∀ rest, Zombies.silent (I rest)) as HI
    by (split; intros [] ?; done).
  unfold Zombies._end_game_task.
  after_step. apply ZombiesFacts.after_self.
  after_step. eapply after_mono.
  { apply (sure_keeps_after Q); [| |exact HwQ]; structural. }
  intros w1 [] Hw1. cbv beta in Hw1 |- *.
  after_step. eapply after_mono.
  { apply (sure_keeps_after Q); [| |exact Hw1]; structural. }
  intros w2 [] Hw2. cbv beta in Hw2 |- *.
  apply after_try_except_Exception.
  after_step. eapply after_mono.
  { apply (sure_keeps_after Q); [| |exact Hw2].
    - apply ZombiesFacts.sure_broadcast_to_game_players.
    - by apply ZombiesFacts.keeps_broadcast_to_game_players. }
  intros w3 [] Hw3. cbv beta in Hw3 |- *.
  after_step. after_step.
  after_step. eapply after_mono.
  { apply (sure_keeps_after Q); [| |exact Hw3].
    - case_match; apply ZombiesFacts.sure_generate_end_game_image.
    - case_match; by apply ZombiesFacts.keeps_generate_end_game_image. }
  intros w4 [] Hw4. cbv beta in Hw4 |- *.
  after_step. after_step.
  after_step. eapply after_mono.
  { apply (sure_keeps_after Q); [| |exact Hw4].
    - apply ZombiesFacts.sure_broadcast_to_game_players.
    - by apply ZombiesFacts.keeps_broadcast_to_game_players. }
  intros w5 [] (Hroster5 & Hdir5 & Hothers5). cbv beta.
  after_step. apply ZombiesFacts.after_self. rewrite Hroster5.
  after_step.
  apply (after_for_ _ _ (λ rest w', I rest (globals w'))).
  { unfold I. split_and!; [done| |by rewrite Hdir5|done].
    intros username Hin Hnot. exfalso. apply Hnot.
    by apply elem_of_elements. }
  { intros username rest w6 (Hsub & Hgone & Hkept & Hothers).
    after_step. after_step.
    eapply after_mono.
    { apply (sure_keeps_after (I rest)).
      - apply ZombiesFacts.sure_teleport_player.
      - by apply ZombiesFacts.keeps_teleport_player.
      - unfold I. simpl. split_and!.
        + intros u Hu. apply Hsub. by apply list_elem_of_further.
        + intros u Hu Hnot.
          destruct (decide (u = username)) as [->|Hne].
          * by rewrite lookup_delete_eq.
          * rewrite lookup_delete_ne by done. apply Hgone; [done|].
            by intros [?|?]%elem_of_cons.
        + intros u Hu. rewrite lookup_delete_ne; [by apply Hkept|].
          intros <-. apply Hu. apply elem_of_elements, Hsub.
          apply list_elem_of_here.
        + done. }
    done. }
  intros w7 (_ & Hgone & Hkept & Hothers).
  after_step. apply ZombiesFacts.after_update.
  after_step. after_step.
  after_step. after_step.
  set (g8 := Zombies.set_active_games _ _).
  assert ((∀ username, username ∈ roster →
             Zombies.player_to_game g8 !! username = None)
          ∧ (∀ username, username ∉ roster →
               Zombies.player_to_game g8 !! username
               = Zombies.player_to_game (globals w) !! username)
          ∧ Zombies.players (Zombies.instance g8 gid) = ∅
          ∧ Zombies.lobby_players (Zombies.instance g8 gid) = ∅
          ∧ Zombies.in_game_players (Zombies.instance g8 gid) = ∅
          ∧ (gid ∉ Zombies.active_games g8)
          ∧ (∀ gid', gid' ≠ gid →
               Zombies.instance g8 gid' = Zombies.instance (globals w) gid'))
    as H8.
  { unfold g8. simpl.
    change (Zombies.instance (Zombies.set_active_games ?v ?g) ?k)
      with (Zombies.instance g k).
    rewrite !ZombiesFacts.instance_insert. simpl. split_and!; try done.
    - intros username Hin. apply Hgone; [done|]. apply not_elem_of_nil.
    - intros [Hne _]%list_elem_of_filter. done.
    - intros gid' Hne. rewrite ZombiesFacts.instance_update_ne by done.
      by apply Hothers. }
  simpl Zombies.active_games. fold g8 in H8 |- *.
  destruct (filter _ _) as [|k rest'] eqn:Hfilter.
  - after_step. after_step. apply ZombiesFacts.after_server_log. exact H8.
  - after_step. exact H8.
Qed.

Module JoinMoreFacts.
Import Zombies ZombiesFacts.




End JoinMoreFacts.



Module StartFacts.
Import TaskFacts Zombies ZombiesFacts.

Section Procedures.
Context (server_api : ServerApi).
Context (simulate : nat → Prog Globals flow) (ticks : nat).
Local Abbreviation World := (Async.World Globals).

Lemma childless_self gid {A} (k : GameInstance → Prog Globals A) :
  (∀ i, childless (k i)) → childless (self gid ≫= k).
Proof. intros Hk. unfold self. repeat constructor. intros. apply Hk. Qed.

Lemma childless_send_to_client ws message :
  childless (send_to_client ws message).
Proof. repeat constructor. Qed.

Lemma childless_server_log line : childless (server_log line).
Proof. repeat constructor. Qed.

Lemma childless_broadcast_to_game_players gid message :
  childless (broadcast_to_game_players server_api gid message).
Proof.
  unfold broadcast_to_game_players. apply childless_self. intros i.
  apply childless_for_. intros username. case_match; [|constructor].
  apply childless_try_except_Exception;
    [apply childless_send_to_client|intros; apply childless_server_log].
Qed.

Lemma childless_teleport_player username world x y :
  childless (teleport_player server_api username world x y).
Proof. unfold teleport_player. case_match; repeat constructor. Qed.

(** The procedures that send frames: they return, create no task and
    keep what does not depend on the frames sent. *)
Lemma quiet_broadcast_to_game_players (P : Globals → Prop) gid message
    (w : World) :
  silent P → P (globals w) →
  after (broadcast_to_game_players server_api gid message) w
    (λ w' _, P (globals w') ∧ same_tasks w w').
Proof.
  intros HP Hw. apply quiet_after; [| | |done].
  - apply sure_broadcast_to_game_players.
  - apply childless_broadcast_to_game_players.
  - by apply keeps_broadcast_to_game_players.
Qed.

Lemma quiet_teleport_player (P : Globals → Prop) username world x y
    (w : World) :
  silent P → P (globals w) →
  after (teleport_player server_api username world x y) w
    (λ w' _, P (globals w') ∧ same_tasks w w').
Proof.
  intros HP Hw. apply quiet_after; [| | |done].
  - apply sure_teleport_player.
  - apply childless_teleport_player.
  - by apply keeps_teleport_player.
Qed.

Lemma quiet_countdown_wait (P : Globals → Prop) gid n (w : World) :
  silent P → P (globals w) →
  after (countdown_wait server_api gid n) w
    (λ w' _, P (globals w') ∧ same_tasks w w').
Proof.
  intros HP Hw. unfold countdown_wait. apply quiet_after; [| | |done].
  - apply sure_for_. intros k. apply sure_mbind; [|repeat constructor].
    repeat case_match.
    + apply sure_try_except_Exception, sure_broadcast_to_game_players.
    + apply sure_broadcast_to_game_players.
    + constructor.
  - apply childless_for_. intros k.
    apply childless_mbind; [|repeat constructor].
    repeat case_match.
    + apply childless_try_except_Exception;
        [apply childless_broadcast_to_game_players
        |intros; apply childless_server_log].
    + apply childless_broadcast_to_game_players.
    + constructor.
  - apply keeps_for_. intros k. apply keeps_mbind; [|repeat constructor].
    repeat case_match.
    + unfold generate_and_broadcast_timer_image, try_except_Exception.
      constructor.
      * by apply keeps_broadcast_to_game_players.
      * intros []; [constructor|]. by apply keeps_server_log.
      * constructor.
    + by apply keeps_broadcast_to_game_players.
    + constructor.
Qed.

(** The loop over [in_game_players] of [start_game], when nothing
    changes the size of the set while it runs. *)
Lemma quiet_for_in_game_players (P : Globals → Prop) gid n l body
    (w : World) :
  (∀ g, P g → size (in_game_players (instance g gid)) = n) →
  (∀ username w1, P (globals w1) →
     after (body username) w1 (λ w2 _, P (globals w2) ∧ same_tasks w1 w2)) →
  P (globals w) →
  after (for_in_game_players gid n l body) w
    (λ w' _, P (globals w') ∧ same_tasks w w').
Proof.
  intros Hsize Hbody. revert w.
  induction l as [|username l IH]; intros w Hw.
  - cbn [for_in_game_players]. after_step. apply after_self.
    rewrite bool_decide_eq_true_2 by by apply Hsize.
    by apply after_ret.
  - cbn [for_in_game_players]. after_step. apply after_self.
    rewrite bool_decide_eq_true_2 by by apply Hsize.
    after_step. eapply after_mono; [by apply Hbody|].
    intros w1 [] [Hw1 Hsame1]. cbv beta.
    eapply after_mono; [by apply IH|].
    intros w2 [] [Hw2 Hsame2]. cbv beta. split; [done|].
    by eapply same_tasks_trans.
Qed.

End Procedures.
End StartFacts.

(** X18.  A countdown of Zombies that is not cancelled starts the
    game: when the roster holds [min_players] or more, the coroutine
    [countdown], run to its end, leaves the instance [playing], with
    the players of the lobby in [in_game_players] and the lobby empty;
    the roster is as it was; and exactly one task was created, the
    [game_loop] of the instance, which [game_loop_task] names. *)
Theorem countdown_starts_the_game api simulate ticks gid
    (w : World Zombies.Globals) :
  (Zombies.min_players (Zombies.config (globals w))
   ≤ Z.of_nat (size (Zombies.players (Zombies.instance (globals w) gid))))%Z →
  after (Zombies.countdown api simulate ticks gid) w
    (λ w' _,
       let i := Zombies.instance (globals w) gid in
       let i' := Zombies.instance (globals w') gid in
       Zombies.game_state i' = "playing"
       ∧ Zombies.in_game_players i' = Zombies.lobby_players i
       ∧ Zombies.lobby_players i' = ∅
       ∧ Zombies.players i' = Zombies.players i
       ∧ Zombies.game_loop_task i' = Some (next_task w)
       ∧ pool w'
         = <[next_task w := Await not_started
                              (Zombies.game_loop simulate ticks gid)]>
             (pool w)
       ∧ next_task w' = S (next_task w)).
Proof.
  intros Hmin. cbv zeta.
  set (i0 := Zombies.instance (globals w) gid).
  set (Q := λ (st : string) (lobby ingame : gset string) (g : Zombies.Globals),
         Zombies.game_state (Zombies.instance g gid) = st
         ∧ Zombies.players (Zombies.instance g gid) = Zombies.players i0
         ∧ Zombies.lobby_players (Zombies.instance g gid) = lobby
         ∧ Zombies.in_game_players (Zombies.instance g gid) = ingame
         ∧ Zombies.game_loop_task (Zombies.instance g gid)
           = Zombies.game_loop_task i0
         ∧ Zombies.config g = Zombies.config (globals w)).
  assert (∀ st lobby ingame, Zombies.silent (Q st lobby ingame)) as HQ
    by (split; intros [] ?; done).
  set (Q1 := Q "countdown" (Zombies.lobby_players i0)
               (Zombies.in_game_players i0)).
  set (Q2 := Q "playing" ∅ (Zombies.lobby_players i0)).
  unfold Zombies.countdown, try_except_CancelledError. apply after_try.
  unfold Zombies.countdown_body.
  (* the state becomes [countdown] *)
  after_step. apply ZombiesFacts.after_update.
  set (w1 := with_globals _ w).
  assert (Q1 (globals w1)) as HQ1.
  { unfold w1, Q1, Q. simpl globals.
    rewrite ZombiesFacts.instance_insert. by split_and!. }
  assert (same_tasks w w1) as Hsame1 by done.
  after_step. apply ZombiesFacts.after_self. after_step. after_step.
  (* the seconds of the countdown *)
  after_step. eapply after_mono;
    [by apply (StartFacts.quiet_countdown_wait api Q1)|].
  intros w2 [] [HQ2 Hsame2]. cbv beta.
  after_step. eapply after_mono;
    [by apply (StartFacts.quiet_broadcast_to_game_players api Q1)|].
  intros w3 [] [HQ3 Hsame3]. cbv beta.
  after_step. apply ZombiesFacts.after_self. after_step. after_step.
  destruct HQ3 as (Hst3 & Hplayers3 & Hlobby3 & Hingame3 & Htask3 & Hcfg3).
  rewrite Hst3, Hplayers3, Hcfg3.
  rewrite (bool_decide_eq_true_2 ("countdown" = "countdown")) by done.
  rewrite bool_decide_eq_true_2 by done. simpl andb. cbv iota.
  (* [start_game] *)
  unfold Zombies.start_game.
  after_step. apply ZombiesFacts.after_update.
  after_step. apply ZombiesFacts.after_update.
  set (w4 := with_globals _ (with_globals _ w3)).
  assert (Q2 (globals w4)) as HQ4.
  { unfold w4, Q2, Q. simpl globals.
    rewrite !ZombiesFacts.instance_insert. simpl.
    by split_and!. }
  assert (same_tasks w3 w4) as Hsame4 by done.
  after_step. eapply after_mono;
    [by apply (StartFacts.quiet_broadcast_to_game_players api Q2)|].
  intros w5 [] [HQ5 Hsame5]. cbv beta.
  after_step. apply ZombiesFacts.after_self.
  after_step. eapply after_mono.
  { apply (StartFacts.quiet_for_in_game_players Q2); [| |exact HQ5].
    - intros g (_ & _ & _ & Hin & _). rewrite Hin.
      by destruct HQ5 as (_ & _ & _ & -> & _).
    - intros username w' Hw'.
      by apply (StartFacts.quiet_teleport_player api Q2). }
  intros w6 [] [HQ6 Hsame6]. cbv beta.
  after_step. eapply after_mono;
    [by apply (StartFacts.quiet_broadcast_to_game_players api Q2)|].
  intros w7 [] [HQ7 Hsame7]. cbv beta.
  after_step. apply ZombiesFacts.after_self.
  destruct HQ7 as (Hst7 & Hplayers7 & Hlobby7 & Hingame7 & Htask7 & Hcfg7).
  assert (same_tasks w w7) as [Hpool7 Hnext7].
  { eapply TaskFacts.same_tasks_trans; [|exact Hsame7].
    eapply TaskFacts.same_tasks_trans; [|exact Hsame6].
    eapply TaskFacts.same_tasks_trans; [|exact Hsame5].
    eapply TaskFacts.same_tasks_trans; [|exact Hsame4].
    eapply TaskFacts.same_tasks_trans; [|exact Hsame3].
    eapply TaskFacts.same_tasks_trans; [exact Hsame1|exact Hsame2]. }
  after_step.
  apply (after_mono _ _ (λ w8 _, globals w8 = globals w7
                                  ∧ same_tasks w7 w8)).
  { destruct (Zombies.game_loop_task (Zombies.instance (globals w7) gid))
      as [t|].
    - after_step. split; [|apply TaskFacts.same_tasks_request_cancel].
      unfold request_cancel. by case_match.
    - by after_step. }
  intros w8 [] [Hg8 [Hpool8 Hnext8]].
  after_step. after_step. apply ZombiesFacts.after_update.
  apply after_ret.
  simpl globals. rewrite ZombiesFacts.instance_insert. simpl.
  rewrite Hg8, Hst7, Hplayers7, Hlobby7, Hingame7.
  rewrite Hpool8, Hnext8, Hpool7, Hnext7. by split_and!.
Qed.

(** Instance 0 of [zombies_two_games], whose roster holds two
    players. *)
Lemma countdown_starts_the_game_witness :
  after (Zombies.countdown Scenario.four_users Scenario.quiet_tick 1 0)
    (idle Scenario.zombies_two_games)
    (λ w' _,
       let i := Zombies.instance
                  (globals (idle Scenario.zombies_two_games)) 0 in
       let i' := Zombies.instance (globals w') 0 in
       Zombies.game_state i' = "playing"
       ∧ Zombies.in_game_players i' = Zombies.lobby_players i
       ∧ Zombies.lobby_players i' = ∅
       ∧ Zombies.players i' = Zombies.players i
       ∧ Zombies.game_loop_task i'
         = Some (next_task (idle Scenario.zombies_two_games))
       ∧ pool w'
         = <[next_task (idle Scenario.zombies_two_games) :=
               Await not_started
                 (Zombies.game_loop Scenario.quiet_tick 1 0)]>
             (pool (idle Scenario.zombies_two_games))
       ∧ next_task w' = S (next_task (idle Scenario.zombies_two_games))).
Proof.
  apply (countdown_starts_the_game Scenario.four_users Scenario.quiet_tick 1 0
           (idle Scenario.zombies_two_games)).
  by vm_compute.
Defined.

Module SquidTeardownFacts.
Import TaskFacts Squid_Game SquidFacts SquidTaskFacts.

Section Procedures.
Context (server_api : ServerApi).
Local Abbreviation World := (Async.World Globals).

Lemma squid_quiet_broadcast_to_game_players (P : Globals → Prop) gid message
    (w : World) :
  silent P → P (globals w) →
  after (broadcast_to_game_players server_api gid message) w
    (λ w' _, P (globals w') ∧ same_tasks w w').
Proof.
  intros HP Hw. apply quiet_after; [| | |done].
  - apply squid_sure_broadcast_to_game_players.
  - apply squid_childless_broadcast_to_game_players.
  - by apply squid_keeps_broadcast_to_game_players.
Qed.

Lemma squid_quiet_teleport_player (P : Globals → Prop) username world x y
    (w : World) :
  silent P → P (globals w) →
  after (teleport_player server_api username world x y) w
    (λ w' _, P (globals w') ∧ same_tasks w w').
Proof.
  intros HP Hw. apply quiet_after; [| | |done].
  - apply squid_sure_teleport_player.
  - apply squid_childless_teleport_player.
  - by apply squid_keeps_teleport_player.
Qed.

Lemma squid_quiet_generate_end_game_image (P : Globals → Prop) gid winner
    (w : World) :
  silent P → (∀ g v, P g → P (set_log v g)) → P (globals w) →
  after (generate_end_game_image server_api gid winner) w
    (λ w' _, P (globals w') ∧ same_tasks w w').
Proof.
  intros HP Hlog Hw. unfold generate_end_game_image.
  apply quiet_after; [| | |done].
  - apply sure_try_except_Exception, squid_sure_broadcast_to_game_players.
  - apply childless_try_except_Exception;
      [apply squid_childless_broadcast_to_game_players|].
    intros what. repeat constructor.
  - unfold try_except_Exception. constructor.
    + by apply squid_keeps_broadcast_to_game_players.
    + intros []; [constructor|]. apply keeps_modify. auto.
    + constructor.
Qed.

End Procedures.
End SquidTeardownFacts.

(** X19.  The teardown of Squid_Game, [_end_game_task], run to its
    end: every player of the roster is out of [player_to_game] and
    the entries of all other users are as they were; the instance is
    out of [active_games], and the broadcast override is released when
    no instance remains; no task is created.  The instance object
    itself is left as it was: its rosters are not emptied. *)
Theorem squid_teardown_releases_the_roster api gid winner
    (w : World Squid_Game.Globals) :
  after (Squid_Game._end_game_task api gid winner) w
    (λ w' _,
       (∀ username,
          username ∈ Squid_Game.players (Squid_Game.instance (globals w) gid) →
          Squid_Game.player_to_game (globals w') !! username = None)
       ∧ (∀ username,
            username ∉ Squid_Game.players (Squid_Game.instance (globals w) gid) →
            Squid_Game.player_to_game (globals w') !! username
            = Squid_Game.player_to_game (globals w) !! username)
       ∧ Squid_Game.active_games (globals w')
         = filter (λ k, k ≠ gid) (Squid_Game.active_games (globals w))
       ∧ (Squid_Game.active_games (globals w') = [] →
          Squid_Game.broadcast_override (globals w') = false)
       ∧ Squid_Game.instances (globals w') = Squid_Game.instances (globals w)
       ∧ same_tasks w w').
Proof.
  set (roster := Squid_Game.players (Squid_Game.instance (globals w) gid)).
  set (Q := λ g : Squid_Game.Globals,
         Squid_Game.player_to_game g = Squid_Game.player_to_game (globals w)
         ∧ Squid_Game.active_games g = Squid_Game.active_games (globals w)
         ∧ Squid_Game.instances g = Squid_Game.instances (globals w)).
  assert (Squid_Game.silent Q) as HQ by (by intros [] ?).
  assert (∀ g v, Q g → Q (Squid_Game.set_log v g)) as HQlog by (by intros [] ?).
  assert (Q (globals w)) as HwQ by done.
  set (I := λ (rest : list string) (g : Squid_Game.Globals),
         rest ⊆ elements roster
         ∧ (∀ username, username ∈ roster → username ∉ rest →
              Squid_Game.player_to_game g !! username = None)
         ∧ (∀ username, username ∉ roster →
              Squid_Game.player_to_game g !! username
              = Squid_Game.player_to_game (globals w) !! username)
         ∧ Squid_Game.active_games g = Squid_Game.active_games (globals w)
         ∧ Squid_Game.instances g = Squid_Game.instances (globals w)).
  assert (∀ rest, Squid_Game.silent (I rest)) as HI by (by intros ? [] ?).
  unfold Squid_Game._end_game_task. apply after_try_except_Exception.
  after_step. eapply after_mono;
    [by apply (SquidTeardownFacts.squid_quiet_broadcast_to_game_players api Q)|].
  intros w1 [] [Hw1 Hsame1]. cbv beta.
  after_step. eapply after_mono;
    [by apply (SquidTeardownFacts.squid_quiet_broadcast_to_game_players api Q)|].
  intros w2 [] [Hw2 Hsame2]. cbv beta.
  after_step. eapply after_mono;
    [by apply (SquidTeardownFacts.squid_quiet_generate_end_game_image api Q)|].
  intros w3 [] [Hw3 Hsame3]. cbv beta.
  after_step. after_step.
  after_step.
  exists w3, (Squid_Game.instance (globals w3) gid). split; [constructor|].
  destruct Hw3 as (Hdir3 & Hact3 & Hinst3).
  assert (Squid_Game.players (Squid_Game.instance (globals w3) gid) = roster)
    as ->.
  { unfold roster, Squid_Game.instance. by rewrite Hinst3. }
  assert (same_tasks w w3) as Hsame03.
  { eapply TaskFacts.same_tasks_trans; [|exact Hsame3].
    eapply TaskFacts.same_tasks_trans; [exact Hsame1|exact Hsame2]. }
  after_step.
  apply (after_for_ _ _ (λ rest w', I rest (globals w') ∧ same_tasks w w')).
  { split; [|done]. unfold I. split_and!; [done| |by rewrite Hdir3|done|done].
    intros username Hin Hnot. exfalso. apply Hnot.
    by apply elem_of_elements. }
  { intros username rest w4 [(Hsub & Hgone & Hkept & Hact & Hinst) Hsame4].
    after_step. after_step.
    eapply after_mono.
    { apply (SquidTeardownFacts.squid_quiet_teleport_player api (I rest));
        [done|].
      unfold I. simpl. split_and!; [| | |done|done].
      + intros u Hu. apply Hsub. by apply list_elem_of_further.
      + intros u Hu Hnot.
        destruct (decide (u = username)) as [->|Hne].
        * by rewrite lookup_delete_eq.
        * rewrite lookup_delete_ne by done. apply Hgone; [done|].
          by intros [?|?]%elem_of_cons.
      + intros u Hu. rewrite lookup_delete_ne; [by apply Hkept|].
        intros <-. apply Hu. apply elem_of_elements, Hsub.
        apply list_elem_of_here. }
    intros w5 [] [HI5 Hsame5]. cbv beta. split; [done|].
    eapply TaskFacts.same_tasks_trans; [exact Hsame4|exact Hsame5]. }
  intros w6 [(_ & Hgone & Hkept & Hact & Hinst) Hsame6].
  after_step. after_step. after_step. after_step.
  simpl Squid_Game.active_games. rewrite Hact.
  destruct (filter _ _) as [|k rest'] eqn:Hfilter.
  - after_step. simpl. split_and!; try done.
    intros username Hin. apply Hgone; [done|]. apply not_elem_of_nil.
  - after_step. simpl. split_and!; try done.
    intros username Hin. apply Hgone; [done|]. apply not_elem_of_nil.
Qed.
